(** * extrude_png: raster image to extruded binary STL

    Shallow embedding of the image-to-mesh pipeline of [index.js] (the
    Node-side [generate] and [meshTrianglesToBinarySTL]) and of
    [public/png-to-stl.js] (the browser-side [PNGToSTLConverter]).

    Numbers.  A JavaScript number is an IEEE 754 binary64 value, so every
    quantity the code divides, multiplies by a scale, rounds or takes the
    square root of is a primitive [float], with the operations of the
    processor.  Quantities that are integers by construction (loop counters,
    image dimensions, byte values, array indices, counts) are kept in [Z]:
    below 2^53 the binary64 operations [+], [-] and [*] on them are exact.
    What is proved about binary64 arithmetic rests on the Standard Library's
    specification of the primitive floats ([FloatAxioms]).

    Arrays.  A typed array or a Buffer is a [list Z] of bytes; reading
    outside it gives [None] (JavaScript's [undefined]) and an assignment
    outside it does nothing.  The [write...] methods of a Buffer throw a
    [RangeError] outside it: they return an [option].

    Strings.  The name given to a serializer is the sequence of its UTF-16
    code units; the header of the file holds its UTF-8 encoding.

    Files.  [generate] writes with [fs.writeFileSync]: the file system is
    the files by path together with the paths at which a file can be
    written, and a write elsewhere throws.

    The decoding of the PNG file is not part of the model: [generate] starts
    from the decoded width, height and RGBA bytes. *)

From Stdlib Require Import ZArith Lia List Bool.
From Stdlib Require Import Uint63 Floats.PrimFloat Floats.SpecFloat Floats.FloatOps
  Floats.FloatAxioms.
From stdpp Require Import base list list_numbers gmap strings.

Local Open Scope Z_scope.

(** ** JavaScript numbers *)

Module JS.

Definition number := float.

(** An integer as a number; the conversion is exact below 2^53 in absolute
    value. *)
Definition of_Z (z : Z) : number :=
  if z <? 0 then PrimFloat.opp (PrimFloat.of_uint63 (Uint63.of_Z (- z)))
  else PrimFloat.of_uint63 (Uint63.of_Z z).

(** [ToBoolean] on a number: everything but [0], [-0] and [NaN]. *)
Definition truthy (x : number) : bool :=
  negb (PrimFloat.is_nan x || PrimFloat.is_zero x).

(** [Number.isFinite]. *)
Definition isFinite (x : number) : bool := PrimFloat.is_finite x.

(** The signed mantissa of a finite value [m * 2^e]. *)
Definition signed (s : bool) (m : positive) : Z :=
  if s then Z.neg m else Z.pos m.

(** The integer a number denotes, when it is finite and integral. *)
Definition to_int (x : number) : option Z :=
  match Prim2SF x with
  | S754_zero _ => Some 0
  | S754_finite s m e =>
      if 0 <=? e then Some (signed s m * 2 ^ e)
      else if Z.pos m mod 2 ^ (- e) =? 0 then Some (signed s m / 2 ^ (- e))
      else None
  | _ => None
  end.

(** [Math.floor]: the greatest integer below; integral values, the
    infinities and [NaN] are returned as they are. *)
Definition Math_floor (x : number) : number :=
  match Prim2SF x with
  | S754_finite s m e =>
      if 0 <=? e then x else of_Z (signed s m / 2 ^ (- e))
  | _ => x
  end.

(** [Math.round]: the nearest integer, ties towards plus infinity; a
    negative value that rounds to zero gives [-0]. *)
Definition Math_round (x : number) : number :=
  match Prim2SF x with
  | S754_finite s m e =>
      if 0 <=? e then x
      else
        let r := (2 * signed s m + 2 ^ (- e)) / 2 ^ (- e + 1) in
        if (r =? 0) && s then PrimFloat.neg_zero else of_Z r
  | _ => x
  end.

(** [Math.max] and [Math.min] of two numbers: [NaN] when either is, and
    [+0] above [-0]. *)
Definition Math_max (a b : number) : number :=
  if PrimFloat.is_nan a || PrimFloat.is_nan b then PrimFloat.nan
  else if PrimFloat.ltb a b then b
  else if PrimFloat.ltb b a then a
  else if PrimFloat.get_sign a then b else a.

Definition Math_min (a b : number) : number :=
  if PrimFloat.is_nan a || PrimFloat.is_nan b then PrimFloat.nan
  else if PrimFloat.ltb a b then a
  else if PrimFloat.ltb b a then b
  else if PrimFloat.get_sign a then a else b.

Definition Math_sqrt (x : number) : number := PrimFloat.sqrt x.

(** [a || b] on numbers. *)
Definition or_else (a b : number) : number := if truthy a then a else b.

(** [for (let i = 0; i < n; i++) s = body(i, s)] with an integer bound. *)
Definition for_range {S : Type} (n : Z) (body : Z → S → S) (s : S) : S :=
  foldl (λ acc i, body i acc) s (seqZ 0 n).

(** Reading [arr[i]] from a typed array or a Buffer. *)
Definition get (arr : list Z) (i : Z) : option Z :=
  if i <? 0 then None else arr !! Z.to_nat i.

(** The assignment [arr[i] = v] on a typed array. *)
Definition set (arr : list Z) (i : Z) (v : Z) : list Z :=
  if i <? 0 then arr else <[Z.to_nat i := v]> arr.

(** [new Uint8Array(n)]. *)
Definition new_Uint8Array (n : Z) : list Z := replicate (Z.to_nat n) 0.

(** A string: the sequence of its UTF-16 code units. *)
Definition code_units := list Z.

(** A string literal of the source whose characters are all ASCII: one code
    unit for each character. *)
Definition literal (s : string) : code_units :=
  (λ c, Z.of_nat (Ascii.nat_of_ascii c)) <$> String.list_ascii_of_string s.

(** [s.substring(0, n)]: the first [n] code units. *)
Definition substring (s : code_units) (n : nat) : code_units := take n s.

End JS.

(** The literals ['extruded'] and ['model'] of the source are written as
    they are and read as their code units. *)
Coercion JS.literal : string >-> JS.code_units.

(** ** Pixels and the threshold rule *)

(** The source reads the four channels of a pixel at byte offset [i]. *)
Definition channels (data : list Z) (i : Z) :
    option Z * option Z * option Z * option Z :=
  (JS.get data i, JS.get data (i + 1), JS.get data (i + 2), JS.get data (i + 3)).

(** [r + g + b]: the sum of three bytes, [NaN] when one is [undefined]. *)
Definition sum3 (r g b : option Z) : JS.number :=
  match r, g, b with
  | Some r, Some g, Some b => JS.of_Z (r + g + b)
  | _, _, _ => PrimFloat.nan
  end.

(** [a === 0 ? 255 : Math.round((r + g + b) / 3)]. *)
Definition gray (px : option Z * option Z * option Z * option Z) : JS.number :=
  let '(r, g, b, a) := px in
  match a with
  | Some 0 => JS.of_Z 255
  | _ => JS.Math_round (PrimFloat.div (sum3 r g b) (JS.of_Z 3))
  end.

(** [gray < threshold ? 1 : 0]. *)
Definition cell_of (px : option Z * option Z * option Z * option Z)
    (threshold : JS.number) : Z :=
  if PrimFloat.ltb (gray px) threshold then 1 else 0.

(** ** Mask builder *)

(** [PNGToSTLConverter.createMask] (browser side). *)
Definition createMask (data : list Z) (width height : Z)
    (threshold : JS.number) : list Z :=
  JS.for_range height (λ y mask,
    JS.for_range width (λ x mask,
      let i := (y * width + x) * 4 in
      JS.set mask (y * width + x) (cell_of (channels data i) threshold))
    mask)
  (JS.new_Uint8Array (width * height)).

(** The full-resolution branch of [generate] (Node side): the [else] of the
    downsampling test, with [maskW = origW] and [maskH = origH]. *)
Definition generate_full_mask (pdata : list Z) (origW origH : Z)
    (threshold : JS.number) : list Z * Z * Z :=
  let maskW := origW in
  let maskH := origH in
  let mask :=
    JS.for_range maskH (λ y mask,
      JS.for_range maskW (λ x mask,
        let i := (y * maskW + x) * 4 in
        JS.set mask (y * maskW + x) (cell_of (channels pdata i) threshold))
      mask)
    (JS.new_Uint8Array (maskW * maskH)) in
  (mask, maskW, maskH).

(** ** Resampler *)

(** [Math.min(orig - 1, Math.floor(x2 * orig / dim))]: the source coordinate
    of output coordinate [x2]. *)
Definition src_coord (x2 orig dim : Z) : JS.number :=
  JS.Math_min (JS.of_Z (orig - 1))
    (JS.Math_floor (PrimFloat.div (JS.of_Z (x2 * orig)) (JS.of_Z dim))).

(** The channels at [(srcY * origW + srcX) * 4]; an index that is not an
    integer (it is [NaN] or infinite) reads [undefined] four times. *)
Definition sample (data : list Z) (origW : Z) (srcX srcY : JS.number) :
    option Z * option Z * option Z * option Z :=
  match JS.to_int srcX, JS.to_int srcY with
  | Some sx, Some sy => channels data ((sy * origW + sx) * 4)
  | _, _ => (None, None, None, None)
  end.

(** The two nested loops that fill the reduced mask. *)
Definition resample_loops (data : list Z) (origW origH : Z)
    (threshold : JS.number) (maskW maskH : Z) : list Z :=
  JS.for_range maskH (λ y2 mask,
    JS.for_range maskW (λ x2 mask,
      let srcX := src_coord x2 origW maskW in
      let srcY := src_coord y2 origH maskH in
      JS.set mask (y2 * maskW + x2)
        (cell_of (sample data origW srcX srcY) threshold))
    mask)
  (JS.new_Uint8Array (maskW * maskH)).

(** [Math.max(1, Math.round(orig * scaleRatio))] for the two dimensions. *)
Definition resample_dims (origW origH : Z) (maxPx : JS.number) :
    JS.number * JS.number :=
  let scaleRatio := PrimFloat.div maxPx (JS.of_Z (Z.max origW origH)) in
  (JS.Math_max (JS.of_Z 1) (JS.Math_round (PrimFloat.mul (JS.of_Z origW) scaleRatio)),
   JS.Math_max (JS.of_Z 1) (JS.Math_round (PrimFloat.mul (JS.of_Z origH) scaleRatio))).

(** The dimensions as loop bounds and array sizes.  [None] stands for a
    dimension that is [NaN] or infinite, with which the source does not
    produce a mask (the allocation throws, or no cell is ever written). *)
Definition dims_int (d : JS.number * JS.number) : option (Z * Z) :=
  match JS.to_int (fst d), JS.to_int (snd d) with
  | Some w, Some h => Some (w, h)
  | _, _ => None
  end.

(** The test that guards downsampling in [generate]:
    [options.max_px && Number.isFinite(options.max_px) &&
     Math.max(origW, origH) > options.max_px]. *)
Definition wants_downsample (max_px : option JS.number) (origW origH : Z) : bool :=
  match max_px with
  | Some m => JS.truthy m && JS.isFinite m
              && PrimFloat.ltb m (JS.of_Z (Z.max origW origH))
  | None => false
  end.

(** The mask of [generate] with its dimensions. *)
Definition generate_mask (pdata : list Z) (origW origH : Z)
    (threshold : JS.number) (max_px : option JS.number) :
    option (list Z * Z * Z) :=
  match max_px with
  | Some m =>
      if wants_downsample (Some m) origW origH then
        let maxPx := JS.Math_max (JS.of_Z 1) (JS.Math_floor m) in
        match dims_int (resample_dims origW origH maxPx) with
        | Some (maskW, maskH) =>
            Some (resample_loops pdata origW origH threshold maskW maskH,
                  maskW, maskH)
        | None => None
        end
      else Some (generate_full_mask pdata origW origH threshold)
  | None => Some (generate_full_mask pdata origW origH threshold)
  end.

(** [PNGToSTLConverter.downsampleImage] (browser side). *)
Definition downsampleImage (data : list Z) (origW origH : Z)
    (threshold maxPx : JS.number) : option (list Z * Z * Z) :=
  match dims_int (resample_dims origW origH maxPx) with
  | Some (maskW, maskH) =>
      Some (resample_loops data origW origH threshold maskW maskH, maskW, maskH)
  | None => None
  end.

(** ** Size estimator *)

(** The loop that counts the pixels under the threshold. *)
Definition count_black (data : list Z) (width height : Z)
    (threshold : JS.number) : Z :=
  JS.for_range height (λ y blackCount,
    JS.for_range width (λ x blackCount,
      let i := (y * width + x) * 4 in
      if PrimFloat.ltb (gray (channels data i)) threshold
      then blackCount + 1 else blackCount)
    blackCount)
  0.

(** 1e-6, the binary64 value nearest to it. *)
Definition min_ratio : JS.number := 0x1.0c6f7a0b5ed8dp-20%float.

(** From the byte target to the pixel budget, given the count. *)
Definition budget_from_count (targetBytes0 : JS.number) (blackCount : Z)
    (width height : Z) : JS.number :=
  let targetBytes := JS.Math_max (JS.of_Z 1) (JS.Math_floor targetBytes0) in
  let desiredTri :=
    JS.Math_max (JS.of_Z 1)
      (JS.Math_floor (PrimFloat.div (PrimFloat.sub targetBytes (JS.of_Z 84)) (JS.of_Z 50))) in
  let avgTriPerPixel := 6 in
  let estOrigTriangles :=
    JS.Math_max (JS.of_Z 1) (JS.Math_floor (JS.of_Z (blackCount * avgTriPerPixel))) in
  if PrimFloat.leb estOrigTriangles desiredTri then JS.of_Z (Z.max width height)
  else
    let ratio := PrimFloat.div desiredTri estOrigTriangles in
    let linearScale := JS.Math_sqrt (JS.Math_max min_ratio ratio) in
    JS.Math_max (JS.of_Z 1)
      (JS.Math_floor (PrimFloat.mul (JS.of_Z (Z.max width height)) linearScale)).

(** [targetMB * 1024 * 1024]. *)
Definition mb_to_bytes (targetMB : JS.number) : JS.number :=
  PrimFloat.mul (PrimFloat.mul targetMB (JS.of_Z 1024)) (JS.of_Z 1024).

(** [PNGToSTLConverter.estimateMaxPxFromTargetMB] (browser side). *)
Definition estimateMaxPxFromTargetMB (data : list Z) (width height : Z)
    (threshold targetMB : JS.number) : JS.number :=
  budget_from_count (mb_to_bytes targetMB)
    (count_black data width height threshold) width height.

(** The estimator inlined in [generate] (Node side): the value it assigns to
    [options.max_px]. *)
Definition generate_estimate (pdata : list Z) (origW origH : Z)
    (threshold target_size_mb : JS.number) : JS.number :=
  let origBlack :=
    JS.for_range origH (λ y origBlack,
      JS.for_range origW (λ x origBlack,
        let i := (y * origW + x) * 4 in
        if PrimFloat.ltb (gray (channels pdata i)) threshold
        then origBlack + 1 else origBlack)
      origBlack)
    0 in
  budget_from_count (mb_to_bytes target_size_mb) origBlack origW origH.

(** ** Mesh extruder *)

Definition vertex : Type := JS.number * JS.number * JS.number.
Definition triangle : Type := vertex * vertex * vertex.

(** [triangles.push(t)]. *)
Definition push (triangles : list triangle) (t : triangle) : list triangle :=
  triangles ++ [t].

(** [!mask[i]]: the cell is [0] or the read is out of the array. *)
Definition cell_empty (c : option Z) : bool :=
  match c with
  | Some v => v =? 0
  | None => true
  end.

(** The extrusion loops of [generate] (Node side). *)
Definition generate_triangles (mask : list Z) (maskW maskH : Z)
    (thickness effectiveScale : JS.number) : list triangle :=
  let idx := λ xx yy, yy * maskW + xx in
  JS.for_range maskH (λ y triangles,
    JS.for_range maskW (λ x triangles,
      if cell_empty (JS.get mask (y * maskW + x)) then triangles
      else
        let x0 := PrimFloat.mul (JS.of_Z x) effectiveScale in
        let x1 := PrimFloat.mul (JS.of_Z (x + 1)) effectiveScale in
        let y0 := PrimFloat.mul (JS.of_Z (maskH - y - 1)) effectiveScale in
        let y1 := PrimFloat.mul (JS.of_Z (maskH - y)) effectiveScale in
        let zTop := thickness in
        let zBot := JS.of_Z 0 in
        let c00 := (x0, y0, zTop) in
        let c10 := (x1, y0, zTop) in
        let c11 := (x1, y1, zTop) in
        let c01 := (x0, y1, zTop) in
        let b00 := (x0, y0, zBot) in
        let b10 := (x1, y0, zBot) in
        let b11 := (x1, y1, zBot) in
        let b01 := (x0, y1, zBot) in
        let triangles := push triangles (c01, c11, c10) in
        let triangles := push triangles (c01, c10, c00) in
        let triangles := push triangles (b11, b01, b00) in
        let triangles := push triangles (b11, b00, b10) in
        let triangles :=
          if (x =? 0) || cell_empty (JS.get mask (idx (x - 1) y))
          then push (push triangles (c01, b01, b00)) (c01, b00, c00)
          else triangles in
        let triangles :=
          if (x =? maskW - 1) || cell_empty (JS.get mask (idx (x + 1) y))
          then push (push triangles (c10, b10, b11)) (c10, b11, c11)
          else triangles in
        let triangles :=
          if (y =? maskH - 1) || cell_empty (JS.get mask (idx x (y + 1)))
          then push (push triangles (c00, b00, b10)) (c00, b10, c10)
          else triangles in
        let triangles :=
          if (y =? 0) || cell_empty (JS.get mask (idx x (y - 1)))
          then push (push triangles (c11, b11, b01)) (c11, b01, c01)
          else triangles in
        triangles)
    triangles)
  [].

(** [PNGToSTLConverter.generateTriangles] (browser side); [thickness] is
    [this.THICKNESS_MM]. *)
Definition generateTriangles (thickness : JS.number) (mask : list Z)
    (width height : Z) (scale : JS.number) : list triangle :=
  let idx := λ x y,
    if (x <? 0) || (width <=? x) || (y <? 0) || (height <=? y) then false
    else match JS.get mask (y * width + x) with
         | Some 1 => true
         | _ => false
         end in
  JS.for_range height (λ y triangles,
    JS.for_range width (λ x triangles,
      if negb (idx x y) then triangles
      else
        let x0 := PrimFloat.mul (JS.of_Z x) scale in
        let x1 := PrimFloat.mul (JS.of_Z (x + 1)) scale in
        let y0 := PrimFloat.mul (JS.of_Z (height - y - 1)) scale in
        let y1 := PrimFloat.mul (JS.of_Z (height - y)) scale in
        let zTop := thickness in
        let zBot := JS.of_Z 0 in
        let c00 := (x0, y0, zTop) in
        let c10 := (x1, y0, zTop) in
        let c11 := (x1, y1, zTop) in
        let c01 := (x0, y1, zTop) in
        let b00 := (x0, y0, zBot) in
        let b10 := (x1, y0, zBot) in
        let b11 := (x1, y1, zBot) in
        let b01 := (x0, y1, zBot) in
        let triangles := push triangles (c01, c11, c10) in
        let triangles := push triangles (c01, c10, c00) in
        let triangles := push triangles (b11, b01, b00) in
        let triangles := push triangles (b11, b00, b10) in
        let triangles :=
          if negb (idx (x - 1) y)
          then push (push triangles (c01, b01, b00)) (c01, b00, c00)
          else triangles in
        let triangles :=
          if negb (idx (x + 1) y)
          then push (push triangles (c10, b10, b11)) (c10, b11, c11)
          else triangles in
        let triangles :=
          if negb (idx x (y + 1))
          then push (push triangles (c00, b00, b10)) (c00, b10, c10)
          else triangles in
        let triangles :=
          if negb (idx x (y - 1))
          then push (push triangles (c11, b11, b01)) (c11, b01, c01)
          else triangles in
        triangles)
    triangles)
  [].

(** ** Binary32 and little-endian bytes *)

Module F32.

(** Round the positive value [m * 2^e] to 24 significant bits with
    exponent at least -149, to nearest with ties to even: the result is
    [(M, q)] for the value [M * 2^q]. *)
Definition round_fin (m : positive) (e : Z) : Z * Z :=
  let q := Z.max (Z.log2 (Z.pos m) + 1 + e - 24) (-149) in
  if q <=? e then (Z.pos m * 2 ^ (e - q), q)
  else
    let k := q - e in
    let lo := Z.pos m / 2 ^ k in
    let r := Z.pos m mod 2 ^ k in
    let half := 2 ^ (k - 1) in
    let up := (half <? r) || ((r =? half) && Z.odd lo) in
    (if up then lo + 1 else lo, q).

(** The binary32 datum of a rounded mantissa: a carry into the 25th bit
    moves to the next exponent, a value of 2^128 or more is an infinity
    and a mantissa of 0 is a zero. *)
Definition pack (s : bool) (Mq : Z * Z) : spec_float :=
  let '(M, q) := Mq in
  let '(M, q) := if M =? 2 ^ 24 then (2 ^ 23, q + 1) else (M, q) in
  match M with
  | Z.pos p => if 104 <? q then S754_infinity s else S754_finite s p q
  | _ => S754_zero s
  end.

(** The conversion of a number to binary32 ([Math.fround]), as the stores
    into a [Float32Array] and [DataView.setFloat32] do it. *)
Definition of_sf (x : spec_float) : spec_float :=
  match x with
  | S754_finite s m e => pack s (round_fin m e)
  | _ => x
  end.

Definition of_number (x : JS.number) : spec_float := of_sf (Prim2SF x).

Definition sign_bit (s : bool) : Z := if s then 2 ^ 31 else 0.

(** The 32-bit pattern: sign, 8 bits of biased exponent, 23 bits of
    fraction.  For [NaN] the pattern is the quiet [NaN] 0x7FC00000; an
    engine stores a [NaN] with the sign and payload the processor gave it
    (0xFFC00000 for 0 / 0 on x86), so the bytes of a stored number are
    determined by the number only when it is not [NaN].  What is read back
    is [NaN] for every such pattern. *)
Definition bits (x : spec_float) : Z :=
  match x with
  | S754_zero s => sign_bit s
  | S754_infinity s => sign_bit s + 255 * 2 ^ 23
  | S754_nan => 255 * 2 ^ 23 + 2 ^ 22
  | S754_finite s m e =>
      if Z.pos m <? 2 ^ 23 then sign_bit s + Z.pos m
      else sign_bit s + (e + 150) * 2 ^ 23 + (Z.pos m - 2 ^ 23)
  end.

Definition of_bits (b : Z) : spec_float :=
  let s := 2 ^ 31 <=? b in
  let E := (b / 2 ^ 23) mod 2 ^ 8 in
  let F := b mod 2 ^ 23 in
  if E =? 0 then
    match F with
    | Z.pos p => S754_finite s p (-149)
    | _ => S754_zero s
    end
  else if E =? 255 then
    (if F =? 0 then S754_infinity s else S754_nan)
  else
    match F + 2 ^ 23 with
    | Z.pos p => S754_finite s p (E - 150)
    | _ => S754_nan
    end.

(** The data of binary32: a subnormal, or a normal one below 2^128. *)
Definition canonical (x : spec_float) : Prop :=
  match x with
  | S754_finite _ m e =>
      (Z.pos m < 2 ^ 23 ∧ e = -149)
      ∨ (2 ^ 23 ≤ Z.pos m < 2 ^ 24 ∧ -149 ≤ e ≤ 104)
  | _ => True
  end.

End F32.

(** [n] bytes of [v], least significant first. *)
Fixpoint le_bytes (n : nat) (v : Z) : list Z :=
  match n with
  | O => []
  | S n' => v mod 256 :: le_bytes n' (v / 256)
  end.

(** The unsigned integer a little-endian byte sequence holds. *)
Fixpoint le_value (bs : list Z) : Z :=
  match bs with
  | [] => 0
  | b :: bs' => b + 256 * le_value bs'
  end.

(** A write of [bytes] into [buf] at [offset]; it throws a [RangeError]
    ([None]) when the bytes do not fit. *)
Definition write_at (buf : list Z) (offset : Z) (bytes : list Z) :
    option (list Z) :=
  if (0 <=? offset) && (offset + Z.of_nat (length bytes) <=? Z.of_nat (length buf))
  then Some (take (Z.to_nat offset) buf ++ bytes
             ++ drop (Z.to_nat offset + length bytes) buf)
  else None.

(** [buf.writeUInt32LE(value, offset)]: a value outside [0, 2^32 - 1] is a
    [RangeError]. *)
Definition writeUInt32LE (buf : list Z) (value offset : Z) : option (list Z) :=
  if (0 <=? value) && (value <? 2 ^ 32)
  then write_at buf offset (le_bytes 4 value) else None.

(** [buf.writeUInt16LE(value, offset)]. *)
Definition writeUInt16LE (buf : list Z) (value offset : Z) : option (list Z) :=
  if (0 <=? value) && (value <? 2 ^ 16)
  then write_at buf offset (le_bytes 2 value) else None.

(** [buf.writeFloatLE(value, offset)]. *)
Definition writeFloatLE (buf : list Z) (value : JS.number) (offset : Z) :
    option (list Z) :=
  write_at buf offset (le_bytes 4 (F32.bits (F32.of_number value))).

(** [buf.readFloatLE(offset)], as the binary32 datum read. *)
Definition readFloatLE (buf : list Z) (offset : Z) : spec_float :=
  F32.of_bits (le_value (take 4 (drop (Z.to_nat offset) buf))).

(** [buf.readUInt32LE(offset)]. *)
Definition readUInt32LE (buf : list Z) (offset : Z) : Z :=
  le_value (take 4 (drop (Z.to_nat offset) buf)).

(** [buf.readUInt16LE(offset)]. *)
Definition readUInt16LE (buf : list Z) (offset : Z) : Z :=
  le_value (take 2 (drop (Z.to_nat offset) buf)).

(** ** Binary mesh serializer *)

(** The code points of a string, as the UTF-8 encoders read it: a high
    surrogate followed by a low one is one code point above U+FFFF, and a
    surrogate on its own is replaced by U+FFFD. *)
Fixpoint code_points (s : JS.code_units) : list Z :=
  match s with
  | [] => []
  | h :: t =>
      if (0xD800 <=? h) && (h <? 0xDC00) then
        match t with
        | l :: t' =>
            if (0xDC00 <=? l) && (l <? 0xE000)
            then 0x10000 + (h - 0xD800) * 0x400 + (l - 0xDC00) :: code_points t'
            else 0xFFFD :: code_points t
        | [] => [0xFFFD]
        end
      else if (0xDC00 <=? h) && (h <? 0xE000) then 0xFFFD :: code_points t
      else h :: code_points t
  end.

(** The UTF-8 bytes of a code point: one to four. *)
Definition utf8_bytes (c : Z) : list Z :=
  if c <? 0x80 then [c]
  else if c <? 0x800 then [0xC0 + c / 0x40; 0x80 + c mod 0x40]
  else if c <? 0x10000 then
    [0xE0 + c / 0x1000; 0x80 + (c / 0x40) mod 0x40; 0x80 + c mod 0x40]
  else
    [0xF0 + c / 0x40000; 0x80 + (c / 0x1000) mod 0x40;
     0x80 + (c / 0x40) mod 0x40; 0x80 + c mod 0x40].

(** The UTF-8 encoding of a string, character by character. *)
Definition utf8 (s : JS.code_units) : list (list Z) :=
  utf8_bytes <$> code_points s.

(** What [buf.write(string)] stores in a Buffer of [room] bytes: the
    characters in order up to the first one that does not fit whole. *)
Fixpoint write_chars (room : nat) (chars : list (list Z)) : list Z :=
  match chars with
  | [] => []
  | c :: chars' =>
      if (length c <=? room)%nat
      then c ++ write_chars (room - length c) chars'
      else []
  end.

(** The 80-byte header after [header.write(name.substring(0, 80))]: the
    characters that fit, the rest of the header staying zero. *)
Definition header_bytes (name : JS.code_units) : list Z :=
  let written := write_chars 80 (utf8 (JS.substring name 80)) in
  written ++ replicate (80 - length written) 0.

(** The unnormalised normal [(nx, ny, nz)], the cross product of [v1 - v0]
    and [v2 - v0]. *)
Definition cross (tri : triangle) : vertex :=
  let '(v0, v1, v2) := tri in
  let ux := PrimFloat.sub v1.1.1 v0.1.1 in
  let uy := PrimFloat.sub v1.1.2 v0.1.2 in
  let uz := PrimFloat.sub v1.2 v0.2 in
  let vx := PrimFloat.sub v2.1.1 v0.1.1 in
  let vy := PrimFloat.sub v2.1.2 v0.1.2 in
  let vz := PrimFloat.sub v2.2 v0.2 in
  let nx := PrimFloat.sub (PrimFloat.mul uy vz) (PrimFloat.mul uz vy) in
  let ny := PrimFloat.sub (PrimFloat.mul uz vx) (PrimFloat.mul ux vz) in
  let nz := PrimFloat.sub (PrimFloat.mul ux vy) (PrimFloat.mul uy vx) in
  (nx, ny, nz).

(** [nx * nx + ny * ny + nz * nz]. *)
Definition squared_length (n : vertex) : JS.number :=
  let '(nx, ny, nz) := n in
  PrimFloat.add (PrimFloat.add (PrimFloat.mul nx nx) (PrimFloat.mul ny ny))
    (PrimFloat.mul nz nz).

(** [Math.sqrt(nx * nx + ny * ny + nz * nz) || 1]. *)
Definition normal_length (n : vertex) : JS.number :=
  JS.or_else (JS.Math_sqrt (squared_length n)) (JS.of_Z 1).

(** The normal that is written: [(nx / nl, ny / nl, nz / nl)]. *)
Definition normal (tri : triangle) : vertex :=
  let '(nx, ny, nz) := cross tri in
  let nl := normal_length (nx, ny, nz) in
  (PrimFloat.div nx nl, PrimFloat.div ny nl, PrimFloat.div nz nl).

(** [buf.writeFloatLE(value, offset); offset += 4;] on the buffer and the
    offset. *)
Definition put_float (st : list Z * Z) (value : JS.number) : option (list Z * Z) :=
  let '(buf, offset) := st in
  buf ← writeFloatLE buf value offset;
  Some (buf, offset + 4).

(** [buf.writeUInt16LE(value, offset); offset += 2;]. *)
Definition put_uint16 (st : list Z * Z) (value : Z) : option (list Z * Z) :=
  let '(buf, offset) := st in
  buf ← writeUInt16LE buf value offset;
  Some (buf, offset + 2).

(** The three stores of one vertex. *)
Definition write_vertex (st : list Z * Z) (v : vertex) : option (list Z * Z) :=
  st ← put_float st v.1.1;
  st ← put_float st v.1.2;
  put_float st v.2.

(** The body of the loop over the triangles. *)
Definition write_triangle (st : list Z * Z) (tri : triangle) :
    option (list Z * Z) :=
  let '(v0, v1, v2) := tri in
  let '(nxl, nyl, nzl) := normal tri in
  st ← put_float st nxl;
  st ← put_float st nyl;
  st ← put_float st nzl;
  st ← foldl (λ st v, st ← st; write_vertex st v) (Some st) [v0; v1; v2];
  put_uint16 st 0.

(** [meshTrianglesToBinarySTL] (Node side). *)
Definition meshTrianglesToBinarySTL (triangles : list triangle)
    (name : JS.code_units) :
    option (list Z) :=
  let header := header_bytes name in
  let triCount := Z.of_nat (length triangles) in
  let buf := replicate (Z.to_nat (80 + 4 + triCount * 50)) 0 in
  buf ← write_at buf 0 header;
  buf ← writeUInt32LE buf triCount 80;
  st ← foldl (λ st tri, st ← st; write_triangle st tri) (Some (buf, 84)) triangles;
  Some st.1.

(** [DataView.setUint32(offset, value, true)]: the value modulo 2^32. *)
Definition setUint32 (buf : list Z) (offset value : Z) : option (list Z) :=
  write_at buf offset (le_bytes 4 (value mod 2 ^ 32)).

(** [encoder.encode(name.substring(0, 80))]: up to 240 bytes. *)
Definition encoded_name (name : JS.code_units) : list Z :=
  concat (utf8 (JS.substring name 80)).

(** [view.set(source)] on a [Uint8Array] view of the first [n] bytes of the
    buffer: a [RangeError] when the source is longer than the view. *)
Definition set_bytes (buffer : list Z) (n : Z) (source : list Z) :
    option (list Z) :=
  if Z.of_nat (length source) <=? n then write_at buffer 0 source else None.

(** [PNGToSTLConverter.trianglesToBinarySTL] (browser side): the bytes of
    the Blob, or the [RangeError] of [headerArray.set(nameBytes)] for a name
    whose first 80 code units take more than 80 bytes.  [setFloat32] and
    [setUint16] store as [writeFloatLE] and [writeUInt16LE] do. *)
Definition trianglesToBinarySTL (triangles : list triangle)
    (name : JS.code_units) : option (list Z) :=
  let triCount := Z.of_nat (length triangles) in
  let bufferSize := 80 + 4 + triCount * 50 in
  let buffer := replicate (Z.to_nat bufferSize) 0 in
  let nameBytes := encoded_name name in
  buffer ← set_bytes buffer 80 nameBytes;
  buffer ← setUint32 buffer 80 triCount;
  st ← foldl (λ st tri, st ← st; write_triangle st tri) (Some (buffer, 84)) triangles;
  Some st.1.

(** ** The pipeline: [generate] *)

(** The module-level settings of [index.js]. *)
Record config := {
  OUTPUT : string;
  THICKNESS_MM : JS.number;
  SCALE_MM_PER_PX : JS.number;
  THRESHOLD : JS.number
}.

(** Their initial values; 0.2645833333 is the binary64 value nearest to it. *)
Definition default_config : config := {|
  OUTPUT := "output.stl";
  THICKNESS_MM := JS.of_Z 2;
  SCALE_MM_PER_PX := 0x1.0eeeeeee5c54fp-2%float;
  THRESHOLD := JS.of_Z 128
|}.

(** [process.env._MAX_PX] and [process.env._TARGET_MB], parsed, when set. *)
Record environment := {
  env_MAX_PX : option JS.number;
  env_TARGET_MB : option JS.number
}.

(** The fields of [options] that [generate] reads; [None] is a field that is
    absent ([undefined]). *)
Record options := {
  opt_output : option string;
  opt_thickness : option JS.number;
  opt_threshold : option JS.number;
  opt_scale : option JS.number;
  opt_width_mm : option JS.number;
  opt_height_mm : option JS.number;
  opt_max_px : option JS.number;
  opt_target_size_mb : option JS.number
}.

(** The decoded image: [png.width], [png.height], [png.data]. *)
Record image := {
  img_width : Z;
  img_height : Z;
  img_data : list Z
}.

(** The file system as [fs.writeFileSync] shows it: the files by path,
    and the paths at which a file can be written (the directory exists, the
    path is not a directory, the permissions allow it, ...). *)
Record files := {
  stored : gmap string (list Z);
  writable : string → bool
}.

#[global] Instance files_lookup : Lookup string (list Z) files :=
  λ path fs, stored fs !! path.

#[global] Instance files_insert : Insert string (list Z) files :=
  λ path data fs,
    {| stored := <[path := data]> (stored fs); writable := writable fs |}.

(** No file yet, and every path can be written. *)
#[global] Instance files_empty : Empty files :=
  {| stored := ∅; writable := λ _, true |}.

(** [fs.writeFileSync(path, data)]: the file system afterwards, or [None]
    when the call throws ([ENOENT], [EACCES], [EISDIR], ...). *)
Definition writeFileSync (fs : files) (path : string) (data : list Z) :
    option files :=
  if writable fs path then Some (<[path := data]> fs) else None.

Inductive error :=
  | NoBlackRegions   (* Error('No black regions detected') *)
  | RangeError       (* a non-finite mask dimension, or a store out of range *)
  | SystemError.     (* thrown by fs.writeFileSync *)

Record report := {
  rep_output : string;
  rep_width_mm : JS.number;
  rep_height_mm : JS.number;
  rep_scale_mm_per_px : JS.number
}.

(** An optional number when it is truthy: the test [if (options.x)] on a
    field that is a number or absent. *)
Definition given (o : option JS.number) : option JS.number :=
  match o with
  | Some v => if JS.truthy v then Some v else None
  | None => None
  end.

(** [width_mm / origW], [height_mm / origH] or the default: the scale
    before resampling. *)
Definition original_scale (cfg : config) (opts : options) (origW origH : Z) :
    JS.number :=
  match given (opt_width_mm opts) with
  | Some width_mm => PrimFloat.div width_mm (JS.of_Z origW)
  | None =>
      match given (opt_height_mm opts) with
      | Some height_mm => PrimFloat.div height_mm (JS.of_Z origH)
      | None => SCALE_MM_PER_PX cfg
      end
  end.

(** The scale that [generate] reports: [options.scale] when it is a number
    other than 0 and [NaN]. *)
Definition reported_scale (cfg : config) (opts : options) (origW origH : Z) :
    JS.number :=
  match given (opt_scale opts) with
  | Some scale => scale
  | None => original_scale cfg opts origW origH
  end.

(** [options.max_px] after the estimator and the defaults have run. *)
Definition resolve_max_px (env : environment) (opts : options)
    (pdata : list Z) (origW origH : Z) (threshold : JS.number) :
    option JS.number :=
  let max_px := opt_max_px opts in
  let max_px :=
    match given (opt_target_size_mb opts), given max_px with
    | Some target_size_mb, None =>
        if JS.isFinite target_size_mb
        then Some (generate_estimate pdata origW origH threshold target_size_mb)
        else max_px
    | _, _ => max_px
    end in
  match given max_px, given (opt_target_size_mb opts) with
  | None, None =>
      match given (env_MAX_PX env), given (env_TARGET_MB env) with
      | Some envMax, _ => Some envMax
      | None, Some envTarget => max_px
      | None, None => Some (JS.of_Z 400)
      end
  | _, _ => max_px
  end.

(** [originalScale * (origW / maskW)]. *)
Definition effective_scale (originalScale : JS.number) (origW maskW : Z) :
    JS.number :=
  PrimFloat.mul originalScale (PrimFloat.div (JS.of_Z origW) (JS.of_Z maskW)).

(** [options.output || OUTPUT]. *)
Definition output_path (cfg : config) (opts : options) : string :=
  match opt_output opts with
  | Some p => if String.eqb p "" then OUTPUT cfg else p
  | None => OUTPUT cfg
  end.

(** [generate] on a decoded image: the result or the error thrown, and the
    files afterwards.  (What a write that throws leaves at its path is not
    modelled.) *)
Definition generate (cfg : config) (env : environment) (opts : options)
    (png : image) (fs : files) : (error + report) * files :=
  let outputPath := output_path cfg opts in
  let thickness := default (THICKNESS_MM cfg) (opt_thickness opts) in
  let threshold := default (THRESHOLD cfg) (opt_threshold opts) in
  let origW := img_width png in
  let origH := img_height png in
  let pdata := img_data png in
  let scale := reported_scale cfg opts origW origH in
  let max_px := resolve_max_px env opts pdata origW origH threshold in
  match generate_mask pdata origW origH threshold max_px with
  | None => (inl RangeError, fs)
  | Some (mask, maskW, maskH) =>
      let originalScale := original_scale cfg opts origW origH in
      let effectiveScale := effective_scale originalScale origW maskW in
      let triangles := generate_triangles mask maskW maskH thickness effectiveScale in
      if Nat.eqb (length triangles) 0 then (inl NoBlackRegions, fs)
      else
        match meshTrianglesToBinarySTL triangles "extruded" with
        | None => (inl RangeError, fs)
        | Some bufferOut =>
            match writeFileSync fs outputPath bufferOut with
            | None => (inl SystemError, fs)
            | Some fs' =>
                (inr {| rep_output := outputPath;
                        rep_width_mm := PrimFloat.mul (JS.of_Z origW) scale;
                        rep_height_mm := PrimFloat.mul (JS.of_Z origH) scale;
                        rep_scale_mm_per_px := scale |},
                 fs')
            end
        end
  end.

(** ** Reference definitions for the statements *)

(** *** Pixels, cells and masks *)

(** The pixel at column [x] of row [y] of an image [W] pixels wide. *)
Definition pixel (data : list Z) (W x y : Z) : option (Z * Z * Z * Z) :=
  match channels data ((y * W + x) * 4) with
  | (Some r, Some g, Some b, Some a) => Some (r, g, b, a)
  | _ => None
  end.

(** The gray level as an integer: 255 for a transparent pixel, else the
    integer nearest to [(r + g + b) / 3]. *)
Definition gray_spec (px : Z * Z * Z * Z) : Z :=
  let '(r, g, b, a) := px in
  if a =? 0 then 255 else (2 * (r + g + b) + 3) / 6.

(** Foreground is 1, background is 0. *)
Definition cell_spec (px : Z * Z * Z * Z) (T : Z) : Z :=
  if gray_spec px <? T then 1 else 0.

Definition is_byte (v : Z) : Prop := 0 ≤ v ≤ 255.

(** The number of foreground cells of a mask. *)
Definition foreground_count (mask : list Z) : Z :=
  Z.of_nat (length (filter (λ c, c = 1) mask)).

(** A mask holds zeros and ones. *)
Definition binary_mask (mask : list Z) : Prop :=
  Forall (λ c, c = 0 ∨ c = 1) mask.

(** The only foreground cell of the [W] × [H] mask is [(x0, y0)]. *)
Definition single_cell (mask : list Z) (W H x0 y0 : Z) : Prop :=
  Z.of_nat (length mask) = W * H
  ∧ 0 ≤ x0 < W ∧ 0 ≤ y0 < H
  ∧ JS.get mask (y0 * W + x0) = Some 1
  ∧ ∀ x y, 0 ≤ x < W → 0 ≤ y < H → (x ≠ x0 ∨ y ≠ y0) →
           JS.get mask (y * W + x) = Some 0.

(** *** The box over a cell *)

(** The box over one cell: its eight corners and the two triangles of each
    of its six faces, named as the comments of the source name them. *)
Section Box.
Variables (maskH : Z) (thickness K : JS.number) (x y : Z).

Definition box_x0 := PrimFloat.mul (JS.of_Z x) K.
Definition box_x1 := PrimFloat.mul (JS.of_Z (x + 1)) K.
Definition box_y0 := PrimFloat.mul (JS.of_Z (maskH - y - 1)) K.
Definition box_y1 := PrimFloat.mul (JS.of_Z (maskH - y)) K.

Definition c00 : vertex := (box_x0, box_y0, thickness).
Definition c10 : vertex := (box_x1, box_y0, thickness).
Definition c11 : vertex := (box_x1, box_y1, thickness).
Definition c01 : vertex := (box_x0, box_y1, thickness).
Definition b00 : vertex := (box_x0, box_y0, JS.of_Z 0).
Definition b10 : vertex := (box_x1, box_y0, JS.of_Z 0).
Definition b11 : vertex := (box_x1, box_y1, JS.of_Z 0).
Definition b01 : vertex := (box_x0, box_y1, JS.of_Z 0).

Definition top_face : list triangle := [(c01, c11, c10); (c01, c10, c00)].
Definition bottom_face : list triangle := [(b11, b01, b00); (b11, b00, b10)].
Definition left_side : list triangle := [(c01, b01, b00); (c01, b00, c00)].
Definition right_side : list triangle := [(c10, b10, b11); (c10, b11, c11)].
Definition bottom_side : list triangle := [(c00, b00, b10); (c00, b10, c10)].
Definition top_side : list triangle := [(c11, b11, b01); (c11, b01, c01)].

Definition box : list triangle :=
  top_face ++ bottom_face ++ left_side ++ right_side ++ bottom_side ++ top_side.
End Box.

(** *** The layout of the file *)

(** The twelve numbers of a triangle's record: the normal, then the
    coordinates of [v0], [v1] and [v2]. *)
Definition record_numbers (tri : triangle) : list JS.number :=
  let '(v0, v1, v2) := tri in
  let '(nxl, nyl, nzl) := normal tri in
  [nxl; nyl; nzl; v0.1.1; v0.1.2; v0.2; v1.1.1; v1.1.2; v1.2; v2.1.1; v2.1.2; v2.2].

(** The four bytes of a number stored as binary32. *)
Definition f32_le (value : JS.number) : list Z :=
  le_bytes 4 (F32.bits (F32.of_number value)).

(** The 50 bytes of a triangle's record. *)
Definition record_bytes (tri : triangle) : list Z :=
  concat (f32_le <$> record_numbers tri) ++ le_bytes 2 0.

(** The whole file, for [N] triangles. *)
Definition stl_bytes (triangles : list triangle) (name : JS.code_units) :
    list Z :=
  header_bytes name ++ le_bytes 4 (Z.of_nat (length triangles))
  ++ concat (record_bytes <$> triangles).

(** [y] is the binary32 rounding of the finite value [x]: within half a
    unit of the last place of [y]; a zero for a magnitude of at most 2^-150;
    an infinity for a magnitude of at least 2^128 - 2^103.  The values are
    compared after scaling by a common power of two. *)
Definition f32_nearest (x y : spec_float) : Prop :=
  match x with
  | S754_finite s m e =>
      match y with
      | S754_finite s' M q =>
          s' = s
          ∧ let t := Z.min e (q - 1) in
            Z.abs (Z.pos M * 2 ^ (q - t) - Z.pos m * 2 ^ (e - t)) ≤ 2 ^ (q - 1 - t)
      | S754_zero s' => s' = s ∧ e ≤ -150 ∧ Z.pos m ≤ 2 ^ (-150 - e)
      | S754_infinity s' =>
          s' = s
          ∧ let t := Z.min e 103 in
            (2 ^ 25 - 1) * 2 ^ (103 - t) ≤ Z.pos m * 2 ^ (e - t)
      | S754_nan => False
      end
  | _ => y = x
  end.

(** *** Inputs of the examples *)

(** A 3 × 100 image of opaque black pixels, asked to be 100 mm high with a
    budget of 50 pixels. *)
Definition tall_image : image :=
  {| img_width := 3; img_height := 100;
     img_data := concat (replicate 300 [0; 0; 0; 255]) |}.

Definition tall_options : options :=
  {| opt_output := None; opt_thickness := None; opt_threshold := None;
     opt_scale := None; opt_width_mm := None;
     opt_height_mm := Some (JS.of_Z 100);
     opt_max_px := Some (JS.of_Z 50); opt_target_size_mb := None |}.

Definition no_environment : environment :=
  {| env_MAX_PX := None; env_TARGET_MB := None |}.

(** A degenerate triangle: three points on a line. *)
Definition collinear : triangle :=
  ((JS.of_Z 0, JS.of_Z 0, JS.of_Z 0),
   (JS.of_Z 1, JS.of_Z 0, JS.of_Z 0),
   (JS.of_Z 2, JS.of_Z 0, JS.of_Z 0)).

(** A number that is [0] or [-0]. *)
Definition is_a_zero (x : JS.number) : Prop :=
  x = PrimFloat.zero ∨ x = PrimFloat.neg_zero.

(** *** Devices of the proofs *)

(** The shape of all three mask loops of the source. *)
Definition fill (W H : Z) (f : Z → Z → Z) : list Z :=
  JS.for_range H (λ y mask,
    JS.for_range W (λ x mask, JS.set mask (y * W + x) (f x y)) mask)
  (JS.new_Uint8Array (W * H)).

(** A buffer written up to [pre], with [z] zero bytes left, and the offset
    of the next store. *)
Definition written (pre : list Z) (z : nat) : list Z * Z :=
  (pre ++ replicate z 0, Z.of_nat (length pre)).

(** Equality of binary64 data, decided. *)
Definition sf_eqb (x y : spec_float) : bool :=
  match x, y with
  | S754_zero s, S754_zero s' => Bool.eqb s s'
  | S754_infinity s, S754_infinity s' => Bool.eqb s s'
  | S754_nan, S754_nan => true
  | S754_finite s m e, S754_finite s' m' e' =>
      Bool.eqb s s' && (m =? m')%positive && (e =? e')
  | _, _ => false
  end.

(** On the sum [s] of three bytes the binary64 [Math.round(s / 3)] is the
    integer nearest to [s / 3]. *)
Definition gray_round_ok (s : Z) : bool :=
  sf_eqb (Prim2SF (JS.Math_round (PrimFloat.div (JS.of_Z s) (JS.of_Z 3))))
         (Prim2SF (JS.of_Z ((2 * s + 3) / 6))).

(** The binary64 datum of a positive integer below 2^53: the integer
    shifted to 53 bits. *)
Definition int_sf (p : positive) : spec_float :=
  let d := Z.pos (digits2_pos p) in
  match 53 - d with
  | Z.pos k => S754_finite false (Pos.iter xO p k) (d - 53)
  | _ => S754_finite false p 0
  end.

(** The binary64 datum of an integer of [0, 2^53). *)
Definition nat_sf (z : Z) : spec_float :=
  match z with
  | Z.pos p => int_sf p
  | _ => S754_zero false
  end.

(** A number that is [+0] or positive and finite. *)
Definition nonneg_finite (x : spec_float) : Prop :=
  x = S754_zero false ∨ ∃ m e, x = S754_finite false m e.

(** ** The browser pipeline: [PNGToSTLConverter.generateSTL] *)

(** The fields of a converter object. *)
Record converter := {
  conv_THRESHOLD : JS.number;
  conv_THICKNESS_MM : JS.number;
  conv_SCALE_MM_PER_PX : JS.number
}.

(** [new PNGToSTLConverter()]. *)
Definition new_converter : converter := {|
  conv_THRESHOLD := JS.of_Z 128;
  conv_THICKNESS_MM := JS.of_Z 2;
  conv_SCALE_MM_PER_PX := 0x1.0eeeeeee5c54fp-2%float
|}.

(** The fields of [options] that [generateSTL] destructures; [None] is a
    field that is absent. *)
Record stl_options := {
  so_thickness : option JS.number;
  so_threshold : option JS.number;
  so_width_mm : option JS.number;
  so_height_mm : option JS.number;
  so_max_px : option JS.number;
  so_target_mb : option JS.number
}.

Inductive stl_error :=
  | NoBlackRegionsInImage   (* Error('No black regions detected in image') *)
  | InvalidLength.          (* RangeError: an array of infinite length *)

(** What [generateSTL] does when a dimension of the reduced mask is not a
    whole number.  With a dimension that is [NaN] the array is empty, no
    loop over it runs and no triangle is made; otherwise a dimension is
    infinite and the allocation throws.  (A width that is [NaN] with an
    infinite height would loop for ever; no width, height and budget give
    these.) *)
Definition bad_dimensions (d : JS.number * JS.number) : stl_error :=
  if PrimFloat.is_nan d.1 || PrimFloat.is_nan d.2 then NoBlackRegionsInImage
  else InvalidLength.

(** [generateSTL] on a decoded image: the bytes of the Blob or the error
    thrown, and the converter afterwards. *)
Definition generateSTL (this : converter) (options : stl_options) (img : image) :
    (stl_error + list Z) * converter :=
  let thickness := default (JS.of_Z 2) (so_thickness options) in
  let threshold := default (JS.of_Z 128) (so_threshold options) in
  let width_mm := so_width_mm options in
  let height_mm := so_height_mm options in
  let max_px := so_max_px options in
  let target_mb := so_target_mb options in
  let this := {| conv_THRESHOLD := threshold;
                 conv_THICKNESS_MM := thickness;
                 conv_SCALE_MM_PER_PX := conv_SCALE_MM_PER_PX this |} in
  let data := img_data img in
  let width := img_width img in
  let height := img_height img in
  let scale :=
    match given width_mm with
    | Some width_mm => PrimFloat.div width_mm (JS.of_Z width)
    | None =>
        match given height_mm with
        | Some height_mm => PrimFloat.div height_mm (JS.of_Z height)
        | None => conv_SCALE_MM_PER_PX this
        end
    end in
  let effectiveMaxPx :=
    match given target_mb, given max_px with
    | Some target_mb, None =>
        Some (estimateMaxPxFromTargetMB data width height (conv_THRESHOLD this) target_mb)
    | _, _ => max_px
    end in
  let masked :=
    match given effectiveMaxPx with
    | Some effectiveMaxPx =>
        if PrimFloat.ltb effectiveMaxPx (JS.of_Z (Z.max width height)) then
          match downsampleImage data width height (conv_THRESHOLD this) effectiveMaxPx with
          | Some (maskData, maskW, maskH) =>
              inr (maskData, maskW, maskH,
                   PrimFloat.mul scale (PrimFloat.div (JS.of_Z width) (JS.of_Z maskW)))
          | None => inl (bad_dimensions (resample_dims width height effectiveMaxPx))
          end
        else inr (createMask data width height (conv_THRESHOLD this), width, height, scale)
    | None => inr (createMask data width height (conv_THRESHOLD this), width, height, scale)
    end in
  match masked with
  | inl e => (inl e, this)
  | inr (maskData, maskW, maskH, effectiveScale) =>
      let triangles :=
        generateTriangles (conv_THICKNESS_MM this) maskData maskW maskH effectiveScale in
      if Nat.eqb (length triangles) 0 then (inl NoBlackRegionsInImage, this)
      else
        match trianglesToBinarySTL triangles "model" with
        | Some stlBlob => (inr stlBlob, this)
        | None => (inl InvalidLength, this)
        end
  end.

(** ** Reference definitions for the properties of the whole code *)

(** Whether cell [(x, y)] of the [W] × [H] mask is foreground; a cell
    outside the mask is not. *)
Definition foreground (mask : list Z) (W H x y : Z) : bool :=
  (0 <=? x) && (x <? W) && (0 <=? y) && (y <? H)
  && negb (cell_empty (JS.get mask (y * W + x))).

(** The two triangles of a side when the neighbour [(x', y')] across it is
    not foreground. *)
Definition wall (mask : list Z) (W H x' y' : Z) (side : list triangle) :
    list triangle :=
  if foreground mask W H x' y' then [] else side.

(** The triangles over the cell [(x, y)]: none for a background cell; for a
    foreground cell the top, the bottom and the walls towards the
    neighbours that are not foreground. *)
Definition cell_triangles (mask : list Z) (W H : Z) (thickness K : JS.number)
    (x y : Z) : list triangle :=
  if foreground mask W H x y then
    top_face H thickness K x y ++ bottom_face H K x y
    ++ wall mask W H (x - 1) y (left_side H thickness K x y)
    ++ wall mask W H (x + 1) y (right_side H thickness K x y)
    ++ wall mask W H x (y + 1) (bottom_side H thickness K x y)
    ++ wall mask W H x (y - 1) (top_side H thickness K x y)
  else [].

(** The cells of a [W] × [H] mask in the order of the loops: row by row. *)
Definition cells (W H : Z) : list (Z * Z) :=
  y ← seqZ 0 H; x ← seqZ 0 W; [(x, y)].

(** The number of sides of the cell [(x, y)] whose neighbour is not
    foreground. *)
Definition exposed_sides (mask : list Z) (W H x y : Z) : Z :=
  let side x' y' := if foreground mask W H x' y' then 0 else 1 in
  side (x - 1) y + side (x + 1) y + side x (y + 1) + side x (y - 1).

(** The sum of the values of [f] over a list. *)
Definition sum_over {A} (f : A → Z) (l : list A) : Z :=
  foldr (λ a acc, f a + acc) 0 l.

(** The vertices of a triangle. *)
Definition vertices (t : triangle) : list vertex := [t.1.1; t.1.2; t.2].

(** A vertex on the grid of the mesh over a [W] × [H] mask: a corner of a
    cell, at the height 0 or [thickness]. *)
Definition on_grid (W H : Z) (thickness K : JS.number) (v : vertex) : Prop :=
  ∃ i j, 0 ≤ i ≤ W ∧ 0 ≤ j ≤ H
    ∧ v.1.1 = PrimFloat.mul (JS.of_Z i) K
    ∧ v.1.2 = PrimFloat.mul (JS.of_Z j) K
    ∧ (v.2 = thickness ∨ v.2 = JS.of_Z 0).

(** An image whose pixels are all fully transparent: every fourth byte,
    the alpha channel, is 0. *)
Definition transparent (data : list Z) : Prop :=
  ∀ i a, data !! i = Some a → Z.of_nat i mod 4 = 3 → a = 0.

(** [options] with another [scale]. *)
Definition with_scale (scale : option JS.number) (opts : options) : options :=
  {| opt_output := opt_output opts;
     opt_thickness := opt_thickness opts;
     opt_threshold := opt_threshold opts;
     opt_scale := scale;
     opt_width_mm := opt_width_mm opts;
     opt_height_mm := opt_height_mm opts;
     opt_max_px := opt_max_px opts;
     opt_target_size_mb := opt_target_size_mb opts |}.

(** The options of the browser that correspond to options of [generate]. *)
Definition stl_options_of (opts : options) : stl_options :=
  {| so_thickness := opt_thickness opts;
     so_threshold := opt_threshold opts;
     so_width_mm := opt_width_mm opts;
     so_height_mm := opt_height_mm opts;
     so_max_px := opt_max_px opts;
     so_target_mb := opt_target_size_mb opts |}.

(** *** Inputs of the examples *)

(** No option at all. *)
Definition no_options : options :=
  {| opt_output := None; opt_thickness := None; opt_threshold := None;
     opt_scale := None; opt_width_mm := None; opt_height_mm := None;
     opt_max_px := None; opt_target_size_mb := None |}.

(** A target of 1 MB in the environment, as [--target-mb 1] leaves it. *)
Definition target_environment : environment :=
  {| env_MAX_PX := None; env_TARGET_MB := Some (JS.of_Z 1) |}.

(** A 2 × 1 image: an opaque black pixel and an opaque white one. *)
Definition two_pixels : image :=
  {| img_width := 2; img_height := 1;
     img_data := [0; 0; 0; 255; 255; 255; 255; 255] |}.

(** *** Order of positive binary64 values *)

(** [SFcompare] on two positive finite values: the lexicographic order on
    exponent and mantissa. *)
Definition lex_compare (e1 : Z) (m1 : positive) (e2 : Z) (m2 : positive) : comparison :=
  match e1 ?= e2 with
  | Lt => Lt
  | Gt => Gt
  | Eq => Pos.compare m1 m2
  end.

(** The module's settings after [--threshold t]. *)
Definition with_threshold (t : JS.number) (cfg : config) : config :=
  {| OUTPUT := OUTPUT cfg;
     THICKNESS_MM := THICKNESS_MM cfg;
     SCALE_MM_PER_PX := SCALE_MM_PER_PX cfg;
     THRESHOLD := t |}.

(** *** Shapes of binary64 data *)

(** A zero of either sign. *)
Definition sf_zero (x : spec_float) : Prop := ∃ s, x = S754_zero s.

(** A normal number of sign [s]: a mantissa of 53 bits at an exponent of
    [lo .. hi]. *)
Definition sf_normal (lo hi : Z) (s : bool) (x : spec_float) : Prop :=
  ∃ m e, x = S754_finite s m e ∧ 2 ^ 52 ≤ Z.pos m < 2 ^ 53 ∧ lo ≤ e ≤ hi.

(** A zero or a finite number. *)
Definition sf_small (x : spec_float) : Prop :=
  sf_zero x ∨ ∃ s m e, x = S754_finite s m e.

(** The unit vector along an axis, up to the sign of its zeros: [c] on the
    axis [k] (0 for x, 1 for y, 2 for z) and a zero on the two others. *)
Definition along (k : Z) (c : JS.number) (n : vertex) : Prop :=
  match k with
  | 0 => n.1.1 = c ∧ is_a_zero n.1.2 ∧ is_a_zero n.2
  | 1 => is_a_zero n.1.1 ∧ n.1.2 = c ∧ is_a_zero n.2
  | _ => is_a_zero n.1.1 ∧ is_a_zero n.1.2 ∧ n.2 = c
  end.

(** *** The specification read in exact arithmetic *)

(** The four bytes of the pixel at column [x] of row [y] in the colour
    buffer of an image [W] pixels wide: red, green, blue, alpha. *)
Definition rgba (data : list Z) (W x y : Z) : list Z :=
  take 4 (drop (Z.to_nat (4 * (y * W + x))) data).

(** The thresholded gray value of those bytes, by the integer rule. *)
Definition thresholded (data : list Z) (W x y T : Z) : option Z :=
  match rgba data W x y with
  | [r; g; b; a] => Some (cell_spec (r, g, b, a) T)
  | _ => None
  end.

(** The number of pixels of a [W] × [H] image whose gray value is under
    the threshold. *)
Definition black_pixels (data : list Z) (W H T : Z) : Z :=
  sum_over (λ c, default 0 (thresholded data W c.1 c.2 T)) (cells W H).

(** [round(p / q)] for whole [p ≥ 0] and [q > 0], a half rounded up as
    [Math.round] rounds it. *)
Definition round_quotient (p q : Z) : Z := (2 * p + q) / (2 * q).

(** The dimensions of the reduced mask as the specification words them,
    [max(1, round(W · M / max(W, H)))] and [max(1, round(H · M / max(W, H)))],
    with the quotient taken exactly. *)
Definition spec_new_dims (W H M : Z) : Z * Z :=
  (Z.max 1 (round_quotient (W * M) (Z.max W H)),
   Z.max 1 (round_quotient (H * M) (Z.max W H))).

(** [floor(mx · sqrt(max(1e-6, D / E)))] taken exactly, for whole [mx ≥ 0],
    [D ≥ 0] and [E > 0]: below a ratio of 1e-6 it is [floor(mx / 1000)],
    and otherwise the whole part of the square root of [mx² · D / E]. *)
Definition spec_scaled (mx D E : Z) : Z :=
  if D * 1000000 <? E then mx / 1000 else Z.sqrt (mx * mx * D / E).

(** The pixel budget as the specification words it, for a target of [S]
    bytes, [blackCount] pixels under the threshold and a longer side [mx],
    with every quotient and the square root taken exactly. *)
Definition spec_estimate (mx S blackCount : Z) : Z :=
  let targetBytes := Z.max 1 S in
  let desiredTriangles := Z.max 1 ((targetBytes - 84) / 50) in
  let estimatedOriginalTriangles := Z.max 1 (blackCount * 6) in
  if estimatedOriginalTriangles <=? desiredTriangles then mx
  else Z.max 1 (spec_scaled mx desiredTriangles estimatedOriginalTriangles).

(** A 55 × 3 image whose first 121 pixels are opaque black and whose other
    44 pixels are opaque white. *)
Definition speckled_image : list Z :=
  concat (replicate 121 [0; 0; 0; 255]) ++ replicate (4 * (55 * 3 - 121)) 255.

(** *** Reading a mesh file back *)

(** The record of index [i] of a binary STL file as it is read back: its
    twelve binary32 numbers and its 16-bit attribute field. *)
Definition read_record (buf : list Z) (i : Z) : list spec_float * Z :=
  ((λ k, readFloatLE buf (84 + 50 * i + 4 * k)) <$> seqZ 0 12,
   readUInt16LE buf (84 + 50 * i + 48)).

(** The mesh a file holds: the count at offset 80 and that many records. *)
Definition read_mesh (buf : list Z) : Z * list (list spec_float * Z) :=
  let count := readUInt32LE buf 80 in
  (count, read_record buf <$> seqZ 0 count).

(** No number of the mesh reads back as [NaN]. *)
Definition no_nan_stored (buf : list Z) : Prop :=
  Forall (λ r, Forall (λ v, v ≠ S754_nan) r.1) (read_mesh buf).2.

(** For a target of [B] bytes below the 84 bytes of an empty file, the
    check that the desired number of triangles is 1. *)
Definition desired_one_ok (B : Z) : bool :=
  sf_eqb
    (Prim2SF (JS.Math_max (JS.of_Z 1)
       (JS.Math_floor (PrimFloat.div (PrimFloat.sub (JS.of_Z B) (JS.of_Z 84)) (JS.of_Z 50)))))
    (Prim2SF (JS.of_Z 1)).

(** * Proofs *)

(** ** Loops *)

Section Loops.
Context {S : Type}.
Implicit Types (body : Z → S → S) (s : S).

Lemma for_range_nonpos n body s : n ≤ 0 → JS.for_range n body s = s.
Proof. intros Hn. unfold JS.for_range. by rewrite seqZ_nil. Qed.

Lemma for_range_succ n body s :
  0 ≤ n → JS.for_range (n + 1) body s = body n (JS.for_range n body s).
Proof.
  intros Hn. unfold JS.for_range.
  rewrite seqZ_app by lia. rewrite foldl_app.
  rewrite (seqZ_cons _ 1) by lia. by rewrite (seqZ_nil _ (Z.pred 1)) by lia.
Qed.

(** The invariant rule of the counting loop. *)
Lemma for_range_ind (P : Z → S → Prop) n body s :
  0 ≤ n →
  P 0 s →
  (∀ i acc, 0 ≤ i < n → P i acc → P (i + 1) (body i acc)) →
  P n (JS.for_range n body s).
Proof.
  intros Hn H0 Hstep.
  assert (∀ k : nat, Z.of_nat k ≤ n → P (Z.of_nat k) (JS.for_range (Z.of_nat k) body s)) as Hk.
  { induction k as [|k IH]; intros Hle.
    - by rewrite for_range_nonpos.
    - rewrite Nat2Z.inj_succ, <- Z.add_1_r.
      rewrite for_range_succ by lia. apply Hstep; [lia|]. apply IH. lia. }
  specialize (Hk (Z.to_nat n)). rewrite Z2Nat.id in Hk by lia. apply Hk. lia.
Qed.

(** Two loops that run the same bodies give the same result. *)
Lemma for_range_ext n body1 body2 s :
  (∀ i acc, 0 ≤ i < n → body1 i acc = body2 i acc) →
  JS.for_range n body1 s = JS.for_range n body2 s.
Proof.
  intros Hb. destruct (Z_lt_le_dec n 0) as [Hneg|Hn].
  { by rewrite !for_range_nonpos by lia. }
  apply (for_range_ind (λ i acc, acc = JS.for_range i body2 s) n body1 s Hn).
  - by rewrite for_range_nonpos.
  - intros i acc Hi ->. rewrite for_range_succ by lia. by apply Hb.
Qed.
End Loops.

(** ** Row-major filling of a mask *)

Lemma fill_spec W H f :
  0 ≤ W → 0 ≤ H →
  length (fill W H f) = Z.to_nat (W * H) ∧
  ∀ x y, 0 ≤ x < W → 0 ≤ y < H → JS.get (fill W H f) (y * W + x) = Some (f x y).
Proof.
  intros HW HH. unfold fill.
  apply (for_range_ind (λ y mask,
    length mask = Z.to_nat (W * H) ∧
    ∀ x' y', 0 ≤ x' < W → 0 ≤ y' < y → JS.get mask (y' * W + x') = Some (f x' y'))).
  - done.
  - split; [unfold JS.new_Uint8Array; by rewrite length_replicate | intros; lia].
  - intros y mask Hy [Hlen Hcells].
    pose proof (for_range_ind (λ x mask,
      length mask = Z.to_nat (W * H) ∧
      ∀ x' y', 0 ≤ x' < W → (0 ≤ y' < y ∨ (y' = y ∧ x' < x)) →
               JS.get mask (y' * W + x') = Some (f x' y'))
      W (λ x mask, JS.set mask (y * W + x) (f x y)) mask HW) as Hin.
    destruct Hin as [Hl Hc].
    + split; [done|]. intros x' y' Hx' [Hy'|[-> ?]]; [by apply Hcells | lia].
    + intros x acc Hx [Hl Hc]. unfold JS.set.
      assert (0 ≤ y * W + x < W * H).
      { assert (y * W ≤ (H - 1) * W) by nia. nia. }
      replace (y * W + x <? 0) with false by (symmetry; apply Z.ltb_ge; lia).
      split; [by rewrite length_insert|].
      intros x' y' Hx' Hy'. unfold JS.get.
      assert (0 ≤ y' * W + x').
      { assert (0 ≤ y') by lia. nia. }
      replace (y' * W + x' <? 0) with false by (symmetry; apply Z.ltb_ge; lia).
      destruct (decide (y' * W + x' = y * W + x)) as [Heq|Hne].
      * assert (y' = y ∧ x' = x) as [-> ->] by nia.
        rewrite list_lookup_insert_eq; [done|]. lia.
      * rewrite list_lookup_insert_ne by lia.
        specialize (Hc x' y' Hx'). unfold JS.get in Hc.
        replace (y' * W + x' <? 0) with false in Hc by (symmetry; apply Z.ltb_ge; lia).
        apply Hc. destruct Hy' as [?|[-> ?]]; [by left|].
        right. split; [done|]. destruct (decide (x' = x)) as [->|]; [done | lia].
    + split; [done|].
      intros x' y' Hx' Hy'. apply Hc; [done|].
      destruct (decide (y' = y)) as [->|]; [right; lia | left; lia].
Qed.

(** ** Powers of two *)

Lemma pow2_pos k : 0 ≤ k → 0 < 2 ^ k.
Proof. intros. apply Z.pow_pos_nonneg; lia. Qed.

Lemma pow2_split a b : 0 ≤ a → 0 ≤ b → 2 ^ (a + b) = 2 ^ a * 2 ^ b.
Proof. intros. apply Z.pow_add_r; lia. Qed.

Lemma pow2_le a b : 0 ≤ a ≤ b → 2 ^ a ≤ 2 ^ b.
Proof. intros. apply Z.pow_le_mono_r; lia. Qed.

(** The bit length [d] of a positive mantissa: [2^(d-1) ≤ m < 2^d]. *)
Lemma bit_length m :
  let d := Z.log2 (Z.pos m) + 1 in
  1 ≤ d ∧ 2 ^ (d - 1) ≤ Z.pos m < 2 ^ d.
Proof.
  intros d. pose proof (Z.log2_spec (Z.pos m) ltac:(lia)) as Hs.
  pose proof (Z.log2_nonneg (Z.pos m)). unfold d.
  replace (Z.log2 (Z.pos m) + 1 - 1) with (Z.log2 (Z.pos m)) by lia.
  replace (Z.log2 (Z.pos m) + 1) with (Z.succ (Z.log2 (Z.pos m))) by lia.
  split; [lia | exact Hs].
Qed.

(** ** Integers as binary64 numbers *)

Lemma digits2_pos_size p : digits2_pos p = Pos.size p.
Proof. induction p as [p IH|p IH|]; cbn; by rewrite ?IH. Qed.

Lemma digits2_log2 p : Z.pos (digits2_pos p) = Z.log2 (Z.pos p) + 1.
Proof.
  rewrite digits2_pos_size. destruct p as [p|p|]; cbn; try lia.
Qed.

Lemma pos_iter_xO p k : Z.pos (Pos.iter xO p k) = Z.pos p * 2 ^ Z.pos k.
Proof.
  assert (Pos.iter xO p k = (p * 2 ^ k)%positive) as ->.
  { induction k as [|k IH] using Pos.peano_ind.
    - cbn. lia.
    - rewrite Pos.iter_succ, Pos.pow_succ_r, IH. lia. }
  by rewrite Pos2Z.inj_mul, Pos2Z.inj_pow.
Qed.

Lemma digits2_iter_xO p k :
  Z.pos (digits2_pos (Pos.iter xO p k)) = Z.pos (digits2_pos p) + Z.pos k.
Proof.
  revert p. induction k as [|k IH] using Pos.peano_ind; intros p.
  - cbn. lia.
  - rewrite Pos.iter_succ. cbn [digits2_pos]. rewrite Pos2Z.inj_succ, IH. lia.
Qed.

Lemma round_aux_exact mz ez :
  Z.pos (digits2_pos mz) = 53 → -1074 ≤ ez ≤ 971 →
  binary_round_aux prec emax false (Z.pos mz) ez loc_Exact = S754_finite false mz ez.
Proof.
  intros Hdig He.
  assert (fexp prec emax (Z.pos (digits2_pos mz) + ez) - ez = 0) as Hshift.
  { unfold fexp, SpecFloat.emin, prec, emax. rewrite Hdig. lia. }
  unfold binary_round_aux, shr_fexp. cbn [Zdigits2 shr_record_of_loc].
  rewrite Hshift. cbn [shr shr_m loc_of_shr_record round_nearest_even Zdigits2].
  rewrite Hshift. cbn [shr shr_m].
  replace (ez <=? emax - prec) with true; [done|].
  symmetry. apply Z.leb_le. unfold emax, prec. lia.
Qed.

Lemma binary_normalize_int p :
  Z.pos p < 2 ^ 53 →
  binary_normalize prec emax (Z.pos p) 0 false = int_sf p.
Proof.
  intros Hp.
  pose proof (bit_length p) as (Hd1 & Hlo & Hhi). cbv zeta in Hd1, Hlo, Hhi.
  pose proof (digits2_log2 p) as Hdig. rewrite <- Hdig in *.
  set (d := Z.pos (digits2_pos p)) in *.
  assert (d ≤ 53) as Hd53.
  { destruct (Z_le_gt_dec d 53); [done|]. exfalso.
    assert (2 ^ 53 ≤ 2 ^ (d - 1)) by (apply pow2_le; lia). lia. }
  unfold binary_normalize, binary_round, int_sf. fold d.
  assert (fexp prec emax (d + 0) - 0 = - (53 - d)) as Hsh.
  { unfold fexp, SpecFloat.emin, prec, emax. lia. }
  unfold shl_align. rewrite Hsh.
  assert (fexp prec emax (d + 0) = d - 53) as -> by (unfold fexp, SpecFloat.emin, prec, emax; lia).
  destruct (53 - d) as [|k|k] eqn:Hk; cbn [Z.opp].
  - apply round_aux_exact; [fold d; lia | lia].
  - apply round_aux_exact; [|lia]. rewrite digits2_iter_xO. fold d. lia.
  - lia.
Qed.

Lemma prim_of_Z_pos p :
  Z.pos p < 2 ^ 53 → Prim2SF (JS.of_Z (Z.pos p)) = int_sf p.
Proof.
  intros Hp. unfold JS.of_Z. cbn [Z.ltb Z.compare].
  rewrite of_uint63_spec, Uint63.of_Z_spec.
  rewrite Z.mod_small; [by apply binary_normalize_int|].
  change wB with (2 ^ 63). split; [lia|].
  apply Z.lt_trans with (2 ^ 53); [done|]. by apply Z.pow_lt_mono_r.
Qed.

(** The shape of [int_sf]: the integer shifted to 53 bits. *)
Lemma int_sf_form p :
  Z.pos p < 2 ^ 53 →
  ∃ m e, int_sf p = S754_finite false m e
         ∧ e = Z.pos (digits2_pos p) - 53 ∧ -52 ≤ e ≤ 0
         ∧ Z.pos m = Z.pos p * 2 ^ (- e).
Proof.
  intros Hp.
  pose proof (bit_length p) as (Hd1 & Hlo & Hhi). cbv zeta in Hd1, Hlo, Hhi.
  pose proof (digits2_log2 p) as Hdig. rewrite <- Hdig in *.
  set (d := Z.pos (digits2_pos p)) in *.
  assert (d ≤ 53) as Hd53.
  { destruct (Z_le_gt_dec d 53); [done|]. exfalso.
    assert (2 ^ 53 ≤ 2 ^ (d - 1)) by (apply pow2_le; lia). lia. }
  unfold int_sf. fold d. destruct (53 - d) as [|k|k] eqn:Hk.
  - exists p, 0. repeat split; try lia. 
  - exists (Pos.iter xO p k), (d - 53). repeat split; try lia.
    rewrite pos_iter_xO. f_equal. f_equal. lia.
  - lia.
Qed.

Lemma SFcompare_int a b :
  Z.pos a < 2 ^ 53 → Z.pos b < 2 ^ 53 →
  SFcompare (int_sf a) (int_sf b) = Some (Z.pos a ?= Z.pos b).
Proof.
  intros Ha Hb.
  destruct (int_sf_form a Ha) as (ma & ea & -> & Hea & Hra & Hma).
  destruct (int_sf_form b Hb) as (mb & eb & -> & Heb & Hrb & Hmb).
  pose proof (bit_length a) as (_ & Hloa & Hhia). cbv zeta in Hloa, Hhia.
  pose proof (bit_length b) as (_ & Hlob & Hhib). cbv zeta in Hlob, Hhib.
  rewrite <- digits2_log2 in *.
  set (da := Z.pos (digits2_pos a)) in *. set (db := Z.pos (digits2_pos b)) in *.
  cbn [SFcompare]. f_equal.
  destruct (Z.compare_spec ea eb) as [Heq|Hlt|Hgt].
  - change (Pos.compare_cont Eq ma mb) with (Z.pos ma ?= Z.pos mb).
    rewrite Hma, Hmb, Heq.
    pose proof (pow2_pos (- eb) ltac:(lia)) as Hpos.
    destruct (Z.compare_spec (Z.pos a) (Z.pos b)) as [H1|H1|H1].
    + rewrite H1. apply Z.compare_refl.
    + apply Z.compare_lt_iff. nia.
    + apply Z.compare_gt_iff. nia.
  - symmetry. apply Z.compare_lt_iff.
    assert (2 ^ da ≤ 2 ^ (db - 1)) by (apply pow2_le; lia). lia.
  - symmetry. apply Z.compare_gt_iff.
    assert (2 ^ db ≤ 2 ^ (da - 1)) by (apply pow2_le; lia). lia.
Qed.

Lemma prim_of_Z z : 0 ≤ z < 2 ^ 53 → Prim2SF (JS.of_Z z) = nat_sf z.
Proof.
  intros Hz. destruct z as [|p|p]; [vm_compute; reflexivity | apply prim_of_Z_pos; lia | lia].
Qed.

Lemma SFcompare_nat a b :
  0 ≤ a < 2 ^ 53 → 0 ≤ b < 2 ^ 53 →
  SFcompare (nat_sf a) (nat_sf b) = Some (a ?= b).
Proof.
  intros Ha Hb. destruct a as [|a|a], b as [|b|b]; try lia; cbn [nat_sf].
  - done.
  - destruct (int_sf_form b ltac:(lia)) as (m & e & -> & _). done.
  - destruct (int_sf_form a ltac:(lia)) as (m & e & -> & _). done.
  - apply SFcompare_int; lia.
Qed.

(** On integers of [0, 2^53) the comparisons of binary64 are those of the
    integers. *)
Lemma ltb_of_Z a b :
  0 ≤ a < 2 ^ 53 → 0 ≤ b < 2 ^ 53 →
  PrimFloat.ltb (JS.of_Z a) (JS.of_Z b) = (a <? b).
Proof.
  intros Ha Hb. rewrite FloatAxioms.ltb_spec, !prim_of_Z by done.
  unfold SFltb. rewrite SFcompare_nat by done. unfold Z.ltb.
  by destruct (a ?= b).
Qed.

Lemma leb_of_Z a b :
  0 ≤ a < 2 ^ 53 → 0 ≤ b < 2 ^ 53 →
  PrimFloat.leb (JS.of_Z a) (JS.of_Z b) = (a <=? b).
Proof.
  intros Ha Hb. rewrite FloatAxioms.leb_spec, !prim_of_Z by done.
  unfold SFleb. rewrite SFcompare_nat by done. unfold Z.leb.
  by destruct (a ?= b).
Qed.

Lemma eqb_of_Z a b :
  0 ≤ a < 2 ^ 53 → 0 ≤ b < 2 ^ 53 →
  PrimFloat.eqb (JS.of_Z a) (JS.of_Z b) = (a =? b).
Proof.
  intros Ha Hb. rewrite FloatAxioms.eqb_spec, !prim_of_Z by done.
  unfold SFeqb. rewrite SFcompare_nat by done.
  destruct (Z.compare_spec a b), (Z.eqb_spec a b); (done || lia).
Qed.


(** What the source's tests and roundings do on an integer of [0, 2^53). *)
Lemma of_Z_facts z :
  0 ≤ z < 2 ^ 53 →
  PrimFloat.is_nan (JS.of_Z z) = false
  ∧ PrimFloat.is_zero (JS.of_Z z) = (z =? 0)
  ∧ JS.isFinite (JS.of_Z z) = true
  ∧ JS.to_int (JS.of_Z z) = Some z
  ∧ JS.Math_floor (JS.of_Z z) = JS.of_Z z.
Proof.
  intros Hz.
  assert (PrimFloat.is_nan (JS.of_Z z) = false) as Hnan.
  { unfold PrimFloat.is_nan. rewrite eqb_of_Z by done. by rewrite Z.eqb_refl. }
  split; [done|]. split.
  { unfold PrimFloat.is_zero. change PrimFloat.zero with (JS.of_Z 0).
    apply eqb_of_Z; [done|lia]. }
  split.
  { unfold JS.isFinite, PrimFloat.is_finite, PrimFloat.is_infinity. rewrite Hnan.
    rewrite FloatAxioms.eqb_spec, abs_spec, prim_of_Z by done.
    destruct z as [|p|p]; [done| |lia]. cbn [nat_sf].
    destruct (int_sf_form p ltac:(lia)) as (m & e & -> & _). done. }
  unfold JS.to_int, JS.Math_floor. rewrite prim_of_Z by done.
  destruct z as [|p|p]; [done| |lia]. cbn [nat_sf].
  destruct (int_sf_form p ltac:(lia)) as (m & e & -> & He & Hr & Hm).
  unfold JS.signed. rewrite Hm.
  pose proof (pow2_pos (- e) ltac:(lia)) as Hpos.
  destruct (Z.leb_spec 0 e) as [H0|H0].
  - assert (e = 0) as -> by lia. change (2 ^ (- 0)) with 1 in *. change (2 ^ 0) with 1.
    split; [f_equal; lia|]. done.
  - rewrite Z.mod_mul by lia. rewrite Z.eqb_refl. rewrite Z.div_mul by lia. done.
Qed.

Lemma sf_eqb_eq x y : sf_eqb x y = true → x = y.
Proof.
  destruct x as [s|s| |s m e], y as [s'|s'| |s' m' e']; cbn [sf_eqb]; try done.
  - intros H. apply Bool.eqb_prop in H. by subst.
  - intros H. apply Bool.eqb_prop in H. by subst.
  - intros H. apply andb_true_iff in H as [H He]. apply andb_true_iff in H as [Hs Hm].
    apply Bool.eqb_prop in Hs. apply Pos.eqb_eq in Hm. apply Z.eqb_eq in He. by subst.
Qed.

(** Two numbers with the same binary64 datum are the same number. *)
Lemma Prim2SF_inj x y : Prim2SF x = Prim2SF y → x = y.
Proof. intros H. by rewrite <- (SF2Prim_Prim2SF x), H, SF2Prim_Prim2SF. Qed.

(** ** Rounding in binary64 does not overflow on moderate values *)

Lemma Zdigits2_bound m k : 0 ≤ k → 0 ≤ m < 2 ^ k → 0 ≤ Zdigits2 m ≤ k.
Proof.
  intros Hk [Hm Hlt]. destruct m as [|p|p]; [cbn; lia| |lia].
  cbn [Zdigits2]. rewrite digits2_log2.
  pose proof (Z.log2_nonneg (Z.pos p)).
  assert (Z.log2 (Z.pos p) < k) by (apply Z.log2_lt_pow2; lia). lia.
Qed.

Lemma Zdigits2_lt m : 0 ≤ m → m < 2 ^ Zdigits2 m.
Proof.
  intros Hm. destruct m as [|p|p]; [cbn; lia| |lia].
  cbn [Zdigits2]. rewrite digits2_log2.
  pose proof (bit_length p) as (_ & _ & Hhi). exact Hhi.
Qed.

(** One step of the shift keeps the mantissa between 0 and what it was. *)
Lemma shr_1_range mrs :
  0 ≤ shr_m mrs → 0 ≤ shr_m (shr_1 mrs) ≤ shr_m mrs.
Proof.
  destruct mrs as [m r s]. cbn [shr_m]. intros Hm.
  destruct m as [|[p|p|]|p]; cbn; lia.
Qed.

Lemma iter_pos_inv {A} (Q : A → Prop) (f : A → A) n x :
  (∀ y, Q y → Q (f y)) → Q x → Q (SpecFloat.iter_pos f n x).
Proof.
  intros Hf. revert x. induction n as [n IH|n IH|]; intros x Hx; cbn [SpecFloat.iter_pos].
  - apply IH, IH, Hf, Hx.
  - apply IH, IH, Hx.
  - apply Hf, Hx.
Qed.

(** The shift to the exponent of the format: the exponent reached and the
    range of the mantissa. *)
Lemma shr_fexp_range m e l mrs' e' :
  0 ≤ m → shr_fexp prec emax m e l = (mrs', e') →
  0 ≤ shr_m mrs' ≤ m ∧ e' = Z.max e (fexp prec emax (Zdigits2 m + e)).
Proof.
  intros Hm. unfold shr_fexp, shr.
  assert (shr_m (shr_record_of_loc m l) = m) as Hrec.
  { by destruct l as [|[| |]]. }
  destruct (fexp prec emax (Zdigits2 m + e) - e) as [|n|n] eqn:Hn; intros [= <- <-].
  - rewrite Hrec. lia.
  - split; [|lia].
    apply (iter_pos_inv (λ mrs, 0 ≤ shr_m mrs ≤ m)).
    + intros y Hy. pose proof (shr_1_range y ltac:(lia)). lia.
    + rewrite Hrec. lia.
  - rewrite Hrec. lia.
Qed.

Lemma round_nearest_even_range m l :
  0 ≤ m → 0 ≤ round_nearest_even m l ≤ m + 1.
Proof.
  intros Hm. unfold round_nearest_even.
  destruct l as [|[| |]]; try lia. destruct (Z.even m); lia.
Qed.

(** A mantissa of at most [D] bits at an exponent of at most [E], with
    [E + 2 * D ≤ 900], is rounded to a zero or to a finite number. *)
Lemma binary_round_aux_finite s m e l D E :
  0 ≤ m < 2 ^ D → 0 ≤ D ≤ 900 → e ≤ E → E + 2 * D ≤ 900 →
  binary_round_aux prec emax s m e l = S754_zero s
  ∨ ∃ m' e', binary_round_aux prec emax s m e l = S754_finite s m' e'
             ∧ e' ≤ Z.max (E + 2 * D) (D - 1074).
Proof.
  intros Hm HD He Hbound. unfold binary_round_aux.
  destruct (shr_fexp prec emax m e l) as [mrs1 e1] eqn:H1.
  apply shr_fexp_range in H1 as [Hm1 He1]; [|lia].
  pose proof (round_nearest_even_range (shr_m mrs1) (loc_of_shr_record mrs1) ltac:(lia)) as Hr.
  set (m2 := round_nearest_even (shr_m mrs1) (loc_of_shr_record mrs1)) in *.
  destruct (shr_fexp prec emax m2 e1 loc_Exact) as [mrs2 e2] eqn:H2.
  apply shr_fexp_range in H2 as [Hm2 He2]; [|lia].
  pose proof (Zdigits2_bound m D ltac:(lia) Hm) as Hd.
  assert (2 ^ D < 2 ^ (D + 1)) as Hpow by (apply Z.pow_lt_mono_r; lia).
  pose proof (Zdigits2_bound m2 (D + 1) ltac:(lia) ltac:(lia)) as Hd2.
  unfold fexp, SpecFloat.emin, prec, emax in He1, He2.
  assert (e2 ≤ Z.max (E + 2 * D) (D - 1074)) as Hfin by lia.
  destruct (shr_m mrs2) as [|p|p]; [by left| |lia].
  right. exists p, e2.
  replace (e2 <=? emax - prec) with true; [done|].
  symmetry. apply Z.leb_le. unfold emax, prec. lia.
Qed.

Lemma int_sf_digits p :
  Z.pos p < 2 ^ 53 →
  ∃ m e, int_sf p = S754_finite false m e ∧ -52 ≤ e ≤ 0
         ∧ Z.pos (digits2_pos m) = 53 ∧ Z.pos m < 2 ^ 53.
Proof.
  intros Hp.
  pose proof (bit_length p) as (Hd1 & Hlo & Hhi). cbv zeta in Hd1, Hlo, Hhi.
  pose proof (digits2_log2 p) as Hdig. rewrite <- Hdig in *.
  set (d := Z.pos (digits2_pos p)) in *.
  assert (d ≤ 53) as Hd53.
  { destruct (Z_le_gt_dec d 53); [done|]. exfalso.
    assert (2 ^ 53 ≤ 2 ^ (d - 1)) by (apply pow2_le; lia). lia. }
  unfold int_sf. fold d. destruct (53 - d) as [|k|k] eqn:Hk.
  - exists p, 0. repeat split; try lia. all: fold d; lia.
  - exists (Pos.iter xO p k), (d - 53).
    assert (Z.pos (digits2_pos (Pos.iter xO p k)) = 53) as Hdk.
    { rewrite digits2_iter_xO. fold d. lia. }
    repeat split; try lia.
    pose proof (Zdigits2_lt (Z.pos (Pos.iter xO p k)) ltac:(lia)) as Hlt.
    cbn [Zdigits2] in Hlt. by rewrite Hdk in Hlt.
  - lia.
Qed.

(** The mantissa of a binary64 datum has at most 53 bits. *)
Lemma valid_mantissa x s m e : Prim2SF x = S754_finite s m e → Z.pos m < 2 ^ 53.
Proof.
  intros Hx. pose proof (Prim2SF_valid x) as Hv. rewrite Hx in Hv.
  cbn [valid_binary] in Hv. unfold bounded, canonical_mantissa in Hv.
  apply andb_true_iff in Hv as [Hc _]. apply Z.eqb_eq in Hc.
  unfold fexp, SpecFloat.emin, prec, emax in Hc.
  pose proof (Zdigits2_lt (Z.pos m) ltac:(lia)) as Hlt. cbn [Zdigits2] in Hlt.
  apply Z.lt_le_trans with (2 ^ Z.pos (digits2_pos m)); [done|].
  apply pow2_le. lia.
Qed.

(** The quotient of two positive integers below 2^53 is [+0] or positive
    and finite, with a moderate exponent. *)
Lemma div_of_Z_finite a b :
  0 < a < 2 ^ 53 → 0 < b < 2 ^ 53 →
  Prim2SF (PrimFloat.div (JS.of_Z a) (JS.of_Z b)) = S754_zero false
  ∨ ∃ m e, Prim2SF (PrimFloat.div (JS.of_Z a) (JS.of_Z b)) = S754_finite false m e
           ∧ e ≤ 211.
Proof.
  intros Ha Hb. rewrite div_spec, !prim_of_Z by lia.
  destruct a as [|a|a], b as [|b|b]; try lia. cbn [nat_sf].
  destruct (int_sf_digits a ltac:(lia)) as (ma & ea & -> & Hea & Hda & Hma).
  destruct (int_sf_digits b ltac:(lia)) as (mb & eb & -> & Heb & Hdb & Hmb).
  unfold SF64div, SFdiv, SFdiv_core_binary. cbn [Zdigits2 xorb].
  rewrite Hda, Hdb.
  assert (Z.min (fexp prec emax (53 + ea - (53 + eb))) (ea - eb) = ea - eb - 53) as ->.
  { unfold fexp, SpecFloat.emin, prec, emax. lia. }
  replace (ea - eb - (ea - eb - 53)) with 53 by lia.
  rewrite Z.shiftl_mul_pow2 by lia.
  pose proof (Z.div_eucl_eq (Z.pos ma * 2 ^ 53) (Z.pos mb) ltac:(lia)) as Hdm.
  pose proof (Z.mod_pos_bound (Z.pos ma * 2 ^ 53) (Z.pos mb) ltac:(lia)) as Hr.
  unfold Z.modulo in Hr.
  destruct (Z.div_eucl (Z.pos ma * 2 ^ 53) (Z.pos mb)) as [q r].
  assert (0 ≤ q < 2 ^ 106) as Hq.
  { change (2 ^ 106) with (2 ^ 53 * 2 ^ 53). change (2 ^ 53) with 9007199254740992 in *.
    nia. }
  destruct (binary_round_aux_finite false q (ea - eb - 53) (new_location (Z.pos mb) r)
              106 (-1) Hq ltac:(lia) ltac:(lia) ltac:(lia)) as [Hz|(m & e & Hf & He)].
  - by left.
  - right. exists m, e. split; [done | lia].
Qed.

(** The product of an integer of [0, 2^53) and a quotient of two such
    integers is [+0] or positive and finite. *)
Lemma scaled_dimension_finite w a b :
  0 ≤ w < 2 ^ 53 → 0 < a < 2 ^ 53 → 0 < b < 2 ^ 53 →
  nonneg_finite
    (Prim2SF (PrimFloat.mul (JS.of_Z w) (PrimFloat.div (JS.of_Z a) (JS.of_Z b)))).
Proof.
  intros Hw Ha Hb. rewrite mul_spec, prim_of_Z by lia.
  set (q := PrimFloat.div (JS.of_Z a) (JS.of_Z b)).
  pose proof (div_of_Z_finite a b Ha Hb) as Hq. fold q in Hq.
  unfold SF64mul, nonneg_finite.
  destruct w as [|w|w]; [| |lia]; cbn [nat_sf].
  - destruct Hq as [->|(m & e & -> & _)]; by left.
  - destruct (int_sf_digits w ltac:(lia)) as (mw & ew & -> & Hew & _ & Hmw).
    destruct Hq as [Hq|(m & e & Hq & He)].
    + rewrite Hq. by left.
    + pose proof (valid_mantissa q false m e Hq) as Hm. rewrite Hq.
      cbn [SFmul xorb].
      assert (0 ≤ Z.pos (mw * m) < 2 ^ 106) as Hprod.
      { rewrite Pos2Z.inj_mul. change (2 ^ 106) with (2 ^ 53 * 2 ^ 53).
        change (2 ^ 53) with 9007199254740992 in *. nia. }
      destruct (binary_round_aux_finite false (Z.pos (mw * m)) (ew + e) loc_Exact
                  106 211 Hprod ltac:(lia) ltac:(lia) ltac:(lia))
        as [Hz|(m' & e' & Hf & _)].
      * by left.
      * right. by exists m', e'.
Qed.

Lemma is_nan_finite x s m e :
  Prim2SF x = S754_finite s m e → PrimFloat.is_nan x = false.
Proof.
  intros Hx. unfold PrimFloat.is_nan. rewrite FloatAxioms.eqb_spec, Hx.
  unfold SFeqb. cbn [SFcompare].
  rewrite Z.compare_refl, Pos.compare_cont_refl. by destruct s.
Qed.

(** [Math.max(1, n)] on an integer of [0, 2^53). *)
Lemma Math_max_1_of_Z r :
  0 ≤ r < 2 ^ 53 → JS.Math_max (JS.of_Z 1) (JS.of_Z r) = JS.of_Z (Z.max 1 r).
Proof.
  intros Hr.
  destruct (of_Z_facts r Hr) as (Hnan & _).
  destruct (of_Z_facts 1 ltac:(lia)) as (Hnan1 & _).
  unfold JS.Math_max. rewrite Hnan, Hnan1. cbn [orb].
  rewrite !ltb_of_Z by lia.
  destruct (Z.ltb_spec 1 r); [f_equal; lia|].
  destruct (Z.ltb_spec r 1); [f_equal; lia|].
  assert (r = 1) as -> by lia. reflexivity.
Qed.

(** [Math.max(1, Math.round(x))] of a number that is [+0] or positive and
    finite is a whole number, at least 1. *)
Lemma round_dimension x :
  nonneg_finite (Prim2SF x) →
  ∃ n, 1 ≤ n ∧ JS.to_int (JS.Math_max (JS.of_Z 1) (JS.Math_round x)) = Some n.
Proof.
  intros Hx.
  assert ((∃ r, 0 ≤ r < 2 ^ 53 ∧ JS.Math_round x = JS.of_Z r)
          ∨ (∃ m e, Prim2SF x = S754_finite false m e ∧ 0 ≤ e ∧ JS.Math_round x = x))
    as [(r & Hr & ->)|(m & e & Hsf & He & ->)].
  { destruct Hx as [Hz|(m & e & Hsf)].
    - left. exists 0. split; [lia|]. unfold JS.Math_round. rewrite Hz.
      apply Prim2SF_inj. by rewrite Hz.
    - unfold JS.Math_round. rewrite Hsf.
      destruct (Z.leb_spec 0 e) as [He|He]; [right; by exists m, e|].
      left. cbn [JS.signed]. rewrite andb_false_r.
      eexists. split; [|reflexivity].
      pose proof (valid_mantissa x false m e Hsf) as Hm.
      pose proof (pow2_pos (- e + 1) ltac:(lia)) as Hp.
      assert (2 ^ (- e + 1) = 2 * 2 ^ (- e)) as Hp2.
      { replace (- e + 1) with (1 + - e) by lia. by rewrite pow2_split by lia. }
      assert (2 ≤ 2 ^ (- e)).
      { change 2 with (2 ^ 1) at 1. apply pow2_le. lia. }
      split.
      + apply Z.div_pos; lia.
      + apply Z.div_lt_upper_bound; [lia|]. nia. }
  - exists (Z.max 1 r). split; [lia|].
    rewrite Math_max_1_of_Z by done.
    destruct (of_Z_facts (Z.max 1 r) ltac:(lia)) as (_ & _ & _ & Hint & _). exact Hint.
  - assert (JS.to_int x = Some (Z.pos m * 2 ^ e)) as Hint.
    { unfold JS.to_int. rewrite Hsf.
      replace (0 <=? e) with true by (symmetry; apply Z.leb_le; lia). done. }
    pose proof (pow2_pos e He) as Hp.
    destruct (of_Z_facts 1 ltac:(lia)) as (Hnan1 & _ & _ & Hint1 & _).
    unfold JS.Math_max. rewrite Hnan1, (is_nan_finite x _ _ _ Hsf). cbn [orb].
    destruct (PrimFloat.ltb (JS.of_Z 1) x); [eexists; split; [|exact Hint]; nia|].
    destruct (PrimFloat.ltb x (JS.of_Z 1)); [by exists 1|].
    destruct (PrimFloat.get_sign (JS.of_Z 1)); [eexists; split; [|exact Hint]; nia|].
    by exists 1.
Qed.

(** The dimensions of the reduced mask are whole numbers, at least 1. *)
Lemma resample_dims_whole W H M :
  1 ≤ W < 2 ^ 53 → 1 ≤ H < 2 ^ 53 → 1 ≤ M < 2 ^ 53 →
  ∃ newW newH, 1 ≤ newW ∧ 1 ≤ newH
    ∧ dims_int (resample_dims W H (JS.of_Z M)) = Some (newW, newH).
Proof.
  intros HW HH HM.
  destruct (round_dimension _
    (scaled_dimension_finite W M (Z.max W H) ltac:(lia) ltac:(lia) ltac:(lia)))
    as (newW & HnW & HW').
  destruct (round_dimension _
    (scaled_dimension_finite H M (Z.max W H) ltac:(lia) ltac:(lia) ltac:(lia)))
    as (newH & HnH & HH').
  exists newW, newH. split; [done|]. split; [done|].
  unfold dims_int, resample_dims. cbn [fst snd]. by rewrite HW', HH'.
Qed.

(** ** The threshold rule on bytes *)

Lemma forallb_seqZ (P : Z → bool) m n k :
  forallb P (seqZ m n) = true → m ≤ k < m + n → P k = true.
Proof.
  intros Hall Hk. rewrite forallb_forall in Hall. apply Hall.
  apply list_elem_of_In, elem_of_seqZ. lia.
Qed.

(** The binary64 rounding of a third agrees with the integers on every sum
    of three bytes: checked on all 766 of them. *)
Lemma gray_round_table : forallb gray_round_ok (seqZ 0 766) = true.
Proof. vm_cast_no_check (eq_refl true). Qed.

Lemma gray_round s :
  0 ≤ s ≤ 765 →
  JS.Math_round (PrimFloat.div (JS.of_Z s) (JS.of_Z 3)) = JS.of_Z ((2 * s + 3) / 6).
Proof.
  intros Hs. apply Prim2SF_inj, sf_eqb_eq.
  exact (forallb_seqZ gray_round_ok 0 766 s gray_round_table ltac:(lia)).
Qed.

(** The gray level the source computes in binary64 is the integer one. *)
Lemma gray_exact r g b a :
  is_byte r → is_byte g → is_byte b → is_byte a →
  gray (Some r, Some g, Some b, Some a) = JS.of_Z (gray_spec (r, g, b, a))
  ∧ 0 ≤ gray_spec (r, g, b, a) ≤ 255.
Proof.
  unfold is_byte. intros Hr Hg Hb Ha. unfold gray, gray_spec, sum3.
  destruct (Z.eqb_spec a 0) as [->|Hne]; [split; [done | lia]|].
  assert (match a with
          | 0 => JS.of_Z 255
          | _ => JS.Math_round (PrimFloat.div (JS.of_Z (r + g + b)) (JS.of_Z 3))
          end = JS.Math_round (PrimFloat.div (JS.of_Z (r + g + b)) (JS.of_Z 3))) as ->.
  { destruct a; [congruence | reflexivity | reflexivity]. }
  rewrite gray_round by lia. split; [done|].
  split; [apply Z.div_pos; lia|].
  assert ((2 * (r + g + b) + 3) / 6 < 256) by (apply Z.div_lt_upper_bound; lia). lia.
Qed.

(** On a pixel of four bytes and a whole threshold the cell the source
    computes in binary64 is the cell of the integer rule. *)
Lemma cell_of_spec r g b a T :
  is_byte r → is_byte g → is_byte b → is_byte a → 0 ≤ T < 2 ^ 53 →
  cell_of (Some r, Some g, Some b, Some a) (JS.of_Z T) = cell_spec (r, g, b, a) T.
Proof.
  intros Hr Hg Hb Ha HT.
  destruct (gray_exact r g b a Hr Hg Hb Ha) as [Hgray Hrange].
  unfold cell_of, cell_spec. rewrite Hgray, ltb_of_Z; [done| |done].
  assert (256 < 2 ^ 53) by (by apply Z.pow_gt_lin_r || reflexivity). lia.
Qed.

(** A well-formed pixel buffer has its four channels at every pixel. *)
Lemma channels_in_range data W H x y :
  Z.of_nat (length data) = 4 * W * H → Forall is_byte data →
  0 ≤ x < W → 0 ≤ y < H →
  ∃ r g b a, channels data ((y * W + x) * 4) = (Some r, Some g, Some b, Some a)
             ∧ is_byte r ∧ is_byte g ∧ is_byte b ∧ is_byte a.
Proof.
  intros Hlen Hbytes Hx Hy.
  assert (0 ≤ y * W + x < W * H) as Hi.
  { assert (y * W ≤ (H - 1) * W) by nia. nia. }
  assert (∀ k, 0 ≤ k < 4 →
            ∃ v, JS.get data ((y * W + x) * 4 + k) = Some v ∧ is_byte v) as Hget.
  { intros k Hk. unfold JS.get.
    replace ((y * W + x) * 4 + k <? 0) with false by (symmetry; apply Z.ltb_ge; lia).
    destruct (lookup_lt_is_Some_2 data (Z.to_nat ((y * W + x) * 4 + k))) as [v Hv]; [lia|].
    exists v. split; [done|].
    rewrite Forall_forall in Hbytes. apply Hbytes. by eapply list_elem_of_lookup_2. }
  destruct (Hget 0 ltac:(lia)) as (r & Hr & ?).
  destruct (Hget 1 ltac:(lia)) as (g & Hg & ?).
  destruct (Hget 2 ltac:(lia)) as (b & Hb & ?).
  destruct (Hget 3 ltac:(lia)) as (a & Ha & ?).
  rewrite Z.add_0_r in Hr.
  exists r, g, b, a. unfold channels. by rewrite Hr, Hg, Hb, Ha.
Qed.

Lemma createMask_fill data W H threshold :
  createMask data W H threshold
  = fill W H (λ x y, cell_of (channels data ((y * W + x) * 4)) threshold).
Proof. reflexivity. Qed.

Lemma generate_full_mask_createMask data W H threshold :
  generate_full_mask data W H threshold = (createMask data W H threshold, W, H).
Proof. reflexivity. Qed.

(** C2: on a well-formed pixel buffer of width W ≥ 1 and height H ≥ 1 and a
    whole threshold T ≥ 0 (in [0, 255] in particular), the browser's [createMask] and the
    full-resolution branch of [generate] build the same mask of W × H cells,
    and the cell of pixel (x, y) is 1 exactly when gray < T, with gray = 255
    for alpha 0 and the integer nearest to (R + G + B) / 3 otherwise.  The
    mask is a function of the buffer, the dimensions and T alone. *)
Theorem createMask_correct data W H T :
  1 ≤ W → 1 ≤ H → 0 ≤ T < 2 ^ 53 →
  Z.of_nat (length data) = 4 * W * H → Forall is_byte data →
  let mask := createMask data W H (JS.of_Z T) in
  generate_full_mask data W H (JS.of_Z T) = (mask, W, H)
  ∧ Z.of_nat (length mask) = W * H
  ∧ ∀ x y, 0 ≤ x < W → 0 ≤ y < H →
      ∃ px, pixel data W x y = Some px
            ∧ JS.get mask (y * W + x) = Some (cell_spec px T)
            ∧ (JS.get mask (y * W + x) = Some 1 ↔ gray_spec px < T).
Proof.
  intros HW HH HT Hlen Hbytes mask. subst mask.
  split; [apply generate_full_mask_createMask|].
  rewrite createMask_fill.
  destruct (fill_spec W H (λ x y, cell_of (channels data ((y * W + x) * 4)) (JS.of_Z T)))
    as [Hl Hc]; [lia|lia|].
  split; [rewrite Hl; nia|].
  intros x y Hx Hy.
  destruct (channels_in_range data W H x y Hlen Hbytes Hx Hy)
    as (r & g & b & a & Hch & Hr & Hg & Hb & Ha).
  exists (r, g, b, a). unfold pixel. rewrite Hch. split; [done|].
  rewrite (Hc x y Hx Hy). cbv beta. rewrite Hch, cell_of_spec by done.
  split; [done|]. unfold cell_spec.
  destruct (Z.ltb_spec (gray_spec (r, g, b, a)) T); split; intros; (congruence || lia).
Qed.

Lemma createMask_correct_witness :
  let data := [0; 0; 0; 255; 255; 255; 255; 255; 10; 10; 10; 0; 100; 100; 101; 255] in
  createMask data 2 2 (JS.of_Z 128) = [1; 0; 0; 1]
  ∧ Z.of_nat (length (createMask data 2 2 (JS.of_Z 128))) = 2 * 2.
Proof.
  intros data.
  assert (Forall is_byte data) as Hb.
  { unfold data. repeat (constructor; [unfold is_byte; lia|]). constructor. }
  pose proof (createMask_correct data 2 2 128 ltac:(lia) ltac:(lia) ltac:(lia)
                ltac:(reflexivity) Hb) as (_ & Hlen & _).
  split; [vm_compute; reflexivity | exact Hlen].
Defined.

(** C9: for a fixed pixel and whole thresholds 0 ≤ T ≤ T', a cell that is
    foreground at threshold T is foreground at threshold T': raising the
    threshold never turns a foreground cell into background. *)
Theorem threshold_monotone r g b a T T' :
  is_byte r → is_byte g → is_byte b → is_byte a →
  0 ≤ T → T ≤ T' → T' < 2 ^ 53 →
  cell_of (Some r, Some g, Some b, Some a) (JS.of_Z T) = 1 →
  cell_of (Some r, Some g, Some b, Some a) (JS.of_Z T') = 1.
Proof.
  intros Hr Hg Hb Ha H0 HTT HT'.
  rewrite !cell_of_spec by (done || lia).
  unfold cell_spec.
  destruct (Z.ltb_spec (gray_spec (r, g, b, a)) T); [|intros [=]].
  intros _. destruct (Z.ltb_spec (gray_spec (r, g, b, a)) T'); [done | lia].
Qed.

Lemma threshold_monotone_witness :
  cell_of (Some 90, Some 100, Some 110, Some 255) (JS.of_Z 200) = 1.
Proof.
  apply (threshold_monotone 90 100 110 255 128 200);
    unfold is_byte; try lia.
  vm_compute. reflexivity.
Defined.

(** ** Mesh extruder *)

(** A loop that appends something at one index only. *)
Lemma for_range_one {A} n (body : Z → list A → list A) (g : list A) s i0 :
  0 ≤ n →
  (∀ i acc, 0 ≤ i < n → body i acc = acc ++ (if i =? i0 then g else [])) →
  JS.for_range n body s = s ++ (if (0 <=? i0) && (i0 <? n) then g else []).
Proof.
  intros Hn Hbody.
  apply (for_range_ind (λ i acc, acc = s ++ (if (0 <=? i0) && (i0 <? i) then g else []))).
  - done.
  - replace ((0 <=? i0) && (i0 <? 0)) with false by (symmetry; apply andb_false_iff; lia).
    by rewrite app_nil_r.
  - intros i acc Hi ->. rewrite Hbody by done.
    destruct (Z.eqb_spec i i0) as [->|Hne].
    + replace ((0 <=? i0) && (i0 <? i0)) with false by (symmetry; apply andb_false_iff; lia).
      replace ((0 <=? i0) && (i0 <? i0 + 1)) with true by (symmetry; apply andb_true_iff; lia).
      by rewrite app_nil_r.
    + rewrite app_nil_r. f_equal.
      destruct (Z.leb_spec 0 i0), (Z.ltb_spec i0 i), (Z.ltb_spec i0 (i + 1)); simpl; (done || lia).
Qed.

(** In a binary mask "not zero" and "equal to one" are the same test. *)
Lemma binary_cell mask i :
  binary_mask mask →
  cell_empty (JS.get mask i)
  = negb match JS.get mask i with Some 1 => true | _ => false end.
Proof.
  intros Hbin. unfold JS.get. destruct (i <? 0); [done|].
  destruct (mask !! Z.to_nat i) as [c|] eqn:Hc; [|done].
  unfold binary_mask in Hbin. rewrite Forall_forall in Hbin.
  destruct (Hbin c (list_elem_of_lookup_2 _ _ _ Hc)) as [->| ->]; done.
Qed.

Lemma extruders_same mask W H thickness K :
  binary_mask mask →
  generate_triangles mask W H thickness K = generateTriangles thickness mask W H K.
Proof.
  intros Hbin. unfold generate_triangles, generateTriangles.
  apply for_range_ext. intros y acc Hy.
  apply for_range_ext. intros x tris Hx.
  assert (∀ x' y', 0 ≤ x' < W → 0 ≤ y' < H →
    ((x' <? 0) || (W <=? x') || (y' <? 0) || (H <=? y')) = false) as Hin.
  { intros x' y' Hx' Hy'. repeat (apply orb_false_iff; split); lia. }
  rewrite (Hin x y Hx Hy). rewrite (binary_cell mask (y * W + x) Hbin).
  destruct (negb match JS.get mask (y * W + x) with Some 1 => true | _ => false end); [done|].
  (* the four neighbours *)
  assert (((x =? 0) || cell_empty (JS.get mask (y * W + (x - 1))))
          = negb (if (x - 1 <? 0) || (W <=? x - 1) || (y <? 0) || (H <=? y) then false
                  else match JS.get mask (y * W + (x - 1)) with Some 1 => true | _ => false end))
    as ->.
  { destruct (Z.eqb_spec x 0) as [->|Hne]; [done|].
    rewrite (Hin (x - 1) y) by lia. by rewrite binary_cell. }
  assert (((x =? W - 1) || cell_empty (JS.get mask (y * W + (x + 1))))
          = negb (if (x + 1 <? 0) || (W <=? x + 1) || (y <? 0) || (H <=? y) then false
                  else match JS.get mask (y * W + (x + 1)) with Some 1 => true | _ => false end))
    as ->.
  { destruct (Z.eqb_spec x (W - 1)) as [->|Hne].
    - replace (W - 1 + 1 <? 0) with false by (symmetry; apply Z.ltb_ge; lia).
      replace (W <=? W - 1 + 1) with true by (symmetry; apply Z.leb_le; lia). done.
    - rewrite (Hin (x + 1) y) by lia. by rewrite binary_cell. }
  assert (((y =? H - 1) || cell_empty (JS.get mask ((y + 1) * W + x)))
          = negb (if (x <? 0) || (W <=? x) || (y + 1 <? 0) || (H <=? y + 1) then false
                  else match JS.get mask ((y + 1) * W + x) with Some 1 => true | _ => false end))
    as ->.
  { destruct (Z.eqb_spec y (H - 1)) as [->|Hne].
    - replace (x <? 0) with false by (symmetry; apply Z.ltb_ge; lia).
      replace (W <=? x) with false by (symmetry; apply Z.leb_gt; lia).
      replace (H - 1 + 1 <? 0) with false by (symmetry; apply Z.ltb_ge; lia).
      replace (H <=? H - 1 + 1) with true by (symmetry; apply Z.leb_le; lia). done.
    - rewrite (Hin x (y + 1)) by lia. by rewrite binary_cell. }
  assert (((y =? 0) || cell_empty (JS.get mask ((y - 1) * W + x)))
          = negb (if (x <? 0) || (W <=? x) || (y - 1 <? 0) || (H <=? y - 1) then false
                  else match JS.get mask ((y - 1) * W + x) with Some 1 => true | _ => false end))
    as ->.
  { destruct (Z.eqb_spec y 0) as [->|Hne].
    - replace (x <? 0) with false by (symmetry; apply Z.ltb_ge; lia).
      replace (W <=? x) with false by (symmetry; apply Z.leb_gt; lia). done.
    - rewrite (Hin x (y - 1)) by lia. by rewrite binary_cell. }
  reflexivity.
Qed.

(** C10: on every binary mask, of any width and height, and for every
    thickness and scale, the extrusion loops of [generate] (Node side) and
    [generateTriangles] (browser side) give the same triangles, with the same
    vertices, in the same order. *)
Theorem extruders_agree mask W H thickness K :
  binary_mask mask →
  generate_triangles mask W H thickness K = generateTriangles thickness mask W H K.
Proof. apply extruders_same. Qed.

Lemma extruders_agree_witness :
  generate_triangles [1; 1; 0; 1] 2 2 (JS.of_Z 2) (JS.of_Z 3)
  = generateTriangles (JS.of_Z 2) [1; 1; 0; 1] 2 2 (JS.of_Z 3).
Proof.
  apply (extruders_agree [1; 1; 0; 1] 2 2 (JS.of_Z 2) (JS.of_Z 3)).
  unfold binary_mask. repeat (constructor; [lia|]). constructor.
Defined.

(** Around the only foreground cell every neighbour is empty or outside. *)
Lemma single_cell_sides mask W H x0 y0 :
  single_cell mask W H x0 y0 →
  ((x0 =? 0) || cell_empty (JS.get mask (y0 * W + (x0 - 1)))) = true
  ∧ ((x0 =? W - 1) || cell_empty (JS.get mask (y0 * W + (x0 + 1)))) = true
  ∧ ((y0 =? H - 1) || cell_empty (JS.get mask ((y0 + 1) * W + x0))) = true
  ∧ ((y0 =? 0) || cell_empty (JS.get mask ((y0 - 1) * W + x0))) = true.
Proof.
  intros (_ & Hx & Hy & _ & Hrest). repeat split.
  - destruct (Z.eqb_spec x0 0); [done|]. by rewrite (Hrest (x0 - 1) y0) by lia.
  - destruct (Z.eqb_spec x0 (W - 1)); [done|]. by rewrite (Hrest (x0 + 1) y0) by lia.
  - destruct (Z.eqb_spec y0 (H - 1)); [done|]. by rewrite (Hrest x0 (y0 + 1)) by lia.
  - destruct (Z.eqb_spec y0 0); [done|]. by rewrite (Hrest x0 (y0 - 1)) by lia.
Qed.

Lemma single_cell_binary mask W H x0 y0 :
  single_cell mask W H x0 y0 → binary_mask mask.
Proof.
  intros (Hlen & Hx & Hy & Hone & Hrest).
  unfold binary_mask. rewrite Forall_forall. intros c Hc.
  apply list_elem_of_lookup in Hc. destruct Hc as [i Hi].
  pose proof (lookup_lt_Some _ _ _ Hi) as Hlt.
  pose proof (Z.div_mod (Z.of_nat i) W ltac:(lia)) as Hdm.
  pose proof (Z.mod_pos_bound (Z.of_nat i) W ltac:(lia)) as Hm.
  set (x := Z.of_nat i mod W) in *. set (y := Z.of_nat i / W) in *.
  assert (0 ≤ y < H) as Hyr by nia.
  assert (JS.get mask (y * W + x) = Some c) as Hget.
  { unfold JS.get. replace (y * W + x <? 0) with false by (symmetry; apply Z.ltb_ge; nia).
    replace (Z.to_nat (y * W + x)) with i by lia. exact Hi. }
  destruct (decide (x = x0 ∧ y = y0)) as [[Hxe Hye]|Hn].
  - rewrite Hxe, Hye, Hone in Hget. right. congruence.
  - rewrite (Hrest x y Hm Hyr) in Hget; [left; congruence|]. lia.
Qed.

(** C1: a mask whose only foreground cell is (x0, y0) is extruded, for every
    thickness and scale, to exactly 12 triangles: the 2 of the top face, the
    2 of the bottom face and the 2 of each of the four sides of the box over
    that cell; the browser-side extruder emits the same 12. *)
Theorem single_cell_twelve mask W H x0 y0 thickness K :
  single_cell mask W H x0 y0 →
  generate_triangles mask W H thickness K
  = top_face H thickness K x0 y0 ++ bottom_face H K x0 y0
    ++ left_side H thickness K x0 y0 ++ right_side H thickness K x0 y0
    ++ bottom_side H thickness K x0 y0 ++ top_side H thickness K x0 y0
  ∧ length (generate_triangles mask W H thickness K) = 12%nat
  ∧ length (generateTriangles thickness mask W H K) = 12%nat.
Proof.
  intros Hsingle.
  pose proof (single_cell_sides mask W H x0 y0 Hsingle) as (HL & HR & HB & HT).
  pose proof (single_cell_binary mask W H x0 y0 Hsingle) as Hbin.
  destruct Hsingle as (Hlen & Hx & Hy & Hone & Hrest).
  assert (generate_triangles mask W H thickness K = box H thickness K x0 y0) as Hbox.
  { unfold generate_triangles.
    rewrite (for_range_one H _ (box H thickness K x0 y0) [] y0); [|lia|].
    { replace ((0 <=? y0) && (y0 <? H)) with true by (symmetry; apply andb_true_iff; lia).
      reflexivity. }
    intros y acc Hyr. destruct (Z.eqb_spec y y0) as [->|Hne].
    - rewrite (for_range_one W _ (box H thickness K x0 y0) acc x0); [|lia|].
      { by replace ((0 <=? x0) && (x0 <? W)) with true
          by (symmetry; apply andb_true_iff; lia). }
      intros x tris Hxr. destruct (Z.eqb_spec x x0) as [->|Hnx].
      + assert (cell_empty (JS.get mask (y0 * W + x0)) = false) as ->
          by (rewrite Hone; reflexivity).
        rewrite HL, HR, HB, HT. unfold push, box, top_face, bottom_face, left_side,
          right_side, bottom_side, top_side, c00, c10, c11, c01, b00, b10, b11, b01,
          box_x0, box_x1, box_y0, box_y1.
        rewrite <- !app_assoc. reflexivity.
      + assert (cell_empty (JS.get mask (y0 * W + x)) = true) as ->
          by (rewrite (Hrest x y0) by lia; reflexivity).
        symmetry. apply app_nil_r.
    - rewrite (for_range_one W _ [] acc (-1)); [|lia|].
      { replace ((0 <=? -1) && (-1 <? W)) with false by reflexivity. reflexivity. }
      intros x tris Hxr.
      assert (cell_empty (JS.get mask (y * W + x)) = true) as ->
        by (rewrite (Hrest x y) by lia; reflexivity).
      destruct (x =? -1); symmetry; apply app_nil_r. }
  split; [exact Hbox|]. split; [rewrite Hbox; reflexivity|].
  rewrite <- extruders_same, Hbox; [reflexivity | exact Hbin].
Qed.

Lemma single_cell_twelve_witness :
  length (generate_triangles [0; 0; 0; 0; 1; 0] 3 2 (JS.of_Z 2) (JS.of_Z 1)) = 12%nat.
Proof.
  apply (single_cell_twelve [0; 0; 0; 0; 1; 0] 3 2 1 1 (JS.of_Z 2) (JS.of_Z 1)).
  unfold single_cell. split; [reflexivity|]. split; [lia|]. split; [lia|].
  split; [reflexivity|].
  intros x y Hx Hy Hne.
  assert (x = 0 ∨ x = 1 ∨ x = 2) as Hxs by lia.
  assert (y = 0 ∨ y = 1) as Hys by lia.
  destruct Hxs as [->|[->| ->]], Hys as [->| ->]; try reflexivity; lia.
Defined.


(** ** Resampler *)

(** [fill] on any dimensions: a negative one means a loop that does not
    run. *)
Lemma fill_spec_any W H f :
  length (fill W H f) = Z.to_nat (W * H) ∧
  ∀ x y, 0 ≤ x < W → 0 ≤ y < H → JS.get (fill W H f) (y * W + x) = Some (f x y).
Proof.
  destruct (Z_lt_le_dec H 0) as [HH|HH].
  { unfold fill. rewrite for_range_nonpos by lia. unfold JS.new_Uint8Array.
    rewrite length_replicate. split; [done | intros; lia]. }
  destruct (Z_lt_le_dec W 0) as [HW|HW]; [|by apply fill_spec].
  assert (fill W H f = JS.new_Uint8Array (W * H)) as ->.
  { unfold fill.
    apply (for_range_ind (λ _ mask, mask = JS.new_Uint8Array (W * H))); [done|done|].
    intros y acc _ ->. by rewrite for_range_nonpos by lia. }
  unfold JS.new_Uint8Array. rewrite length_replicate. split; [done | intros; lia].
Qed.

Lemma resample_loops_fill data W H T w h :
  resample_loops data W H T w h
  = fill w h (λ x2 y2,
      cell_of (sample data W (src_coord x2 W w) (src_coord y2 H h)) T).
Proof. reflexivity. Qed.

(** ** Size estimator *)

(** Row-major order: the cell at index [i] is the one of column [i mod W]
    and row [i / W]. *)
Lemma fill_as_map W H f :
  0 ≤ W → 0 ≤ H →
  fill W H f = (λ i, f (i mod W) (i / W)) <$> seqZ 0 (W * H).
Proof.
  intros HW HH. destruct (fill_spec W H f HW HH) as [Hl Hc].
  apply list_eq. intros i. rewrite list_lookup_fmap.
  destruct (decide (Z.of_nat i < W * H)) as [Hi|Hi].
  - rewrite lookup_seqZ_lt by done. simpl.
    assert (0 < W) as HWpos by nia.
    pose proof (Z.div_mod (Z.of_nat i) W ltac:(lia)) as Hdm.
    pose proof (Z.mod_pos_bound (Z.of_nat i) W HWpos) as Hm.
    assert (0 ≤ Z.of_nat i / W < H) as Hd.
    { split; [apply Z.div_pos; lia|]. apply Z.div_lt_upper_bound; lia. }
    specialize (Hc _ _ Hm Hd). unfold JS.get in Hc.
    replace (Z.of_nat i / W * W + Z.of_nat i mod W) with (Z.of_nat i) in Hc by lia.
    replace (Z.of_nat i <? 0) with false in Hc by (symmetry; apply Z.ltb_ge; lia).
    by rewrite Nat2Z.id in Hc.
  - rewrite lookup_seqZ_ge by lia. simpl. apply lookup_ge_None. lia.
Qed.

(** A counting loop over the rows and columns counts the indices of the
    row-major order. *)
Lemma count_loops W H (p : Z → Z → bool) :
  0 ≤ W → 0 ≤ H →
  JS.for_range H (λ y count,
    JS.for_range W (λ x count, if p x y then count + 1 else count) count) 0
  = Z.of_nat (length (filter (λ i, p (i mod W) (i / W) = true) (seqZ 0 (W * H)))).
Proof.
  intros HW HH.
  set (Q := λ i, p (i mod W) (i / W) = true).
  assert (∀ n, 0 ≤ n → filter Q (seqZ 0 (n + 1))
                       = filter Q (seqZ 0 n) ++ filter Q [n]) as Hsnoc.
  { intros n Hn. rewrite seqZ_app by lia. rewrite filter_app.
    rewrite (seqZ_cons _ 1) by lia. by rewrite (seqZ_nil _ (Z.pred 1)) by lia. }
  apply (for_range_ind (λ y count,
    count = Z.of_nat (length (filter Q (seqZ 0 (W * y)))))); [done| |].
  { by rewrite Z.mul_0_r. }
  intros y count Hy ->.
  replace (W * (y + 1)) with (W * y + W) by lia.
  apply (for_range_ind (λ x count,
    count = Z.of_nat (length (filter Q (seqZ 0 (W * y + x)))))); [done| |].
  { by rewrite Z.add_0_r. }
  intros x c Hx ->.
  replace (W * y + (x + 1)) with (W * y + x + 1) by lia.
  rewrite Hsnoc by nia. rewrite length_app.
  assert ((W * y + x) mod W = x) as Hm.
  { rewrite Z.add_comm, Z.mul_comm, Z.mod_add by lia. apply Z.mod_small. lia. }
  assert ((W * y + x) / W = y) as Hd.
  { rewrite Z.add_comm, Z.mul_comm, Z.div_add by lia. rewrite Z.div_small; lia. }
  destruct (p x y) eqn:Hp.
  - rewrite filter_cons_True by (unfold Q; by rewrite Hm, Hd). simpl. lia.
  - rewrite filter_cons_False by (unfold Q; rewrite Hm, Hd; congruence). simpl. lia.
Qed.

Lemma count_ones_fmap {A} (q : A → bool) (l : list A) :
  length (filter (λ c, c = 1) ((λ i, if q i then 1 else 0) <$> l))
  = length (filter (λ i, q i = true) l).
Proof.
  induction l as [|a l IH]; [done|].
  rewrite fmap_cons. destruct (q a) eqn:Hq.
  - rewrite !filter_cons_True by done. simpl. by rewrite IH.
  - rewrite !filter_cons_False by congruence. done.
Qed.

(** The counting loop of the estimator counts the foreground cells of the
    full-resolution mask. *)
Lemma count_black_mask data W H T :
  0 ≤ W → 0 ≤ H →
  count_black data W H T = foreground_count (createMask data W H T).
Proof.
  intros HW HH. unfold count_black, foreground_count.
  rewrite createMask_fill, fill_as_map by done.
  unfold cell_of.
  rewrite (count_ones_fmap
    (λ i, PrimFloat.ltb (gray (channels data ((i / W * W + i mod W) * 4))) T)).
  apply (count_loops W H (λ x y, PrimFloat.ltb (gray (channels data ((y * W + x) * 4))) T) HW HH).
Qed.


(** ** The pipeline *)

(** An invariant that does not depend on the counter holds after any loop,
    also one that does not run. *)
Lemma for_range_inv {S} (P : S → Prop) n (body : Z → S → S) s :
  P s → (∀ i acc, 0 ≤ i < n → P acc → P (body i acc)) →
  P (JS.for_range n body s).
Proof.
  intros Hs Hstep. destruct (Z_lt_le_dec n 0) as [Hn|Hn].
  - by rewrite for_range_nonpos by lia.
  - apply (for_range_ind (λ _ acc, P acc)); done.
Qed.

(** No foreground cell, no triangle. *)
Lemma generate_triangles_empty mask W H thickness K :
  Forall (λ c, c = 0) mask →
  generate_triangles mask W H thickness K = [].
Proof.
  intros Hzero. unfold generate_triangles.
  apply (for_range_inv (λ acc, acc = [])); [done|]. intros y acc _ ->.
  apply (for_range_inv (λ acc, acc = [])); [done|]. intros x acc _ ->.
  assert (cell_empty (JS.get mask (y * W + x)) = true) as ->; [|done].
  unfold JS.get. destruct (y * W + x <? 0); [done|].
  destruct (mask !! Z.to_nat (y * W + x)) as [c|] eqn:Hc; [|done].
  rewrite Forall_forall in Hzero.
  by rewrite (Hzero c (list_elem_of_lookup_2 _ _ _ Hc)).
Qed.

(** C4: when the mask [generate] builds has no foreground cell, the triangle
    sequence is empty, [generate] throws the error 'No black regions
    detected' and the files are as they were: nothing is written, in
    particular no 84-byte mesh without triangles. *)
Theorem empty_mask_error cfg env opts png fs mask maskW maskH :
  let threshold := default (THRESHOLD cfg) (opt_threshold opts) in
  let max_px :=
    resolve_max_px env opts (img_data png) (img_width png) (img_height png) threshold in
  generate_mask (img_data png) (img_width png) (img_height png) threshold max_px
    = Some (mask, maskW, maskH) →
  Forall (λ c, c = 0) mask →
  generate cfg env opts png fs = (inl NoBlackRegions, fs)
  ∧ ∀ thickness K, generate_triangles mask maskW maskH thickness K = [].
Proof.
  intros threshold max_px Hmask Hzero.
  split; [|intros; by apply generate_triangles_empty].
  unfold generate. fold threshold. fold max_px. rewrite Hmask.
  by rewrite generate_triangles_empty.
Qed.

Lemma empty_mask_error_witness :
  let png := {| img_width := 2; img_height := 1;
                img_data := [255; 255; 255; 255; 0; 0; 0; 0] |} in
  generate default_config no_environment tall_options png ∅ = (inl NoBlackRegions, ∅).
Proof.
  intros png.
  apply (empty_mask_error default_config no_environment tall_options png ∅ [0; 0] 2 1).
  - vm_compute. reflexivity.
  - repeat constructor.
Defined.

(** C5 at the failing input: for the 3 × 100 image with [height_mm = 100]
    and [max_px = 50] the mask is 2 × 50, the effective scale is
    1 · (3 / 2) = 1.5, and the model is 1.5 · 50 = 75 mm high although
    100 mm was asked for and is reported; the width 1.5 · 2 = 3 mm is the
    original one. *)
Theorem height_driven_scale_mismatch :
  let origW := img_width tall_image in
  let origH := img_height tall_image in
  let originalScale := original_scale default_config tall_options origW origH in
  ∃ mask,
    generate_mask (img_data tall_image) origW origH (JS.of_Z 128) (Some (JS.of_Z 50))
      = Some (mask, 2, 50)
    ∧ effective_scale originalScale origW 2 = 1.5%float
    ∧ PrimFloat.mul (effective_scale originalScale origW 2) (JS.of_Z 50) = 75%float
    ∧ PrimFloat.mul originalScale (JS.of_Z origH) = 100%float
    ∧ PrimFloat.mul (effective_scale originalScale origW 2) (JS.of_Z 2)
      = PrimFloat.mul originalScale (JS.of_Z origW).
Proof.
  eexists. split; [|by vm_compute].
  unfold generate_mask.
  replace (wants_downsample _ _ _) with true by (vm_compute; reflexivity).
  replace (dims_int _) with (Some (2, 50)) by (vm_compute; reflexivity).
  reflexivity.
Qed.

(** ** Little-endian integers and binary32 *)

Lemma le_value_le_bytes n v :
  0 ≤ v → le_value (le_bytes n v) = v mod 2 ^ (8 * Z.of_nat n).
Proof.
  revert v. induction n as [|n IH]; intros v Hv.
  - cbn [le_bytes le_value]. by rewrite Z.mul_0_r, Z.pow_0_r, Z.mod_1_r.
  - cbn [le_bytes le_value]. rewrite IH by (apply Z.div_pos; lia).
    replace (8 * Z.of_nat (S n)) with (8 + 8 * Z.of_nat n) by lia.
    rewrite Z.pow_add_r by lia. change (2 ^ 8) with 256.
    rewrite Z.rem_mul_r by (try apply Z.pow_nonzero; lia). done.
Qed.

(** What [round_fin] returns: the exponent, the range of the mantissa, and
    the distance to the value rounded, which is the value itself when no bit
    is dropped and at most half a unit of the last place otherwise. *)
Lemma round_fin_spec m e M q :
  F32.round_fin m e = (M, q) →
  q = Z.max (Z.log2 (Z.pos m) + 1 + e - 24) (-149)
  ∧ 0 ≤ M ≤ 2 ^ 24
  ∧ (-149 < q → 2 ^ 23 ≤ M)
  ∧ (q ≤ e → M = Z.pos m * 2 ^ (e - q))
  ∧ (e < q → 2 * Z.abs (M * 2 ^ (q - e) - Z.pos m) ≤ 2 ^ (q - e)).
Proof.
  unfold F32.round_fin.
  pose proof (bit_length m) as (Hd1 & Hlo & Hhi). cbv zeta in Hd1, Hlo, Hhi.
  set (d := Z.log2 (Z.pos m) + 1) in *.
  set (q0 := Z.max (d + e - 24) (-149)).
  destruct (Z.leb_spec q0 e) as [Hqe|Hqe]; intros [= <- <-].
  - (* no bit is dropped *)
    split; [done|].
    assert (0 < 2 ^ (e - q0)) as Hp by (apply pow2_pos; lia).
    assert (Z.pos m * 2 ^ (e - q0) < 2 ^ 24) as Hub.
    { apply Z.lt_le_trans with (2 ^ d * 2 ^ (e - q0)); [nia|].
      rewrite <- pow2_split by lia. apply pow2_le. lia. }
    split; [nia|]. split; [|split; [done | lia]].
    intros Hq. assert (q0 = d + e - 24) as Hq0 by lia.
    replace (e - q0) with (24 - d) by lia.
    apply Z.le_trans with (2 ^ (d - 1) * 2 ^ (24 - d)).
    + rewrite <- pow2_split by lia. apply pow2_le. lia.
    + assert (0 < 2 ^ (24 - d)) by (apply pow2_pos; lia). nia.
  - (* bits are dropped: k of them *)
    set (k := q0 - e) in *.
    assert (0 < k) as Hk by lia.
    assert (0 < 2 ^ k) as Hpk by (apply pow2_pos; lia).
    pose proof (Z.div_mod (Z.pos m) (2 ^ k) ltac:(lia)) as Hdm.
    pose proof (Z.mod_pos_bound (Z.pos m) (2 ^ k) Hpk) as Hr.
    set (lo := Z.pos m / 2 ^ k) in *. set (r := Z.pos m mod 2 ^ k) in *.
    assert (2 ^ k = 2 * 2 ^ (k - 1)) as Hhalf.
    { replace k with (1 + (k - 1)) at 1 by lia. rewrite pow2_split by lia. done. }
    set (half := 2 ^ (k - 1)) in *.
    assert (0 ≤ lo) as Hlo0 by (apply Z.div_pos; lia).
    assert (lo < 2 ^ 24) as Hlo24.
    { destruct (Z_lt_le_dec d k) as [Hdk|Hdk].
      - assert (2 ^ d ≤ 2 ^ k) by (apply pow2_le; lia).
        unfold lo. rewrite Z.div_small by lia. done.
      - apply Z.lt_le_trans with (2 ^ (d - k)).
        + apply Z.div_lt_upper_bound; [lia|]. rewrite <- pow2_split by lia.
          by replace (k + (d - k)) with d by lia.
        + apply pow2_le. lia. }
    set (up := (half <? r) || (r =? half) && Z.odd lo).
    split; [done|].
    split; [destruct up; lia|].
    split.
    + intros Hq. assert (k = d - 24) as Hkd by lia.
      assert (2 ^ 23 ≤ lo); [|destruct up; lia].
      apply Z.div_le_lower_bound; [lia|]. rewrite <- pow2_split by lia.
      by replace (k + 23) with (d - 1) by lia.
    + split; [lia|]. intros _. unfold up.
      destruct (Z.ltb_spec half r) as [Hgt|Hle]; cbn [orb].
      * lia.
      * destruct (Z.eqb_spec r half) as [Heq|Hne]; cbn [andb].
        -- destruct (Z.odd lo); lia.
        -- lia.
Qed.

Lemma pack_canonical s M q :
  0 ≤ M ≤ 2 ^ 24 → (-149 < q → 2 ^ 23 ≤ M) → -149 ≤ q →
  F32.canonical (F32.pack s (M, q)).
Proof.
  intros HM Hnorm Hq. unfold F32.pack.
  change (2 ^ 24) with 16777216 in *. change (2 ^ 23) with 8388608 in *.
  destruct (Z.eqb_spec M 16777216) as [->|Hne].
  - destruct (Z.ltb_spec 104 (q + 1)); cbn; [done|].
    change (2 ^ 24) with 16777216. change (2 ^ 23) with 8388608. right. lia.
  - destruct M as [|p|p]; [done| |done].
    destruct (Z.ltb_spec 104 q); cbn; [done|].
    change (2 ^ 24) with 16777216. change (2 ^ 23) with 8388608.
    destruct (Z_lt_le_dec (Z.pos p) 8388608); [left | right]; lia.
Qed.

(** The conversion to binary32 gives a datum of binary32. *)
Lemma of_sf_canonical x : F32.canonical (F32.of_sf x).
Proof.
  destruct x as [s|s| |s m e]; try done.
  unfold F32.of_sf. destruct (F32.round_fin m e) as [M q] eqn:Hr.
  apply round_fin_spec in Hr as (Hq & HM & Hnorm & _).
  apply pack_canonical; [done|done|lia].
Qed.

Lemma bits_range x : F32.canonical x → 0 ≤ F32.bits x < 2 ^ 32.
Proof.
  change (2 ^ 32) with 4294967296.
  destruct x as [s|s| |s m e]; unfold F32.canonical, F32.bits, F32.sign_bit;
    change (2 ^ 31) with 2147483648; change (2 ^ 23) with 8388608;
    change (2 ^ 22) with 4194304; change (2 ^ 24) with 16777216.
  - destruct s; lia.
  - destruct s; lia.
  - lia.
  - intros [[Hm ->]|[Hm He]].
    + replace (Z.pos m <? 8388608) with true by (symmetry; apply Z.ltb_lt; lia).
      destruct s; lia.
    + replace (Z.pos m <? 8388608) with false by (symmetry; apply Z.ltb_ge; lia).
      destruct s; lia.
Qed.

(** Decoding the 32 bits of a binary32 datum gives the datum back. *)
Lemma of_bits_bits x : F32.canonical x → F32.of_bits (F32.bits x) = x.
Proof.
  destruct x as [s|s| |s m e]; unfold F32.canonical.
  - intros _. by destruct s.
  - intros _. by destruct s.
  - done.
  - unfold F32.bits, F32.of_bits, F32.sign_bit.
    change (2 ^ 31) with 2147483648; change (2 ^ 23) with 8388608;
      change (2 ^ 24) with 16777216; change (2 ^ 8) with 256.
    intros [[Hm ->]|[Hm He]].
    + replace (Z.pos m <? 8388608) with true by (symmetry; apply Z.ltb_lt; lia).
      set (b := (if s then 2147483648 else 0) + Z.pos m).
      assert (b mod 8388608 = Z.pos m) as HF.
      { unfold b. destruct s.
        - replace (2147483648 + Z.pos m) with (Z.pos m + 256 * 8388608) by lia.
          rewrite Z.mod_add by lia. apply Z.mod_small. lia.
        - apply Z.mod_small. lia. }
      assert ((b / 8388608) mod 256 = 0) as HE.
      { unfold b. destruct s.
        - replace (2147483648 + Z.pos m) with (Z.pos m + 256 * 8388608) by lia.
          rewrite Z.div_add by lia. rewrite Z.div_small by lia. reflexivity.
        - rewrite Z.div_small by lia. reflexivity. }
      assert ((2147483648 <=? b) = s) as Hs.
      { unfold b. destruct s; [apply Z.leb_le | apply Z.leb_gt]; lia. }
      rewrite HE, HF, Hs. reflexivity.
    + replace (Z.pos m <? 8388608) with false by (symmetry; apply Z.ltb_ge; lia).
      set (b := (if s then 2147483648 else 0) + (e + 150) * 8388608 + (Z.pos m - 8388608)).
      assert (b mod 8388608 = Z.pos m - 8388608) as HF.
      { unfold b.
        replace ((if s then 2147483648 else 0) + (e + 150) * 8388608 + (Z.pos m - 8388608))
          with (Z.pos m - 8388608 + ((if s then 256 else 0) + (e + 150)) * 8388608)
          by (destruct s; lia).
        rewrite Z.mod_add by lia. apply Z.mod_small. lia. }
      assert (b / 8388608 = (if s then 256 else 0) + (e + 150)) as HD.
      { unfold b.
        replace ((if s then 2147483648 else 0) + (e + 150) * 8388608 + (Z.pos m - 8388608))
          with (Z.pos m - 8388608 + ((if s then 256 else 0) + (e + 150)) * 8388608)
          by (destruct s; lia).
        rewrite Z.div_add by lia. rewrite Z.div_small by lia. lia. }
      assert ((b / 8388608) mod 256 = e + 150) as HE.
      { rewrite HD. destruct s.
        - replace (256 + (e + 150)) with (e + 150 + 1 * 256) by lia.
          rewrite Z.mod_add by lia. apply Z.mod_small. lia.
        - apply Z.mod_small. lia. }
      assert ((2147483648 <=? b) = s) as Hs.
      { unfold b. destruct s; [apply Z.leb_le | apply Z.leb_gt]; lia. }
      rewrite HE, HF, Hs.
      replace (e + 150 =? 0) with false by (symmetry; apply Z.eqb_neq; lia).
      replace (e + 150 =? 255) with false by (symmetry; apply Z.eqb_neq; lia).
      replace (Z.pos m - 8388608 + 8388608) with (Z.pos m) by lia.
      f_equal. lia.
Qed.

(** Reading back the four bytes of a stored number gives its binary32
    conversion. *)
Lemma read_f32_le v : F32.of_bits (le_value (f32_le v)) = F32.of_number v.
Proof.
  unfold f32_le, F32.of_number.
  pose proof (of_sf_canonical (Prim2SF v)) as Hc.
  pose proof (bits_range _ Hc) as Hb.
  rewrite le_value_le_bytes by lia.
  change (8 * Z.of_nat 4) with 32. rewrite Z.mod_small by lia.
  by apply of_bits_bits.
Qed.

(** A magnitude rounded to an exponent above 104 is at least 2^128. *)
Lemma overflow_magnitude m e q :
  q = Z.max (Z.log2 (Z.pos m) + 1 + e - 24) (-149) → 104 < q →
  let t := Z.min e 103 in
  2 ^ 25 * 2 ^ (103 - t) ≤ Z.pos m * 2 ^ (e - t).
Proof.
  intros Hq Hbig t.
  pose proof (bit_length m) as (Hd1 & Hlo & _). cbv zeta in Hd1, Hlo.
  set (d := Z.log2 (Z.pos m) + 1) in *.
  assert (129 ≤ d + e) as Hde by lia.
  assert (0 < 2 ^ (e - t)) as Hp by (apply pow2_pos; lia).
  apply Z.le_trans with (2 ^ (d - 1) * 2 ^ (e - t)); [|nia].
  rewrite <- !pow2_split by lia. apply pow2_le. lia.
Qed.

(** The conversion to binary32 rounds to nearest. *)
Lemma of_sf_nearest x : f32_nearest x (F32.of_sf x).
Proof.
  destruct x as [s|s| |s m e]; try done.
  unfold F32.of_sf. destruct (F32.round_fin m e) as [M q] eqn:Hr.
  apply round_fin_spec in Hr as (Hq & HM & Hnorm & Hexact & Hhalf).
  unfold F32.pack, f32_nearest.
  change (2 ^ 24) with 16777216 in *. change (2 ^ 23) with 8388608 in *.
  change (2 ^ 25 - 1) with 33554431. 
  destruct (Z.eqb_spec M 16777216) as [->|Hne].
  - (* the mantissa carried into the 25th bit *)
    destruct (Z.ltb_spec 104 (q + 1)) as [Hbig|Hfit]; cbn.
    + split; [done|].
      destruct (Z_le_gt_dec q e) as [Hqe|Hqe].
      * specialize (Hexact Hqe).
        assert (0 < 2 ^ (e - q)) by (apply pow2_pos; lia).
        replace (Z.min e 103) with 103 by lia. change (2 ^ (103 - 103)) with 1.
        replace (e - 103) with ((e - q) + (q - 103)) by lia.
        rewrite pow2_split by lia.
        assert (2 ^ 1 ≤ 2 ^ (q - 103)) by (apply pow2_le; lia).
        change (2 ^ 1) with 2 in *. nia.
      * specialize (Hhalf ltac:(lia)).
        assert (2 ^ (q - e) = 2 * 2 ^ (q - e - 1)) as Hk.
        { replace (q - e) with (1 + (q - e - 1)) at 1 by lia.
          by rewrite pow2_split by lia. }
        assert (0 < 2 ^ (q - e - 1)) by (apply pow2_pos; lia).
        assert (33554431 * 2 ^ (q - e - 1) ≤ Z.pos m) as Hm by lia.
        destruct (Z_le_gt_dec e 103) as [He|He].
        -- replace (Z.min e 103) with e by lia.
           replace (e - e) with 0 by lia. rewrite Z.pow_0_r, Z.mul_1_r.
           assert (2 ^ (103 - e) ≤ 2 ^ (q - e - 1)) by (apply pow2_le; lia). nia.
        -- replace (Z.min e 103) with 103 by lia. change (2 ^ (103 - 103)) with 1.
           assert (0 < 2 ^ (e - 103)) by (apply pow2_pos; lia). nia.
    + split; [done|]. cbv zeta.
      destruct (Z_le_gt_dec q e) as [Hqe|Hqe].
      * specialize (Hexact Hqe).
        replace (Z.min e (q + 1 - 1)) with q by lia.
        replace (q + 1 - q) with 1 by lia. replace (q + 1 - 1 - q) with 0 by lia.
        rewrite <- Hexact. change (2 ^ 1) with 2. change (2 ^ 0) with 1. lia.
      * specialize (Hhalf ltac:(lia)).
        replace (Z.min e (q + 1 - 1)) with e by lia.
        replace (e - e) with 0 by lia. rewrite Z.pow_0_r, Z.mul_1_r.
        replace (q + 1 - 1 - e) with (q - e) by lia.
        replace (q + 1 - e) with (1 + (q - e)) by lia.
        rewrite pow2_split by lia. change (2 ^ 1) with 2.
        assert (0 < 2 ^ (q - e)) by (apply pow2_pos; lia). lia.
  - destruct M as [|p|p]; [| |lia].
    + (* rounded to zero *)
      split; [done|].
      assert (q = -149) as -> by lia.
      destruct (Z_le_gt_dec (-149) e) as [Hqe|Hqe].
      { specialize (Hexact Hqe). assert (0 < 2 ^ (e - -149)) by (apply pow2_pos; lia). nia. }
      specialize (Hhalf ltac:(lia)).
      assert (2 ^ (-149 - e) = 2 * 2 ^ (-150 - e)) as Hk.
      { replace (-149 - e) with (1 + (-150 - e)) by lia.
        by rewrite pow2_split by lia. }
      split; lia.
    + destruct (Z.ltb_spec 104 q) as [Hbig|Hfit]; cbn.
      * split; [done|].
        pose proof (overflow_magnitude m e q Hq Hbig) as Hov. cbv zeta in Hov.
        assert (0 < 2 ^ (103 - Z.min e 103)) by (apply pow2_pos; lia).
        change (2 ^ 25) with 33554432 in Hov. nia.
      * split; [done|]. cbv zeta.
        destruct (Z_le_gt_dec q e) as [Hqe|Hqe].
        -- specialize (Hexact Hqe).
           replace (Z.min e (q - 1)) with (q - 1) by lia.
           replace (q - (q - 1)) with 1 by lia. replace (q - 1 - (q - 1)) with 0 by lia.
           replace (e - (q - 1)) with (1 + (e - q)) by lia.
           rewrite pow2_split by lia. change (2 ^ 1) with 2. change (2 ^ 0) with 1.
           lia.
        -- specialize (Hhalf ltac:(lia)).
           replace (Z.min e (q - 1)) with e by lia.
           replace (e - e) with 0 by lia. rewrite Z.pow_0_r, Z.mul_1_r.
           assert (2 ^ (q - e) = 2 * 2 ^ (q - 1 - e)) as Hk.
           { replace (q - e) with (1 + (q - 1 - e)) by lia.
             by rewrite pow2_split by lia. }
           lia.
Qed.

(** ** Binary mesh serializer: the bytes written *)

Lemma length_le_bytes n v : length (le_bytes n v) = n.
Proof. revert v. induction n as [|n IH]; intros v; simpl; [done|]. by rewrite IH. Qed.

Lemma length_f32_le v : length (f32_le v) = 4%nat.
Proof. apply length_le_bytes. Qed.

Lemma write_at_written pre bytes n z :
  length bytes = n →
  write_at (pre ++ replicate (n + z) 0) (Z.of_nat (length pre)) bytes
  = Some (pre ++ bytes ++ replicate z 0).
Proof.
  intros <-. unfold write_at.
  replace ((0 <=? Z.of_nat (length pre))
           && (Z.of_nat (length pre) + Z.of_nat (length bytes)
               <=? Z.of_nat (length (pre ++ replicate (length bytes + z) 0))))
    with true.
  2:{ symmetry. apply andb_true_iff. rewrite length_app, length_replicate.
      split; [apply Z.leb_le | apply Z.leb_le]; lia. }
  rewrite Nat2Z.id. rewrite take_app_length.
  rewrite drop_app_add'. 2: done.
  rewrite replicate_add, drop_app_length'; [done|]. by rewrite length_replicate.
Qed.

Ltac step_bind := cbn [mbind option_bind].

Lemma put_float_written pre v z :
  put_float (written pre (4 + z)) v = Some (written (pre ++ f32_le v) z).
Proof.
  unfold put_float, written, writeFloatLE.
  change (le_bytes 4 (F32.bits (F32.of_number v))) with (f32_le v).
  rewrite (write_at_written pre (f32_le v) 4 z (length_f32_le v)). step_bind.
  rewrite <- app_assoc. rewrite length_app, length_f32_le.
  do 2 f_equal. lia.
Qed.

Lemma put_uint16_written pre z :
  put_uint16 (written pre (2 + z)) 0 = Some (written (pre ++ le_bytes 2 0) z).
Proof.
  unfold put_uint16, written, writeUInt16LE.
  replace ((0 <=? 0) && (0 <? 2 ^ 16)) with true by reflexivity.
  rewrite (write_at_written pre (le_bytes 2 0) 2 z (length_le_bytes 2 0)). step_bind.
  rewrite <- app_assoc. rewrite length_app, length_le_bytes.
  do 2 f_equal. lia.
Qed.

Lemma write_vertex_written pre v z :
  write_vertex (written pre (12 + z)) v
  = Some (written (pre ++ f32_le v.1.1 ++ f32_le v.1.2 ++ f32_le v.2) z).
Proof.
  unfold write_vertex.
  replace (12 + z)%nat with (4 + (4 + (4 + z)))%nat by lia.
  rewrite put_float_written. step_bind. rewrite put_float_written. step_bind.
  rewrite put_float_written. by rewrite <- !app_assoc.
Qed.

Lemma write_triangle_written pre tri z :
  write_triangle (written pre (50 + z)) tri
  = Some (written (pre ++ record_bytes tri) z).
Proof.
  unfold write_triangle, record_bytes, record_numbers.
  destruct tri as [[v0 v1] v2]. destruct (normal (v0, v1, v2)) as [[nxl nyl] nzl].
  replace (50 + z)%nat with (4 + (4 + (4 + (12 + (12 + (12 + (2 + z)))))))%nat by lia.
  rewrite put_float_written. step_bind. rewrite put_float_written. step_bind.
  rewrite put_float_written. step_bind. cbn [foldl]. step_bind.
  rewrite write_vertex_written. step_bind. rewrite write_vertex_written. step_bind.
  rewrite write_vertex_written. step_bind.
  rewrite put_uint16_written.
  rewrite !fmap_cons, fmap_nil. cbn [concat]. rewrite app_nil_r.
  by rewrite <- !app_assoc.
Qed.

Lemma length_record_bytes tri : length (record_bytes tri) = 50%nat.
Proof.
  unfold record_bytes, record_numbers.
  destruct tri as [[v0 v1] v2]. destruct (normal (v0, v1, v2)) as [[nxl nyl] nzl].
  rewrite !fmap_cons, fmap_nil. cbn [concat].
  rewrite !length_app, !length_f32_le, length_le_bytes. reflexivity.
Qed.

Lemma length_records triangles :
  length (concat (record_bytes <$> triangles)) = (50 * length triangles)%nat.
Proof.
  induction triangles as [|tri l IH]; [done|].
  rewrite fmap_cons. cbn [concat length].
  rewrite length_app, length_record_bytes, IH. lia.
Qed.

Lemma write_triangles_written triangles : ∀ pre z,
  foldl (λ st tri, st ← st; write_triangle st tri)
    (Some (written pre (50 * length triangles + z))) triangles
  = Some (written (pre ++ concat (record_bytes <$> triangles)) z).
Proof.
  induction triangles as [|tri l IH]; intros pre z.
  - cbn [foldl length fmap list_fmap concat]. rewrite app_nil_r.
    by replace (50 * 0 + z)%nat with z by lia.
  - cbn [foldl length]. step_bind.
    replace (50 * S (length l) + z)%nat with (50 + (50 * length l + z))%nat by lia.
    rewrite write_triangle_written, IH.
    rewrite fmap_cons. cbn [concat]. by rewrite <- app_assoc.
Qed.

Lemma length_write_chars chars : ∀ room, (length (write_chars room chars) ≤ room)%nat.
Proof.
  induction chars as [|c chars IH]; intros room; cbn [write_chars]; [cbn; lia|].
  destruct (Nat.leb_spec (length c) room) as [Hfit|Hno]; [|cbn; lia].
  rewrite length_app. specialize (IH (room - length c)%nat). lia.
Qed.

(** When all the characters fit, [buf.write] stores them all. *)
Lemma write_chars_all chars : ∀ room,
  (length (concat chars) ≤ room)%nat → write_chars room chars = concat chars.
Proof.
  induction chars as [|c chars IH]; intros room Hfit; [done|].
  cbn [concat] in *. rewrite length_app in Hfit. cbn [write_chars].
  destruct (Nat.leb_spec (length c) room) as [_|Hno]; [|lia].
  by rewrite IH by lia.
Qed.

Lemma length_header_bytes name : length (header_bytes name) = 80%nat.
Proof.
  unfold header_bytes. cbv zeta. rewrite length_app, length_replicate.
  pose proof (length_write_chars (utf8 (JS.substring name 80)) 80). lia.
Qed.

(** The header of a name whose encoding fits 80 bytes: the encoding, then
    zeros. *)
Lemma header_bytes_encoded name :
  Z.of_nat (length (encoded_name name)) ≤ 80 →
  header_bytes name
  = encoded_name name ++ replicate (80 - length (encoded_name name)) 0.
Proof.
  intros Hfit. unfold header_bytes, encoded_name in *. cbv zeta.
  by rewrite write_chars_all by lia.
Qed.

(** The encoding of an ASCII name is the name: one byte for each of its
    first 80 characters. *)
Lemma code_points_ascii s : Forall (λ c, 0 ≤ c < 128) s → code_points s = s.
Proof.
  induction 1 as [|c s Hc _ IH]; [done|]. cbn [code_points].
  replace (55296 <=? c) with false by (symmetry; apply Z.leb_gt; lia).
  replace (56320 <=? c) with false by (symmetry; apply Z.leb_gt; lia).
  cbn [andb]. by rewrite IH.
Qed.

Lemma encoded_ascii name :
  Forall (λ c, 0 ≤ c < 128) name → encoded_name name = take 80 name.
Proof.
  intros Hascii. unfold encoded_name, utf8, JS.substring.
  assert (Forall (λ c, 0 ≤ c < 128) (take 80 name)) as Htake by (by apply Forall_take).
  rewrite code_points_ascii by done.
  induction Htake as [|c s Hc _ IH]; [done|].
  rewrite fmap_cons. cbn [concat]. rewrite IH. unfold utf8_bytes.
  by replace (c <? 128) with true by (symmetry; apply Z.ltb_lt; lia).
Qed.

(** The header of an ASCII name: its first 80 characters, then zeros. *)
Lemma header_bytes_ascii name :
  Forall (λ c, 0 ≤ c < 128) name →
  header_bytes name = take 80 name ++ replicate (80 - length (take 80 name)) 0.
Proof.
  intros Hascii. pose proof (encoded_ascii name Hascii) as Henc.
  rewrite header_bytes_encoded; rewrite Henc; [done|].
  rewrite length_take. lia.
Qed.

(** The stores of the two serializers fill the buffer with the header, the
    count and the records, in this order; the browser's throws instead for
    a name whose encoding does not fit the header. *)
Lemma serializer_bytes triangles name :
  Z.of_nat (length triangles) < 2 ^ 32 →
  meshTrianglesToBinarySTL triangles name = Some (stl_bytes triangles name)
  ∧ (Z.of_nat (length (encoded_name name)) ≤ 80 →
     trianglesToBinarySTL triangles name = Some (stl_bytes triangles name))
  ∧ (80 < Z.of_nat (length (encoded_name name)) →
     trianglesToBinarySTL triangles name = None).
Proof.
  intros HN. set (N := length triangles).
  assert (Z.to_nat (80 + 4 + Z.of_nat N * 50) = (80 + (4 + (50 * N + 0)))%nat) as Hsize by lia.
  assert (write_at (replicate (80 + (4 + (50 * N + 0))) 0) 0 (header_bytes name)
          = Some (header_bytes name ++ replicate (4 + (50 * N + 0)) 0)) as Hhead.
  { pose proof (write_at_written [] (header_bytes name) 80 (4 + (50 * N + 0))
                  (length_header_bytes name)) as Hw.
    rewrite app_nil_l in Hw. exact Hw. }
  assert (write_at (header_bytes name ++ replicate (4 + (50 * N + 0)) 0) 80
            (le_bytes 4 (Z.of_nat N))
          = Some (header_bytes name ++ le_bytes 4 (Z.of_nat N)
                  ++ replicate (50 * N + 0) 0)) as Hcount.
  { pose proof (write_at_written (header_bytes name) (le_bytes 4 (Z.of_nat N)) 4
                  (50 * N + 0) (length_le_bytes 4 _)) as Hw.
    by rewrite length_header_bytes in Hw. }
  assert ((header_bytes name ++ le_bytes 4 (Z.of_nat N) ++ replicate (50 * N + 0) 0, 84)
          = written (header_bytes name ++ le_bytes 4 (Z.of_nat N)) (50 * N + 0)) as Hst.
  { unfold written. rewrite <- app_assoc. f_equal.
    rewrite length_app, length_header_bytes, length_le_bytes. reflexivity. }
  split; [|split].
  - unfold meshTrianglesToBinarySTL. fold N. rewrite Hsize, Hhead. step_bind.
    unfold writeUInt32LE.
    replace ((0 <=? Z.of_nat N) && (Z.of_nat N <? 2 ^ 32)) with true
      by (symmetry; apply andb_true_iff; split; [apply Z.leb_le | apply Z.ltb_lt]; lia).
    rewrite Hcount. step_bind. rewrite Hst.
    unfold N. rewrite write_triangles_written. step_bind.
    unfold written, stl_bytes. cbn [fst]. by rewrite app_nil_r, <- app_assoc.
  - intros Hfit. unfold trianglesToBinarySTL. fold N. rewrite Hsize. cbv zeta.
    set (nameBytes := encoded_name name) in *.
    assert (set_bytes (replicate (80 + (4 + (50 * N + 0))) 0) 80 nameBytes
            = Some (header_bytes name ++ replicate (4 + (50 * N + 0)) 0)) as Hset.
    { unfold set_bytes.
      replace (Z.of_nat (length nameBytes) <=? 80) with true
        by (symmetry; apply Z.leb_le; lia).
      pose proof (write_at_written [] nameBytes (length nameBytes)
                    ((80 - length nameBytes) + (4 + (50 * N + 0))) eq_refl) as Hw.
      rewrite app_nil_l in Hw. cbn [length] in Hw. change (Z.of_nat 0) with 0 in Hw.
      replace (length nameBytes + (80 - length nameBytes + (4 + (50 * N + 0))))%nat
        with (80 + (4 + (50 * N + 0)))%nat in Hw by lia.
      rewrite Hw. f_equal. rewrite header_bytes_encoded by done. fold nameBytes.
      by rewrite replicate_add, <- !app_assoc. }
    rewrite Hset. step_bind.
    unfold setUint32. rewrite Z.mod_small by lia.
    rewrite Hcount. step_bind. rewrite Hst.
    unfold N. rewrite write_triangles_written. step_bind.
    unfold written, stl_bytes. cbn [fst]. by rewrite app_nil_r, <- app_assoc.
  - intros Hlong. unfold trianglesToBinarySTL, set_bytes. cbv zeta.
    replace (Z.of_nat (length (encoded_name name)) <=? 80) with false
      by (symmetry; apply Z.leb_gt; lia).
    reflexivity.
Qed.

Lemma length_concat_uniform {A} (c : nat) (chunks : list (list A)) :
  Forall (λ l, length l = c) chunks →
  length (concat chunks) = (c * length chunks)%nat.
Proof.
  induction 1 as [|l chunks Hl _ IH]; [cbn; lia|].
  cbn [concat length]. rewrite length_app, Hl, IH. lia.
Qed.

(** ** Binary mesh serializer: the layout read back *)

Lemma drop_concat_chunks {A} (c : nat) (chunks : list (list A)) : ∀ i,
  Forall (λ l, length l = c) chunks →
  drop (c * i) (concat chunks) = concat (drop i chunks).
Proof.
  induction chunks as [|l chunks IH]; intros i Hall.
  - cbn [concat]. by rewrite !drop_nil.
  - destruct i as [|i].
    + by rewrite Nat.mul_0_r.
    + apply Forall_cons in Hall as [Hl Hall]. cbn [concat drop].
      replace (c * S i)%nat with (length l + c * i)%nat by lia.
      rewrite drop_app_add'; [|done]. by apply IH.
Qed.

(** The chunk at index [i] starts at [c * i]. *)
Lemma drop_concat_lookup {A} (c : nat) (chunks : list (list A)) i l :
  Forall (λ l, length l = c) chunks → chunks !! i = Some l →
  ∃ rest, drop (c * i) (concat chunks) = l ++ rest.
Proof.
  intros Hall Hi. rewrite drop_concat_chunks by done.
  rewrite (drop_S _ _ _ Hi). cbn [concat]. by eexists.
Qed.

Lemma records_uniform triangles :
  Forall (λ l, length l = 50%nat) (record_bytes <$> triangles).
Proof.
  apply Forall_fmap, Forall_forall. intros tri _. apply length_record_bytes.
Qed.

Lemma numbers_uniform (numbers : list JS.number) :
  Forall (λ l, length l = 4%nat) (f32_le <$> numbers).
Proof.
  apply Forall_fmap, Forall_forall. intros v _. apply length_f32_le.
Qed.

Lemma length_record_numbers tri : length (record_numbers tri) = 12%nat.
Proof.
  unfold record_numbers. destruct tri as [[v0 v1] v2].
  by destruct (normal (v0, v1, v2)) as [[nxl nyl] nzl].
Qed.

(** What the file holds at the record of the triangle of index [i]. *)
Lemma stl_bytes_record triangles name i tri :
  triangles !! i = Some tri →
  ∃ rest, drop (84 + 50 * i) (stl_bytes triangles name) = record_bytes tri ++ rest.
Proof.
  intros Hi. unfold stl_bytes.
  rewrite app_assoc.
  replace (84 + 50 * i)%nat
    with (length (header_bytes name ++ le_bytes 4 (Z.of_nat (length triangles))) + 50 * i)%nat
    by (rewrite length_app, length_header_bytes, length_le_bytes; lia).
  rewrite drop_app_add'; [|done].
  apply (drop_concat_lookup 50 _ i); [apply records_uniform|].
  by rewrite list_lookup_fmap, Hi.
Qed.

(** C3: for N < 2^32 triangles (an array holds no more) and every name, the
    serializer returns a buffer of exactly 84 + 50·N bytes whose bytes 80–83
    hold N as an unsigned 32-bit little-endian integer; the record of the
    triangle of index i is the 50 bytes from offset 84 + 50·i: twelve
    little-endian binary32 numbers, the normal and then the coordinates of
    v0, v1 and v2 in order, followed by a 16-bit field equal to 0.  Each of
    the twelve re-decodes to the binary32 rounding of the number stored:
    within half a unit of the last place of the original coordinate (and a
    [NaN] re-decodes to [NaN]).  The 50 bytes themselves are the ones given
    by [record_bytes] when none of the twelve numbers is [NaN].  The
    browser-side serializer writes the same bytes when the UTF-8 encoding of
    the first 80 code units of the name fits the 80-byte header, and throws
    otherwise.  For an ASCII name the header is its first 80 characters
    followed by zeros. *)
Theorem serializer_layout triangles name :
  Z.of_nat (length triangles) < 2 ^ 32 →
  ∃ buf,
    meshTrianglesToBinarySTL triangles name = Some buf
    ∧ (Z.of_nat (length (encoded_name name)) ≤ 80 →
       trianglesToBinarySTL triangles name = Some buf)
    ∧ (80 < Z.of_nat (length (encoded_name name)) →
       trianglesToBinarySTL triangles name = None)
    ∧ Z.of_nat (length buf) = 84 + 50 * Z.of_nat (length triangles)
    ∧ (Forall (λ c, 0 ≤ c < 128) name →
       take 80 buf = take 80 name ++ replicate (80 - length (take 80 name)) 0)
    ∧ readUInt32LE buf 80 = Z.of_nat (length triangles)
    ∧ ∀ i tri, triangles !! i = Some tri →
        let offset := 84 + 50 * Z.of_nat i in
        (Forall (λ value, PrimFloat.is_nan value = false) (record_numbers tri) →
         take 50 (drop (Z.to_nat offset) buf) = record_bytes tri)
        ∧ (∀ k value, record_numbers tri !! k = Some value →
             readFloatLE buf (offset + 4 * Z.of_nat k) = F32.of_number value
             ∧ f32_nearest (Prim2SF value) (readFloatLE buf (offset + 4 * Z.of_nat k)))
        ∧ readUInt16LE buf (offset + 48) = 0.
Proof.
  intros HN. destruct (serializer_bytes triangles name HN) as (Hnode & Hbrowser & Hthrow).
  exists (stl_bytes triangles name).
  split; [done|]. split; [done|]. split; [done|]. split.
  { unfold stl_bytes.
    rewrite !length_app, length_header_bytes, length_le_bytes, length_records. lia. }
  split.
  { intros Hascii. unfold stl_bytes.
    rewrite take_app_length' by (symmetry; apply length_header_bytes).
    by apply header_bytes_ascii. }
  split.
  { unfold readUInt32LE, stl_bytes.
    replace (Z.to_nat 80) with (length (header_bytes name))
      by (by rewrite length_header_bytes).
    rewrite drop_app_length.
    rewrite take_app_length' by (symmetry; apply length_le_bytes).
    rewrite le_value_le_bytes by lia.
    change (8 * Z.of_nat 4) with 32. apply Z.mod_small. lia. }
  intros i tri Hi offset.
  destruct (stl_bytes_record triangles name i tri Hi) as [rest Hrec].
  assert (Z.to_nat offset = (84 + 50 * i)%nat) as Hoff by (unfold offset; lia).
  split.
  { intros _. rewrite Hoff, Hrec. apply take_app_length'. symmetry.
    apply length_record_bytes. }
  split.
  - intros k value Hk.
    assert (take 4 (drop (Z.to_nat (offset + 4 * Z.of_nat k)) (stl_bytes triangles name))
            = f32_le value) as Hread.
    { replace (Z.to_nat (offset + 4 * Z.of_nat k)) with ((84 + 50 * i) + 4 * k)%nat
        by (unfold offset; lia).
      rewrite <- drop_drop, Hrec. unfold record_bytes.
      destruct (drop_concat_lookup 4 (f32_le <$> record_numbers tri) k (f32_le value))
        as [rest' Hnum]; [apply numbers_uniform | by rewrite list_lookup_fmap, Hk |].
      pose proof (lookup_lt_Some _ _ _ Hk) as Hlt. rewrite length_record_numbers in Hlt.
      rewrite <- app_assoc, drop_app_le.
      2:{ rewrite (length_concat_uniform 4) by apply numbers_uniform.
          rewrite length_fmap, length_record_numbers. lia. }
      rewrite Hnum, <- app_assoc. apply take_app_length'. symmetry. apply length_f32_le. }
    unfold readFloatLE. rewrite Hread, read_f32_le.
    split; [done|]. apply of_sf_nearest.
  - unfold readUInt16LE.
    replace (Z.to_nat (offset + 48)) with ((84 + 50 * i) + 48)%nat by (unfold offset; lia).
    rewrite <- drop_drop, Hrec. unfold record_bytes. rewrite <- app_assoc.
    rewrite drop_app_length'.
    2:{ rewrite (length_concat_uniform 4) by apply numbers_uniform.
        by rewrite length_fmap, length_record_numbers. }
    rewrite take_app_length' by (symmetry; apply length_le_bytes). reflexivity.
Qed.

Lemma serializer_layout_witness :
  ∃ buf, meshTrianglesToBinarySTL (top_face 1 (JS.of_Z 2) (JS.of_Z 3) 0 0) "extruded" = Some buf
         ∧ trianglesToBinarySTL (top_face 1 (JS.of_Z 2) (JS.of_Z 3) 0 0) "extruded" = Some buf
         ∧ Z.of_nat (length buf) = 184
         ∧ readUInt32LE buf 80 = 2.
Proof.
  destruct (serializer_layout (top_face 1 (JS.of_Z 2) (JS.of_Z 3) 0 0) "extruded")
    as (buf & Hnode & Hweb & _ & Hlen & _ & Hcount & _).
  { cbn [top_face length]. lia. }
  exists buf. split; [exact Hnode|]. split; [|split; [exact Hlen | exact Hcount]].
  apply Hweb. vm_compute. congruence.
Defined.

(** ** The normal of a degenerate triangle *)

(** C6 does not hold as it is written: for the three collinear points
    (0,0,0), (1,0,0), (2,0,0) the normal that is computed and written to the
    file is the zero vector (0,0,0). *)
Lemma zero_normal_emitted :
  normal collinear = (PrimFloat.zero, PrimFloat.zero, PrimFloat.zero)
  ∧ ∃ buf, meshTrianglesToBinarySTL [collinear] "extruded" = Some buf
           ∧ readFloatLE buf 84 = S754_zero false
           ∧ readFloatLE buf 88 = S754_zero false
           ∧ readFloatLE buf 92 = S754_zero false.
Proof.
  split; [vm_compute; reflexivity|].
  eexists. split; [vm_compute; reflexivity|].
  split; [vm_compute; reflexivity|]. split; vm_compute; reflexivity.
Qed.

Lemma normal_length_guard n :
  PrimFloat.is_zero (normal_length n) = false
  ∧ PrimFloat.is_nan (normal_length n) = false
  ∧ (PrimFloat.is_zero (JS.Math_sqrt (squared_length n)) = true →
     normal_length n = JS.of_Z 1).
Proof.
  destruct n as [[nx ny] nz]. unfold normal_length, squared_length, JS.or_else, JS.truthy.
  set (len := JS.Math_sqrt _).
  destruct (PrimFloat.is_nan len) eqn:Hnan, (PrimFloat.is_zero len) eqn:Hzero;
    cbn [orb negb]; repeat split; try done; try (intros; reflexivity).
Qed.

(** C6 as amended: for every triangle the length that divides the cross
    product is never zero (nor NaN): a zero length is replaced by 1 before
    the division; and when the cross product is the zero vector, the normal
    written is that zero vector: each of its three components is stored as a
    binary32 zero. *)
Theorem degenerate_normal tri :
  PrimFloat.is_zero (normal_length (cross tri)) = false
  ∧ PrimFloat.is_nan (normal_length (cross tri)) = false
  ∧ (PrimFloat.is_zero (JS.Math_sqrt (squared_length (cross tri))) = true →
     normal_length (cross tri) = JS.of_Z 1)
  ∧ (is_a_zero (cross tri).1.1 → is_a_zero (cross tri).1.2 → is_a_zero (cross tri).2 →
     normal_length (cross tri) = JS.of_Z 1
     ∧ normal tri = cross tri
     ∧ ∃ sx sy sz,
         F32.of_number (normal tri).1.1 = S754_zero sx
         ∧ F32.of_number (normal tri).1.2 = S754_zero sy
         ∧ F32.of_number (normal tri).2 = S754_zero sz).
Proof.
  destruct (normal_length_guard (cross tri)) as (Hz & Hn & Hone).
  split; [done|]. split; [done|]. split; [done|].
  unfold normal. destruct (cross tri) as [[nx ny] nz]. cbn [fst snd].
  intros [-> | ->] [-> | ->] [-> | ->];
    (split; [vm_compute; reflexivity|]); (split; [vm_compute; reflexivity|]).
  - exists false, false, false. repeat split; vm_compute; reflexivity.
  - exists false, false, true. repeat split; vm_compute; reflexivity.
  - exists false, true, false. repeat split; vm_compute; reflexivity.
  - exists false, true, true. repeat split; vm_compute; reflexivity.
  - exists true, false, false. repeat split; vm_compute; reflexivity.
  - exists true, false, true. repeat split; vm_compute; reflexivity.
  - exists true, true, false. repeat split; vm_compute; reflexivity.
  - exists true, true, true. repeat split; vm_compute; reflexivity.
Qed.

Lemma degenerate_normal_witness :
  normal_length (cross collinear) = JS.of_Z 1 ∧ normal collinear = cross collinear.
Proof.
  destruct (degenerate_normal collinear) as (_ & _ & _ & Hzero).
  destruct Hzero as (Hone & Hsame & _).
  - left. vm_compute. reflexivity.
  - left. vm_compute. reflexivity.
  - left. vm_compute. reflexivity.
  - split; [exact Hone | exact Hsame].
Defined.

(** ** Resampler: the mask of [generate] *)

(** What the guard of the resampler and the clamp of the budget do on a
    whole budget. *)
Lemma whole_budget W H M :
  1 ≤ W < 2 ^ 53 → 1 ≤ H < 2 ^ 53 → 1 ≤ M < 2 ^ 53 →
  wants_downsample (Some (JS.of_Z M)) W H = (M <? Z.max W H)
  ∧ JS.Math_max (JS.of_Z 1) (JS.Math_floor (JS.of_Z M)) = JS.of_Z M.
Proof.
  intros HW HH HM.
  destruct (of_Z_facts M ltac:(lia)) as (Hnan & Hzero & Hfin & _ & Hfloor).
  destruct (of_Z_facts 1 ltac:(lia)) as (Hnan1 & _).
  split.
  - unfold wants_downsample, JS.truthy. rewrite Hnan, Hzero, Hfin.
    replace (M =? 0) with false by (symmetry; apply Z.eqb_neq; lia).
    cbn [orb negb andb]. apply ltb_of_Z; lia.
  - rewrite Hfloor. unfold JS.Math_max. rewrite Hnan, Hnan1. cbn [orb].
    rewrite !ltb_of_Z by lia.
    destruct (Z.ltb_spec 1 M) as [|Hle]; [done|].
    assert (M = 1) as -> by lia. reflexivity.
Qed.


(** ** Examples *)

(** Two cells side by side share a wall: 20 triangles, not 24. *)
Example two_cells_twenty :
  length (generate_triangles [1; 1] 2 1 (JS.of_Z 2) (JS.of_Z 1)) = 20%nat.
Proof. vm_compute. reflexivity. Qed.

(** An 11 × 22 image with a budget of 15 pixels: 15 / 22 is not exact in
    binary64 and 11 · (15 / 22) falls just below 7.5, so the mask is 7 cells
    wide. *)
Example mask_width_11_22_15 :
  resample_dims 11 22 (JS.of_Z 15) = (JS.of_Z 7, JS.of_Z 15).
Proof. vm_compute. reflexivity. Qed.

(** The conversion to binary32 agrees with the rounding of the Standard
    Library's specification of IEEE 754 at 24 bits of precision. *)
Example of_sf_binary_round :
  Forall (λ x, match Prim2SF x with
               | S754_finite s m e => F32.of_sf (Prim2SF x) = binary_round 24 128 s m e
               | _ => True
               end)
    [0x1.999999999999ap-4; 0x1.0eeeeeee5c54fp-2; 0x1p-149; 0x1p-150; 0x1.8p-150;
     0x1.fffffefp+127; 0x1.ffffffp+127; 0x1p+128; 0x1.000001p+24; 0x1.000003p+24;
     (-0x1.5p+3)]%float.
Proof. repeat constructor. Qed.

(** The start of the record of the first triangle of the top face of the
    1 × 1 mask: the normal computed from its vertex order is (0, 0, -1), and
    the first coordinate of [c01] is 0. *)
Example first_record :
  (λ buf, take 16 (drop 84 buf))
    <$> meshTrianglesToBinarySTL [(c01 1 (JS.of_Z 2) (JS.of_Z 3) 0 0,
                                   c11 1 (JS.of_Z 2) (JS.of_Z 3) 0 0,
                                   c10 1 (JS.of_Z 2) (JS.of_Z 3) 0 0)] "extruded"
  = Some [0; 0; 0; 0; 0; 0; 0; 0; 0; 0; 128; 191; 0; 0; 0; 0].
Proof. vm_compute. reflexivity. Qed.

(** A budget that is not a whole number is floored before it is used, and a
    budget of 0 counts as none: on a 10 × 10 image, 7.5 gives the 7 × 7
    mask of 7, and 0 leaves the resolution as it is. *)
Example budget_floored :
  let data := replicate 400 40 in
  generate_mask data 10 10 (JS.of_Z 128) (Some 7.5%float)
  = generate_mask data 10 10 (JS.of_Z 128) (Some (JS.of_Z 7))
  ∧ (∃ mask, generate_mask data 10 10 (JS.of_Z 128) (Some 7.5%float) = Some (mask, 7, 7))
  ∧ generate_mask data 10 10 (JS.of_Z 128) (Some (JS.of_Z 0))
    = Some (generate_full_mask data 10 10 (JS.of_Z 128)).
Proof.
  split; [vm_compute; reflexivity|]. split; [|vm_compute; reflexivity].
  eexists. vm_compute. reflexivity.
Qed.

(** A name of 79 letters [a] followed by [é] (U+00E9) takes 81 bytes in
    UTF-8.  [header.write] leaves out the character that does not fit, so
    the last byte of the header stays 0; the browser's [headerArray.set]
    throws a [RangeError]. *)
Example name_longer_than_header :
  let name := replicate 79 97 ++ [233] in
  length (encoded_name name) = 81%nat
  ∧ header_bytes name = replicate 79 97 ++ [0]
  ∧ meshTrianglesToBinarySTL [] name = Some (replicate 79 97 ++ [0; 0; 0; 0; 0])
  ∧ trianglesToBinarySTL [] name = None.
Proof. repeat split; vm_compute; reflexivity. Qed.

(** A 1 × 1 image of one opaque black pixel, to be written at a path whose
    directory does not exist: [fs.writeFileSync] throws. *)
Example unwritable_output :
  let png := {| img_width := 1; img_height := 1; img_data := [0; 0; 0; 255] |} in
  let opts :=
    {| opt_output := Some "no_such_dir/x.stl"; opt_thickness := None;
       opt_threshold := None; opt_scale := None; opt_width_mm := None;
       opt_height_mm := None; opt_max_px := None; opt_target_size_mb := None |} in
  let fs :=
    {| stored := ∅;
       writable := λ path, negb (String.eqb path "no_such_dir/x.stl") |} in
  generate default_config no_environment opts png fs = (inl SystemError, fs).
Proof. vm_compute. reflexivity. Qed.

(** ** More of binary64 *)

(** The mantissa and exponent of a finite binary64 datum: the exponent is
    within range, and above the least exponent the mantissa has 53 bits. *)
Lemma valid_finite x s m e :
  Prim2SF x = S754_finite s m e →
  -1074 ≤ e ≤ 971 ∧ Z.pos (digits2_pos m) ≤ 53
  ∧ (-1074 < e → Z.pos (digits2_pos m) = 53).
Proof.
  intros Hx. pose proof (Prim2SF_valid x) as Hv. rewrite Hx in Hv.
  cbn [valid_binary] in Hv. unfold bounded, canonical_mantissa in Hv.
  apply andb_true_iff in Hv as [Hc He]. apply Z.eqb_eq in Hc. apply Z.leb_le in He.
  unfold fexp, SpecFloat.emin, prec, emax in *. lia.
Qed.

(** A number that is truthy and finite has a mantissa and an exponent. *)
Lemma truthy_finite x :
  JS.truthy x = true → JS.isFinite x = true →
  ∃ s m e, Prim2SF x = S754_finite s m e.
Proof.
  unfold JS.truthy, JS.isFinite, PrimFloat.is_finite, PrimFloat.is_zero,
    PrimFloat.is_infinity, PrimFloat.is_nan.
  rewrite !FloatAxioms.eqb_spec, abs_spec.
  change (Prim2SF PrimFloat.zero) with (S754_zero false).
  change (Prim2SF PrimFloat.infinity) with (S754_infinity false).
  destruct (Prim2SF x) as [s|s| |s m e]; [by destruct s|by destruct s|done|].
  intros _ _. by exists s, m, e.
Qed.

(** A positive datum with exponent 0 is its mantissa. *)
Lemma finite_whole x m :
  Prim2SF x = S754_finite false m 0 → x = JS.of_Z (Z.pos m) ∧ 2 ^ 52 ≤ Z.pos m < 2 ^ 53.
Proof.
  intros Hx. destruct (valid_finite x _ _ _ Hx) as (_ & _ & Hd).
  specialize (Hd ltac:(lia)).
  pose proof (valid_mantissa x _ _ _ Hx) as Hlt.
  split.
  - apply Prim2SF_inj. rewrite Hx, prim_of_Z_pos by done.
    unfold int_sf. by rewrite Hd.
  - split; [|done]. rewrite digits2_log2 in Hd.
    pose proof (bit_length m) as Hb. cbv zeta in Hb.
    replace (Z.log2 (Z.pos m) + 1 - 1) with 52 in Hb by lia. lia.
Qed.

(** A negative number is below every whole number of [0, 2^53). *)
Lemma negative_below x m e b :
  Prim2SF x = S754_finite true m e → 0 ≤ b < 2 ^ 53 →
  PrimFloat.ltb x (JS.of_Z b) = true ∧ PrimFloat.ltb (JS.of_Z b) x = false.
Proof.
  intros Hx Hb. rewrite !FloatAxioms.ltb_spec, Hx, prim_of_Z by done.
  destruct b as [|p|p]; [done| |lia]. cbn [nat_sf].
  destruct (int_sf_form p ltac:(lia)) as (m' & e' & -> & _). done.
Qed.

(** A positive number [m * 2^e] below a whole number [b] of [1, 2^53):
    its exponent is not positive and [m < b * 2^-e]. *)
Lemma positive_below x m e b :
  Prim2SF x = S754_finite false m e → 1 ≤ b < 2 ^ 53 →
  PrimFloat.ltb x (JS.of_Z b) = true →
  e ≤ 0 ∧ Z.pos m < b * 2 ^ (- e).
Proof.
  intros Hx Hb. pose proof (valid_mantissa x _ _ _ Hx) as Hm.
  rewrite FloatAxioms.ltb_spec, Hx, prim_of_Z by lia.
  destruct b as [|p|p]; [lia| |lia]. cbn [nat_sf].
  destruct (int_sf_form p ltac:(lia)) as (m' & e' & Hsf & He' & Hr & Hm').
  destruct (int_sf_digits p ltac:(lia)) as (m'' & e'' & Hsf' & _ & Hd' & _).
  rewrite Hsf in Hsf'. injection Hsf' as <- <-. rewrite Hsf.
  assert (2 ^ 52 ≤ Z.pos m') as Hbig.
  { rewrite digits2_log2 in Hd'. pose proof (bit_length m') as Hbl. cbv zeta in Hbl.
    replace (Z.log2 (Z.pos m') + 1 - 1) with 52 in Hbl by lia. lia. }
  unfold SFltb. cbn [SFcompare].
  destruct (Z.compare_spec e e') as [Heq|Hlt|Hgt]; [| |done].
  - intros Hc. split; [lia|]. subst e.
    change (PosDef.Pos.compare_cont Eq m m') with (Pos.compare m m') in Hc.
    destruct (Pos.compare_spec m m') as [?|Hlt|?]; try done. lia.
  - intros _. split; [lia|].
    assert (2 ^ (- e) = 2 ^ (- e') * 2 ^ (e' - e)) as Hsplit.
    { rewrite <- pow2_split by lia. f_equal. lia. }
    assert (2 ≤ 2 ^ (e' - e)) as H2.
    { change 2 with (2 ^ 1) at 1. apply pow2_le. lia. }
    rewrite Hsplit, Z.mul_assoc, <- Hm'.
    assert (Z.pos m' * 2 ≤ Z.pos m' * 2 ^ (e' - e)) as H3
      by (apply Z.mul_le_mono_nonneg_l; lia).
    change (2 ^ 52) with 4503599627370496 in Hbig.
    change (2 ^ 53) with 9007199254740992 in Hm. lia.
Qed.

(** The budget that [generate] uses, [Math.max(1, Math.floor(max_px))], is
    a whole number of [1, 2^53) for every finite non-zero [max_px] below
    the longer side. *)
Lemma budget_whole max_px mx :
  1 ≤ mx < 2 ^ 53 →
  JS.truthy max_px = true → JS.isFinite max_px = true →
  PrimFloat.ltb max_px (JS.of_Z mx) = true →
  ∃ M, 1 ≤ M ≤ Z.max 1 (mx - 1)
       ∧ JS.Math_max (JS.of_Z 1) (JS.Math_floor max_px) = JS.of_Z M.
Proof.
  intros Hmx Ht Hf Hlt.
  destruct (truthy_finite max_px Ht Hf) as (s & m & e & Hx).
  pose proof (valid_mantissa max_px _ _ _ Hx) as Hm.
  assert (∀ y m' e', Prim2SF y = S754_finite true m' e' →
            JS.Math_max (JS.of_Z 1) y = JS.of_Z 1) as Hneg.
  { intros y m' e' Hy. unfold JS.Math_max.
    destruct (of_Z_facts 1 ltac:(lia)) as (-> & _).
    rewrite (is_nan_finite y _ _ _ Hy). cbn [orb].
    destruct (negative_below y m' e' 1 Hy ltac:(lia)) as [-> ->]. done. }
  unfold JS.Math_floor. rewrite Hx.
  destruct (Z.leb_spec 0 e) as [He|He].
  - destruct s.
    + exists 1. split; [lia|]. by apply (Hneg max_px m e).
    + destruct (positive_below max_px m e mx Hx Hmx Hlt) as [He0 Hb].
      assert (e = 0) as -> by lia. change (2 ^ (- 0)) with 1 in Hb.
      destruct (finite_whole max_px m Hx) as [-> Hr].
      exists (Z.pos m). split; [lia|].
      rewrite Math_max_1_of_Z by lia. f_equal. lia.
  - pose proof (pow2_pos (- e) ltac:(lia)) as Hpos.
    destruct s; unfold JS.signed.
    + exists 1. split; [lia|].
      assert (Z.neg m / 2 ^ (- e) < 0) as Hr.
      { apply Z.div_lt_upper_bound; [lia|]. rewrite Z.mul_0_r. lia. }
      assert (- 2 ^ 53 < Z.neg m / 2 ^ (- e)) as Hr'.
      { assert (Z.neg m ≤ Z.neg m / 2 ^ (- e)); [|lia].
        apply Z.div_le_lower_bound; [lia|]. nia. }
      destruct (Z.neg m / 2 ^ (- e)) as [|p|p] eqn:Hq; [lia|lia|].
      assert (Z.pos p < 2 ^ 53) as Hp by lia.
      destruct (int_sf_form p Hp) as (m' & e' & Hp' & _).
      apply (Hneg _ m' e').
      assert (JS.of_Z (Z.neg p) = PrimFloat.opp (JS.of_Z (Z.pos p))) as -> by reflexivity.
      rewrite opp_spec, prim_of_Z_pos by done. by rewrite Hp'.
    + exists (Z.max 1 (Z.pos m / 2 ^ (- e))).
      destruct (positive_below max_px m e mx Hx Hmx Hlt) as [_ Hb].
      assert (0 ≤ Z.pos m / 2 ^ (- e) < mx) as Hr.
      { split; [apply Z.div_pos; lia|].
        apply Z.div_lt_upper_bound; [lia|]. lia. }
      split; [lia|]. by rewrite Math_max_1_of_Z by lia.
Qed.

(** ** Rounding, as arithmetic on the mantissa *)

(** One step of the shift halves the mantissa. *)
Lemma shr_1_half mrs : 0 ≤ shr_m mrs → shr_m (shr_1 mrs) = shr_m mrs / 2.
Proof.
  destruct mrs as [m r s]. cbn [shr_m]. intros Hm.
  destruct m as [|[p|p|]|p]; cbn [shr_1 shr_m]; [done| | |done|lia].
  - apply (Z.div_unique _ _ _ 1); lia.
  - apply (Z.div_unique _ _ _ 0); lia.
Qed.

(** [n] steps divide it by [2^n]. *)
Lemma iter_shr_1 n : ∀ mrs,
  0 ≤ shr_m mrs →
  0 ≤ shr_m (SpecFloat.iter_pos shr_1 n mrs)
  ∧ shr_m (SpecFloat.iter_pos shr_1 n mrs) = shr_m mrs / 2 ^ Z.pos n.
Proof.
  induction n as [n IH|n IH|]; intros mrs Hm; cbn [SpecFloat.iter_pos].
  - pose proof (shr_1_range mrs Hm) as H1. pose proof (shr_1_half mrs Hm) as E1.
    destruct (IH (shr_1 mrs) ltac:(lia)) as [H2 E2].
    destruct (IH _ H2) as [H3 E3]. split; [done|].
    rewrite E3, E2, E1.
    pose proof (pow2_pos (Z.pos n) ltac:(lia)) as Hp.
    rewrite !Z.div_div by lia. f_equal.
    replace (Z.pos n~1) with (Z.succ (Z.pos n + Z.pos n)) by lia.
    rewrite Z.pow_succ_r, Z.pow_add_r by lia. reflexivity.
  - destruct (IH mrs Hm) as [H2 E2].
    destruct (IH _ H2) as [H3 E3]. split; [done|].
    rewrite E3, E2.
    pose proof (pow2_pos (Z.pos n) ltac:(lia)) as Hp.
    rewrite !Z.div_div by lia. f_equal.
    replace (Z.pos n~0) with (Z.pos n + Z.pos n) by lia.
    by rewrite Z.pow_add_r by lia.
  - pose proof (shr_1_range mrs Hm) as H1. split; [lia|].
    by rewrite shr_1_half.
Qed.

(** The shift to the exponent of the format divides the mantissa by the
    power of two that the exponent gains. *)
Lemma shr_fexp_value m e l mrs' e' :
  0 ≤ m → shr_fexp prec emax m e l = (mrs', e') →
  e' = Z.max e (fexp prec emax (Zdigits2 m + e))
  ∧ shr_m mrs' = m / 2 ^ (e' - e).
Proof.
  intros Hm. unfold shr_fexp, shr.
  assert (shr_m (shr_record_of_loc m l) = m) as Hrec.
  { by destruct l as [|[| |]]. }
  destruct (fexp prec emax (Zdigits2 m + e) - e) as [|n|n] eqn:Hn; intros [= <- <-].
  - split; [lia|]. rewrite Hrec, Z.sub_diag. change (2 ^ 0) with 1. by rewrite Z.div_1_r.
  - split; [lia|].
    destruct (iter_shr_1 n (shr_record_of_loc m l) ltac:(lia)) as [_ ->].
    rewrite Hrec. f_equal. f_equal. lia.
  - split; [lia|]. rewrite Hrec, Z.sub_diag. change (2 ^ 0) with 1. by rewrite Z.div_1_r.
Qed.

(** The number of bits after a division by a power of two. *)
Lemma Zdigits2_shift m k :
  0 ≤ m → 0 ≤ k → Zdigits2 (m / 2 ^ k) ≤ Z.max 0 (Zdigits2 m - k).
Proof.
  intros Hm Hk. pose proof (Zdigits2_lt m Hm) as Hlt.
  pose proof (pow2_pos k Hk) as Hp.
  pose proof (Zdigits2_bound m (Zdigits2 m + k + 1)) as Hd0.
  assert (0 ≤ Zdigits2 m) as Hd.
  { destruct m as [|p|p]; [done| |lia]. cbn [Zdigits2]. lia. }
  destruct (Z_lt_le_dec (Zdigits2 m) k) as [Hs|Hs].
  - assert (m / 2 ^ k = 0) as ->.
    { apply Z.div_small. split; [done|].
      apply Z.lt_le_trans with (2 ^ Zdigits2 m); [done|]. apply pow2_le. lia. }
    cbn. lia.
  - assert (0 ≤ m / 2 ^ k < 2 ^ (Zdigits2 m - k)) as Hq.
    { split; [apply Z.div_pos; lia|].
      apply Z.div_lt_upper_bound; [lia|].
      rewrite <- pow2_split by lia. by replace (k + (Zdigits2 m - k)) with (Zdigits2 m) by lia. }
    pose proof (Zdigits2_bound _ (Zdigits2 m - k) ltac:(lia) Hq). lia.
Qed.

Lemma Zdigits2_succ m n : 0 ≤ m → 0 ≤ n ≤ m + 1 → Zdigits2 n ≤ Zdigits2 m + 1.
Proof.
  intros Hm Hn. pose proof (Zdigits2_lt m Hm) as Hlt.
  assert (0 ≤ Zdigits2 m) as Hd.
  { destruct m as [|p|p]; [done| |lia]. cbn [Zdigits2]. lia. }
  assert (2 ^ (Zdigits2 m + 1) = 2 * 2 ^ Zdigits2 m) as Hp.
  { rewrite Z.add_comm, pow2_split by lia. done. }
  pose proof (Zdigits2_bound n (Zdigits2 m + 1) ltac:(lia) ltac:(lia)). lia.
Qed.

(** The datum made of a rounded mantissa [m] at the exponent [e]. *)
Lemma binary_round_aux_value s T e l :
  0 ≤ T →
  ∃ m3 e3,
    e ≤ e3 ∧ e3 ≤ Z.max e (fexp prec emax (Zdigits2 T + e)) + 1
    ∧ T / 2 ^ (e3 - e) ≤ m3 ≤ T / 2 ^ (e3 - e) + 1
    ∧ binary_round_aux prec emax s T e l
      = match m3 with
        | Z0 => S754_zero s
        | Z.pos m => if e3 <=? emax - prec then S754_finite s m e3 else S754_infinity s
        | Z.neg _ => S754_nan
        end.
Proof.
  intros HT. unfold binary_round_aux.
  destruct (shr_fexp prec emax T e l) as [mrs1 e1] eqn:H1.
  apply shr_fexp_value in H1 as [He1 Hm1]; [|done].
  pose proof (pow2_pos (e1 - e) ltac:(lia)) as Hp1.
  assert (0 ≤ shr_m mrs1) as Hm1pos by (rewrite Hm1; apply Z.div_pos; lia).
  pose proof (round_nearest_even_range (shr_m mrs1) (loc_of_shr_record mrs1) Hm1pos) as Hr.
  assert (shr_m mrs1 ≤ round_nearest_even (shr_m mrs1) (loc_of_shr_record mrs1)) as Hr'.
  { unfold round_nearest_even.
    destruct (loc_of_shr_record mrs1) as [|[| |]]; try lia.
    destruct (Z.even (shr_m mrs1)); lia. }
  set (m2 := round_nearest_even (shr_m mrs1) (loc_of_shr_record mrs1)) in *.
  destruct (shr_fexp prec emax m2 e1 loc_Exact) as [mrs2 e2] eqn:H2.
  apply shr_fexp_value in H2 as [He2 Hm2]; [|lia].
  pose proof (pow2_pos (e2 - e1) ltac:(lia)) as Hp2.
  exists (shr_m mrs2), e2.
  pose proof (Zdigits2_shift T (e1 - e) HT ltac:(lia)) as Hd1. rewrite <- Hm1 in Hd1.
  pose proof (Zdigits2_succ (shr_m mrs1) m2 Hm1pos ltac:(lia)) as Hd2.
  assert (0 ≤ Zdigits2 T) as HdT.
  { destruct T as [|p|p]; [done| |lia]. cbn [Zdigits2]. lia. }
  unfold fexp, SpecFloat.emin, prec, emax in *.
  split; [lia|]. split; [lia|]. split; [|reflexivity].
  replace (e2 - e) with ((e1 - e) + (e2 - e1)) by lia.
  rewrite pow2_split by lia. rewrite <- Z.div_div by lia. rewrite <- Hm1, Hm2.
  split.
  - apply Z.div_le_mono; lia.
  - assert (m2 / 2 ^ (e2 - e1) ≤ (shr_m mrs1 + 1) / 2 ^ (e2 - e1)) as Hle
      by (apply Z.div_le_mono; lia).
    assert ((shr_m mrs1 + 1) / 2 ^ (e2 - e1) ≤ shr_m mrs1 / 2 ^ (e2 - e1) + 1); [|lia].
    apply Z.div_le_upper_bound; [lia|].
    pose proof (Z.mul_div_le (shr_m mrs1) (2 ^ (e2 - e1)) ltac:(lia)) as Hdm.
    pose proof (Z.mod_pos_bound (shr_m mrs1) (2 ^ (e2 - e1)) ltac:(lia)) as Hmod.
    pose proof (Z.div_mod (shr_m mrs1) (2 ^ (e2 - e1)) ltac:(lia)) as Hdiv.
    nia.
Qed.

(** ** The quotient of two whole numbers *)

(** The datum of a whole number of [1, 2^53): a mantissa of 53 bits that
    is the number shifted left. *)
Lemma int_sf_shape p :
  Z.pos p < 2 ^ 53 →
  ∃ m k, int_sf p = S754_finite false m (- k) ∧ 0 ≤ k ≤ 52
         ∧ Z.pos m = Z.pos p * 2 ^ k ∧ 2 ^ 52 ≤ Z.pos m < 2 ^ 53
         ∧ Z.pos (digits2_pos m) = 53.
Proof.
  intros Hp.
  destruct (int_sf_form p Hp) as (m & e & Hm & He & Hr & Hv).
  destruct (int_sf_digits p Hp) as (m' & e' & Hm' & _ & Hd & Hlt).
  rewrite Hm in Hm'. injection Hm' as <- <-.
  exists m, (- e). rewrite Z.opp_involutive. split; [done|]. split; [lia|].
  split; [done|]. split; [|done]. split; [|done].
  rewrite digits2_log2 in Hd. pose proof (bit_length m) as Hb. cbv zeta in Hb.
  replace (Z.log2 (Z.pos m) + 1 - 1) with 52 in Hb by lia. lia.
Qed.

(** The binary64 quotient [a / b] of whole numbers with [a / b < 2^26]:
    a mantissa [mq] of 53 bits at an exponent [eq ≤ -26], less than one
    unit of the last place away from [a / b], and not below any whole
    number that [a / b] is not below. *)
Lemma div_of_Z_bounds a b :
  1 ≤ a < 2 ^ 53 → 1 ≤ b < 2 ^ 53 → a < b * 2 ^ 26 →
  ∃ mq eq,
    Prim2SF (PrimFloat.div (JS.of_Z a) (JS.of_Z b)) = S754_finite false mq eq
    ∧ eq ≤ -26 ∧ 2 ^ 52 ≤ Z.pos mq < 2 ^ 53
    ∧ (Z.pos mq - 1) * b ≤ a * 2 ^ (- eq) < (Z.pos mq + 1) * b
    ∧ ∀ n, n * b ≤ a → n * 2 ^ (- eq) ≤ Z.pos mq.
Proof.
  intros Ha Hb Hab.
  set (x := PrimFloat.div (JS.of_Z a) (JS.of_Z b)).
  assert (Prim2SF x = SFdiv prec emax (Prim2SF (JS.of_Z a)) (Prim2SF (JS.of_Z b))) as Hx
    by apply div_spec.
  rewrite !prim_of_Z in Hx by lia.
  destruct a as [|pa|pa]; [lia| |lia]. destruct b as [|pb|pb]; [lia| |lia].
  cbn [nat_sf] in Hx.
  destruct (int_sf_shape pa ltac:(lia)) as (ma & ka & Hma & Hka & Hva & Hra & Hda).
  destruct (int_sf_shape pb ltac:(lia)) as (mb & kb & Hmb & Hkb & Hvb & Hrb & Hdb).
  rewrite Hma, Hmb in Hx. cbn [SFdiv xorb] in Hx.
  unfold SFdiv_core_binary in Hx. cbn [Zdigits2] in Hx. rewrite Hda, Hdb in Hx.
  replace (Z.min (fexp prec emax (53 + - ka - (53 + - kb))) (- ka - - kb))
    with (kb - ka - 53) in Hx
    by (unfold fexp, SpecFloat.emin, prec, emax; lia).
  replace (- ka - - kb - (kb - ka - 53)) with 53 in Hx by lia.
  cbv beta iota zeta in Hx.
  rewrite Z.shiftl_mul_pow2 in Hx by lia.
  pose proof (Z_div_mod (Z.pos ma * 2 ^ 53) (Z.pos mb) ltac:(lia)) as Hdm.
  destruct (Z.div_eucl (Z.pos ma * 2 ^ 53) (Z.pos mb)) as [Q r].
  destruct Hdm as [HQ Hr].
  set (e' := kb - ka - 53) in *.
  assert (2 ^ 52 ≤ Q < 2 ^ 54) as HQr.
  { clear - HQ Hr Hra Hrb.
    change (2 ^ 53) with 9007199254740992 in *.
    change (2 ^ 52) with 4503599627370496 in *.
    change (2 ^ 54) with 18014398509481984. nia. }
  destruct (binary_round_aux_value false Q e' (new_location (Z.pos mb) r) ltac:(lia))
    as (m3 & e3 & He3 & He3' & Hm3 & Hround).
  rewrite Hround in Hx. clear Hround.
  pose proof (Zdigits2_bound Q 54 ltac:(lia) ltac:(lia)) as HdQ.
  assert (e3 ≤ e' + 2) as Hj
    by (unfold fexp, SpecFloat.emin, prec, emax in He3'; lia).
  set (j := e3 - e') in *.
  assert (0 ≤ j ≤ 2) as Hjr by (unfold j; lia).
  assert (1 ≤ 2 ^ j ≤ 4) as H2j.
  { split; [change 1 with (2 ^ 0); apply pow2_le; lia|].
    change 4 with (2 ^ 2); apply pow2_le; lia. }
  pose proof (Z.mul_div_le Q (2 ^ j) ltac:(lia)) as Hfloor.
  assert (2 ^ 50 ≤ Q / 2 ^ j) as Hbig.
  { apply Z.div_le_lower_bound; [lia|]. clear - HQr H2j.
    change (2 ^ 50) with 1125899906842624. change (2 ^ 52) with 4503599627370496 in HQr. nia. }
  destruct m3 as [|mq|mq]; [change (2 ^ 50) with 1125899906842624 in Hbig; lia| |lia].
  replace (e3 <=? emax - prec) with true in Hx
    by (symmetry; apply Z.leb_le; unfold emax, prec, e'; lia).
  destruct (valid_finite x _ _ _ Hx) as (_ & _ & Hdq).
  specialize (Hdq ltac:(unfold e' in *; lia)).
  assert (2 ^ 52 ≤ Z.pos mq < 2 ^ 53) as Hmq.
  { rewrite digits2_log2 in Hdq. pose proof (bit_length mq) as Hbl. cbv zeta in Hbl.
    replace (Z.log2 (Z.pos mq) + 1 - 1) with 52 in Hbl by lia.
    replace (Z.log2 (Z.pos mq) + 1) with 53 in Hbl by lia. lia. }
  exists mq, e3. split; [exact Hx|].
  (* the quotient in terms of a and b *)
  pose proof (pow2_pos ka ltac:(lia)) as Hpa. pose proof (pow2_pos kb ltac:(lia)) as Hpb.
  assert (2 ^ j * 2 ^ kb = 2 ^ (e3 + ka + 53)) as Hexp.
  { rewrite <- pow2_split by lia. f_equal. unfold j, e'. lia. }
  assert ((Z.pos mq - 1) * Z.pos pb * 2 ^ (e3 + ka + 53) ≤ Z.pos pa * 2 ^ (ka + 53)) as HU.
  { rewrite <- Hexp. rewrite (pow2_split ka 53) by lia.
    assert ((Z.pos mq - 1) * 2 ^ j ≤ Q) as H1 by (clear - Hm3 Hfloor H2j; nia).
    assert ((Z.pos mq - 1) * 2 ^ j * Z.pos mb ≤ Q * Z.pos mb) as H2
      by (apply Z.mul_le_mono_nonneg_r; lia).
    assert ((Z.pos mq - 1) * 2 ^ j * Z.pos mb ≤ Z.pos ma * 2 ^ 53) as H3
      by (clear - H2 HQ Hr; lia).
    rewrite Hva, Hvb in H3. clear - H3. lia. }
  assert (e3 ≤ -26) as Heq.
  { destruct (Z_le_gt_dec e3 (-26)) as [|Hgt]; [done|]. exfalso.
    replace (e3 + ka + 53) with ((e3 + 25) + (ka + 28)) in HU by lia.
    replace (ka + 53) with (25 + (ka + 28)) in HU by lia.
    rewrite (pow2_split (e3 + 25) (ka + 28)), (pow2_split 25 (ka + 28)) in HU by lia.
    pose proof (pow2_pos (ka + 28) ltac:(lia)) as Hp1.
    pose proof (pow2_pos (e3 + 25) ltac:(lia)) as Hp2.
    assert ((Z.pos mq - 1) * Z.pos pb * 2 ^ (e3 + 25) ≤ Z.pos pa * 2 ^ 25) as H3.
    { apply (Z.mul_le_mono_pos_r _ _ (2 ^ (ka + 28))); [lia|]. clear - HU. lia. }
    assert ((Z.pos mq - 1) * Z.pos pb ≤ (Z.pos mq - 1) * Z.pos pb * 2 ^ (e3 + 25)) as H4.
    { change (2 ^ 52) with 4503599627370496 in Hmq.
      apply Z.le_mul_diag_r; [|lia]. apply Z.mul_pos_pos; lia. }
    assert (2 ^ 51 * Z.pos pb ≤ (Z.pos mq - 1) * Z.pos pb) as H5.
    { clear - Hmq. change (2 ^ 52) with 4503599627370496 in Hmq.
      change (2 ^ 51) with 2251799813685248. nia. }
    clear - H3 H4 H5 Hab.
    change (2 ^ 25) with 33554432 in *. change (2 ^ 26) with 67108864 in *.
    change (2 ^ 51) with 2251799813685248 in *. lia. }
  split; [exact Heq|]. split; [exact Hmq|].
  pose proof (pow2_pos (- e3) ltac:(lia)) as Hpe.
  pose proof (pow2_pos (e3 + ka + 53) ltac:(unfold j, e' in *; lia)) as Hpj.
  assert (2 ^ (ka + 53) = 2 ^ (- e3) * 2 ^ (e3 + ka + 53)) as Hsplit.
  { rewrite <- pow2_split by (unfold j, e' in *; lia). f_equal. lia. }
  split; [split|].
  - rewrite Hsplit in HU.
    apply (Z.mul_le_mono_pos_r _ _ (2 ^ (e3 + ka + 53))); [lia|]. clear - HU. lia.
  - apply (Z.mul_lt_mono_pos_r (2 ^ (e3 + ka + 53))); [lia|].
    replace (Z.pos pa * 2 ^ (- e3) * 2 ^ (e3 + ka + 53))
      with (Z.pos pa * (2 ^ (- e3) * 2 ^ (e3 + ka + 53))) by lia.
    rewrite <- Hsplit, <- Hexp, (pow2_split ka 53) by lia.
    assert (Q < (Z.pos mq + 1) * 2 ^ j) as H1.
    { pose proof (Z.mod_pos_bound Q (2 ^ j) ltac:(lia)) as Hmod.
      pose proof (Z.div_mod Q (2 ^ j) ltac:(lia)) as Hdiv.
      clear - Hm3 Hmod Hdiv H2j. nia. }
    assert ((Q + 1) * Z.pos mb ≤ (Z.pos mq + 1) * 2 ^ j * Z.pos mb) as H2
      by (apply Z.mul_le_mono_nonneg_r; lia).
    rewrite Hva in HQ. rewrite Hvb in H2 at 2. clear - H2 HQ Hr. lia.
  - intros n Hn.
    assert (n * 2 ^ (- e3) * 2 ^ j ≤ Q) as HnQ.
    { assert (n * 2 ^ (- e3) * 2 ^ j * Z.pos mb < (Q + 1) * Z.pos mb) as Hlt;
        [|apply Z.mul_lt_mono_pos_r in Hlt; lia].
      rewrite Hvb.
      replace (n * 2 ^ (- e3) * 2 ^ j * (Z.pos pb * 2 ^ kb))
        with (n * Z.pos pb * (2 ^ (- e3) * (2 ^ j * 2 ^ kb))) by lia.
      rewrite Hexp, <- Hsplit.
      assert (n * Z.pos pb * 2 ^ (ka + 53) ≤ Z.pos pa * 2 ^ (ka + 53)) as H1.
      { apply Z.mul_le_mono_nonneg_r; [|done].
        pose proof (pow2_pos (ka + 53) ltac:(lia)). lia. }
      rewrite (pow2_split ka 53) in H1 |- * by lia.
      rewrite Hva in HQ. rewrite <- Hvb. clear - H1 HQ Hr. lia. }
    assert (n * 2 ^ (- e3) ≤ Q / 2 ^ j); [|lia].
    apply Z.div_le_lower_bound; [lia|]. lia.
Qed.

(** [Math.floor(a / b)] in binary64 is the whole quotient, for whole
    [a ≥ 0] and [b ≥ 1] with [b < 2^26] and [a / b < 2^26]. *)
Lemma floor_div a b :
  0 ≤ a → 1 ≤ b < 2 ^ 26 → a < b * 2 ^ 26 →
  JS.Math_floor (PrimFloat.div (JS.of_Z a) (JS.of_Z b)) = JS.of_Z (a / b).
Proof.
  intros Ha Hb Hab.
  assert (a < 2 ^ 53) as Ha53.
  { change (2 ^ 26) with 67108864 in *. change (2 ^ 53) with 9007199254740992. nia. }
  assert (b < 2 ^ 53) as Hb53.
  { change (2 ^ 26) with 67108864 in *. change (2 ^ 53) with 9007199254740992. lia. }
  destruct (Z.eq_dec a 0) as [->|Hne].
  - rewrite Z.div_0_l by lia. unfold JS.Math_floor.
    assert (Prim2SF (PrimFloat.div (JS.of_Z 0) (JS.of_Z b)) = S754_zero false) as Hz.
    { rewrite div_spec, !prim_of_Z by lia. destruct b as [|pb|pb]; [lia| |lia].
      cbn [nat_sf]. destruct (int_sf_shape pb ltac:(lia)) as (mb & kb & -> & _). done. }
    rewrite Hz. apply Prim2SF_inj. by rewrite Hz.
  - destruct (div_of_Z_bounds a b ltac:(lia) ltac:(lia) Hab)
      as (mq & eq & Hq & Heq & Hmq & [HU _] & HL).
    unfold JS.Math_floor. rewrite Hq.
    replace (0 <=? eq) with false by (symmetry; apply Z.leb_gt; lia).
    cbn [JS.signed]. f_equal.
    pose proof (pow2_pos (- eq) ltac:(lia)) as Hp.
    assert (2 ^ 26 ≤ 2 ^ (- eq)) as Hp26 by (apply pow2_le; lia).
    set (n := a / b).
    pose proof (Z.mul_div_le a b ltac:(lia)) as Hn1. fold n in Hn1.
    pose proof (Z.mul_succ_div_gt a b ltac:(lia)) as Hn2. fold n in Hn2.
    specialize (HL n ltac:(lia)).
    assert (Z.pos mq < (n + 1) * 2 ^ (- eq)) as Hup.
    { apply (Z.mul_lt_mono_pos_r b); [lia|].
      assert (a * 2 ^ (- eq) ≤ ((n + 1) * b - 1) * 2 ^ (- eq)) as H1
        by (apply Z.mul_le_mono_nonneg_r; lia).
      clear - HU H1 Hp26 Hb Hp. change (2 ^ 26) with 67108864 in *. lia. }
    symmetry. apply (Z.div_unique _ _ n (Z.pos mq - n * 2 ^ (- eq))); lia.
Qed.

(** [Math.min] of two whole numbers of [0, 2^53). *)
Lemma Math_min_of_Z a b :
  0 ≤ a < 2 ^ 53 → 0 ≤ b < 2 ^ 53 →
  JS.Math_min (JS.of_Z a) (JS.of_Z b) = JS.of_Z (Z.min a b).
Proof.
  intros Ha Hb.
  destruct (of_Z_facts a Ha) as (Hnana & _).
  destruct (of_Z_facts b Hb) as (Hnanb & _).
  unfold JS.Math_min. rewrite Hnana, Hnanb. cbn [orb].
  rewrite !ltb_of_Z by lia.
  destruct (Z.ltb_spec a b); [f_equal; lia|].
  destruct (Z.ltb_spec b a); [f_equal; lia|].
  assert (a = b) as -> by lia. rewrite Z.min_id. by destruct (PrimFloat.get_sign _).
Qed.

(** The source coordinate of the resampler is the whole quotient
    [x2 * orig / dim], for images and masks of fewer than 2^26 pixels a
    side. *)
Lemma src_coord_exact x2 orig dim :
  1 ≤ orig < 2 ^ 26 → 1 ≤ dim < 2 ^ 26 → 0 ≤ x2 < dim →
  src_coord x2 orig dim = JS.of_Z (x2 * orig / dim)
  ∧ 0 ≤ x2 * orig / dim < orig.
Proof.
  intros Ho Hd Hx.
  assert (0 ≤ x2 * orig / dim < orig) as Hr.
  { split; [apply Z.div_pos; nia|]. apply Z.div_lt_upper_bound; nia. }
  split; [|done]. unfold src_coord.
  change (2 ^ 26) with 67108864 in *.
  rewrite floor_div; [|nia|change (2 ^ 26) with 67108864; lia|change (2 ^ 26) with 67108864; nia].
  rewrite Math_min_of_Z; [f_equal; lia| |];
    change (2 ^ 53) with 9007199254740992; lia.
Qed.

(** ** The dimensions of the reduced mask *)

(** [Math.round(W * (M / mx))] in binary64, for whole [1 ≤ W ≤ mx],
    [1 ≤ M < mx] and [mx < 2^26]: a whole number of [0, M], and [M] itself
    when [W = mx]. *)
Lemma scaled_round W M mx :
  1 ≤ W ≤ mx → 1 ≤ M < mx → mx < 2 ^ 26 →
  ∃ r, 0 ≤ r ≤ M ∧ (W = mx → r = M)
    ∧ JS.Math_round (PrimFloat.mul (JS.of_Z W) (PrimFloat.div (JS.of_Z M) (JS.of_Z mx)))
      = JS.of_Z r.
Proof.
  intros HW HM Hmx.
  assert (2 ^ 26 < 2 ^ 53) as H2653 by done.
  destruct (div_of_Z_bounds M mx ltac:(lia) ltac:(lia)) as
    (mq & eq & Hq & Heq & Hmq & [HU HL] & _).
  { change (2 ^ 26) with 67108864. nia. }
  set (q := PrimFloat.div (JS.of_Z M) (JS.of_Z mx)) in *.
  destruct (valid_finite q _ _ _ Hq) as (Heq' & _).
  set (D := - eq) in *.
  pose proof (pow2_pos D ltac:(lia)) as HpD.
  assert (52 ≤ D) as HD.
  { destruct (Z_le_gt_dec 52 D) as [|Hlt]; [done|]. exfalso.
    assert (2 ^ D ≤ 2 ^ 51) as Hle by (apply pow2_le; lia).
    assert (M * 2 ^ D ≤ mx * 2 ^ D) as H1 by (apply Z.mul_le_mono_nonneg_r; lia).
    assert (mx * 2 ^ 51 ≤ (Z.pos mq - 1) * mx) as H2.
    { rewrite (Z.mul_comm mx). apply Z.mul_le_mono_nonneg_r; [lia|].
      change (2 ^ 52) with 4503599627370496 in Hmq. change (2 ^ 51) with 2251799813685248. lia. }
    assert (mx * 2 ^ D ≤ mx * 2 ^ 51) as H3 by (apply Z.mul_le_mono_nonneg_l; lia).
    assert ((Z.pos mq - 1) * mx = mx * 2 ^ 51) as H4 by lia.
    change (2 ^ 52) with 4503599627370496 in Hmq. change (2 ^ 51) with 2251799813685248 in *.
    clear - H4 Hmq HW HM. nia. }
  assert (2 ^ 52 ≤ 2 ^ D) as HY by (apply pow2_le; lia).
  (* the product *)
  set (p := PrimFloat.mul (JS.of_Z W) q).
  assert (Prim2SF p = SF64mul (Prim2SF (JS.of_Z W)) (Prim2SF q)) as Hp by apply mul_spec.
  rewrite prim_of_Z, Hq in Hp by lia.
  destruct W as [|pW|pW]; [lia| |lia]. cbn [nat_sf] in Hp.
  destruct (int_sf_shape pW ltac:(lia)) as (mW & kW & HmW & HkW & HvW & HrW & _).
  rewrite HmW in Hp. unfold SF64mul in Hp. cbn [SFmul xorb] in Hp.
  set (T := Z.pos (mW * mq)) in *.
  assert (T = Z.pos pW * 2 ^ kW * Z.pos mq) as HT by (unfold T; rewrite Pos2Z.inj_mul; lia).
  pose proof (pow2_pos kW ltac:(lia)) as HpkW.
  assert (2 ^ 104 ≤ T < 2 ^ 106) as HTr.
  { unfold T. rewrite Pos2Z.inj_mul. clear - HrW Hmq.
    change (2 ^ 104) with (2 ^ 52 * 2 ^ 52). change (2 ^ 106) with (2 ^ 53 * 2 ^ 53).
    change (2 ^ 52) with 4503599627370496 in *. change (2 ^ 53) with 9007199254740992 in *.
    nia. }
  set (e := - kW + eq) in *.
  destruct (binary_round_aux_value false T e loc_Exact ltac:(lia))
    as (m3 & e3 & He3 & He3' & Hm3 & Hround).
  rewrite Hround in Hp. clear Hround.
  pose proof (Zdigits2_bound T 106 ltac:(lia) ltac:(lia)) as HdT.
  assert (e3 - e ≤ 54) as Hj
    by (unfold fexp, SpecFloat.emin, prec, emax in He3'; unfold e, D in *; lia).
  set (j := e3 - e) in *.
  pose proof (pow2_pos j ltac:(lia)) as Hpj.
  assert (2 ^ j ≤ 2 ^ 54) as H2j by (apply pow2_le; lia).
  pose proof (Z.mul_div_le T (2 ^ j) ltac:(lia)) as Hfloor.
  pose proof (Z.mod_pos_bound T (2 ^ j) ltac:(lia)) as Hmod.
  pose proof (Z.div_mod T (2 ^ j) ltac:(lia)) as Hdiv.
  assert (2 ^ 50 ≤ T / 2 ^ j) as Hbig.
  { apply Z.div_le_lower_bound; [lia|]. clear - HTr H2j Hpj.
    change (2 ^ 104) with (2 ^ 50 * 2 ^ 54) in HTr.
    assert (2 ^ j * 2 ^ 50 ≤ 2 ^ 54 * 2 ^ 50) by (apply Z.mul_le_mono_nonneg_r; lia). lia. }
  destruct m3 as [|mp|mp]; [change (2 ^ 50) with 1125899906842624 in Hbig; lia| |lia].
  replace (e3 <=? emax - prec) with true in Hp
    by (symmetry; apply Z.leb_le; unfold emax, prec, e, j, D in *; lia).
  destruct (valid_finite p _ _ _ Hp) as (He3r & _ & Hdp).
  (* the value of the product against W * M / mx *)
  assert ((Z.pos mp - 1) * 2 ^ j ≤ T < (Z.pos mp + 1) * 2 ^ j) as HTb.
  { clear - Hm3 Hfloor Hmod Hdiv Hpj. nia. }
  assert ((Z.pos mp - 1) * 2 ^ j ≤ 2 ^ kW * (M * 2 ^ D + Z.pos pW)) as G1.
  { apply (Z.mul_le_mono_pos_r _ _ mx); [lia|].
    assert ((Z.pos mp - 1) * 2 ^ j * mx ≤ T * mx) as H1
      by (apply Z.mul_le_mono_nonneg_r; lia).
    assert (Z.pos pW * 2 ^ kW * ((Z.pos mq - 1) * mx) ≤ Z.pos pW * 2 ^ kW * (M * 2 ^ D)) as H2
      by (apply Z.mul_le_mono_nonneg_l; lia).
    assert (Z.pos pW * (2 ^ kW * (M * 2 ^ D)) ≤ mx * (2 ^ kW * (M * 2 ^ D))) as H3.
    { apply Z.mul_le_mono_nonneg_r; [|lia].
      apply Z.mul_nonneg_nonneg; [lia|]. apply Z.mul_nonneg_nonneg; lia. }
    rewrite HT in H1. clear - H1 H2 H3. lia. }
  assert (Z.pos pW = mx → 2 ^ kW * (M * 2 ^ D - mx) < (Z.pos mp + 1) * 2 ^ j) as G2.
  { intros HWmx.
    apply (Z.mul_lt_mono_pos_r mx); [lia|].
    assert (T * mx < (Z.pos mp + 1) * 2 ^ j * mx) as H1
      by (apply Z.mul_lt_mono_pos_r; lia).
    assert (Z.pos pW * 2 ^ kW * (M * 2 ^ D) < Z.pos pW * 2 ^ kW * ((Z.pos mq + 1) * mx)) as H2.
    { apply Z.mul_lt_mono_pos_l; [|lia]. apply Z.mul_pos_pos; lia. }
    rewrite HT in H1. rewrite HWmx in *. clear - H1 H2. lia. }
  (* the exponent of the product *)
  assert (e3 ≤ -26) as He326.
  { destruct (Z_le_gt_dec e3 (-26)) as [|Hgt]; [done|]. exfalso.
    specialize (Hdp ltac:(lia)).
    assert (2 ^ 52 ≤ Z.pos mp) as Hmp.
    { rewrite digits2_log2 in Hdp. pose proof (bit_length mp) as Hbl. cbv zeta in Hbl.
      replace (Z.log2 (Z.pos mp) + 1 - 1) with 52 in Hbl by lia. lia. }
    assert (2 ^ j = 2 ^ kW * (2 ^ (e3 + 25) * 2 ^ (D - 25))) as Hsplit.
    { rewrite <- !pow2_split by lia. f_equal. unfold j, e, D. lia. }
    assert (2 ^ D = 2 ^ 25 * 2 ^ (D - 25)) as HsplitD.
    { rewrite <- pow2_split by lia. f_equal. lia. }
    pose proof (pow2_pos (e3 + 25) ltac:(lia)) as Hp1.
    pose proof (pow2_pos (D - 25) ltac:(lia)) as Hp2.
    rewrite Hsplit in G1.
    assert ((Z.pos mp - 1) * (2 ^ (e3 + 25) * 2 ^ (D - 25)) ≤ M * 2 ^ D + Z.pos pW) as H1.
    { apply (Z.mul_le_mono_pos_l _ _ (2 ^ kW)); [lia|]. clear - G1. lia. }
    assert (Z.pos pW < 2 ^ D) as H2 by lia.
    assert ((Z.pos mp - 1) * 2 ^ (e3 + 25) * 2 ^ (D - 25) < (M + 1) * 2 ^ 25 * 2 ^ (D - 25)) as H3.
    { rewrite HsplitD in H1, H2. clear - H1 H2. lia. }
    apply Z.mul_lt_mono_pos_r in H3; [|lia].
    assert ((Z.pos mp - 1) ≤ (Z.pos mp - 1) * 2 ^ (e3 + 25)) as H4.
    { apply Z.le_mul_diag_r; [|lia]. change (2 ^ 52) with 4503599627370496 in Hmp. lia. }
    assert ((M + 1) * 2 ^ 25 ≤ 2 ^ 26 * 2 ^ 25) as H5
      by (apply Z.mul_le_mono_nonneg_r; lia).
    change (2 ^ 52) with 4503599627370496 in Hmp.
    change (2 ^ 26 * 2 ^ 25) with 2251799813685248 in H5. lia. }
  set (E := - e3) in *.
  pose proof (pow2_pos E ltac:(lia)) as HpE.
  assert (2 ^ 26 ≤ 2 ^ E) as HX by (apply pow2_le; lia).
  assert (2 ^ j * 2 ^ E = 2 ^ kW * 2 ^ D) as HjE.
  { rewrite <- !pow2_split by lia. f_equal. unfold j, e, E, D. lia. }
  assert ((Z.pos mp - 1) * 2 ^ D ≤ (M * 2 ^ D + Z.pos pW) * 2 ^ E) as F1.
  { apply (Z.mul_le_mono_pos_l _ _ (2 ^ kW)); [lia|].
    assert ((Z.pos mp - 1) * 2 ^ j * 2 ^ E ≤ 2 ^ kW * (M * 2 ^ D + Z.pos pW) * 2 ^ E) as H1
      by (apply Z.mul_le_mono_nonneg_r; lia).
    replace ((Z.pos mp - 1) * 2 ^ j * 2 ^ E) with ((Z.pos mp - 1) * (2 ^ j * 2 ^ E)) in H1 by lia.
    rewrite HjE in H1. clear - H1. lia. }
  assert (Z.pos pW = mx → (M * 2 ^ D - mx) * 2 ^ E < (Z.pos mp + 1) * 2 ^ D) as F2.
  { intros HWmx. specialize (G2 HWmx).
    apply (Z.mul_lt_mono_pos_l (2 ^ kW)); [lia|].
    assert (2 ^ kW * (M * 2 ^ D - mx) * 2 ^ E < (Z.pos mp + 1) * 2 ^ j * 2 ^ E) as H1
      by (apply Z.mul_lt_mono_pos_r; lia).
    replace ((Z.pos mp + 1) * 2 ^ j * 2 ^ E) with ((Z.pos mp + 1) * (2 ^ j * 2 ^ E)) in H1 by lia.
    rewrite HjE in H1. clear - H1. lia. }
  (* the errors are below a half *)
  assert (8 * mx * 2 ^ E ≤ 2 ^ E * 2 ^ D) as Herr1.
  { rewrite (Z.mul_comm (2 ^ E)). apply Z.mul_le_mono_nonneg_r; [lia|].
    change (2 ^ 26) with 67108864 in *. change (2 ^ 52) with 4503599627370496 in *. lia. }
  assert (8 * 2 ^ D ≤ 2 ^ E * 2 ^ D) as Herr2.
  { apply Z.mul_le_mono_nonneg_r; [lia|]. change (2 ^ 26) with 67108864 in *. lia. }
  assert (0 < 2 ^ E * 2 ^ D) as HXY by (apply Z.mul_pos_pos; lia).
  assert (2 ^ (E + 1) = 2 * 2 ^ E) as HE1.
  { rewrite Z.add_comm, pow2_split by lia. done. }
  set (r := (2 * Z.pos mp + 2 ^ E) / 2 ^ (E + 1)).
  assert (0 ≤ r ≤ M) as Hr.
  { split; [apply Z.div_pos; lia|].
    assert (r < M + 1); [|lia]. apply Z.div_lt_upper_bound; [lia|]. rewrite HE1.
    apply (Z.mul_lt_mono_pos_r (2 ^ D)); [lia|].
    assert (Z.pos pW * 2 ^ E ≤ mx * 2 ^ E) as H1 by (apply Z.mul_le_mono_nonneg_r; lia).
    clear - F1 Herr1 Herr2 HXY H1. lia. }
  exists r. split; [exact Hr|]. split.
  - intros HWmx. specialize (F2 HWmx).
    assert (M ≤ r); [|lia]. apply Z.div_le_lower_bound; [lia|]. rewrite HE1.
    apply (Z.mul_le_mono_pos_r _ _ (2 ^ D)); [lia|].
    clear - F2 Herr1 Herr2 HXY. lia.
  - unfold JS.Math_round. fold q. fold p. rewrite Hp.
    replace (0 <=? e3) with false by (symmetry; apply Z.leb_gt; lia).
    cbn [JS.signed]. rewrite andb_false_r. reflexivity.
Qed.

(** The reduced mask of an image of fewer than 2^26 pixels a side, for a
    whole budget below the longer side: the longer side becomes the budget
    and the other one a whole number from 1 to the budget. *)
Lemma resample_dims_bounded W H M :
  1 ≤ W < 2 ^ 26 → 1 ≤ H < 2 ^ 26 → 1 ≤ M ≤ Z.max 1 (Z.max W H - 1) →
  ∃ mW mH, dims_int (resample_dims W H (JS.of_Z M)) = Some (mW, mH)
           ∧ 1 ≤ mW ≤ M ∧ 1 ≤ mH ≤ M ∧ Z.max mW mH = M.
Proof.
  intros HW HH HM.
  destruct (Z.eq_dec (Z.max W H) 1) as [Hone|Hmore].
  { assert (W = 1) as -> by lia. assert (H = 1) as -> by lia.
    assert (M = 1) as -> by lia.
    exists 1, 1. split; [vm_compute; reflexivity|lia]. }
  assert (2 ^ 26 < 2 ^ 53) as H2653 by done.
  destruct (scaled_round W M (Z.max W H) ltac:(lia) ltac:(lia) ltac:(lia))
    as (rW & HrW & HeW & HfW).
  destruct (scaled_round H M (Z.max W H) ltac:(lia) ltac:(lia) ltac:(lia))
    as (rH & HrH & HeH & HfH).
  exists (Z.max 1 rW), (Z.max 1 rH).
  unfold dims_int, resample_dims. cbn [fst snd].
  rewrite HfW, HfH, !Math_max_1_of_Z by lia.
  destruct (of_Z_facts (Z.max 1 rW) ltac:(lia)) as (_ & _ & _ & -> & _).
  destruct (of_Z_facts (Z.max 1 rH) ltac:(lia)) as (_ & _ & _ & -> & _).
  split; [done|]. split; [lia|]. split; [lia|].
  destruct (Z.max_spec W H) as [[_ Hmax]|[_ Hmax]].
  - specialize (HeH ltac:(lia)). lia.
  - specialize (HeW ltac:(lia)). lia.
Qed.

(** ** Exact operations *)

(** A whole number divided by itself is 1. *)
Lemma div_self W : 1 ≤ W < 2 ^ 53 → PrimFloat.div (JS.of_Z W) (JS.of_Z W) = JS.of_Z 1.
Proof.
  intros HW. apply Prim2SF_inj. rewrite div_spec, prim_of_Z by lia.
  destruct W as [|p|p]; [lia| |lia]. cbn [nat_sf].
  destruct (int_sf_shape p ltac:(lia)) as (m & k & -> & Hk & Hv & Hr & Hd).
  unfold SF64div. cbn [SFdiv xorb]. unfold SFdiv_core_binary. cbn [Zdigits2]. rewrite Hd.
  replace (Z.min (fexp prec emax (53 + - k - (53 + - k))) (- k - - k)) with (-53)
    by (unfold fexp, SpecFloat.emin, prec, emax; lia).
  replace (- k - - k - -53) with 53 by lia.
  cbv beta iota zeta. rewrite Z.shiftl_mul_pow2 by lia.
  pose proof (Z_div_mod (Z.pos m * 2 ^ 53) (Z.pos m) ltac:(lia)) as Hdm.
  destruct (Z.div_eucl (Z.pos m * 2 ^ 53) (Z.pos m)) as [Q r].
  destruct Hdm as [HQ Hrr].
  assert (Q = 2 ^ 53 ∧ r = 0) as [-> ->].
  { assert (Z.pos m * (2 ^ 53 - Q) = r) as H1 by lia.
    assert (Q = 2 ^ 53); [|subst Q; lia].
    destruct (Z.lt_trichotomy Q (2 ^ 53)) as [Hlt|[Heq|Hgt]]; [|done|].
    - assert (Z.pos m * 1 ≤ Z.pos m * (2 ^ 53 - Q))
        by (apply Z.mul_le_mono_nonneg_l; lia). lia.
    - assert (Z.pos m * (2 ^ 53 - Q) ≤ Z.pos m * (-1))
        by (apply Z.mul_le_mono_nonneg_l; lia). lia. }
  assert (new_location (Z.pos m) 0 = loc_Exact) as ->.
  { unfold new_location, new_location_even, new_location_odd.
    by destruct (Z.even (Z.pos m)). }
  vm_compute. reflexivity.
Qed.

(** Shifting out the zeros that a shift to the left brought in. *)
Lemma shr_zeros n : ∀ m,
  SpecFloat.iter_pos shr_1 n
    {| shr_m := Z.pos (Pos.iter xO m n); shr_r := false; shr_s := false |}
  = {| shr_m := Z.pos m; shr_r := false; shr_s := false |}.
Proof.
  induction n as [n IH|n IH|]; intros m; cbn [SpecFloat.iter_pos Pos.iter].
  - cbn [shr_1 orb]. by rewrite !IH.
  - by rewrite !IH.
  - reflexivity.
Qed.

(** The product with 1 is the number itself. *)
Lemma mul_one x : PrimFloat.mul x (JS.of_Z 1) = x.
Proof.
  apply Prim2SF_inj. rewrite mul_spec.
  change (Prim2SF (JS.of_Z 1)) with (S754_finite false 4503599627370496 (-52)).
  unfold SF64mul.
  destruct (Prim2SF x) as [s|s| |s m e] eqn:Hx; cbn [SFmul];
    rewrite ?xorb_false_r; try reflexivity.
  pose proof (Prim2SF_valid x) as Hv. rewrite Hx in Hv.
  cbn [valid_binary] in Hv. unfold bounded, canonical_mantissa in Hv.
  apply andb_true_iff in Hv as [Hc He]. apply Z.eqb_eq in Hc.
  assert ((m * 4503599627370496)%positive = Pos.iter xO m 52) as ->.
  { apply Pos2Z.inj. rewrite pos_iter_xO, Pos2Z.inj_mul. reflexivity. }
  unfold binary_round_aux, shr_fexp. cbn [Zdigits2].
  rewrite digits2_iter_xO.
  replace (Z.pos (digits2_pos m) + 52 + (e + -52)) with (Z.pos (digits2_pos m) + e) by lia.
  rewrite Hc. replace (e - (e + -52)) with 52 by lia.
  cbn [shr shr_record_of_loc]. rewrite shr_zeros.
  cbn [shr_m loc_of_shr_record round_nearest_even Zdigits2].
  replace (e + -52 + 52) with e by lia. rewrite Hc, Z.sub_diag.
  cbn [shr shr_record_of_loc shr_m]. by rewrite He.
Qed.


(** ** The extruder, cell by cell *)

(** A loop that appends [g i] at step [i] appends them all, in order. *)
Lemma for_range_bind {A} n (body : Z → list A → list A) (g : Z → list A) s :
  (∀ i acc, 0 ≤ i < n → body i acc = acc ++ g i) →
  JS.for_range n body s = s ++ (seqZ 0 n ≫= g).
Proof.
  intros Hbody. destruct (Z_lt_le_dec n 0) as [Hn|Hn].
  - rewrite for_range_nonpos by lia. rewrite (seqZ_nil 0 n) by lia.
    by rewrite app_nil_r.
  - apply (for_range_ind (λ i acc, acc = s ++ (seqZ 0 i ≫= g))); [done| |].
    + by rewrite app_nil_r.
    + intros i acc Hi ->. rewrite (Hbody i _ Hi).
      rewrite (seqZ_app 0 i 1) by lia. rewrite bind_app.
      rewrite (seqZ_cons _ 1) by lia. rewrite (seqZ_nil _ (Z.pred 1)) by lia.
      cbn [mbind list_bind]. rewrite app_nil_r, Z.add_0_l. by rewrite app_assoc.
Qed.

(** Inside the mask, the test of the source for a wall is that the
    neighbour is not foreground. *)
Lemma wall_tests mask W H x y :
  0 ≤ x < W → 0 ≤ y < H →
  ((x =? 0) || cell_empty (JS.get mask (y * W + (x - 1)))) = negb (foreground mask W H (x - 1) y)
  ∧ ((x =? W - 1) || cell_empty (JS.get mask (y * W + (x + 1)))) = negb (foreground mask W H (x + 1) y)
  ∧ ((y =? H - 1) || cell_empty (JS.get mask ((y + 1) * W + x))) = negb (foreground mask W H x (y + 1))
  ∧ ((y =? 0) || cell_empty (JS.get mask ((y - 1) * W + x))) = negb (foreground mask W H x (y - 1))
  ∧ cell_empty (JS.get mask (y * W + x)) = negb (foreground mask W H x y).
Proof.
  intros Hx Hy. unfold foreground.
  repeat split.
  - destruct (Z.eqb_spec x 0) as [->|Hne]; [done|].
    replace (0 <=? x - 1) with true by (symmetry; apply Z.leb_le; lia).
    replace (x - 1 <? W) with true by (symmetry; apply Z.ltb_lt; lia).
    replace (0 <=? y) with true by (symmetry; apply Z.leb_le; lia).
    replace (y <? H) with true by (symmetry; apply Z.ltb_lt; lia).
    cbn [andb orb]. by rewrite negb_involutive.
  - destruct (Z.eqb_spec x (W - 1)) as [->|Hne].
    + replace (W - 1 + 1 <? W) with false by (symmetry; apply Z.ltb_ge; lia).
      by rewrite andb_false_r.
    + replace (0 <=? x + 1) with true by (symmetry; apply Z.leb_le; lia).
      replace (x + 1 <? W) with true by (symmetry; apply Z.ltb_lt; lia).
      replace (0 <=? y) with true by (symmetry; apply Z.leb_le; lia).
      replace (y <? H) with true by (symmetry; apply Z.ltb_lt; lia).
      cbn [andb orb]. by rewrite negb_involutive.
  - destruct (Z.eqb_spec y (H - 1)) as [->|Hne].
    + replace (H - 1 + 1 <? H) with false by (symmetry; apply Z.ltb_ge; lia).
      by rewrite andb_false_r.
    + replace (0 <=? x) with true by (symmetry; apply Z.leb_le; lia).
      replace (x <? W) with true by (symmetry; apply Z.ltb_lt; lia).
      replace (0 <=? y + 1) with true by (symmetry; apply Z.leb_le; lia).
      replace (y + 1 <? H) with true by (symmetry; apply Z.ltb_lt; lia).
      cbn [andb orb]. by rewrite negb_involutive.
  - destruct (Z.eqb_spec y 0) as [->|Hne].
    + cbn [Z.sub Z.opp Z.add Z.pos_sub]. by rewrite andb_false_r.
    + replace (0 <=? x) with true by (symmetry; apply Z.leb_le; lia).
      replace (x <? W) with true by (symmetry; apply Z.ltb_lt; lia).
      replace (0 <=? y - 1) with true by (symmetry; apply Z.leb_le; lia).
      replace (y - 1 <? H) with true by (symmetry; apply Z.ltb_lt; lia).
      cbn [andb orb]. by rewrite negb_involutive.
  - replace (0 <=? x) with true by (symmetry; apply Z.leb_le; lia).
    replace (x <? W) with true by (symmetry; apply Z.ltb_lt; lia).
    replace (0 <=? y) with true by (symmetry; apply Z.leb_le; lia).
    replace (y <? H) with true by (symmetry; apply Z.ltb_lt; lia).
    cbn [andb]. by rewrite negb_involutive.
Qed.

(** Binding twice. *)
Lemma bind_bind {A B C} (f : A → list B) (g : B → list C) (l : list A) :
  (l ≫= f) ≫= g = l ≫= (λ a, f a ≫= g).
Proof.
  induction l as [|a l IH]; [done|].
  cbn [mbind list_bind]. change (list_bind ?f ?l) with (l ≫= f).
  rewrite bind_app. by rewrite IH.
Qed.

Lemma bind_ext {A B} (f g : A → list B) (l : list A) :
  (∀ a, f a = g a) → l ≫= f = l ≫= g.
Proof.
  intros Hfg. induction l as [|a l IH]; [done|].
  cbn [mbind list_bind]. change (list_bind ?f ?l) with (l ≫= f).
  by rewrite IH, Hfg.
Qed.

(** The extrusion loops emit the triangles of the cells, row by row. *)
Lemma extrude_cells mask W H thickness K :
  generate_triangles mask W H thickness K
  = cells W H ≫= (λ c, cell_triangles mask W H thickness K c.1 c.2).
Proof.
  unfold generate_triangles, cells.
  rewrite (for_range_bind H _
    (λ y, seqZ 0 W ≫= (λ x, cell_triangles mask W H thickness K x y))).
  - rewrite app_nil_l. rewrite bind_bind.
    apply bind_ext. intros y. rewrite bind_bind.
    apply bind_ext. intros x.
    cbn [mbind list_bind fst snd]. by rewrite app_nil_r.
  - intros y acc Hy. apply for_range_bind. intros x tris Hx.
    destruct (wall_tests mask W H x y Hx Hy) as (HL & HR & HB & HT & HC).
    cbv beta zeta. rewrite HL, HR, HB, HT, HC.
    unfold cell_triangles, wall.
    destruct (foreground mask W H x y); cbn [negb]; [|symmetry; apply app_nil_r].
    unfold push, top_face, bottom_face, left_side,
      right_side, bottom_side, top_side, c00, c10, c11, c01, b00, b10, b11, b01,
      box_x0, box_x1, box_y0, box_y1.
    destruct (foreground mask W H (x - 1) y), (foreground mask W H (x + 1) y),
      (foreground mask W H x (y + 1)), (foreground mask W H x (y - 1));
      cbn [negb]; rewrite <- ?app_assoc; reflexivity.
Qed.

(** The cells in the order of the loops are the indices in row-major
    order. *)
Lemma bind_singleton {A B} (f : A → B) (l : list A) :
  l ≫= (λ a, [f a]) = f <$> l.
Proof.
  induction l as [|a l IH]; [done|].
  cbn [mbind list_bind]. change (list_bind ?f ?l) with (l ≫= f).
  by rewrite IH.
Qed.

Lemma cells_row_major W H :
  0 ≤ W → 0 ≤ H →
  cells W H = (λ i, (i mod W, i / W)) <$> seqZ 0 (W * H).
Proof.
  intros HW. revert H. apply natlike_ind.
  - unfold cells. by rewrite Z.mul_0_r.
  - intros H HH IH. unfold cells in *. unfold Z.succ.
    rewrite (seqZ_app 0 H 1) by lia. rewrite bind_app, IH.
    replace (W * (H + 1)) with (W * H + W) by lia.
    rewrite (seqZ_app 0 (W * H) W) by nia. rewrite fmap_app. f_equal.
    rewrite (seqZ_cons _ 1) by lia. rewrite (seqZ_nil _ (Z.pred 1)) by lia.
    cbn [mbind list_bind]. change (list_bind ?f ?l) with (l ≫= f).
    rewrite app_nil_r, bind_singleton, !Z.add_0_l.
    replace (seqZ (W * H) W) with (Z.add (W * H) <$> seqZ 0 W)
      by (rewrite fmap_add_seqZ; f_equal; lia).
    rewrite <- list_fmap_compose.
    apply list_fmap_ext. intros i x Hx.
    apply lookup_seqZ in Hx as [-> Hi]. cbn [compose]. rewrite Z.add_0_l.
    f_equal.
    + rewrite Z.add_comm, Z.mul_comm, Z.mod_add by lia.
      symmetry. apply Z.mod_small. lia.
    + rewrite Z.add_comm, Z.mul_comm, Z.div_add by lia.
      rewrite Z.div_small; lia.
Qed.

(** A binary mask of [W * H] cells, index by index. *)
Lemma binary_mask_cells mask W H :
  0 ≤ W → 0 ≤ H → binary_mask mask → Z.of_nat (length mask) = W * H →
  mask = (λ i, if foreground mask W H (i mod W) (i / W) then 1 else 0) <$> seqZ 0 (W * H).
Proof.
  intros HW HH Hbin Hlen. apply list_eq. intros i. rewrite list_lookup_fmap.
  destruct (decide (Z.of_nat i < W * H)) as [Hi|Hi].
  - rewrite lookup_seqZ_lt by done. cbn [fmap option_fmap option_map]. rewrite Z.add_0_l.
    assert (0 < W) as HWpos by nia.
    pose proof (Z.div_mod (Z.of_nat i) W ltac:(lia)) as Hdm.
    pose proof (Z.mod_pos_bound (Z.of_nat i) W HWpos) as Hm.
    assert (0 ≤ Z.of_nat i / W < H) as Hd.
    { split; [apply Z.div_pos; lia|]. apply Z.div_lt_upper_bound; lia. }
    unfold foreground.
    replace (0 <=? Z.of_nat i mod W) with true by (symmetry; apply Z.leb_le; lia).
    replace (Z.of_nat i mod W <? W) with true by (symmetry; apply Z.ltb_lt; lia).
    replace (0 <=? Z.of_nat i / W) with true by (symmetry; apply Z.leb_le; lia).
    replace (Z.of_nat i / W <? H) with true by (symmetry; apply Z.ltb_lt; lia).
    cbn [andb].
    replace (Z.of_nat i / W * W + Z.of_nat i mod W) with (Z.of_nat i) by lia.
    unfold JS.get.
    replace (Z.of_nat i <? 0) with false by (symmetry; apply Z.ltb_ge; lia).
    rewrite Nat2Z.id.
    destruct (mask !! i) as [c|] eqn:Hc.
    + unfold binary_mask in Hbin. rewrite Forall_forall in Hbin.
      destruct (Hbin c (list_elem_of_lookup_2 _ _ _ Hc)) as [->| ->]; reflexivity.
    + apply lookup_ge_None in Hc. lia.
  - rewrite lookup_seqZ_ge by lia. cbn [fmap option_fmap option_map]. apply lookup_ge_None. lia.
Qed.

Lemma count_fmap {A B} (f : A → B) (q : B → bool) (l : list A) :
  length (filter (λ b, q b = true) (f <$> l))
  = length (filter (λ a, q (f a) = true) l).
Proof.
  induction l as [|a l IH]; [done|].
  rewrite fmap_cons. destruct (q (f a)) eqn:Hq.
  - rewrite !filter_cons_True by done. cbn [length]. by rewrite IH.
  - rewrite !filter_cons_False by congruence. done.
Qed.

(** The foreground cells of a binary mask are its cells equal to 1. *)
Lemma foreground_cells_count mask W H :
  0 ≤ W → 0 ≤ H → binary_mask mask → Z.of_nat (length mask) = W * H →
  Z.of_nat (length (filter (λ c, foreground mask W H c.1 c.2 = true) (cells W H)))
  = foreground_count mask.
Proof.
  intros HW HH Hbin Hlen. unfold foreground_count.
  rewrite (binary_mask_cells mask W H HW HH Hbin Hlen) at 1.
  rewrite (count_ones_fmap (λ i, foreground mask W H (i mod W) (i / W))).
  rewrite cells_row_major by done.
  by rewrite (count_fmap (λ i, (i mod W, i / W)) (λ c, foreground mask W H c.1 c.2)).
Qed.

(** Four to twelve triangles, an even number, per foreground cell. *)
Lemma sum_cells_bounds mask W H (l : list (Z * Z)) :
  let n := sum_over (λ c, if foreground mask W H c.1 c.2
                          then 4 + 2 * exposed_sides mask W H c.1 c.2 else 0) l in
  let k := Z.of_nat (length (filter (λ c, foreground mask W H c.1 c.2 = true) l)) in
  4 * k ≤ n ≤ 12 * k ∧ n mod 2 = 0.
Proof.
  induction l as [|c l IH]; [done|].
  cbn [sum_over foldr] in *. fold (sum_over (λ c, if foreground mask W H c.1 c.2
                          then 4 + 2 * exposed_sides mask W H c.1 c.2 else 0) l) in *.
  set (n := sum_over _ l) in *. cbv zeta in IH. destruct IH as [IH1 IH2].
  assert (0 ≤ exposed_sides mask W H c.1 c.2 ≤ 4) as He.
  { unfold exposed_sides.
    destruct (foreground mask W H (c.1 - 1) c.2), (foreground mask W H (c.1 + 1) c.2),
      (foreground mask W H c.1 (c.2 + 1)), (foreground mask W H c.1 (c.2 - 1)); lia. }
  destruct (foreground mask W H c.1 c.2) eqn:Hc.
  - rewrite filter_cons_True by done. cbn [length]. split; [lia|].
    replace (4 + 2 * exposed_sides mask W H c.1 c.2 + n)
      with (n + (2 + exposed_sides mask W H c.1 c.2) * 2) by lia.
    by rewrite Z.mod_add by lia.
  - rewrite filter_cons_False by congruence. split; [lia|]. by rewrite Z.add_0_l.
Qed.

Lemma length_bind_sum {A B} (f : A → list B) (l : list A) :
  Z.of_nat (length (l ≫= f)) = sum_over (λ a, Z.of_nat (length (f a))) l.
Proof.
  induction l as [|a l IH]; [done|].
  cbn [mbind list_bind sum_over foldr]. change (list_bind ?f ?l) with (l ≫= f).
  rewrite length_app, Nat2Z.inj_add, IH. reflexivity.
Qed.

Lemma sum_over_ext {A} (f g : A → Z) (l : list A) :
  (∀ a, f a = g a) → sum_over f l = sum_over g l.
Proof.
  intros Hfg. induction l as [|a l IH]; [done|].
  cbn [sum_over foldr]. fold (sum_over f l). fold (sum_over g l). by rewrite IH, Hfg.
Qed.

Lemma length_cell_triangles mask W H thickness K x y :
  Z.of_nat (length (cell_triangles mask W H thickness K x y))
  = if foreground mask W H x y then 4 + 2 * exposed_sides mask W H x y else 0.
Proof.
  unfold cell_triangles, exposed_sides, wall.
  destruct (foreground mask W H x y); [|done].
  destruct (foreground mask W H (x - 1) y), (foreground mask W H (x + 1) y),
    (foreground mask W H x (y + 1)), (foreground mask W H x (y - 1)); reflexivity.
Qed.

Lemma triangle_count_formula mask W H thickness K :
  Z.of_nat (length (generate_triangles mask W H thickness K))
  = sum_over (λ c, if foreground mask W H c.1 c.2
                   then 4 + 2 * exposed_sides mask W H c.1 c.2 else 0) (cells W H).
Proof.
  rewrite extrude_cells, length_bind_sum.
  apply sum_over_ext. intros c. apply length_cell_triangles.
Qed.

(** X6: the number of triangles is 4 for each foreground cell (the top and
    the bottom of its box) plus 2 for each side of a foreground cell whose
    neighbour across that side is background or outside the mask; no wall
    is made between two foreground cells. *)
Theorem triangle_count mask W H thickness K :
  Z.of_nat (length (generate_triangles mask W H thickness K))
  = sum_over (λ c, if foreground mask W H c.1 c.2
                   then 4 + 2 * exposed_sides mask W H c.1 c.2 else 0) (cells W H).
Proof. apply triangle_count_formula. Qed.

Lemma triangle_bounds mask W H thickness K :
  0 ≤ W → 0 ≤ H → binary_mask mask → Z.of_nat (length mask) = W * H →
  let n := Z.of_nat (length (generate_triangles mask W H thickness K)) in
  let k := foreground_count mask in
  4 * k ≤ n ≤ 12 * k ∧ n mod 2 = 0.
Proof.
  intros HW HH Hbin Hlen n k.
  pose proof (sum_cells_bounds mask W H (cells W H)) as Hb. cbv zeta in Hb.
  rewrite <- (triangle_count_formula mask W H thickness K) in Hb.
  rewrite (foreground_cells_count mask W H HW HH Hbin Hlen) in Hb.
  exact Hb.
Qed.

Lemma foreground_count_range mask : 0 ≤ foreground_count mask ≤ Z.of_nat (length mask).
Proof.
  unfold foreground_count. split; [lia|].
  apply inj_le. apply length_filter.
Qed.

(** X7: for a binary mask of W × H cells with k foreground cells the number
    n of triangles is even and 4·k ≤ n ≤ 12·k, so there is no triangle
    exactly when there is no foreground cell.  The browser-side extruder
    makes as many. *)
Theorem triangle_count_bounds mask W H thickness K :
  0 ≤ W → 0 ≤ H → binary_mask mask → Z.of_nat (length mask) = W * H →
  let n := Z.of_nat (length (generate_triangles mask W H thickness K)) in
  let k := foreground_count mask in
  4 * k ≤ n ≤ 12 * k ∧ n mod 2 = 0 ∧ (n = 0 ↔ k = 0)
  ∧ Z.of_nat (length (generateTriangles thickness mask W H K)) = n.
Proof.
  intros HW HH Hbin Hlen n k.
  destruct (triangle_bounds mask W H thickness K HW HH Hbin Hlen) as [Hb1 Hb2].
  fold n in Hb1, Hb2. fold k in Hb1.
  pose proof (foreground_count_range mask) as Hk. fold k in Hk.
  split; [exact Hb1|]. split; [exact Hb2|]. split; [lia|].
  unfold n. by rewrite extruders_same.
Qed.

Lemma triangle_count_bounds_witness :
  4 * foreground_count [1; 1; 0; 1]
  ≤ Z.of_nat (length (generate_triangles [1; 1; 0; 1] 2 2 (JS.of_Z 2) (JS.of_Z 3)))
  ≤ 12 * foreground_count [1; 1; 0; 1].
Proof.
  assert (binary_mask [1; 1; 0; 1]) as Hbin
    by (repeat (constructor; [lia|]); constructor).
  exact (proj1 (triangle_count_bounds [1; 1; 0; 1] 2 2 (JS.of_Z 2) (JS.of_Z 3)
                  ltac:(lia) ltac:(lia) Hbin eq_refl)).
Defined.

(** A triangle of a cell is made over a foreground cell. *)
Lemma cell_triangles_inside mask W H thickness K x y t :
  t ∈ cell_triangles mask W H thickness K x y →
  0 ≤ x < W ∧ 0 ≤ y < H ∧ t ∈ box H thickness K x y.
Proof.
  unfold cell_triangles, wall, box. intros Ht.
  destruct (foreground mask W H x y) eqn:Hfg; [|by apply elem_of_nil in Ht].
  unfold foreground in Hfg. rewrite !andb_true_iff in Hfg.
  destruct Hfg as [[[[Hx0 Hx1] Hy0] Hy1] _].
  split; [lia|]. split; [lia|].
  rewrite !elem_of_app in Ht. rewrite !elem_of_app.
  destruct Ht as [Ht|[Ht|[Ht|[Ht|[Ht|Ht]]]]]; [tauto|tauto| | | | ].
  - destruct (foreground mask W H (x - 1) y); [by apply elem_of_nil in Ht|tauto].
  - destruct (foreground mask W H (x + 1) y); [by apply elem_of_nil in Ht|tauto].
  - destruct (foreground mask W H x (y + 1)); [by apply elem_of_nil in Ht|tauto].
  - destruct (foreground mask W H x (y - 1)); [by apply elem_of_nil in Ht|tauto].
Qed.

(** The eight corners of the box over a cell of the mask are on the
    grid. *)
Lemma box_on_grid W H thickness K x y t v :
  0 ≤ x < W → 0 ≤ y < H →
  t ∈ box H thickness K x y → v ∈ vertices t → on_grid W H thickness K v.
Proof.
  intros Hx Hy Ht Hv.
  assert (∀ i j z, (i = x ∨ i = x + 1) → (j = H - y - 1 ∨ j = H - y) →
            (z = thickness ∨ z = JS.of_Z 0) →
            on_grid W H thickness K
              (PrimFloat.mul (JS.of_Z i) K, PrimFloat.mul (JS.of_Z j) K, z)) as Hgrid.
  { intros i j z Hi Hj Hz. exists i, j. split; [lia|]. split; [lia|].
    cbn [fst snd]. tauto. }
  unfold box, top_face, bottom_face, left_side, right_side, bottom_side, top_side in Ht.
  rewrite !elem_of_app, !elem_of_cons, !elem_of_nil in Ht.
  unfold vertices in Hv.
  repeat match goal with
         | H : _ ∨ _ |- _ => destruct H as [H|H]
         | H : False |- _ => destruct H
         end; subst t; cbn [fst snd] in Hv;
    rewrite !elem_of_cons, elem_of_nil in Hv;
    (destruct Hv as [->|[->|[->|[]]]]);
    unfold c00, c10, c11, c01, b00, b10, b11, b01, box_x0, box_x1, box_y0, box_y1;
    apply Hgrid; tauto.
Qed.

(** X9: every vertex of every triangle the extruder emits is a corner of the
    grid of cells: its x coordinate is i · scale for a whole 0 ≤ i ≤ W, its
    y coordinate is j · scale for a whole 0 ≤ j ≤ H, and its z coordinate is
    the thickness or 0.  Every triangle is one of the twelve of the box over
    a cell of the mask. *)
Theorem mesh_on_grid mask W H thickness K t :
  t ∈ generate_triangles mask W H thickness K →
  (∃ x y, 0 ≤ x < W ∧ 0 ≤ y < H ∧ JS.get mask (y * W + x) ≠ Some 0
          ∧ t ∈ box H thickness K x y)
  ∧ ∀ v, v ∈ vertices t → on_grid W H thickness K v.
Proof.
  rewrite extrude_cells. intros Ht.
  apply list_elem_of_bind in Ht as (c & Ht & _).
  pose proof (cell_triangles_inside _ _ _ _ _ _ _ _ Ht) as (Hx & Hy & Hbox).
  split.
  - exists c.1, c.2. split; [done|]. split; [done|]. split; [|done].
    unfold cell_triangles in Ht.
    destruct (foreground mask W H c.1 c.2) eqn:Hfg; [|by apply elem_of_nil in Ht].
    unfold foreground in Hfg. apply andb_true_iff in Hfg as [_ Hfg].
    intros Hz. rewrite Hz in Hfg. discriminate Hfg.
  - intros v Hv. exact (box_on_grid W H thickness K c.1 c.2 t v Hx Hy Hbox Hv).
Qed.

Lemma mesh_on_grid_witness :
  Forall (on_grid 1 1 (JS.of_Z 2) (JS.of_Z 3))
    (vertices (c01 1 (JS.of_Z 2) (JS.of_Z 3) 0 0,
               c11 1 (JS.of_Z 2) (JS.of_Z 3) 0 0,
               c10 1 (JS.of_Z 2) (JS.of_Z 3) 0 0)).
Proof.
  apply Forall_forall.
  apply (mesh_on_grid [1] 1 1 (JS.of_Z 2) (JS.of_Z 3)).
  rewrite extrude_cells. apply list_elem_of_bind. exists (0, 0).
  split; [|apply list_elem_of_here]. apply list_elem_of_here.
Defined.

(** ** A solid rectangle *)

Lemma sum_over_app {A} (f : A → Z) (l1 l2 : list A) :
  sum_over f (l1 ++ l2) = sum_over f l1 + sum_over f l2.
Proof.
  induction l1 as [|a l1 IH]; [done|].
  cbn [app sum_over foldr]. fold (sum_over f (l1 ++ l2)). fold (sum_over f l1).
  rewrite IH. lia.
Qed.

Lemma sum_over_bind {A B} (f : B → Z) (g : A → list B) (l : list A) :
  sum_over f (l ≫= g) = sum_over (λ a, sum_over f (g a)) l.
Proof.
  induction l as [|a l IH]; [done|].
  cbn [mbind list_bind]. change (list_bind ?f ?l) with (l ≫= f).
  rewrite sum_over_app, IH. reflexivity.
Qed.

Lemma sum_over_ext_in {A} (f g : A → Z) (l : list A) :
  (∀ a, a ∈ l → f a = g a) → sum_over f l = sum_over g l.
Proof.
  induction l as [|a l IH]; [done|]. intros Hfg.
  cbn [sum_over foldr]. fold (sum_over f l). fold (sum_over g l).
  rewrite IH, (Hfg a) by (intros; apply Hfg; by right) || by left.
  reflexivity.
Qed.

(** Over the numbers below [n]: the sum of a constant plus [q] at each of
    the two ends. *)
Lemma sum_over_ends n p q :
  1 ≤ n →
  sum_over (λ x, p + q * ((if x =? 0 then 1 else 0) + (if x =? n - 1 then 1 else 0)))
    (seqZ 0 n) = n * p + 2 * q.
Proof.
  intros Hn.
  assert (∀ k, 0 ≤ k → k ≤ n →
    sum_over (λ x, p + q * ((if x =? 0 then 1 else 0) + (if x =? n - 1 then 1 else 0)))
      (seqZ 0 k)
    = k * p + q * ((if 0 <? k then 1 else 0) + (if k =? n then 1 else 0))) as Hk.
  { intros k Hk0. revert k Hk0. apply (natlike_ind (λ k, k ≤ n → _)).
    - intros _. rewrite (seqZ_nil 0 0) by lia. cbn [sum_over foldr].
      destruct (Z.eqb_spec 0 n); [lia|]. rewrite Z.ltb_irrefl. lia.
    - intros k Hk0 IH Hle. unfold Z.succ.
      rewrite (seqZ_app 0 k 1) by lia. rewrite sum_over_app, IH by lia.
      rewrite (seqZ_cons _ 1) by lia. rewrite (seqZ_nil _ (Z.pred 1)) by lia.
      cbn [sum_over foldr]. rewrite Z.add_0_l.
      destruct (Z.ltb_spec 0 k), (Z.eqb_spec k n), (Z.eqb_spec k 0),
        (Z.eqb_spec k (n - 1)), (Z.ltb_spec 0 (k + 1)), (Z.eqb_spec (k + 1) n); lia. }
  rewrite (Hk n) by lia.
  destruct (Z.ltb_spec 0 n), (Z.eqb_spec n n); lia.
Qed.

(** In a mask of ones the foreground cells are the cells of the mask. *)
Lemma foreground_solid W H x y :
  0 ≤ W → 0 ≤ H →
  foreground (replicate (Z.to_nat (W * H)) 1) W H x y
  = (0 <=? x) && (x <? W) && (0 <=? y) && (y <? H).
Proof.
  intros HW HH. unfold foreground.
  destruct ((0 <=? x) && (x <? W) && (0 <=? y) && (y <? H)) eqn:Hin; [|done].
  rewrite !andb_true_iff in Hin. destruct Hin as [[[Hx0 Hx1] Hy0] Hy1].
  cbn [andb]. unfold JS.get.
  assert (y * W ≤ (H - 1) * W) by nia.
  replace (y * W + x <? 0) with false by (symmetry; apply Z.ltb_ge; nia).
  rewrite lookup_replicate_2 by lia. reflexivity.
Qed.

Lemma exposed_solid W H x y :
  0 ≤ x < W → 0 ≤ y < H →
  let mask := replicate (Z.to_nat (W * H)) 1 in
  foreground mask W H x y = true
  ∧ exposed_sides mask W H x y
    = (if x =? 0 then 1 else 0) + (if x =? W - 1 then 1 else 0)
      + (if y =? H - 1 then 1 else 0) + (if y =? 0 then 1 else 0).
Proof.
  intros Hx Hy mask. unfold mask, exposed_sides.
  rewrite !foreground_solid by lia.
  replace (0 <=? x) with true by (symmetry; apply Z.leb_le; lia).
  replace (x <? W) with true by (symmetry; apply Z.ltb_lt; lia).
  replace (0 <=? y) with true by (symmetry; apply Z.leb_le; lia).
  replace (y <? H) with true by (symmetry; apply Z.ltb_lt; lia).
  replace (x - 1 <? W) with true by (symmetry; apply Z.ltb_lt; lia).
  replace (0 <=? x + 1) with true by (symmetry; apply Z.leb_le; lia).
  replace (y - 1 <? H) with true by (symmetry; apply Z.ltb_lt; lia).
  replace (0 <=? y + 1) with true by (symmetry; apply Z.leb_le; lia).
  cbn [andb]. rewrite !andb_true_r. split; [done|].
  f_equal; [f_equal; [f_equal|]|].
  - destruct (Z.leb_spec 0 (x - 1)), (Z.eqb_spec x 0); lia.
  - destruct (Z.ltb_spec (x + 1) W), (Z.eqb_spec x (W - 1)); lia.
  - destruct (Z.ltb_spec (y + 1) H), (Z.eqb_spec y (H - 1)); lia.
  - destruct (Z.leb_spec 0 (y - 1)), (Z.eqb_spec y 0); lia.
Qed.

(** The count for a solid rectangle. *)
Lemma solid_count W H thickness K :
  1 ≤ W → 1 ≤ H →
  Z.of_nat (length (generate_triangles (replicate (Z.to_nat (W * H)) 1) W H thickness K))
  = 4 * W * H + 4 * (W + H).
Proof.
  intros HW HH. rewrite triangle_count_formula. unfold cells.
  rewrite sum_over_bind.
  rewrite (sum_over_ext_in _
    (λ y, W * 4 + 4 + (2 * W) * ((if y =? 0 then 1 else 0) + (if y =? H - 1 then 1 else 0)))).
  { replace (λ y : Z, W * 4 + 4 + 2 * W * ((if y =? 0 then 1 else 0) + (if y =? H - 1 then 1 else 0)))
      with (λ y : Z, (W * 4 + 4) + (2 * W) * ((if y =? 0 then 1 else 0) + (if y =? H - 1 then 1 else 0)))
      by reflexivity.
    rewrite (sum_over_ends H (W * 4 + 4) (2 * W)) by lia. lia. }
  intros y Hy. apply elem_of_seqZ in Hy.
  rewrite sum_over_bind.
  rewrite (sum_over_ext_in _
    (λ x, (4 + 2 * ((if y =? 0 then 1 else 0) + (if y =? H - 1 then 1 else 0)))
          + 2 * ((if x =? 0 then 1 else 0) + (if x =? W - 1 then 1 else 0)))).
  { rewrite (sum_over_ends W _ 2) by lia. lia. }
  intros x Hx. apply elem_of_seqZ in Hx.
  cbn [sum_over foldr fst snd].
  destruct (exposed_solid W H x y ltac:(lia) ltac:(lia)) as [-> ->].
  lia.
Qed.


(** X8: a solid rectangle of W × H foreground cells is extruded to
    4·W·H + 4·(W + H) triangles: the tops and bottoms of the cells and the
    walls along the border only. *)
Theorem solid_rectangle_count W H thickness K :
  1 ≤ W → 1 ≤ H →
  Z.of_nat (length (generate_triangles (replicate (Z.to_nat (W * H)) 1) W H thickness K))
  = 4 * W * H + 4 * (W + H).
Proof. apply solid_count. Qed.

Lemma solid_rectangle_count_witness :
  Z.of_nat (length (generate_triangles (replicate (Z.to_nat (2 * 3)) 1) 2 3
                      (JS.of_Z 2) (JS.of_Z 1)))
  = 4 * 2 * 3 + 4 * (2 + 3).
Proof.
  apply solid_rectangle_count; lia.
Defined.


(** ** The masks that the pipelines build *)

(** Every cell written by the three mask loops satisfies what 0 and the
    values written satisfy. *)
Lemma fill_all (P : Z → Prop) W H f :
  P 0 → (∀ x y, P (f x y)) → Forall P (fill W H f).
Proof.
  intros H0 Hf. unfold fill.
  apply (for_range_inv (Forall P)).
  { unfold JS.new_Uint8Array. by apply Forall_replicate. }
  intros y acc _ Hacc. apply (for_range_inv (Forall P)); [done|].
  intros x acc' _ Hacc'. unfold JS.set.
  destruct (y * W + x <? 0); [done|]. by apply Forall_insert.
Qed.

Lemma cell_of_binary px T : cell_of px T = 0 ∨ cell_of px T = 1.
Proof. unfold cell_of. destruct (PrimFloat.ltb _ _); [by right|by left]. Qed.

(** For an image of at least one pixel each way, [generate] builds a mask
    whatever the budget: the full-resolution one, or a reduced one whose
    dimensions are whole numbers. *)
Lemma generate_mask_total data W H T max_px :
  1 ≤ W < 2 ^ 53 → 1 ≤ H < 2 ^ 53 →
  ∃ mask mW mH,
    generate_mask data W H T max_px = Some (mask, mW, mH) ∧ 1 ≤ mW ∧ 1 ≤ mH
    ∧ (mask = createMask data W H T ∧ mW = W ∧ mH = H
       ∨ mask = resample_loops data W H T mW mH).
Proof.
  intros HW HH. unfold generate_mask.
  assert (∃ mask mW mH,
    Some (generate_full_mask data W H T) = Some (mask, mW, mH) ∧ 1 ≤ mW ∧ 1 ≤ mH
    ∧ (mask = createMask data W H T ∧ mW = W ∧ mH = H
       ∨ mask = resample_loops data W H T mW mH)) as Hfull.
  { rewrite generate_full_mask_createMask.
    exists (createMask data W H T), W, H. split; [done|]. split; [lia|]. split; [lia|].
    by left. }
  destruct max_px as [m|]; [|exact Hfull].
  destruct (wants_downsample (Some m) W H) eqn:Hwant; [|exact Hfull].
  unfold wants_downsample in Hwant. rewrite !andb_true_iff in Hwant.
  destruct Hwant as [[Ht Hf] Hlt].
  destruct (budget_whole m (Z.max W H) ltac:(lia) Ht Hf Hlt) as (M & HM & ->).
  destruct (resample_dims_whole W H M HW HH ltac:(lia)) as (mW & mH & HmW & HmH & ->).
  exists (resample_loops data W H T mW mH), mW, mH.
  split; [done|]. split; [done|]. split; [done|]. by right.
Qed.

(** X1: for every image of at least one pixel each way, every buffer (of
    any length and contents), every threshold and every budget option
    (absent, negative, fractional, infinite or [NaN]), [generate] builds a
    mask: its dimensions are whole numbers, at least 1, it has exactly
    [maskW * maskH] cells, each 0 or 1, and on it the extrusion loops of
    [generate] and of the browser make the same triangles. *)
Theorem mask_well_formed data W H T max_px :
  1 ≤ W < 2 ^ 53 → 1 ≤ H < 2 ^ 53 →
  ∃ mask maskW maskH,
    generate_mask data W H T max_px = Some (mask, maskW, maskH)
    ∧ 1 ≤ maskW ∧ 1 ≤ maskH
    ∧ Z.of_nat (length mask) = maskW * maskH
    ∧ binary_mask mask
    ∧ ∀ thickness K,
        generate_triangles mask maskW maskH thickness K
        = generateTriangles thickness mask maskW maskH K.
Proof.
  intros HW HH.
  destruct (generate_mask_total data W H T max_px HW HH)
    as (mask & mW & mH & Hgen & HmW & HmH & Hshape).
  exists mask, mW, mH. split; [done|]. split; [done|]. split; [done|].
  assert (∃ f, mask = fill mW mH (λ x y, cell_of (f x y) T)) as [f ->].
  { destruct Hshape as [(-> & -> & ->)| ->].
    - eexists. apply createMask_fill.
    - eexists. apply resample_loops_fill. }
  assert (binary_mask (fill mW mH (λ x y, cell_of (f x y) T))) as Hbin.
  { apply fill_all; [by left|]. intros x y. apply cell_of_binary. }
  split; [|split; [exact Hbin|]].
  - destruct (fill_spec_any mW mH (λ x y, cell_of (f x y) T)) as [-> _]. nia.
  - intros thickness K. by apply extruders_same.
Qed.

Lemma mask_well_formed_witness :
  ∃ mask maskW maskH,
    generate_mask (replicate 968 40) 11 22 (JS.of_Z 128) (Some (-7.5)%float)
      = Some (mask, maskW, maskH)
    ∧ 1 ≤ maskW ∧ 1 ≤ maskH ∧ Z.of_nat (length mask) = maskW * maskH
    ∧ binary_mask mask.
Proof.
  destruct (mask_well_formed (replicate 968 40) 11 22 (JS.of_Z 128) (Some (-7.5)%float)
              ltac:(lia) ltac:(lia))
    as (mask & mW & mH & Hgen & HmW & HmH & Hlen & Hbin & _).
  exists mask, mW, mH.
  split; [exact Hgen|]. split; [exact HmW|]. split; [exact HmH|].
  split; [exact Hlen | exact Hbin].
Defined.

(** [NaN] is below no threshold. *)
Lemma missing_pixel_background g b a T :
  a ≠ Some 0 → cell_of (None, g, b, a) T = 0.
Proof.
  intros Ha. unfold cell_of, gray.
  assert (PrimFloat.ltb (JS.Math_round (PrimFloat.div (sum3 None g b) (JS.of_Z 3))) T = false)
    as Hnan.
  { cbn [sum3]. rewrite FloatAxioms.ltb_spec.
    change (Prim2SF (JS.Math_round (PrimFloat.div PrimFloat.nan (JS.of_Z 3)))) with S754_nan.
    reflexivity. }
  destruct a as [[|p|p]|]; [done| | |]; by rewrite Hnan.
Qed.

(** X2: a pixel that lies beyond the end of the buffer is background for
    every threshold: a buffer that is too short gives no error, the cells
    of the missing pixels are 0. *)
Theorem pixels_beyond_buffer data W H T x y :
  0 ≤ x < W → 0 ≤ y < H →
  Z.of_nat (length data) ≤ (y * W + x) * 4 →
  JS.get (createMask data W H T) (y * W + x) = Some 0
  ∧ JS.get (generate_full_mask data W H T).1.1 (y * W + x) = Some 0.
Proof.
  intros Hx Hy Hlen.
  assert (JS.get (createMask data W H T) (y * W + x) = Some 0) as Hcell.
  { rewrite createMask_fill.
    destruct (fill_spec_any W H (λ x y, cell_of (channels data ((y * W + x) * 4)) T))
      as [_ Hc].
    rewrite (Hc x y Hx Hy). f_equal. unfold channels.
    assert (∀ i, (y * W + x) * 4 ≤ i → JS.get data i = None) as Hnone.
    { intros i Hi. unfold JS.get. destruct (i <? 0); [done|].
      apply lookup_ge_None. lia. }
    rewrite !Hnone by lia. by apply missing_pixel_background. }
  split; [exact Hcell|]. by rewrite generate_full_mask_createMask.
Qed.

Lemma pixels_beyond_buffer_witness :
  JS.get (createMask [0; 0; 0; 255] 2 1 (JS.of_Z 128)) (0 * 2 + 1) = Some 0.
Proof.
  apply (pixels_beyond_buffer [0; 0; 0; 255] 2 1 (JS.of_Z 128) 1 0); cbn [length]; lia.
Defined.

(** ** The reduced mask *)

(** X4: for an image of fewer than 2^26 pixels a side and every budget
    [max_px] that is finite, not zero and below the longer side, the mask
    that [generate] builds respects the budget and attains it: with
    M = max(1, floor(max_px)), the longer side of the mask is exactly M
    cells and the other side is a whole number from 1 to M.  The binary64
    products, quotients and roundings of the source never take a side
    above the budget. *)
Theorem budget_respected data W H T max_px :
  1 ≤ W < 2 ^ 26 → 1 ≤ H < 2 ^ 26 →
  JS.truthy max_px = true → JS.isFinite max_px = true →
  PrimFloat.ltb max_px (JS.of_Z (Z.max W H)) = true →
  ∃ M mask maskW maskH,
    JS.Math_max (JS.of_Z 1) (JS.Math_floor max_px) = JS.of_Z M
    ∧ 1 ≤ M ≤ Z.max 1 (Z.max W H - 1)
    ∧ generate_mask data W H T (Some max_px) = Some (mask, maskW, maskH)
    ∧ Z.max maskW maskH = M ∧ 1 ≤ maskW ∧ 1 ≤ maskH
    ∧ Z.of_nat (length mask) = maskW * maskH.
Proof.
  intros HW HH Ht Hf Hlt.
  assert (2 ^ 26 < 2 ^ 53) as H2653 by done.
  destruct (budget_whole max_px (Z.max W H) ltac:(lia) Ht Hf Hlt) as (M & HM & HMeq).
  destruct (resample_dims_bounded W H M HW HH HM) as (mW & mH & Hdims & HmW & HmH & Hmax).
  exists M, (resample_loops data W H T mW mH), mW, mH.
  split; [done|]. split; [done|]. split.
  { unfold generate_mask, wants_downsample. rewrite Ht, Hf, Hlt. cbn [andb].
    by rewrite HMeq, Hdims. }
  split; [done|]. split; [lia|]. split; [lia|].
  rewrite resample_loops_fill.
  destruct (fill_spec_any mW mH (λ x2 y2,
    cell_of (sample data W (src_coord x2 W mW) (src_coord y2 H mH)) T)) as [-> _]. nia.
Qed.

Lemma budget_respected_witness :
  ∃ M mask maskW maskH,
    JS.Math_max (JS.of_Z 1) (JS.Math_floor 15.5%float) = JS.of_Z M
    ∧ 1 ≤ M ≤ Z.max 1 (Z.max 11 22 - 1)
    ∧ generate_mask (replicate 968 40) 11 22 (JS.of_Z 128) (Some 15.5%float)
      = Some (mask, maskW, maskH)
    ∧ Z.max maskW maskH = M ∧ 1 ≤ maskW ∧ 1 ≤ maskH
    ∧ Z.of_nat (length mask) = maskW * maskH.
Proof.
  apply (budget_respected (replicate 968 40) 11 22 (JS.of_Z 128) 15.5%float);
    solve [lia | reflexivity].
Defined.

(** X5: for an image of fewer than 2^26 pixels a side and a whole budget
    1 ≤ M < max(W, H), the reduced mask is a subsampling of the
    full-resolution mask: cell (x2, y2) is the cell of the full-resolution
    mask at column (x2 · W) div maskW and row (y2 · H) div maskH, whole
    quotients that lie inside the image.  The binary64 division and
    [Math.floor] of the source give exactly these quotients, and thresholding the
    sampled colours gives the same as sampling the thresholded mask; the
    browser's [downsampleImage] builds the same mask. *)
Theorem reduced_mask_subsamples data W H T M :
  1 ≤ W < 2 ^ 26 → 1 ≤ H < 2 ^ 26 → 1 ≤ M < Z.max W H →
  ∃ mask maskW maskH,
    generate_mask data W H T (Some (JS.of_Z M)) = Some (mask, maskW, maskH)
    ∧ downsampleImage data W H T (JS.of_Z M) = Some (mask, maskW, maskH)
    ∧ 1 ≤ maskW ≤ M ∧ 1 ≤ maskH ≤ M
    ∧ ∀ x2 y2, 0 ≤ x2 < maskW → 0 ≤ y2 < maskH →
        let srcX := x2 * W / maskW in
        let srcY := y2 * H / maskH in
        0 ≤ srcX < W ∧ 0 ≤ srcY < H
        ∧ JS.get mask (y2 * maskW + x2)
          = JS.get (createMask data W H T) (srcY * W + srcX).
Proof.
  intros HW HH HM.
  assert (2 ^ 26 < 2 ^ 53) as H2653 by done.
  destruct (whole_budget W H M ltac:(lia) ltac:(lia) ltac:(lia)) as [Hguard Hwhole].
  destruct (resample_dims_bounded W H M HW HH ltac:(lia))
    as (mW & mH & Hdims & HmW & HmH & Hmax).
  exists (resample_loops data W H T mW mH), mW, mH.
  split.
  { unfold generate_mask. rewrite Hguard.
    replace (M <? Z.max W H) with true by (symmetry; apply Z.ltb_lt; lia).
    by rewrite Hwhole, Hdims. }
  split; [unfold downsampleImage; by rewrite Hdims|].
  split; [done|]. split; [done|].
  intros x2 y2 Hx Hy.
  destruct (src_coord_exact x2 W mW ltac:(lia) ltac:(lia) Hx) as [HsX HrX].
  destruct (src_coord_exact y2 H mH ltac:(lia) ltac:(lia) Hy) as [HsY HrY].
  cbv zeta. split; [done|]. split; [done|].
  rewrite resample_loops_fill, createMask_fill.
  destruct (fill_spec_any mW mH (λ x2 y2,
    cell_of (sample data W (src_coord x2 W mW) (src_coord y2 H mH)) T)) as [_ Hc].
  destruct (fill_spec_any W H (λ x y, cell_of (channels data ((y * W + x) * 4)) T))
    as [_ Hc'].
  rewrite (Hc x2 y2 Hx Hy), (Hc' _ _ HrX HrY). f_equal. f_equal.
  rewrite HsX, HsY. unfold sample.
  destruct (of_Z_facts (x2 * W / mW) ltac:(lia)) as (_ & _ & _ & -> & _).
  destruct (of_Z_facts (y2 * H / mH) ltac:(lia)) as (_ & _ & _ & -> & _).
  reflexivity.
Qed.

Lemma reduced_mask_subsamples_witness :
  ∃ mask maskW maskH,
    generate_mask (replicate 968 40) 11 22 (JS.of_Z 128) (Some (JS.of_Z 15))
      = Some (mask, maskW, maskH)
    ∧ 1 ≤ maskW ≤ 15 ∧ 1 ≤ maskH ≤ 15.
Proof.
  destruct (reduced_mask_subsamples (replicate 968 40) 11 22 (JS.of_Z 128) 15
              ltac:(lia) ltac:(lia) ltac:(lia))
    as (mask & mW & mH & Hgen & _ & HmW & HmH & _).
  exists mask, mW, mH. split; [exact Hgen|]. split; [exact HmW | exact HmH].
Defined.

(** ** A fully transparent image *)

(** In a buffer of whole pixels that are all transparent, the four bytes
    read at a multiple of 4 are a background pixel for every threshold up
    to 255. *)
Lemma transparent_cell data n t i :
  Z.of_nat (length data) = 4 * n → transparent data → 0 ≤ t ≤ 255 →
  cell_of (channels data (i * 4)) (JS.of_Z t) = 0.
Proof.
  intros Hlen Htr Ht. unfold channels.
  destruct (JS.get data (i * 4 + 3)) as [a|] eqn:Ha.
  - unfold JS.get in Ha. destruct (Z.ltb_spec (i * 4 + 3) 0) as [|Hi]; [done|].
    assert (a = 0) as ->.
    { apply (Htr _ _ Ha). rewrite Z2Nat.id by lia.
      rewrite Z.add_comm, Z.mod_add by lia. done. }
    unfold cell_of, gray.
    rewrite ltb_of_Z by (change (2 ^ 53) with 9007199254740992; lia).
    by replace (255 <? t) with false by (symmetry; apply Z.ltb_ge; lia).
  - assert (JS.get data (i * 4) = None) as ->.
    { unfold JS.get in *. destruct (Z.ltb_spec (i * 4 + 3) 0) as [Hneg|Hi].
      - by replace (i * 4 <? 0) with true by (symmetry; apply Z.ltb_lt; lia).
      - destruct (i * 4 <? 0); [done|].
        apply lookup_ge_None in Ha. apply lookup_ge_None. lia. }
    by apply missing_pixel_background.
Qed.

(** Every mask built from a fully transparent image is empty. *)
Lemma transparent_mask data W H t max_px mask mW mH :
  1 ≤ W < 2 ^ 53 → 1 ≤ H < 2 ^ 53 →
  Z.of_nat (length data) = 4 * (W * H) → transparent data → 0 ≤ t ≤ 255 →
  generate_mask data W H (JS.of_Z t) max_px = Some (mask, mW, mH) →
  Forall (λ c, c = 0) mask.
Proof.
  intros HW HH Hlen Htr Ht Hgen.
  destruct (generate_mask_total data W H (JS.of_Z t) max_px HW HH)
    as (mask' & mW' & mH' & Hgen' & _ & _ & Hshape).
  rewrite Hgen in Hgen'. injection Hgen' as <- <- <-.
  destruct Hshape as [(-> & -> & ->)| ->].
  - rewrite createMask_fill. apply fill_all; [done|]. intros x y.
    by apply (transparent_cell data (W * H)).
  - rewrite resample_loops_fill. apply fill_all; [done|]. intros x y.
    unfold sample.
    destruct (JS.to_int (src_coord x W mW)) as [sx|];
      [destruct (JS.to_int (src_coord y H mH)) as [sy|]|].
    + by apply (transparent_cell data (W * H)).
    + by apply missing_pixel_background.
    + by apply missing_pixel_background.
Qed.

(** X3: an image whose pixels are all fully transparent is rejected with
    'No black regions detected' for every threshold from 0 to 255, whatever
    the colours under the transparency, the budget, the scale and the
    thickness; no file is written. *)
Theorem transparent_image_rejected cfg env opts png fs t :
  1 ≤ img_width png < 2 ^ 53 → 1 ≤ img_height png < 2 ^ 53 →
  Z.of_nat (length (img_data png)) = 4 * (img_width png * img_height png) →
  transparent (img_data png) →
  default (THRESHOLD cfg) (opt_threshold opts) = JS.of_Z t → 0 ≤ t ≤ 255 →
  generate cfg env opts png fs = (inl NoBlackRegions, fs).
Proof.
  intros HW HH Hlen Htr Hthr Ht. unfold generate. rewrite Hthr.
  set (max_px := resolve_max_px env opts (img_data png) (img_width png)
                   (img_height png) (JS.of_Z t)).
  destruct (generate_mask_total (img_data png) (img_width png) (img_height png)
              (JS.of_Z t) max_px HW HH) as (mask & mW & mH & Hgen & _).
  rewrite Hgen.
  rewrite generate_triangles_empty; [done|].
  by apply (transparent_mask (img_data png) (img_width png) (img_height png) t max_px mask mW mH).
Qed.

Lemma transparent_image_rejected_witness :
  generate default_config no_environment tall_options
    {| img_width := 1; img_height := 2; img_data := [0; 0; 0; 0; 9; 9; 9; 0] |} ∅
  = (inl NoBlackRegions, ∅).
Proof.
  apply (transparent_image_rejected default_config no_environment tall_options
           {| img_width := 1; img_height := 2; img_data := [0; 0; 0; 0; 9; 9; 9; 0] |}
           ∅ 128).
  - cbn [img_width]. lia.
  - cbn [img_height]. lia.
  - reflexivity.
  - intros i a Hi Hm. cbn [img_data] in Hi.
    do 8 (destruct i as [|i];
          [vm_compute in Hm; cbn [lookup list_lookup] in Hi;
           first [discriminate Hm | congruence]|]).
    discriminate Hi.
  - reflexivity.
  - lia.
Defined.


(** ** The pipeline as a whole *)

(** The bytes from offset 80 on do not depend on the name. *)
Lemma drop_header triangles name :
  drop 80 (stl_bytes triangles name)
  = le_bytes 4 (Z.of_nat (length triangles)) ++ concat (record_bytes <$> triangles).
Proof.
  unfold stl_bytes. rewrite drop_app_length'; [done|]. symmetry. apply length_header_bytes.
Qed.

Lemma length_stl_bytes triangles name :
  Z.of_nat (length (stl_bytes triangles name)) = 84 + 50 * Z.of_nat (length triangles).
Proof.
  unfold stl_bytes. rewrite !length_app, length_header_bytes, length_le_bytes, length_records.
  lia.
Qed.

(** Reading the files after a write. *)
Lemma files_lookup_insert (fs : files) path data :
  (<[path := data]> fs) !! path = Some data.
Proof. apply (lookup_insert_eq (stored fs)). Qed.

Lemma files_lookup_insert_ne (fs : files) path path' data :
  path ≠ path' → (<[path := data]> fs) !! path' = fs !! path'.
Proof. apply (lookup_insert_ne (stored fs)). Qed.

(** [generate] once the mask is known. *)
Lemma generate_from_mask cfg env opts png fs mask maskW maskH :
  let thickness := default (THICKNESS_MM cfg) (opt_thickness opts) in
  let threshold := default (THRESHOLD cfg) (opt_threshold opts) in
  let origW := img_width png in
  let origH := img_height png in
  let max_px := resolve_max_px env opts (img_data png) origW origH threshold in
  let K := effective_scale (original_scale cfg opts origW origH) origW maskW in
  let triangles := generate_triangles mask maskW maskH thickness K in
  let scale := reported_scale cfg opts origW origH in
  let outputPath := output_path cfg opts in
  generate_mask (img_data png) origW origH threshold max_px = Some (mask, maskW, maskH) →
  (triangles = [] → generate cfg env opts png fs = (inl NoBlackRegions, fs))
  ∧ (triangles ≠ [] → Z.of_nat (length triangles) < 2 ^ 32 →
     generate cfg env opts png fs
     = if writable fs outputPath
       then (inr {| rep_output := outputPath;
                    rep_width_mm := PrimFloat.mul (JS.of_Z origW) scale;
                    rep_height_mm := PrimFloat.mul (JS.of_Z origH) scale;
                    rep_scale_mm_per_px := scale |},
             <[outputPath := stl_bytes triangles "extruded"]> fs)
       else (inl SystemError, fs)).
Proof.
  intros thickness threshold origW origH max_px K triangles scale outputPath Hmask.
  unfold generate. fold threshold origW origH. fold max_px. rewrite Hmask.
  fold thickness. fold K. fold triangles. fold scale. fold outputPath.
  split.
  - intros ->. reflexivity.
  - intros Hne HN.
    destruct triangles as [|t ts] eqn:Htri; [done|].
    cbn [length Nat.eqb].
    destruct (serializer_bytes (t :: ts) "extruded" HN) as [-> _].
    unfold writeFileSync. by destruct (writable fs outputPath).
Qed.

(** X10: on an image of at least one pixel each way, with k foreground
    cells in the mask it builds, [generate] makes n triangles,
    4·k ≤ n ≤ 12·k.  For k = 0 it throws 'No black regions detected' and
    writes nothing.  For k > 0 (and n < 2^32, what an array can hold) it
    comes to the write: when a file can be written at the output path (the
    module's default when [options.output] is absent or empty) it writes
    one file of 84 + 50·n bytes there, leaves every other file as it was,
    and reports the size of the original image times the scale; when not,
    the error of [fs.writeFileSync] is thrown. *)
Theorem generate_writes_mesh cfg env opts png fs :
  1 ≤ img_width png < 2 ^ 53 → 1 ≤ img_height png < 2 ^ 53 →
  let thickness := default (THICKNESS_MM cfg) (opt_thickness opts) in
  let threshold := default (THRESHOLD cfg) (opt_threshold opts) in
  let origW := img_width png in
  let origH := img_height png in
  let max_px := resolve_max_px env opts (img_data png) origW origH threshold in
  let scale := reported_scale cfg opts origW origH in
  let outputPath := output_path cfg opts in
  ∃ mask maskW maskH,
    generate_mask (img_data png) origW origH threshold max_px = Some (mask, maskW, maskH)
    ∧ let K := effective_scale (original_scale cfg opts origW origH) origW maskW in
      let triangles := generate_triangles mask maskW maskH thickness K in
      let n := Z.of_nat (length triangles) in
      let k := foreground_count mask in
      4 * k ≤ n ≤ 12 * k
      ∧ (k = 0 → generate cfg env opts png fs = (inl NoBlackRegions, fs))
      ∧ (0 < k → n < 2 ^ 32 → writable fs outputPath = true →
         ∃ file,
           generate cfg env opts png fs
           = (inr {| rep_output := outputPath;
                     rep_width_mm := PrimFloat.mul (JS.of_Z origW) scale;
                     rep_height_mm := PrimFloat.mul (JS.of_Z origH) scale;
                     rep_scale_mm_per_px := scale |},
              <[outputPath := file]> fs)
           ∧ Z.of_nat (length file) = 84 + 50 * n
           ∧ ∀ path, path ≠ outputPath → (<[outputPath := file]> fs) !! path = fs !! path)
      ∧ (0 < k → n < 2 ^ 32 → writable fs outputPath = false →
         (generate cfg env opts png fs).1 = inl SystemError).
Proof.
  intros HW HH thickness threshold origW origH max_px scale outputPath.
  destruct (generate_mask_total (img_data png) origW origH threshold max_px HW HH)
    as (mask & mW & mH & Hgen & HmW & HmH & Hshape).
  exists mask, mW, mH. split; [exact Hgen|].
  intros K triangles n k.
  assert (∃ f, mask = fill mW mH (λ x y, cell_of (f x y) threshold)) as [f Hfill].
  { destruct Hshape as [(-> & -> & ->)| ->].
    - eexists. apply createMask_fill.
    - eexists. apply resample_loops_fill. }
  assert (binary_mask mask) as Hbin.
  { rewrite Hfill. apply fill_all; [by left|]. intros x y. apply cell_of_binary. }
  assert (Z.of_nat (length mask) = mW * mH) as Hlen.
  { rewrite Hfill.
    destruct (fill_spec_any mW mH (λ x y, cell_of (f x y) threshold)) as [-> _]. nia. }
  destruct (triangle_bounds mask mW mH thickness K ltac:(lia) ltac:(lia) Hbin Hlen)
    as [Hb _].
  fold triangles in Hb. fold n in Hb. fold k in Hb.
  destruct (generate_from_mask cfg env opts png fs mask mW mH Hgen) as [Hnone Hsome].
  fold thickness origW origH K triangles in Hnone, Hsome.
  fold scale outputPath in Hsome.
  assert (0 < k → triangles ≠ []) as Hne.
  { intros Hk Hnil. unfold n in Hb. rewrite Hnil in Hb. cbn [length] in Hb. lia. }
  split; [exact Hb|]. split; [|split].
  - intros Hk. apply Hnone. apply length_zero_iff_nil. unfold n in Hb. lia.
  - intros Hk HN Hw. exists (stl_bytes triangles "extruded").
    split; [|split].
    + rewrite (Hsome (Hne Hk) HN), Hw. reflexivity.
    + apply length_stl_bytes.
    + intros path Hp. apply files_lookup_insert_ne. congruence.
  - intros Hk HN Hw. rewrite (Hsome (Hne Hk) HN), Hw. reflexivity.
Qed.

Lemma generate_writes_mesh_witness :
  ∃ mask maskW maskH,
    generate_mask (img_data tall_image) 3 100 (JS.of_Z 128) (Some (JS.of_Z 50))
    = Some (mask, maskW, maskH)
    ∧ 4 * foreground_count mask
      ≤ Z.of_nat (length (generate_triangles mask maskW maskH (JS.of_Z 2)
           (effective_scale (original_scale default_config tall_options 3 100) 3 maskW)))
      ≤ 12 * foreground_count mask.
Proof.
  destruct (generate_writes_mesh default_config no_environment tall_options tall_image ∅
              ltac:(cbn [img_width tall_image]; lia) ltac:(cbn [img_height tall_image]; lia))
    as (mask & mW & mH & Hgen & Hb & _).
  exists mask, mW, mH. split; [exact Hgen | exact Hb].
Defined.

(** X11: [options.scale] is only reported: the mesh is scaled by
    [width_mm / width], [height_mm / height] or the default, never by
    [options.scale], so the files written, and whether an error is thrown,
    are the same for every value of it. *)
Theorem scale_option_only_reported cfg env opts png fs scale :
  (generate cfg env (with_scale scale opts) png fs).2 = (generate cfg env opts png fs).2
  ∧ (∀ e, (generate cfg env (with_scale scale opts) png fs).1 = inl e
          ↔ (generate cfg env opts png fs).1 = inl e)
  ∧ (∀ rep, (generate cfg env (with_scale scale opts) png fs).1 = inr rep →
            rep_scale_mm_per_px rep
            = match given scale with
              | Some s => s
              | None => original_scale cfg opts (img_width png) (img_height png)
              end).
Proof.
  unfold generate.
  change (output_path cfg (with_scale scale opts)) with (output_path cfg opts).
  change (opt_thickness (with_scale scale opts)) with (opt_thickness opts).
  change (opt_threshold (with_scale scale opts)) with (opt_threshold opts).
  change (resolve_max_px env (with_scale scale opts)) with (resolve_max_px env opts).
  change (original_scale cfg (with_scale scale opts)) with (original_scale cfg opts).
  destruct (generate_mask _ _ _ _ _) as [[[mask mW] mH]|]; [|done].
  destruct (length _ =? 0)%nat; [done|].
  destruct (meshTrianglesToBinarySTL _ _) as [buf|]; [|done].
  destruct (writeFileSync _ _ _) as [fs'|]; [|done].
  cbn [fst snd]. split; [done|]. split; [done|].
  intros rep [= <-]. reflexivity.
Qed.

(** ** The budget that [generate] settles on *)

(** A budget that is absent or falsy means no downsampling. *)
Lemma no_budget_full_mask data W H T max_px :
  given max_px = None →
  generate_mask data W H T max_px = Some (createMask data W H T, W, H).
Proof.
  intros Hnone. unfold generate_mask.
  rewrite generate_full_mask_createMask.
  destruct max_px as [m|]; [|done].
  unfold wants_downsample. unfold given in Hnone.
  destruct (JS.truthy m); [done|]. done.
Qed.

(** X12: a target size taken from the environment ([_TARGET_MB], the
    [--target-mb] flag of the command line) has no effect: [generate] reads
    it after the estimator has run, so with no [max_px] and no
    [target_size_mb] option and no [_MAX_PX] the mask is the full-resolution
    one, for every target and every image size; not even the default budget
    of 400 applies. *)
Theorem env_target_ignored env opts data W H T target :
  given (opt_max_px opts) = None → given (opt_target_size_mb opts) = None →
  given (env_MAX_PX env) = None → given (env_TARGET_MB env) = Some target →
  generate_mask data W H T (resolve_max_px env opts data W H T)
  = Some (createMask data W H T, W, H).
Proof.
  intros Hmax Htarget Henv Henvt. apply no_budget_full_mask.
  unfold resolve_max_px. rewrite Htarget, Hmax, Henv, Henvt. exact Hmax.
Qed.

Lemma env_target_ignored_witness :
  generate_mask (replicate 16 40) 2 2 (JS.of_Z 128)
    (resolve_max_px target_environment no_options (replicate 16 40) 2 2 (JS.of_Z 128))
  = Some (createMask (replicate 16 40) 2 2 (JS.of_Z 128), 2, 2).
Proof.
  apply (env_target_ignored target_environment no_options _ _ _ _ (JS.of_Z 1));
    reflexivity.
Defined.

(** X13: with no budget option and nothing in the environment the budget is
    400: an image of at most 400 pixels a side keeps its resolution, and
    for a larger one (below 2^26 pixels a side) the longer side of the mask
    is exactly 400 cells. *)
Theorem default_budget env opts data W H T :
  given (opt_max_px opts) = None → given (opt_target_size_mb opts) = None →
  given (env_MAX_PX env) = None → given (env_TARGET_MB env) = None →
  1 ≤ W < 2 ^ 26 → 1 ≤ H < 2 ^ 26 →
  resolve_max_px env opts data W H T = Some (JS.of_Z 400)
  ∧ (Z.max W H ≤ 400 →
     generate_mask data W H T (resolve_max_px env opts data W H T)
     = Some (createMask data W H T, W, H))
  ∧ (400 < Z.max W H →
     ∃ mask maskW maskH,
       generate_mask data W H T (resolve_max_px env opts data W H T)
       = Some (mask, maskW, maskH)
       ∧ Z.max maskW maskH = 400 ∧ 1 ≤ maskW ∧ 1 ≤ maskH).
Proof.
  intros Hmax Htarget Henv Henvt HW HH.
  assert (2 ^ 26 < 2 ^ 53) as H2653 by done.
  assert (resolve_max_px env opts data W H T = Some (JS.of_Z 400)) as ->.
  { unfold resolve_max_px. by rewrite Htarget, Hmax, Henv, Henvt. }
  split; [done|].
  destruct (whole_budget W H 400 ltac:(lia) ltac:(lia) ltac:(lia)) as [Hguard Hwhole].
  split.
  - intros Hle. unfold generate_mask. rewrite Hguard.
    replace (400 <? Z.max W H) with false by (symmetry; apply Z.ltb_ge; lia).
    by rewrite generate_full_mask_createMask.
  - intros Hlt.
    destruct (resample_dims_bounded W H 400 HW HH ltac:(lia))
      as (mW & mH & Hdims & HmW & HmH & Hmx).
    exists (resample_loops data W H T mW mH), mW, mH.
    split; [|lia].
    unfold generate_mask. rewrite Hguard.
    replace (400 <? Z.max W H) with true by (symmetry; apply Z.ltb_lt; lia).
    by rewrite Hwhole, Hdims.
Qed.

Lemma default_budget_witness :
  resolve_max_px no_environment no_options (replicate 16 40) 2 2 (JS.of_Z 128)
  = Some (JS.of_Z 400).
Proof.
  apply (default_budget no_environment no_options (replicate 16 40) 2 2 (JS.of_Z 128));
    solve [reflexivity | lia].
Defined.

(** ** The scale of the mesh *)

Lemma effective_scale_exact originalScale W :
  1 ≤ W < 2 ^ 53 → effective_scale originalScale W W = originalScale.
Proof.
  intros HW. unfold effective_scale. rewrite div_self by done. apply mul_one.
Qed.

(** X14: when the mask keeps the width of the image the effective scale
    [originalScale * (origW / maskW)] is the original scale itself, exactly:
    in binary64 [origW / origW] is 1 and the product with 1 changes
    nothing, whatever the scale ([NaN] and the infinities included). *)
Theorem effective_scale_same_width originalScale W :
  1 ≤ W < 2 ^ 53 → effective_scale originalScale W W = originalScale.
Proof. apply effective_scale_exact. Qed.

Lemma effective_scale_same_width_witness :
  effective_scale 0x1.0eeeeeee5c54fp-2%float 3 3 = 0x1.0eeeeeee5c54fp-2%float.
Proof.
  apply effective_scale_same_width. lia.
Defined.

(** ** The two pipelines *)

Lemma truthy_of_Z M : 1 ≤ M < 2 ^ 53 → JS.truthy (JS.of_Z M) = true.
Proof.
  intros HM. unfold JS.truthy.
  destruct (of_Z_facts M ltac:(lia)) as (-> & -> & _).
  by replace (M =? 0) with false by (symmetry; apply Z.eqb_neq; lia).
Qed.

(** With an explicit whole budget both pipelines use it as it is. *)
Lemma explicit_budget env opts data W H T M :
  opt_max_px opts = Some (JS.of_Z M) → 1 ≤ M < 2 ^ 53 →
  resolve_max_px env opts data W H T = Some (JS.of_Z M).
Proof.
  intros Hmax HM. unfold resolve_max_px. rewrite Hmax.
  assert (given (Some (JS.of_Z M)) = Some (JS.of_Z M)) as HgM
    by (cbn [given]; by rewrite (truthy_of_Z M HM)).
  rewrite HgM.
  destruct (given (opt_target_size_mb opts)); by rewrite HgM.
Qed.

(** The mask of an image of fewer than 2^26 pixels a side for a whole
    budget: not larger than the image. *)
Lemma budget_mask data W H T M :
  1 ≤ W < 2 ^ 26 → 1 ≤ H < 2 ^ 26 → 1 ≤ M < 2 ^ 53 →
  ∃ mask mW mH,
    generate_mask data W H T (Some (JS.of_Z M)) = Some (mask, mW, mH)
    ∧ 1 ≤ mW ≤ Z.max W H ∧ 1 ≤ mH ≤ Z.max W H
    ∧ binary_mask mask ∧ Z.of_nat (length mask) = mW * mH
    ∧ (if M <? Z.max W H
       then downsampleImage data W H T (JS.of_Z M) = Some (mask, mW, mH)
       else mask = createMask data W H T ∧ mW = W ∧ mH = H).
Proof.
  intros HW HH HM.
  assert (2 ^ 26 < 2 ^ 53) as H2653 by done.
  destruct (whole_budget W H M ltac:(lia) ltac:(lia) ltac:(lia)) as [Hguard Hwhole].
  assert (∀ mW mH f, binary_mask (fill mW mH (λ x y, cell_of (f x y) T))) as Hbin.
  { intros mW mH f. apply fill_all; [by left|]. intros x y. apply cell_of_binary. }
  unfold generate_mask. rewrite Hguard.
  destruct (Z.ltb_spec M (Z.max W H)) as [Hlt|Hge].
  - destruct (resample_dims_bounded W H M HW HH ltac:(lia))
      as (mW & mH & Hdims & HmW & HmH & Hmx).
    exists (resample_loops data W H T mW mH), mW, mH.
    rewrite Hwhole, Hdims. split; [done|]. split; [lia|]. split; [lia|].
    rewrite resample_loops_fill. split; [apply Hbin|]. split.
    + destruct (fill_spec_any mW mH (λ x2 y2,
        cell_of (sample data W (src_coord x2 W mW) (src_coord y2 H mH)) T)) as [-> _]. nia.
    + unfold downsampleImage. by rewrite Hdims.
  - exists (createMask data W H T), W, H.
    rewrite generate_full_mask_createMask. split; [done|]. split; [lia|]. split; [lia|].
    rewrite createMask_fill. split; [apply Hbin|]. split; [|done].
    destruct (fill_spec_any W H (λ x y, cell_of (channels data ((y * W + x) * 4)) T))
      as [-> _]. nia.
Qed.

(** What is read back from offset 80 on depends on those bytes alone. *)
Lemma read_mesh_tail a b : drop 80 a = drop 80 b → read_mesh a = read_mesh b.
Proof.
  intros Hab.
  assert (∀ off n, 80 ≤ off →
            take n (drop (Z.to_nat off) a) = take n (drop (Z.to_nat off) b)) as Hread.
  { intros off n Hoff.
    replace (Z.to_nat off) with (80 + (Z.to_nat off - 80))%nat by lia.
    by rewrite <- !drop_drop, Hab. }
  unfold read_mesh, readUInt32LE. rewrite (Hread 80 4%nat) by lia. cbv zeta.
  f_equal. apply list_fmap_ext. intros j i Hi.
  apply lookup_seqZ in Hi as [-> Hj].
  unfold read_record, readUInt16LE. rewrite (Hread _ 2%nat) by lia. f_equal.
  apply list_fmap_ext. intros j' k Hk. apply lookup_seqZ in Hk as [-> Hj'].
  unfold readFloatLE. by rewrite (Hread _ 4%nat) by lia.
Qed.

(** X15: given the same decoded image and the same options with an explicit
    whole budget [max_px], the Node-side [generate] (with the module's
    default settings) and the browser-side [generateSTL] (of a new
    converter) make the same mesh.  Either both throw their 'No black
    regions' error and no file is written; or the browser returns a Blob
    and [generate], when a file can be written at its output path, writes
    a file of the same length that reads back as the same mesh: the same
    triangle count and, record by record, the same binary32 numbers and
    attribute field.  When no number of the file reads back as [NaN], the
    bytes from offset 80 on are the same; only the 80-byte header differs
    ('extruded' against 'model').  When no file can be written there,
    [generate] throws the error of [fs.writeFileSync] where the browser
    returns its Blob.  The image is small enough for the count to fit 32
    bits: 12 · max(W, H)² < 2^32. *)
Theorem pipelines_agree env opts png fs M :
  1 ≤ img_width png → 1 ≤ img_height png →
  12 * (Z.max (img_width png) (img_height png) * Z.max (img_width png) (img_height png))
    < 2 ^ 32 →
  opt_max_px opts = Some (JS.of_Z M) → 1 ≤ M < 2 ^ 53 →
  match (generate default_config env opts png fs).1,
        (generateSTL new_converter (stl_options_of opts) png).1 with
  | inl NoBlackRegions, inl NoBlackRegionsInImage =>
      (generate default_config env opts png fs).2 = fs
  | inl SystemError, inr blob =>
      writable fs (output_path default_config opts) = false
  | inr rep, inr blob =>
      writable fs (output_path default_config opts) = true
      ∧ ∃ file, (generate default_config env opts png fs).2 !! rep_output rep = Some file
                ∧ length file = length blob
                ∧ read_mesh file = read_mesh blob
                ∧ (no_nan_stored file → drop 80 file = drop 80 blob)
  | _, _ => False
  end.
Proof.
  intros HW HH Hsmall Hmax HM.
  set (W := img_width png) in *. set (H := img_height png) in *.
  set (data := img_data png).
  assert (Z.max W H < 2 ^ 26) as Hmx.
  { destruct (Z_lt_le_dec (Z.max W H) (2 ^ 26)) as [|Hbig]; [done|]. exfalso.
    assert (2 ^ 26 * 2 ^ 26 ≤ Z.max W H * Z.max W H) as H1
      by (apply Z.mul_le_mono_nonneg; lia).
    change (2 ^ 26 * 2 ^ 26) with 4503599627370496 in H1.
    change (2 ^ 32) with 4294967296 in Hsmall. lia. }
  assert (2 ^ 26 < 2 ^ 53) as H2653 by done.
  set (thickness := default (JS.of_Z 2) (opt_thickness opts)).
  set (threshold := default (JS.of_Z 128) (opt_threshold opts)).
  destruct (budget_mask data W H threshold M ltac:(lia) ltac:(lia) HM)
    as (mask & mW & mH & Hgen & HmW & HmH & Hbin & Hlen & Hbrowser).
  set (scale := original_scale default_config opts W H).
  set (K := effective_scale scale W mW).
  set (triangles := generate_triangles mask mW mH thickness K).
  (* the number of triangles fits 32 bits *)
  assert (Z.of_nat (length triangles) < 2 ^ 32) as HN.
  { destruct (triangle_bounds mask mW mH thickness K ltac:(lia) ltac:(lia) Hbin Hlen)
      as [Hb _]. fold triangles in Hb.
    pose proof (foreground_count_range mask) as Hk.
    assert (mW * mH ≤ Z.max W H * Z.max W H) by (apply Z.mul_le_mono_nonneg; lia).
    lia. }
  (* the Node side *)
  pose proof (generate_from_mask default_config env opts png fs mask mW mH) as Hnode.
  cbv zeta in Hnode.
  rewrite (explicit_budget env opts _ _ _ _ M Hmax HM) in Hnode.
  specialize (Hnode Hgen). destruct Hnode as [Hnone Hsome].
  fold W H thickness scale K triangles in Hnone, Hsome.
  (* the browser side *)
  assert ((generateSTL new_converter (stl_options_of opts) png).1
          = if (length triangles =? 0)%nat then inl NoBlackRegionsInImage
            else match trianglesToBinarySTL triangles "model" with
                 | Some stlBlob => inr stlBlob
                 | None => inl InvalidLength
                 end) as Hweb.
  { unfold generateSTL.
    cbn [stl_options_of so_thickness so_threshold so_width_mm so_height_mm so_max_px
         so_target_mb new_converter conv_THRESHOLD conv_THICKNESS_MM conv_SCALE_MM_PER_PX].
    fold W H data thickness threshold. rewrite Hmax.
    assert (given (Some (JS.of_Z M)) = Some (JS.of_Z M)) as HgM
      by (cbn [given]; by rewrite (truthy_of_Z M HM)).
    rewrite HgM.
    assert (match given (opt_target_size_mb opts) with
            | Some _ | _ => Some (JS.of_Z M)
            end = Some (JS.of_Z M)) as -> by (by destruct (given (opt_target_size_mb opts))).
    rewrite HgM.
    rewrite ltb_of_Z by lia.
    change (match given (opt_width_mm opts) with
            | Some width_mm => PrimFloat.div width_mm (JS.of_Z W)
            | None => match given (opt_height_mm opts) with
                      | Some height_mm => PrimFloat.div height_mm (JS.of_Z H)
                      | None => 0x1.0eeeeeee5c54fp-2%float
                      end
            end) with scale.
    destruct (M <? Z.max W H).
    - rewrite Hbrowser. fold (effective_scale scale W mW). fold K.
      rewrite <- (extruders_same mask mW mH thickness K Hbin). fold triangles.
      by destruct (length triangles =? 0)%nat, (trianglesToBinarySTL triangles "model").
    - destruct Hbrowser as (Hm & HeW & HeH).
      assert (K = scale) as HK.
      { unfold K. rewrite HeW. apply effective_scale_exact. lia. }
      rewrite <- Hm, <- HeW, <- HeH, <- HK.
      rewrite <- (extruders_same mask mW mH thickness K Hbin). fold triangles.
      by destruct (length triangles =? 0)%nat, (trianglesToBinarySTL triangles "model"). }
  rewrite Hweb. clear Hweb.
  assert (triangles = [] →
          generate default_config env opts png fs = (inl NoBlackRegions, fs)) as Hnone'
    by exact Hnone.
  set (outputPath := output_path default_config opts).
  assert (triangles ≠ [] → Z.of_nat (length triangles) < 2 ^ 32 →
          writable fs outputPath = true →
          ∃ rep, rep_output rep = outputPath
                 ∧ generate default_config env opts png fs
                   = (inr rep, <[outputPath := stl_bytes triangles "extruded"]> fs))
    as Hsome'.
  { intros Hne HN' Hw. eexists. split; [|rewrite (Hsome Hne HN'); fold outputPath; by rewrite Hw].
    reflexivity. }
  assert (triangles ≠ [] → Z.of_nat (length triangles) < 2 ^ 32 →
          writable fs outputPath = false →
          generate default_config env opts png fs = (inl SystemError, fs)) as Hfail.
  { intros Hne HN' Hw. rewrite (Hsome Hne HN'). fold outputPath. by rewrite Hw. }
  clear Hnone Hsome.
  destruct (length triangles =? 0)%nat eqn:Hl.
  - apply Nat.eqb_eq, length_zero_iff_nil in Hl. by rewrite (Hnone' Hl).
  - apply Nat.eqb_neq in Hl.
    assert (triangles ≠ []) as Hne by (intros Hnil; by rewrite Hnil in Hl).
    assert (Z.of_nat (length (encoded_name "model")) ≤ 80) as Hfit
      by (vm_compute; congruence).
    destruct (serializer_bytes triangles "model" HN) as (_ & Hblob & _).
    rewrite (Hblob Hfit). clear Hblob.
    destruct (writable fs outputPath) eqn:Hw.
    + destruct (Hsome' Hne HN eq_refl) as (rep & Hout & ->).
      cbn [fst snd]. rewrite Hout. split; [done|].
      eexists. split; [apply files_lookup_insert|].
      assert (drop 80 (stl_bytes triangles "extruded") = drop 80 (stl_bytes triangles "model"))
        as Htail by (by rewrite !drop_header).
      split; [|split].
      * apply Nat2Z.inj. by rewrite !length_stl_bytes.
      * by apply read_mesh_tail.
      * intros _. exact Htail.
    + rewrite (Hfail Hne HN eq_refl). reflexivity.
Qed.

Lemma pipelines_agree_witness :
  match (generate default_config no_environment tall_options two_pixels ∅).1,
        (generateSTL new_converter (stl_options_of tall_options) two_pixels).1 with
  | inl NoBlackRegions, inl NoBlackRegionsInImage =>
      (generate default_config no_environment tall_options two_pixels ∅).2 = ∅
  | inl SystemError, inr blob =>
      writable ∅ (output_path default_config tall_options) = false
  | inr rep, inr blob =>
      writable ∅ (output_path default_config tall_options) = true
      ∧ ∃ file, (generate default_config no_environment tall_options two_pixels ∅).2
                  !! rep_output rep = Some file
                ∧ length file = length blob
                ∧ read_mesh file = read_mesh blob
                ∧ (no_nan_stored file → drop 80 file = drop 80 blob)
  | _, _ => False
  end.
Proof.
  apply (pipelines_agree no_environment tall_options two_pixels ∅ 50);
    solve [reflexivity | cbn [img_width img_height two_pixels]; lia].
Defined.

(** ** Thresholds at the ends of the range, and the size of the file *)

(** What is read from a buffer of bytes is a byte. *)
Lemma get_byte data i v : Forall is_byte data → JS.get data i = Some v → is_byte v.
Proof.
  intros Hb Hg. unfold JS.get in Hg. destruct (i <? 0); [discriminate|].
  exact (proj1 (Forall_lookup _ _) Hb _ _ Hg).
Qed.

(** The gray level of four reads from a buffer of bytes: a whole number
    from 0 to 255, or [NaN] when a colour channel is missing. *)
Lemma gray_cases data i j k l :
  Forall is_byte data →
  (∃ n, 0 ≤ n ≤ 255 ∧ gray (JS.get data i, JS.get data j, JS.get data k, JS.get data l) = JS.of_Z n)
  ∨ Prim2SF (gray (JS.get data i, JS.get data j, JS.get data k, JS.get data l)) = S754_nan.
Proof.
  intros Hb.
  assert (∀ a, a ≠ Some 0 →
            gray (JS.get data i, JS.get data j, JS.get data k, a)
            = JS.Math_round (PrimFloat.div (sum3 (JS.get data i) (JS.get data j) (JS.get data k))
                               (JS.of_Z 3))) as Hgray.
  { intros [[|p|p]|] Ha; try reflexivity. congruence. }
  destruct (decide (JS.get data l = Some 0)) as [->|Ha].
  { left. exists 255. split; [lia | reflexivity]. }
  rewrite (Hgray _ Ha).
  destruct (JS.get data i) as [r|] eqn:Hr; [|by right].
  destruct (JS.get data j) as [g|] eqn:Hg; [|by right].
  destruct (JS.get data k) as [b|] eqn:Hk; [|by right].
  left. exists ((2 * (r + g + b) + 3) / 6).
  pose proof (get_byte _ _ _ Hb Hr) as Hbr. pose proof (get_byte _ _ _ Hb Hg) as Hbg.
  pose proof (get_byte _ _ _ Hb Hk) as Hbk. unfold is_byte in Hbr, Hbg, Hbk.
  cbn [sum3]. rewrite gray_round by lia. split; [|reflexivity].
  split; [apply Z.div_pos; lia|].
  assert ((2 * (r + g + b) + 3) / 6 < 256) by (apply Z.div_lt_upper_bound; lia). lia.
Qed.

(** The same for the pixel the resampler reads. *)
Lemma gray_sample_cases data W sx sy :
  Forall is_byte data →
  (∃ n, 0 ≤ n ≤ 255 ∧ gray (sample data W sx sy) = JS.of_Z n)
  ∨ Prim2SF (gray (sample data W sx sy)) = S754_nan.
Proof.
  intros Hb. unfold sample.
  destruct (JS.to_int sx) as [x|]; [|by right].
  destruct (JS.to_int sy) as [y|]; [|by right].
  apply gray_cases, Hb.
Qed.

(** The order of [SFcompare] on positive finite values is transitive. *)
Lemma SFcompare_lex m1 e1 m2 e2 :
  SFcompare (S754_finite false m1 e1) (S754_finite false m2 e2)
  = Some (lex_compare e1 m1 e2 m2).
Proof. cbn [SFcompare]. unfold lex_compare. by destruct (e1 ?= e2). Qed.

Lemma lex_compare_trans e1 m1 e2 m2 e3 m3 :
  lex_compare e1 m1 e2 m2 ≠ Gt → lex_compare e2 m2 e3 m3 = Lt →
  lex_compare e1 m1 e3 m3 = Lt.
Proof.
  unfold lex_compare.
  destruct (Z.compare_spec e1 e2), (Z.compare_spec e2 e3), (Z.compare_spec e1 e3);
    try lia; try done.
  destruct (Pos.compare_spec m1 m2), (Pos.compare_spec m2 m3), (Pos.compare_spec m1 m3);
    try lia; done.
Qed.

(** A threshold above a whole number n ≥ 0 is above 0. *)
Lemma ltb_above_zero n T :
  0 ≤ n < 2 ^ 53 → PrimFloat.ltb (JS.of_Z n) T = true → PrimFloat.ltb (JS.of_Z 0) T = true.
Proof.
  intros Hn. rewrite !FloatAxioms.ltb_spec.
  destruct n as [|p|p]; [done| |lia].
  rewrite prim_of_Z_pos by lia.
  destruct (int_sf_form p ltac:(lia)) as (m & e & -> & _).
  change (Prim2SF (JS.of_Z 0)) with (S754_zero false).
  unfold SFltb. destruct (Prim2SF T) as [s|s| |s m' e']; cbn [SFcompare]; try done;
    by destruct s.
Qed.

(** A threshold above 255 is above every gray level. *)
Lemma ltb_below_255 n T :
  0 ≤ n ≤ 255 → PrimFloat.ltb (JS.of_Z 255) T = true → PrimFloat.ltb (JS.of_Z n) T = true.
Proof.
  intros Hn. rewrite !FloatAxioms.ltb_spec.
  assert (255 < 2 ^ 53) as H255 by done.
  pose proof (SFcompare_nat n 255 ltac:(lia) ltac:(lia)) as Hcmp.
  rewrite !prim_of_Z by lia. revert Hcmp.
  change (nat_sf 255) with (int_sf 255).
  destruct (int_sf_form 255 ltac:(done)) as (m2 & e2 & -> & _).
  destruct n as [|p|p]; [| |lia].
  - intros _. change (nat_sf 0) with (S754_zero false). unfold SFltb.
    destruct (Prim2SF T) as [s|s| |s m' e']; cbn [SFcompare]; try done; by destruct s.
  - change (nat_sf (Z.pos p)) with (int_sf p).
    destruct (int_sf_form p ltac:(lia)) as (m1 & e1 & -> & _).
    rewrite SFcompare_lex. intros [= Hcmp]. unfold SFltb.
    destruct (Prim2SF T) as [s|s| |s m' e']; try done.
    destruct s; [done|]. rewrite !SFcompare_lex.
    destruct (lex_compare e2 m2 e' m') eqn:Hlt; try done. intros _.
    rewrite (lex_compare_trans e1 m1 e2 m2 e' m'); [done| |done].
    rewrite Hcmp. destruct (Pos.compare_spec p 255); [done|done|lia].
Qed.

(** With a threshold that is not above 0 (zero, negative or [NaN]) no pixel
    of a buffer of bytes is foreground. *)
Lemma low_threshold_cell T g :
  PrimFloat.ltb (JS.of_Z 0) T = false →
  (∃ n, 0 ≤ n ≤ 255 ∧ g = JS.of_Z n) ∨ Prim2SF g = S754_nan →
  PrimFloat.ltb g T = false.
Proof.
  intros HT [(n & Hn & ->)|Hnan].
  - destruct (PrimFloat.ltb (JS.of_Z n) T) eqn:Hlt; [|done].
    assert (255 < 2 ^ 53) by done.
    rewrite (ltb_above_zero n T) in HT; [done|lia|done].
  - by rewrite FloatAxioms.ltb_spec, Hnan.
Qed.

Lemma low_threshold_mask data W H T max_px mask mW mH :
  Forall is_byte data → PrimFloat.ltb (JS.of_Z 0) T = false →
  generate_mask data W H T max_px = Some (mask, mW, mH) →
  Forall (λ c, c = 0) mask.
Proof.
  intros Hb HT Hgen.
  assert (∀ w h f, (∀ x y, PrimFloat.ltb (gray (f x y)) T = false) →
            Forall (λ c, c = 0) (fill w h (λ x y, cell_of (f x y) T))) as Hfill.
  { intros w h f Hf. apply fill_all; [done|]. intros x y. unfold cell_of. by rewrite Hf. }
  assert (Forall (λ c, c = 0) (createMask data W H T)) as Hfull.
  { rewrite createMask_fill. apply Hfill. intros x y.
    apply low_threshold_cell; [done|]. apply gray_cases, Hb. }
  unfold generate_mask in Hgen. rewrite generate_full_mask_createMask in Hgen.
  destruct max_px as [m|]; [|by injection Hgen as <- _ _].
  destruct (wants_downsample (Some m) W H); [|by injection Hgen as <- _ _].
  destruct (dims_int _) as [[w h]|]; [|discriminate].
  injection Hgen as <- _ _. rewrite resample_loops_fill. apply Hfill. intros x y.
  apply low_threshold_cell; [done|]. apply gray_sample_cases, Hb.
Qed.

(** X17: with a threshold that is not above 0 (0, a negative number or
    [NaN]) every image is rejected with 'No black regions detected',
    whatever its pixels, its size and the options; no file is written. *)
Theorem low_threshold_rejects cfg env opts png fs :
  1 ≤ img_width png < 2 ^ 53 → 1 ≤ img_height png < 2 ^ 53 →
  Forall is_byte (img_data png) →
  PrimFloat.ltb (JS.of_Z 0) (default (THRESHOLD cfg) (opt_threshold opts)) = false →
  generate cfg env opts png fs = (inl NoBlackRegions, fs).
Proof.
  intros HW HH Hb HT. unfold generate.
  set (T := default (THRESHOLD cfg) (opt_threshold opts)) in *.
  set (max_px := resolve_max_px env opts (img_data png) (img_width png) (img_height png) T).
  destruct (generate_mask_total (img_data png) (img_width png) (img_height png) T max_px HW HH)
    as (mask & mW & mH & Hgen & _).
  rewrite Hgen.
  rewrite generate_triangles_empty; [done|].
  by apply (low_threshold_mask (img_data png) (img_width png) (img_height png) T max_px mask mW mH).
Qed.

Lemma low_threshold_rejects_witness :
  generate (with_threshold (JS.of_Z 0) default_config) no_environment no_options two_pixels ∅
  = (inl NoBlackRegions, ∅).
Proof.
  apply low_threshold_rejects.
  - cbn [img_width two_pixels]. lia.
  - cbn [img_height two_pixels]. lia.
  - cbn [img_data two_pixels]. repeat constructor; unfold is_byte; lia.
  - reflexivity.
Defined.


(** ** The cells of the mask as pixels of the image *)

(** For an image of fewer than 2^26 pixels a side and every budget, each
    cell of the mask that [generate] builds is the thresholded value of a
    pixel inside the image. *)
Lemma mask_samples data W H T max_px :
  1 ≤ W < 2 ^ 26 → 1 ≤ H < 2 ^ 26 →
  ∃ mask mW mH,
    generate_mask data W H T max_px = Some (mask, mW, mH)
    ∧ 1 ≤ mW ≤ Z.max W H ∧ 1 ≤ mH ≤ Z.max W H
    ∧ Z.of_nat (length mask) = mW * mH
    ∧ ∀ x y, 0 ≤ x < mW → 0 ≤ y < mH →
        ∃ sx sy, 0 ≤ sx < W ∧ 0 ≤ sy < H
                 ∧ JS.get mask (y * mW + x)
                   = Some (cell_of (channels data ((sy * W + sx) * 4)) T).
Proof.
  intros HW HH.
  assert (2 ^ 26 < 2 ^ 53) as H2653 by done.
  assert (∃ mask mW mH,
            Some (generate_full_mask data W H T) = Some (mask, mW, mH)
            ∧ 1 ≤ mW ≤ Z.max W H ∧ 1 ≤ mH ≤ Z.max W H
            ∧ Z.of_nat (length mask) = mW * mH
            ∧ ∀ x y, 0 ≤ x < mW → 0 ≤ y < mH →
                ∃ sx sy, 0 ≤ sx < W ∧ 0 ≤ sy < H
                         ∧ JS.get mask (y * mW + x)
                           = Some (cell_of (channels data ((sy * W + sx) * 4)) T)) as Hfull.
  { exists (createMask data W H T), W, H.
    rewrite generate_full_mask_createMask. split; [done|]. split; [lia|]. split; [lia|].
    rewrite createMask_fill.
    destruct (fill_spec_any W H (λ x y, cell_of (channels data ((y * W + x) * 4)) T))
      as [Hl Hc].
    split; [rewrite Hl; nia|].
    intros x y Hx Hy. exists x, y. split; [done|]. split; [done|]. by apply Hc. }
  unfold generate_mask.
  destruct max_px as [m|]; [|exact Hfull].
  destruct (wants_downsample (Some m) W H) eqn:Hwant; [|exact Hfull].
  unfold wants_downsample in Hwant.
  apply andb_prop in Hwant as [Hwant Hlt]. apply andb_prop in Hwant as [Ht Hf].
  destruct (budget_whole m (Z.max W H) ltac:(lia) Ht Hf Hlt) as (M & HM & ->).
  destruct (resample_dims_bounded W H M HW HH HM) as (mW & mH & -> & HmW & HmH & Hmax).
  exists (resample_loops data W H T mW mH), mW, mH.
  split; [done|]. split; [lia|]. split; [lia|].
  rewrite resample_loops_fill.
  destruct (fill_spec_any mW mH (λ x2 y2,
    cell_of (sample data W (src_coord x2 W mW) (src_coord y2 H mH)) T)) as [Hl Hc].
  split; [rewrite Hl; nia|].
  intros x y Hx Hy.
  destruct (src_coord_exact x W mW ltac:(lia) ltac:(lia) Hx) as [HsX HrX].
  destruct (src_coord_exact y H mH ltac:(lia) ltac:(lia) Hy) as [HsY HrY].
  exists (x * W / mW), (y * H / mH). split; [done|]. split; [done|].
  rewrite (Hc x y Hx Hy). f_equal. f_equal.
  rewrite HsX, HsY. unfold sample.
  destruct (of_Z_facts (x * W / mW) ltac:(lia)) as (_ & _ & _ & -> & _).
  destruct (of_Z_facts (y * H / mH) ltac:(lia)) as (_ & _ & _ & -> & _).
  reflexivity.
Qed.

(** A list of W·H cells that are all 1. *)
Lemma all_ones mask W H :
  1 ≤ W → 1 ≤ H → Z.of_nat (length mask) = W * H →
  (∀ x y, 0 ≤ x < W → 0 ≤ y < H → JS.get mask (y * W + x) = Some 1) →
  mask = replicate (Z.to_nat (W * H)) 1.
Proof.
  intros HW HH Hlen Hc. apply list_eq. intros i.
  destruct (decide (Z.of_nat i < W * H)) as [Hi|Hi].
  - rewrite (proj2 (lookup_replicate _ _ _ _)) by (split; [done|lia]).
    pose proof (Z.div_mod (Z.of_nat i) W ltac:(lia)) as Hdm.
    pose proof (Z.mod_pos_bound (Z.of_nat i) W ltac:(lia)) as Hm.
    assert (0 ≤ Z.of_nat i / W < H) as Hd.
    { split; [apply Z.div_pos; lia|]. apply Z.div_lt_upper_bound; lia. }
    specialize (Hc _ _ Hm Hd). unfold JS.get in Hc.
    replace (Z.of_nat i / W * W + Z.of_nat i mod W) with (Z.of_nat i) in Hc by lia.
    replace (Z.of_nat i <? 0) with false in Hc by (symmetry; apply Z.ltb_ge; lia).
    by rewrite Nat2Z.id in Hc.
  - rewrite (lookup_ge_None_2 mask) by lia.
    symmetry. apply lookup_ge_None_2. rewrite length_replicate. lia.
Qed.

(** A side whose square fits 32 bits twelve times is below 2^26. *)
Lemma small_side a : 1 ≤ a → 12 * (a * a) < 2 ^ 32 → a < 2 ^ 16.
Proof.
  intros Ha Hsq. change (2 ^ 32) with 4294967296 in Hsq. change (2 ^ 16) with 65536. nia.
Qed.

(** X18: with a threshold above 255 every pixel of a complete image is
    foreground, the transparent ones included: the mask is all ones and
    [generate] extrudes it as one slab.  When a file can be written at the
    output path it writes a file of 84 + 50 · (4·maskW·maskH +
    4·(maskW + maskH)) bytes, whatever the picture; when not, the error of
    [fs.writeFileSync] is thrown. *)
Theorem high_threshold_slab cfg env opts png fs :
  1 ≤ img_width png → 1 ≤ img_height png →
  12 * (Z.max (img_width png) (img_height png) * Z.max (img_width png) (img_height png))
    < 2 ^ 32 →
  Z.of_nat (length (img_data png)) = 4 * img_width png * img_height png →
  Forall is_byte (img_data png) →
  PrimFloat.ltb (JS.of_Z 255) (default (THRESHOLD cfg) (opt_threshold opts)) = true →
  ∃ maskW maskH,
    generate_mask (img_data png) (img_width png) (img_height png)
      (default (THRESHOLD cfg) (opt_threshold opts))
      (resolve_max_px env opts (img_data png) (img_width png) (img_height png)
         (default (THRESHOLD cfg) (opt_threshold opts)))
    = Some (replicate (Z.to_nat (maskW * maskH)) 1, maskW, maskH)
    ∧ 1 ≤ maskW ∧ 1 ≤ maskH
    ∧ (writable fs (output_path cfg opts) = true →
       ∃ rep file,
         generate cfg env opts png fs = (inr rep, <[rep_output rep := file]> fs)
         ∧ rep_output rep = output_path cfg opts
         ∧ Z.of_nat (length file) = 84 + 50 * (4 * maskW * maskH + 4 * (maskW + maskH)))
    ∧ (writable fs (output_path cfg opts) = false →
       (generate cfg env opts png fs).1 = inl SystemError).
Proof.
  intros HW HH Hsmall Hlen Hb HT.
  set (W := img_width png) in *. set (H := img_height png) in *.
  set (T := default (THRESHOLD cfg) (opt_threshold opts)) in *.
  set (max_px := resolve_max_px env opts (img_data png) W H T).
  pose proof (small_side (Z.max W H) ltac:(lia) Hsmall) as Hmx.
  assert (2 ^ 16 < 2 ^ 26) as H1626 by done.
  destruct (mask_samples (img_data png) W H T max_px ltac:(lia) ltac:(lia))
    as (mask & mW & mH & Hgen & HmW & HmH & Hmlen & Hcells).
  assert (mask = replicate (Z.to_nat (mW * mH)) 1) as Hones.
  { apply all_ones; [lia|lia|done|]. intros x y Hx Hy.
    destruct (Hcells x y Hx Hy) as (sx & sy & Hsx & Hsy & ->). f_equal.
    destruct (channels_in_range (img_data png) W H sx sy Hlen Hb Hsx Hsy)
      as (r & g & b & a & -> & Hr & Hg & Hbb & Ha).
    destruct (gray_exact r g b a Hr Hg Hbb Ha) as [Hgray Hrange].
    unfold cell_of. rewrite Hgray. by rewrite (ltb_below_255 _ T Hrange HT). }
  subst mask. exists mW, mH.
  destruct (generate_from_mask cfg env opts png fs _ mW mH Hgen) as [_ Hsome].
  cbv zeta in Hsome.
  set (triangles := generate_triangles (replicate (Z.to_nat (mW * mH)) 1) mW mH
         (default (THICKNESS_MM cfg) (opt_thickness opts))
         (effective_scale (original_scale cfg opts (img_width png) (img_height png))
            (img_width png) mW)) in *.
  assert (Z.of_nat (length triangles) = 4 * mW * mH + 4 * (mW + mH)) as Hn
    by (apply solid_count; lia).
  assert (mW * mH ≤ Z.max W H * Z.max W H) as Hprod by nia.
  assert (triangles ≠ []) as Hne.
  { intros Hnil. rewrite Hnil in Hn. cbn [length] in Hn. lia. }
  assert (Z.of_nat (length triangles) < 2 ^ 32) as HN.
  { rewrite Hn. change (2 ^ 32) with 4294967296 in *. nia. }
  specialize (Hsome Hne HN).
  split; [exact Hgen|]. split; [lia|]. split; [lia|]. split.
  - intros Hw. rewrite Hw in Hsome.
    match type of Hsome with _ = (inr ?r, _) => exists r end.
    exists (stl_bytes triangles "extruded").
    split; [exact Hsome|]. split; [reflexivity|].
    rewrite length_stl_bytes, Hn. reflexivity.
  - intros Hw. rewrite Hw in Hsome. by rewrite Hsome.
Qed.

Lemma high_threshold_slab_witness :
  ∃ maskW maskH,
    generate_mask (img_data two_pixels) 2 1 (JS.of_Z 256)
      (resolve_max_px no_environment no_options (img_data two_pixels) 2 1 (JS.of_Z 256))
    = Some (replicate (Z.to_nat (maskW * maskH)) 1, maskW, maskH)
    ∧ 1 ≤ maskW ∧ 1 ≤ maskH
    ∧ ∃ rep file,
        generate (with_threshold (JS.of_Z 256) default_config) no_environment no_options
          two_pixels ∅
        = (inr rep, <[rep_output rep := file]> ∅)
        ∧ Z.of_nat (length file) = 84 + 50 * (4 * maskW * maskH + 4 * (maskW + maskH)).
Proof.
  destruct (high_threshold_slab (with_threshold (JS.of_Z 256) default_config)
              no_environment no_options two_pixels ∅)
    as (mW & mH & Hgen & HmW & HmH & Hwrite & _).
  - cbn [img_width two_pixels]. lia.
  - cbn [img_height two_pixels]. lia.
  - reflexivity.
  - reflexivity.
  - cbn [img_data two_pixels]. repeat constructor; unfold is_byte; lia.
  - reflexivity.
  - destruct (Hwrite eq_refl) as (rep & file & Hrun & _ & Hlen).
    exists mW, mH. split; [exact Hgen|]. split; [exact HmW|]. split; [exact HmH|].
    exists rep, file. split; [exact Hrun | exact Hlen].
Defined.


(** The mask for a whole budget M has at most M cells a side. *)
Lemma budget_mask_within data W H T M :
  1 ≤ W < 2 ^ 26 → 1 ≤ H < 2 ^ 26 → 1 ≤ M < 2 ^ 53 →
  ∃ mask mW mH,
    generate_mask data W H T (Some (JS.of_Z M)) = Some (mask, mW, mH)
    ∧ 1 ≤ mW ≤ M ∧ 1 ≤ mH ≤ M
    ∧ binary_mask mask ∧ Z.of_nat (length mask) = mW * mH.
Proof.
  intros HW HH HM.
  destruct (budget_mask data W H T M HW HH HM)
    as (mask & mW & mH & Hgen & HmW & HmH & Hbin & Hlen & Hcase).
  exists mask, mW, mH. split; [done|].
  destruct (Z.ltb_spec M (Z.max W H)) as [Hlt|Hge].
  - unfold downsampleImage in Hcase.
    destruct (resample_dims_bounded W H M HW HH ltac:(lia))
      as (mW' & mH' & Hdims & HmW' & HmH' & _).
    rewrite Hdims in Hcase. injection Hcase as _ <- <-. done.
  - destruct Hcase as (_ & -> & ->). split; [lia|]. split; [lia|]. done.
Qed.

(** X16: with an explicit whole budget [max_px] = M the file is bounded by
    the budget alone: [generate] either throws 'No black regions detected'
    and writes nothing, or throws the error of [fs.writeFileSync] because no
    file can be written at the output path, or writes a file of at least
    284 and at most 84 + 600·M² bytes (12 triangles of 50 bytes for each of
    at most M² cells), whatever the size of the image. *)
Theorem file_size_bound cfg env opts png fs M :
  1 ≤ img_width png < 2 ^ 26 → 1 ≤ img_height png < 2 ^ 26 →
  opt_max_px opts = Some (JS.of_Z M) → 1 ≤ M → 12 * (M * M) < 2 ^ 32 →
  match (generate cfg env opts png fs).1 with
  | inl e =>
      (e = NoBlackRegions ∧ (generate cfg env opts png fs).2 = fs)
      ∨ (e = SystemError ∧ writable fs (output_path cfg opts) = false)
  | inr rep =>
      writable fs (output_path cfg opts) = true
      ∧ ∃ file, (generate cfg env opts png fs).2 !! rep_output rep = Some file
                ∧ 284 ≤ Z.of_nat (length file) ≤ 84 + 600 * (M * M)
  end.
Proof.
  intros HW HH Hmax HM Hsmall.
  pose proof (small_side M HM Hsmall) as HM16.
  assert (2 ^ 16 < 2 ^ 53) as H1653 by done.
  set (T := default (THRESHOLD cfg) (opt_threshold opts)).
  destruct (budget_mask_within (img_data png) (img_width png) (img_height png) T M
              HW HH ltac:(lia)) as (mask & mW & mH & Hgen & HmW & HmH & Hbin & Hlen).
  rewrite <- (explicit_budget env opts (img_data png) (img_width png) (img_height png) T M
                Hmax ltac:(lia)) in Hgen.
  destruct (generate_from_mask cfg env opts png fs mask mW mH Hgen) as [Hnone Hsome].
  cbv zeta in Hnone, Hsome.
  set (triangles := generate_triangles mask mW mH
         (default (THICKNESS_MM cfg) (opt_thickness opts))
         (effective_scale (original_scale cfg opts (img_width png) (img_height png))
            (img_width png) mW)) in *.
  destruct (triangle_bounds mask mW mH (default (THICKNESS_MM cfg) (opt_thickness opts))
              (effective_scale (original_scale cfg opts (img_width png) (img_height png))
                 (img_width png) mW) ltac:(lia) ltac:(lia) Hbin Hlen) as [Hb _].
  fold triangles in Hb.
  pose proof (foreground_count_range mask) as Hk.
  assert (mW * mH ≤ M * M) as Hprod by nia.
  destruct triangles as [|t ts] eqn:Htri.
  - rewrite (Hnone eq_refl). by left.
  - assert (Z.of_nat (length (t :: ts)) < 2 ^ 32) as HN by lia.
    rewrite (Hsome ltac:(done) HN).
    destruct (writable fs (output_path cfg opts)) eqn:Hw; cbn [fst snd rep_output].
    + split; [done|].
      exists (stl_bytes (t :: ts) "extruded"). split; [apply files_lookup_insert|].
      rewrite length_stl_bytes.
      assert (1 ≤ Z.of_nat (length (t :: ts))) by (cbn [length]; lia).
      lia.
    + by right.
Qed.

Lemma file_size_bound_witness :
  match (generate default_config no_environment tall_options tall_image ∅).1 with
  | inl e =>
      (e = NoBlackRegions
       ∧ (generate default_config no_environment tall_options tall_image ∅).2 = ∅)
      ∨ (e = SystemError ∧ writable ∅ (output_path default_config tall_options) = false)
  | inr rep =>
      writable ∅ (output_path default_config tall_options) = true
      ∧ ∃ file,
          (generate default_config no_environment tall_options tall_image ∅).2
            !! rep_output rep
          = Some file
          ∧ 284 ≤ Z.of_nat (length file) ≤ 84 + 600 * (50 * 50)
  end.
Proof.
  apply (file_size_bound default_config no_environment tall_options tall_image ∅ 50).
  - cbn [img_width tall_image]. lia.
  - cbn [img_height tall_image]. lia.
  - reflexivity.
  - lia.
  - reflexivity.
Defined.

(** ** Rounding to nearest, exactly *)

(** The iteration of the shift, counted in unary. *)
Lemma iter_pos_nat {A} (f : A → A) n : ∀ x,
  SpecFloat.iter_pos f n x = Nat.iter (Pos.to_nat n) f x.
Proof.
  induction n as [n IH|n IH|]; intros x; cbn [SpecFloat.iter_pos].
  - rewrite !IH. rewrite Pos2Nat.inj_xI.
    replace (S (2 * Pos.to_nat n)) with (Pos.to_nat n + (Pos.to_nat n + 1))%nat by lia.
    rewrite !Nat.iter_add. reflexivity.
  - rewrite !IH. rewrite Pos2Nat.inj_xO.
    replace (2 * Pos.to_nat n)%nat with (Pos.to_nat n + Pos.to_nat n)%nat by lia.
    rewrite Nat.iter_add. reflexivity.
  - reflexivity.
Qed.

(** One step of the shift: the mantissa is halved, the bit that leaves is
    the round bit, and the sticky bit collects the earlier ones. *)
Lemma shr_1_bits m r s :
  0 ≤ m →
  shr_1 {| shr_m := m; shr_r := r; shr_s := s |}
  = {| shr_m := m / 2; shr_r := Z.odd m; shr_s := r || s |}.
Proof.
  intros Hm. destruct m as [|[p|p|]|p]; cbn [shr_1 Z.odd]; try lia; try reflexivity.
  - f_equal. apply (Z.div_unique _ _ _ 1); lia.
  - f_equal. apply (Z.div_unique _ _ _ 0); lia.
Qed.

(** After [k] steps from an exact mantissa [m]: the quotient by [2^k], and
    the position of the remainder against half of [2^k]. *)
Lemma iter_shr_1_bits m k :
  0 ≤ m →
  let rho := m mod 2 ^ Z.of_nat k in
  Nat.iter k shr_1 {| shr_m := m; shr_r := false; shr_s := false |}
  = {| shr_m := m / 2 ^ Z.of_nat k;
       shr_r := 2 ^ Z.of_nat k <=? 2 * rho;
       shr_s := negb ((2 * rho) mod 2 ^ Z.of_nat k =? 0) |}.
Proof.
  intros Hm. induction k as [|k IH].
  - cbv zeta. change (2 ^ Z.of_nat 0) with 1.
    rewrite Z.div_1_r, !Z.mod_1_r. reflexivity.
  - rewrite Nat.iter_succ. cbv zeta in IH. rewrite IH. clear IH.
    pose proof (pow2_pos (Z.of_nat k) ltac:(lia)) as Hp.
    assert (2 ^ Z.of_nat (S k) = 2 * 2 ^ Z.of_nat k) as Hs.
    { rewrite Nat2Z.inj_succ, Z.pow_succ_r by lia. reflexivity. }
    set (P := 2 ^ Z.of_nat k) in *.
    pose proof (Z.div_mod m P ltac:(lia)) as Hdm.
    pose proof (Z.mod_pos_bound m P ltac:(lia)) as Hrho.
    set (q := m / P) in *. set (rho := m mod P) in *.
    assert (0 ≤ q) as Hq by (apply Z.div_pos; lia).
    rewrite shr_1_bits by done.
    pose proof (Z.div_mod q 2 ltac:(lia)) as Hq2.
    pose proof (Z.mod_pos_bound q 2 ltac:(lia)) as Hb.
    set (q' := q / 2) in *. set (b := q mod 2) in *.
    cbv zeta. rewrite Hs.
    assert (m / (2 * P) = q') as ->.
    { symmetry. apply (Z.div_unique _ _ _ (b * P + rho)); nia. }
    assert (m mod (2 * P) = b * P + rho) as ->.
    { symmetry. apply (Z.mod_unique _ _ q'); nia. }
    assert (Z.odd q = (b =? 1)) as ->.
    { unfold b. rewrite Zmod_odd. by destruct (Z.odd q). }
    f_equal.
    + destruct (Z.eqb_spec b 1) as [->|Hb1].
      * symmetry. apply Z.leb_le. nia.
      * symmetry. apply Z.leb_gt. assert (b = 0) as -> by lia. nia.
    + assert ((2 * (b * P + rho)) mod (2 * P) = 2 * rho) as ->.
      { symmetry. apply (Z.mod_unique _ _ b); nia. }
      destruct (Z.leb_spec P (2 * rho)) as [Hge|Hlt]; cbn [orb].
      * symmetry. apply negb_true_iff, Z.eqb_neq. lia.
      * rewrite (Z.mod_small (2 * rho) P) by lia. reflexivity.
Qed.

(** The mantissa rounded to nearest after a shift by [k] ≥ 1 bits is
    within half of [2^k] of the exact one. *)
Lemma round_shift m k :
  0 ≤ m →
  let mrs := Nat.iter k shr_1 {| shr_m := m; shr_r := false; shr_s := false |} in
  let N := round_nearest_even (shr_m mrs) (loc_of_shr_record mrs) in
  m / 2 ^ Z.of_nat k ≤ N ≤ m / 2 ^ Z.of_nat k + 1
  ∧ 2 * (N * 2 ^ Z.of_nat k) ≤ 2 * m + 2 ^ Z.of_nat k
  ∧ 2 * m ≤ 2 * (N * 2 ^ Z.of_nat k) + 2 ^ Z.of_nat k.
Proof.
  intros Hm. cbv zeta. rewrite iter_shr_1_bits by done. cbv zeta.
  pose proof (pow2_pos (Z.of_nat k) ltac:(lia)) as Hp.
  set (P := 2 ^ Z.of_nat k) in *.
  pose proof (Z.div_mod m P ltac:(lia)) as Hdm.
  pose proof (Z.mod_pos_bound m P ltac:(lia)) as Hrho.
  set (q := m / P) in *. set (rho := m mod P) in *.
  cbn [shr_m loc_of_shr_record].
  destruct (Z.leb_spec P (2 * rho)) as [Hge|Hlt];
    destruct (Z.eqb_spec ((2 * rho) mod P) 0) as [Hz|Hnz]; cbn [negb round_nearest_even].
  - assert (2 * rho = P) as Heq.
    { pose proof (Z.div_mod (2 * rho) P ltac:(lia)) as Hd. rewrite Hz in Hd.
      assert ((2 * rho) / P = 1); [|lia].
      symmetry. apply (Z.div_unique _ _ _ (2 * rho - P)); lia. }
    destruct (Z.even q); nia.
  - nia.
  - assert (rho = 0) as Hr0.
    { rewrite Z.mod_small in Hz by lia. lia. }
    nia.
  - nia.
Qed.

(** The bit length of a mantissa of 53 bits. *)
Lemma Zdigits2_53 m : 2 ^ 52 ≤ m < 2 ^ 53 → Zdigits2 m = 53.
Proof.
  intros Hm.
  pose proof (Zdigits2_bound m 53 ltac:(lia) ltac:(lia)) as Hle.
  pose proof (Zdigits2_lt m ltac:(lia)) as Hlt.
  destruct (Z_lt_le_dec (Zdigits2 m) 53) as [Hs|Hs]; [|lia].
  assert (2 ^ Zdigits2 m ≤ 2 ^ 52) by (apply pow2_le; lia). lia.
Qed.

Lemma Zdigits2_range m d : 1 ≤ d → 2 ^ (d - 1) ≤ m < 2 ^ d → Zdigits2 m = d.
Proof.
  intros Hd Hm. pose proof (pow2_pos (d - 1) ltac:(lia)) as Hp.
  pose proof (Zdigits2_bound m d ltac:(lia) ltac:(lia)) as Hle.
  pose proof (Zdigits2_lt m ltac:(lia)) as Hlt.
  destruct (Z_lt_le_dec (Zdigits2 m) d) as [Hs|Hs]; [|lia].
  assert (2 ^ Zdigits2 m ≤ 2 ^ (d - 1)) by (apply pow2_le; lia). lia.
Qed.

(** A mantissa of 53 bits at an exponent of the format is a datum as it
    is, whatever the sign. *)
Lemma round_aux_canonical s m e :
  2 ^ 52 ≤ m < 2 ^ 53 → -1074 ≤ e ≤ 971 →
  ∃ p, m = Z.pos p
       ∧ binary_round_aux prec emax s m e loc_Exact = S754_finite s p e.
Proof.
  intros Hm He. destruct m as [|p|p]; [lia| |lia]. exists p. split; [done|].
  pose proof (Zdigits2_53 (Z.pos p) Hm) as Hd.
  assert (fexp prec emax (Zdigits2 (Z.pos p) + e) - e = 0) as Hshift.
  { rewrite Hd. unfold fexp, SpecFloat.emin, prec, emax. lia. }
  unfold binary_round_aux, shr_fexp. cbn [shr_record_of_loc].
  rewrite Hshift. cbn [shr shr_m loc_of_shr_record round_nearest_even].
  rewrite Hshift. cbn [shr shr_m].
  replace (e <=? emax - prec) with true; [done|].
  symmetry. apply Z.leb_le. unfold emax, prec. lia.
Qed.

(** Rounding a mantissa [T] of 53 + n bits (n ≥ 1) in the normal range:
    a mantissa [m3] of 53 bits at the exponent [e + n] or [e + n + 1],
    whose value is within half of [2^n] of [T] and a multiple of [2^n]. *)
Lemma round_nearest s T e n :
  1 ≤ n → 2 ^ (52 + n) ≤ T < 2 ^ (53 + n) → -1074 ≤ e + n → e + n + 1 ≤ 971 →
  ∃ m3 e3 N,
    binary_round_aux prec emax s T e loc_Exact = S754_finite s m3 e3
    ∧ 2 ^ 52 ≤ Z.pos m3 < 2 ^ 53 ∧ e + n ≤ e3 ≤ e + n + 1
    ∧ Z.pos m3 * 2 ^ (e3 - e) = N * 2 ^ n
    ∧ 2 * (N * 2 ^ n) ≤ 2 * T + 2 ^ n ∧ 2 * T ≤ 2 * (N * 2 ^ n) + 2 ^ n.
Proof.
  intros Hn HT Hlo Hhi.
  pose proof (pow2_pos (52 + n) ltac:(lia)) as HpT.
  pose proof (Zdigits2_range T (53 + n) ltac:(lia)) as Hd.
  replace (53 + n - 1) with (52 + n) in Hd by lia. specialize (Hd HT).
  assert (fexp prec emax (Zdigits2 T + e) - e = n) as Hshift.
  { rewrite Hd. unfold fexp, SpecFloat.emin, prec, emax. lia. }
  unfold binary_round_aux, shr_fexp. cbn [shr_record_of_loc]. rewrite Hshift.
  destruct n as [|pn|pn]; [lia| |lia]. cbn [shr].
  rewrite iter_pos_nat.
  pose proof (round_shift T (Pos.to_nat pn) ltac:(lia)) as Hr. cbv zeta in Hr.
  rewrite positive_nat_Z in Hr.
  set (mrs := Nat.iter (Pos.to_nat pn) shr_1 _) in *.
  set (N := round_nearest_even (shr_m mrs) (loc_of_shr_record mrs)) in *.
  destruct Hr as (HN & Hup & Hdown).
  pose proof (pow2_pos (Z.pos pn) ltac:(lia)) as Hp.
  assert (2 ^ 52 ≤ T / 2 ^ Z.pos pn < 2 ^ 53) as Hq.
  { rewrite (pow2_split 52 (Z.pos pn)) in HT by lia.
    rewrite (pow2_split 53 (Z.pos pn)) in HT by lia.
    split; [apply Z.div_le_lower_bound; lia | apply Z.div_lt_upper_bound; lia]. }
  destruct (Z_lt_le_dec N (2 ^ 53)) as [Hlt|Hge].
  - assert (fexp prec emax (Zdigits2 N + (e + Z.pos pn)) - (e + Z.pos pn) = 0) as Hs2.
    { rewrite (Zdigits2_53 N) by lia. unfold fexp, SpecFloat.emin, prec, emax. lia. }
    rewrite Hs2. cbn [shr shr_m].
    destruct N as [|pN|pN] eqn:HNe; [lia| |lia].
    replace (e + Z.pos pn <=? emax - prec) with true
      by (symmetry; apply Z.leb_le; unfold emax, prec; lia).
    exists pN, (e + Z.pos pn), (Z.pos pN).
    split; [done|]. split; [lia|]. split; [lia|].
    split; [f_equal; f_equal; lia|]. split; lia.
  - assert (N = 2 ^ 53) as HN53 by lia.
    assert (fexp prec emax (Zdigits2 N + (e + Z.pos pn)) - (e + Z.pos pn) = 1) as Hs2.
    { rewrite HN53. change (Zdigits2 (2 ^ 53)) with 54.
      unfold fexp, SpecFloat.emin, prec, emax. lia. }
    rewrite Hs2. cbn [shr SpecFloat.iter_pos]. rewrite HN53.
    change (shr_m (shr_1 (shr_record_of_loc (2 ^ 53) loc_Exact))) with (Z.pos (2 ^ 52)).
    cbv iota.
    replace (e + Z.pos pn + 1 <=? emax - prec) with true
      by (symmetry; apply Z.leb_le; unfold emax, prec; lia).
    exists (2 ^ 52)%positive, (e + Z.pos pn + 1), N.
    split; [done|]. split; [done|]. split; [lia|].
    split; [|split; lia].
    replace (e + Z.pos pn + 1 - e) with (1 + Z.pos pn) by lia.
    rewrite pow2_split by lia. rewrite HN53, Z.mul_assoc. reflexivity.
Qed.

(** ** Products, square roots and quotients of normal numbers *)

(** The product of two mantissas of 53 bits, rounded. *)
Lemma mul_normal s1 m1 e1 s2 m2 e2 :
  2 ^ 52 ≤ Z.pos m1 < 2 ^ 53 → 2 ^ 52 ≤ Z.pos m2 < 2 ^ 53 →
  -1074 ≤ e1 + e2 + 52 → e1 + e2 + 54 ≤ 971 →
  ∃ m3 e3 n N,
    SFmul prec emax (S754_finite s1 m1 e1) (S754_finite s2 m2 e2)
    = S754_finite (xorb s1 s2) m3 e3
    ∧ 2 ^ 52 ≤ Z.pos m3 < 2 ^ 53 ∧ 52 ≤ n ≤ 53
    ∧ 2 ^ (52 + n) ≤ Z.pos m1 * Z.pos m2 < 2 ^ (53 + n)
    ∧ e1 + e2 + n ≤ e3 ≤ e1 + e2 + n + 1
    ∧ Z.pos m3 * 2 ^ (e3 - (e1 + e2)) = N * 2 ^ n
    ∧ 2 * (N * 2 ^ n) ≤ 2 * (Z.pos m1 * Z.pos m2) + 2 ^ n
    ∧ 2 * (Z.pos m1 * Z.pos m2) ≤ 2 * (N * 2 ^ n) + 2 ^ n.
Proof.
  intros H1 H2 Hlo Hhi. cbn [SFmul].
  change (Z.pos (m1 * m2)) with (Z.pos m1 * Z.pos m2).
  set (T := Z.pos m1 * Z.pos m2).
  change (2 ^ 52) with 4503599627370496 in H1, H2.
  change (2 ^ 53) with 9007199254740992 in H1, H2.
  assert (2 ^ 104 ≤ T < 2 ^ 106) as HT.
  { change (2 ^ 104) with (4503599627370496 * 4503599627370496).
    change (2 ^ 106) with (9007199254740992 * 9007199254740992). unfold T. nia. }
  destruct (Z_lt_le_dec T (2 ^ 105)) as [Hlt|Hge].
  - destruct (round_nearest (xorb s1 s2) T (e1 + e2) 52 ltac:(lia) ltac:(split; [apply HT|exact Hlt])
                ltac:(lia) ltac:(lia)) as (m3 & e3 & N & Hr & Hm3 & He3 & HV & Hup & Hdown).
    exists m3, e3, 52, N. split; [exact Hr|]. split; [exact Hm3|]. split; [lia|].
    split; [split; [apply HT|exact Hlt]|]. done.
  - destruct (round_nearest (xorb s1 s2) T (e1 + e2) 53 ltac:(lia) ltac:(split; [exact Hge|apply HT])
                ltac:(lia) ltac:(lia)) as (m3 & e3 & N & Hr & Hm3 & He3 & HV & Hup & Hdown).
    exists m3, e3, 53, N. split; [exact Hr|]. split; [exact Hm3|]. split; [lia|].
    split; [split; [exact Hge|apply HT]|]. done.
Qed.

(** A mantissa of 53 bits with its position between two mantissas, rounded. *)
Lemma round_aux_loc s q e l m :
  2 ^ 52 ≤ q < 2 ^ 53 → -1074 ≤ e ≤ 971 →
  round_nearest_even q l = Z.pos m → Z.pos m < 2 ^ 53 →
  binary_round_aux prec emax s q e l = S754_finite s m e.
Proof.
  intros Hq He Hr Hm.
  assert (fexp prec emax (Zdigits2 q + e) - e = 0) as Hshift.
  { rewrite (Zdigits2_53 q Hq). unfold fexp, SpecFloat.emin, prec, emax. lia. }
  unfold binary_round_aux, shr_fexp. rewrite Hshift. cbn [shr].
  assert (shr_m (shr_record_of_loc q l) = q) as -> by (by destruct l as [|[| |]]).
  assert (loc_of_shr_record (shr_record_of_loc q l) = l) as -> by (by destruct l as [|[| |]]).
  rewrite Hr.
  assert (2 ^ 52 ≤ Z.pos m) as Hm'.
  { rewrite <- Hr. unfold round_nearest_even.
    destruct l as [|[| |]]; try lia. destruct (Z.even q); lia. }
  assert (fexp prec emax (Zdigits2 (Z.pos m) + e) - e = 0) as Hshift'.
  { rewrite (Zdigits2_53 (Z.pos m)) by lia. unfold fexp, SpecFloat.emin, prec, emax. lia. }
  rewrite Hshift'. cbn [shr shr_record_of_loc shr_m].
  replace (e <=? emax - prec) with true; [done|].
  symmetry. apply Z.leb_le. unfold emax, prec. lia.
Qed.

(** The integer square root of a number close to a square. *)
Lemma sqrtrem_near m V n N :
  52 ≤ n ≤ 53 → 2 ^ 52 ≤ m < 2 ^ 53 → 2 ^ (52 + n) ≤ m * m < 2 ^ (53 + n) →
  V = N * 2 ^ n →
  2 * V ≤ 2 * (m * m) + 2 ^ n → 2 * (m * m) ≤ 2 * V + 2 ^ n →
  let q := (Z.sqrtrem V).1 in
  let r := (Z.sqrtrem V).2 in
  2 ^ 52 ≤ q < 2 ^ 53
  ∧ round_nearest_even q
      (if r =? 0 then loc_Exact else loc_Inexact (if r <=? q then Lt else Gt)) = m.
Proof.
  intros Hn Hm HT HV Hup Hdown.
  assert (0 ≤ V) as HV0.
  { assert (n = 52 ∨ n = 53) as [->| ->] by lia.
    - change (2 ^ (52 + 52)) with 20282409603651670423947251286016 in HT.
      change (2 ^ 52) with 4503599627370496 in *. lia.
    - change (2 ^ (52 + 53)) with 40564819207303340847894502572032 in HT.
      change (2 ^ 53) with 9007199254740992 in *. lia. }
  pose proof (Z.sqrtrem_spec V HV0) as Hs.
  destruct (Z.sqrtrem V) as [q r]. cbn [fst snd]. destruct Hs as [Hs Hr].
  assert (0 ≤ q) as Hq0 by lia.
  change (2 ^ 52) with 4503599627370496 in *.
  change (2 ^ 53) with 9007199254740992 in *.
  destruct (Z_le_gt_dec (m * m) V) as [Hge|Hlt].
  - assert (q = m) as Hqm.
    { assert (n = 52 ∨ n = 53) as [->| ->] by lia.
      - change (2 ^ 52) with 4503599627370496 in *.
        assert (V < (m + 1) * (m + 1)) by nia.
        assert (q < m + 1) by nia. assert (m < q + 1) by nia. lia.
      - change (2 ^ 53) with 9007199254740992 in *.
        assert (V < (m + 1) * (m + 1)) by nia.
        assert (q < m + 1) by nia. assert (m < q + 1) by nia. lia. }
    subst q. split; [lia|].
    assert (r ≤ m) as Hrm.
    { assert (n = 52 ∨ n = 53) as [->| ->] by lia.
      - change (2 ^ 52) with 4503599627370496 in *. nia.
      - change (2 ^ 53) with 9007199254740992 in *.
        change (2 ^ (52 + 53)) with 40564819207303340847894502572032 in HT. nia. }
    destruct (Z.eqb_spec r 0); [done|].
    replace (r <=? m) with true by (symmetry; apply Z.leb_le; lia). done.
  - assert (q = m - 1 ∧ m - 1 < r) as [Hqm Hrq].
    { assert (n = 52 ∨ n = 53) as [->| ->] by lia.
      - change (2 ^ 52) with 4503599627370496 in *.
        assert ((m - 1) * (m - 1) ≤ V) by nia.
        assert (q < m) by nia. assert (m - 1 < q + 1) by nia.
        split; [lia|]. nia.
      - change (2 ^ 53) with 9007199254740992 in *.
        change (2 ^ (52 + 53)) with 40564819207303340847894502572032 in HT.
        assert (4503599627370496 < m) by nia.
        assert ((m - 1) * (m - 1) ≤ V) by nia.
        assert (q < m) by nia. assert (m - 1 < q + 1) by nia.
        split; [lia|]. nia. }
    subst q.
    assert (4503599627370496 < m) as Hm1.
    { destruct (Z.eq_dec m 4503599627370496) as [->|]; [|lia]. exfalso.
      assert (n = 52 ∨ n = 53) as [->| ->] by lia.
      - change (2 ^ 52) with 4503599627370496 in *. nia.
      - change (2 ^ (52 + 53)) with 40564819207303340847894502572032 in HT. lia. }
    split; [lia|].
    destruct (Z.eqb_spec r 0); [lia|].
    replace (r <=? m - 1) with false by (symmetry; apply Z.leb_gt; lia).
    cbn [round_nearest_even]. lia.
Qed.

(** The core of the square root on a mantissa of 53 bits at an exponent
    2·e + d, d = 52 or 53. *)
Lemma sqrt_core m3 e d :
  2 ^ 52 ≤ Z.pos m3 < 2 ^ 53 → 52 ≤ d ≤ 53 → -1074 ≤ e →
  SFsqrt_core_binary prec emax (Z.pos m3) (e + e + d)
  = let V := Z.pos m3 * 2 ^ d in
    let q := (Z.sqrtrem V).1 in
    let r := (Z.sqrtrem V).2 in
    (q, e, if r =? 0 then loc_Exact else loc_Inexact (if r <=? q then Lt else Gt)).
Proof.
  intros Hm Hd He. unfold SFsqrt_core_binary.
  rewrite (Zdigits2_53 (Z.pos m3) Hm). rewrite !Z.div2_div.
  assert (Z.min (fexp prec emax ((53 + (e + e + d) + 1) / 2)) ((e + e + d) / 2) = e) as ->.
  { unfold fexp, SpecFloat.emin, prec, emax.
    assert (d = 52 ∨ d = 53) as [->| ->] by lia.
    - replace ((53 + (e + e + 52) + 1) / 2) with (e + 53)
        by (apply (Z.div_unique _ _ _ 0); lia).
      replace ((e + e + 52) / 2) with (e + 26)
        by (apply (Z.div_unique _ _ _ 0); lia). lia.
    - replace ((53 + (e + e + 53) + 1) / 2) with (e + 53)
        by (apply (Z.div_unique _ _ _ 1); lia).
      replace ((e + e + 53) / 2) with (e + 26)
        by (apply (Z.div_unique _ _ _ 1); lia). lia. }
  replace (e + e + d - 2 * e) with d by lia.
  destruct d as [|pd|pd]; [lia| |lia].
  rewrite Z.shiftl_mul_pow2 by lia. cbv zeta.
  by destruct (Z.sqrtrem (Z.pos m3 * 2 ^ Z.pos pd)) as [q r].
Qed.

(** The square root of the square of a normal number is its magnitude,
    as long as the square neither overflows nor underflows. *)
Lemma sqrt_square s m e :
  2 ^ 52 ≤ Z.pos m < 2 ^ 53 → -1074 ≤ 2 * e + 52 → 2 * e + 54 ≤ 971 →
  SFsqrt prec emax (SFmul prec emax (S754_finite s m e) (S754_finite s m e))
  = S754_finite false m e.
Proof.
  intros Hm Hlo Hhi.
  destruct (mul_normal s m e s m e Hm Hm ltac:(lia) ltac:(lia))
    as (m3 & e3 & n & N & -> & Hm3 & Hn & HT & He3 & HV & Hup & Hdown).
  rewrite xorb_nilpotent.
  set (d := e3 - (e + e)) in *.
  assert (52 ≤ d ≤ 53) as Hd.
  { destruct (Z_le_gt_dec d 53) as [?|Hgt]; [lia|]. exfalso.
    assert (n = 53) as -> by lia. assert (d = 54) as Hd54 by lia. rewrite Hd54 in HV.
    change (2 ^ 54) with 18014398509481984 in HV.
    change (2 ^ 53) with 9007199254740992 in *.
    change (2 ^ 52) with 4503599627370496 in *.
    change (2 ^ (53 + 53)) with (9007199254740992 * 9007199254740992) in HT.
    clear - Hm Hm3 HV Hup Hdown HT. nia. }
  replace e3 with (e + e + d) by (unfold d; lia).
  cbn [SFsqrt]. rewrite (sqrt_core m3 e d Hm3 Hd ltac:(lia)). cbv zeta.
  destruct (sqrtrem_near (Z.pos m) (Z.pos m3 * 2 ^ d) n N Hn Hm HT HV
              ltac:(rewrite HV; exact Hup) ltac:(rewrite HV; exact Hdown)) as [Hq Hr].
  cbv zeta in Hq, Hr.
  apply round_aux_loc; [exact Hq|lia|exact Hr|lia].
Qed.

(** A normal number divided by its magnitude is 1 or -1. *)
Lemma div_unit s m e :
  2 ^ 52 ≤ Z.pos m < 2 ^ 53 →
  SFdiv prec emax (S754_finite s m e) (S754_finite false m e)
  = S754_finite s (2 ^ 52)%positive (-52).
Proof.
  intros Hm. cbn [SFdiv]. unfold SFdiv_core_binary.
  rewrite (Zdigits2_53 (Z.pos m) Hm).
  replace (53 + e - (53 + e)) with 0 by lia. replace (e - e) with 0 by lia.
  change (Z.min (fexp prec emax 0) 0) with (-53). change (0 - -53) with 53.
  cbv iota. rewrite Z.shiftl_mul_pow2 by lia.
  assert (Z.div_eucl (Z.pos m * 2 ^ 53) (Z.pos m) = (2 ^ 53, 0)) as ->.
  { pose proof (Z.div_mul (2 ^ 53) (Z.pos m) ltac:(lia)) as Hq.
    pose proof (Z.mod_mul (2 ^ 53) (Z.pos m) ltac:(lia)) as Hr.
    rewrite (Z.mul_comm (2 ^ 53)) in Hq, Hr. unfold Z.div, Z.modulo in Hq, Hr.
    destruct (Z.div_eucl (Z.pos m * 2 ^ 53) (Z.pos m)) as [q r]. by subst. }
  assert (new_location (Z.pos m) 0 = loc_Exact) as ->.
  { unfold new_location, new_location_even, new_location_odd. by destruct (Z.even (Z.pos m)). }
  rewrite xorb_false_r.
  destruct (round_aux_canonical s (2 ^ 52) (-52) ltac:(done) ltac:(lia)) as (p & Hp & Hr).
  injection Hp as <-.
  unfold binary_round_aux, shr_fexp.
  change (Zdigits2 (2 ^ 53)) with 54.
  change (fexp prec emax (54 + -53) - -53) with 1.
  cbn [shr shr_record_of_loc SpecFloat.iter_pos].
  change (shr_1 {| shr_m := 2 ^ 53; shr_r := false; shr_s := false |})
    with {| shr_m := 2 ^ 52; shr_r := false; shr_s := false |}.
  cbn [shr_m loc_of_shr_record round_nearest_even].
  change (Zdigits2 (2 ^ 52)) with 53.
  change (fexp prec emax (53 + (-53 + 1)) - (-53 + 1)) with 0.
  cbn [shr shr_record_of_loc shr_m]. reflexivity.
Qed.

(** ** The corners of a cell *)

(** The sign does not take part in the rounding. *)
Lemma binary_round_aux_sign s T e l m3 e3 :
  binary_round_aux prec emax false T e l = S754_finite false m3 e3 →
  binary_round_aux prec emax s T e l = S754_finite s m3 e3.
Proof.
  unfold binary_round_aux.
  destruct (shr_fexp prec emax T e l) as [mrs1 e1].
  destruct (shr_fexp prec emax _ e1 loc_Exact) as [mrs2 e2].
  destruct (shr_m mrs2) as [|p|p]; [discriminate| |discriminate].
  destruct (e2 <=? emax - prec); [|discriminate].
  by intros [= -> ->].
Qed.

(** The product of two normal numbers, whatever their signs. *)
Lemma mul_normal_any m1 e1 m2 e2 :
  2 ^ 52 ≤ Z.pos m1 < 2 ^ 53 → 2 ^ 52 ≤ Z.pos m2 < 2 ^ 53 →
  -1074 ≤ e1 + e2 + 52 → e1 + e2 + 54 ≤ 971 →
  ∃ m3 e3,
    2 ^ 52 ≤ Z.pos m3 < 2 ^ 53 ∧ e1 + e2 + 52 ≤ e3 ≤ e1 + e2 + 54
    ∧ ∀ s1 s2, SFmul prec emax (S754_finite s1 m1 e1) (S754_finite s2 m2 e2)
               = S754_finite (xorb s1 s2) m3 e3.
Proof.
  intros H1 H2 Hlo Hhi.
  destruct (mul_normal false m1 e1 false m2 e2 H1 H2 Hlo Hhi)
    as (m3 & e3 & n & N & Hmul & Hm3 & Hn & _ & He3 & _).
  exists m3, e3. split; [done|]. split; [lia|].
  intros s1 s2. cbn [SFmul] in *. by apply binary_round_aux_sign.
Qed.

(** The mantissa aligned to a lower exponent. *)
Lemma shl_align_value mx ex ez :
  ez ≤ ex → Z.pos (shl_align mx ex ez).1 = Z.pos mx * 2 ^ (ex - ez).
Proof.
  intros He. unfold shl_align.
  destruct (ez - ex) as [|d|d] eqn:Hd; cbn [fst].
  - replace (ex - ez) with 0 by lia. lia.
  - lia.
  - rewrite pos_iter_xO. f_equal. f_equal. lia.
Qed.

(** Rounding an integer of at most 54 bits in the normal range. *)
Lemma binary_round_small p e :
  let d := Z.pos (digits2_pos p) in
  d ≤ 54 → -1074 ≤ d + e - 53 → d + e - 52 ≤ 971 →
  ∃ m3 e3,
    2 ^ 52 ≤ Z.pos m3 < 2 ^ 53 ∧ d + e - 53 ≤ e3 ≤ d + e - 52
    ∧ ∀ s, binary_round prec emax s p e = S754_finite s m3 e3.
Proof.
  intros d Hd Hlo Hhi.
  pose proof (bit_length p) as (Hd1 & Hlow & Hhigh). cbv zeta in Hd1, Hlow, Hhigh.
  rewrite <- (digits2_log2 p) in Hd1, Hlow, Hhigh. fold d in Hd1, Hlow, Hhigh.
  unfold binary_round. fold d.
  assert (fexp prec emax (d + e) = d + e - 53) as ->
    by (unfold fexp, SpecFloat.emin, prec, emax; lia).
  unfold shl_align.
  destruct (d + e - 53 - e) as [|k|k] eqn:Hk.
  - assert (d = 53) as Hd53 by lia. rewrite Hd53 in *.
    replace (53 - 1) with 52 in Hlow by lia.
    destruct (round_aux_canonical false (Z.pos p) e ltac:(lia) ltac:(lia)) as (p' & Hp & Hr).
    injection Hp as <-.
    exists p, e. split; [lia|]. split; [lia|].
    intros s. by apply binary_round_aux_sign.
  - assert (d = 54) as Hd54 by lia. rewrite Hd54 in *.
    replace (54 - 1) with 53 in Hlow by lia.
    destruct (round_nearest false (Z.pos p) e 1 ltac:(lia) ltac:(done) ltac:(lia) ltac:(lia))
      as (m3 & e3 & N & Hr & Hm3 & He3 & _).
    exists m3, e3. split; [done|]. split; [lia|].
    intros s. by apply binary_round_aux_sign.
  - assert (Z.pos k = 53 - d) as Hkd by lia.
    pose proof (pos_iter_xO p k) as Hv. rewrite Hkd in Hv.
    assert (2 ^ 52 ≤ Z.pos (Pos.iter xO p k) < 2 ^ 53) as Hr.
    { rewrite Hv.
      assert (2 ^ 52 = 2 ^ (d - 1) * 2 ^ (53 - d)) as ->
        by (rewrite <- pow2_split by lia; f_equal; lia).
      assert (2 ^ 53 = 2 ^ d * 2 ^ (53 - d)) as ->
        by (rewrite <- pow2_split by lia; f_equal; lia).
      pose proof (pow2_pos (53 - d) ltac:(lia)). split; nia. }
    destruct (round_aux_canonical false _ (d + e - 53) Hr ltac:(lia)) as (p' & Hp & Hr').
    injection Hp as <-.
    exists (Pos.iter xO p k), (d + e - 53). split; [done|]. split; [lia|].
    intros s. by apply binary_round_aux_sign.
Qed.

(** The bit length of an integer between two powers of two. *)
Lemma digits_between p lo hi :
  0 ≤ lo → 2 ^ lo ≤ Z.pos p < 2 ^ hi → lo + 1 ≤ Z.pos (digits2_pos p) ≤ hi.
Proof.
  intros Hlo [H1 H2].
  pose proof (bit_length p) as (Hd1 & Hlow & Hhigh). cbv zeta in Hd1, Hlow, Hhigh.
  rewrite <- (digits2_log2 p) in Hd1, Hlow, Hhigh.
  set (d := Z.pos (digits2_pos p)) in *.
  split.
  - destruct (Z_lt_le_dec lo d) as [|Hle]; [lia|]. exfalso.
    assert (2 ^ d ≤ 2 ^ lo) by (apply pow2_le; lia). lia.
  - destruct (Z_le_gt_dec d hi) as [|Hgt]; [lia|]. exfalso.
    assert (0 ≤ hi).
    { destruct (Z_le_gt_dec 0 hi); [done|]. rewrite Z.pow_neg_r in H2 by lia. lia. }
    assert (2 ^ hi ≤ 2 ^ (d - 1)) by (apply pow2_le; lia). lia.
Qed.

(** The difference of two positive normal numbers that are a number of
    104 to 106 bits apart, counted in units of [2^c] with [c] at least 52
    below their exponents: a normal number, with either sign by the order
    of the operands. *)
Lemma SFsub_apart c ma ea mb eb :
  c + 52 ≤ ea ≤ c + 100 → c + 52 ≤ eb ≤ c + 100 → -1125 ≤ c → c + 54 ≤ 971 →
  2 ^ 103 ≤ Z.pos mb * 2 ^ (eb - c) - Z.pos ma * 2 ^ (ea - c) < 2 ^ 106 →
  ∃ md ed,
    2 ^ 52 ≤ Z.pos md < 2 ^ 53 ∧ c + 51 ≤ ed ≤ c + 54
    ∧ SFsub prec emax (S754_finite false mb eb) (S754_finite false ma ea)
      = S754_finite false md ed
    ∧ SFsub prec emax (S754_finite false ma ea) (S754_finite false mb eb)
      = S754_finite true md ed.
Proof.
  intros Hea Heb Hclo Hchi HD.
  set (ez := Z.min eb ea).
  set (g := ez - c).
  assert (52 ≤ g) as Hg by (unfold g, ez; lia).
  pose proof (pow2_pos g ltac:(lia)) as Hpg.
  remember (Z.pos mb * 2 ^ (eb - ez) - Z.pos ma * 2 ^ (ea - ez)) as Delta eqn:HDelta.
  assert (Z.pos mb * 2 ^ (eb - c) - Z.pos ma * 2 ^ (ea - c) = Delta * 2 ^ g) as HDg.
  { rewrite HDelta. replace (eb - c) with ((eb - ez) + g) by (unfold g; lia).
    replace (ea - c) with ((ea - ez) + g) by (unfold g; lia).
    rewrite !pow2_split by (unfold ez; lia). ring. }
  rewrite HDg in HD.
  assert (0 < Delta) as HDpos by (clear - HD Hpg; nia).
  destruct Delta as [|pD|pD]; [lia| |lia].
  assert (g ≤ 103) as Hg103 by (unfold g, ez; lia).
  assert (2 ^ (103 - g) ≤ Z.pos pD < 2 ^ (106 - g)) as HpD.
  { assert (2 ^ 103 = 2 ^ (103 - g) * 2 ^ g) as H103
      by (rewrite <- pow2_split by lia; f_equal; lia).
    assert (2 ^ 106 = 2 ^ (106 - g) * 2 ^ g) as H106
      by (rewrite <- pow2_split by lia; f_equal; lia).
    rewrite H103, H106 in HD.
    pose proof (pow2_pos (103 - g) ltac:(lia)). pose proof (pow2_pos (106 - g) ltac:(lia)).
    clear - HD Hpg H H0. split; nia. }
  pose proof (digits_between pD (103 - g) (106 - g) ltac:(lia) HpD) as Hdig.
  destruct (binary_round_small pD ez ltac:(lia) ltac:(unfold g in *; lia)
              ltac:(unfold g in *; lia)) as (md & ed & Hmd & Hed & Hround).
  exists md, ed. split; [done|]. split; [unfold g in *; lia|].
  cbn [SFsub cond_Zopp]. fold ez. rewrite (Z.min_comm ea eb). fold ez.
  rewrite !shl_align_value by (unfold ez; lia).
  split.
  - rewrite <- HDelta. cbn [binary_normalize]. apply Hround.
  - replace (Z.pos ma * 2 ^ (ea - ez) - Z.pos mb * 2 ^ (eb - ez)) with (- Z.pos pD)
      by (rewrite HDelta; ring).
    cbn [Z.opp binary_normalize]. apply Hround.
Qed.

(** A number taken from itself is [+0]. *)
Lemma SFsub_self x :
  (∃ s, x = S754_zero s) ∨ (∃ s m e, x = S754_finite s m e) →
  SFsub prec emax x x = S754_zero false.
Proof.
  intros [[s ->]|(s & m & e & ->)].
  - by destruct s.
  - cbn [SFsub]. rewrite Z.sub_diag. reflexivity.
Qed.

(** A grid coordinate [x · K] for a whole [1 ≤ x < 2^26] and a normal
    positive [K = mk · 2^ek]: a normal number whose value, counted in
    units of [2^(ek - 52)], is within [2^52 · x] of [x · mk · 2^52]. *)
Lemma grid_coord x mk ek :
  1 ≤ x < 2 ^ 26 → 2 ^ 52 ≤ Z.pos mk < 2 ^ 53 → -1074 ≤ ek ≤ 900 →
  ∃ ma ea,
    SFmul prec emax (Prim2SF (JS.of_Z x)) (S754_finite false mk ek)
    = S754_finite false ma ea
    ∧ 2 ^ 52 ≤ Z.pos ma < 2 ^ 53 ∧ ek ≤ ea ≤ ek + 27
    ∧ x * Z.pos mk * 2 ^ 52 - 2 ^ 52 * x ≤ Z.pos ma * 2 ^ (ea - (ek - 52))
      ≤ x * Z.pos mk * 2 ^ 52 + 2 ^ 52 * x.
Proof.
  intros Hx Hmk Hek.
  assert (2 ^ 26 < 2 ^ 53) as H2653 by done.
  rewrite prim_of_Z by lia. destruct x as [|px|px]; [lia| |lia]. cbn [nat_sf].
  destruct (int_sf_shape px ltac:(lia)) as (mx & kx & -> & Hkx & Hvx & Hrx & _).
  pose proof (pow2_pos kx ltac:(lia)) as Hpk.
  assert (27 ≤ kx) as Hkx27.
  { destruct (Z_le_gt_dec 27 kx) as [|Hlt]; [done|]. exfalso.
    assert (2 ^ kx ≤ 2 ^ 26) as Hle by (apply pow2_le; lia).
    change (2 ^ 26) with 67108864 in *. change (2 ^ 52) with (67108864 * 67108864) in Hrx.
    nia. }
  destruct (mul_normal false mx (- kx) false mk ek Hrx Hmk ltac:(lia) ltac:(lia))
    as (ma & ea & n & N & Hmul & Hma & Hn & HT & Hea & HV & Hup & Hdown).
  exists ma, ea. split; [exact Hmul|]. split; [done|]. split; [lia|].
  replace (ea - (ek - 52)) with ((ea - (- kx + ek)) + (52 - kx)) by lia.
  rewrite pow2_split by lia. rewrite Z.mul_assoc, HV.
  pose proof (pow2_pos (52 - kx) ltac:(lia)) as Hp52.
  pose proof (pow2_pos n ltac:(lia)) as Hpn.
  assert (2 ^ kx * 2 ^ (52 - kx) = 2 ^ 52) as Hsplit.
  { rewrite <- pow2_split by lia. f_equal. lia. }
  assert (Z.pos px * 2 ^ 52 = Z.pos mx * 2 ^ (52 - kx)) as Hx52.
  { rewrite Hvx, <- Hsplit. ring. }
  assert (2 ^ n ≤ 2 ^ 53) as Hn53 by (apply pow2_le; lia).
  assert (2 ^ (52 - kx) ≤ Z.pos px) as Hle.
  { apply (Z.mul_le_mono_pos_r _ _ (2 ^ kx)); [lia|].
    rewrite (Z.mul_comm (2 ^ (52 - kx))), Hsplit, <- Hvx. lia. }
  set (Y := 2 ^ (52 - kx)) in *. set (P := 2 ^ n) in *.
  assert (Z.pos px * Z.pos mk * 2 ^ 52 = Z.pos mx * Z.pos mk * Y) as -> by nia.
  assert (P * Y ≤ 2 ^ 53 * Z.pos px) as HPY by nia.
  change (2 ^ 53) with (2 * 2 ^ 52) in HPY.
  split; nia.
Qed.

(** The two sides of a cell along one axis: the coordinates [j · K] and
    [(j + 1) · K] differ by a normal number of the magnitude of [K]. *)
Lemma cell_extent j K mk ek :
  0 ≤ j → j + 1 < 2 ^ 26 →
  Prim2SF K = S754_finite false mk ek → 2 ^ 52 ≤ Z.pos mk < 2 ^ 53 → -1072 ≤ ek ≤ 900 →
  let a := Prim2SF (PrimFloat.mul (JS.of_Z j) K) in
  let b := Prim2SF (PrimFloat.mul (JS.of_Z (j + 1)) K) in
  sf_small a ∧ sf_small b
  ∧ ∃ md ed,
      2 ^ 52 ≤ Z.pos md < 2 ^ 53 ∧ ek - 1 ≤ ed ≤ ek + 2
      ∧ SFsub prec emax b a = S754_finite false md ed
      ∧ SFsub prec emax a b = S754_finite true md ed.
Proof.
  intros Hj Hj1 HK Hmk Hek. cbv zeta. rewrite !mul_spec, HK. unfold SF64mul.
  destruct (grid_coord (j + 1) mk ek ltac:(lia) Hmk ltac:(lia))
    as (mb & eb & -> & Hmb & Heb & Hb).
  assert (sf_small (S754_finite false mb eb)) as Hsb by (right; by eexists _, _, _).
  destruct (Z.eq_dec j 0) as [->|Hne].
  - change (Prim2SF (JS.of_Z 0)) with (S754_zero false). cbn [SFmul xorb].
    split; [left; by eexists|]. split; [exact Hsb|].
    exists mb, eb. split; [done|]. split; [|done].
    split; [lia|].
    destruct (Z_le_gt_dec eb (ek + 2)) as [|Hgt]; [done|]. exfalso.
    assert (2 ^ 55 ≤ 2 ^ (eb - (ek - 52))) as Hp by (apply pow2_le; lia).
    change (0 + 1) with 1 in Hb.
    change (2 ^ 55) with 36028797018963968 in Hp.
    change (2 ^ 52) with 4503599627370496 in *. change (2 ^ 53) with 9007199254740992 in *.
    clear - Hb Hp Hmb Hmk. nia.
  - destruct (grid_coord j mk ek ltac:(lia) Hmk ltac:(lia))
      as (ma & ea & -> & Hma & Hea & Ha).
    split; [right; by eexists _, _, _|]. split; [exact Hsb|].
    destruct (SFsub_apart (ek - 52) ma ea mb eb ltac:(lia) ltac:(lia) ltac:(lia) ltac:(lia))
      as (md & ed & Hmd & Hed & H1 & H2).
    { change (2 ^ 26) with 67108864 in Hj1.
      change (2 ^ 103) with (4503599627370496 * 2251799813685248).
      change (2 ^ 106) with (4503599627370496 * 18014398509481984).
      change (2 ^ 52) with 4503599627370496 in *. change (2 ^ 53) with 9007199254740992 in *.
      clear - Ha Hb Hmk Hj Hj1. split; nia. }
    exists md, ed. split; [done|]. split; [lia|]. done.
Qed.

(** ** Arithmetic on zeros and normal numbers *)

Lemma sf_small_zero x : sf_zero x → sf_small x.
Proof. by left. Qed.

Lemma sf_small_normal lo hi s x : sf_normal lo hi s x → sf_small x.
Proof. intros (m & e & -> & _). right. by eexists _, _, _. Qed.

Lemma sf_normal_weaken lo hi lo' hi' s x :
  sf_normal lo hi s x → lo' ≤ lo → hi ≤ hi' → sf_normal lo' hi' s x.
Proof. intros (m & e & -> & Hm & He) Hlo Hhi. exists m, e. split; [done|]. split; [done|lia]. Qed.

Lemma mul_zero_l x y : sf_zero x → sf_small y → sf_zero (SFmul prec emax x y).
Proof.
  intros [s ->] [[s' ->]|(s' & m & e & ->)]; cbn [SFmul]; by eexists.
Qed.

Lemma mul_zero_r x y : sf_small x → sf_zero y → sf_zero (SFmul prec emax x y).
Proof.
  intros [[s' ->]|(s' & m & e & ->)] [s ->]; cbn [SFmul]; by eexists.
Qed.

Lemma sub_zero_zero x y : sf_zero x → sf_zero y → sf_zero (SFsub prec emax x y).
Proof.
  intros [s ->] [s' ->]. destruct s, s'; cbn [SFsub]; by eexists.
Qed.

Lemma mul_normal_sf lo1 hi1 s1 x lo2 hi2 s2 y :
  sf_normal lo1 hi1 s1 x → sf_normal lo2 hi2 s2 y →
  -1074 ≤ lo1 + lo2 + 52 → hi1 + hi2 + 54 ≤ 971 →
  sf_normal (lo1 + lo2 + 52) (hi1 + hi2 + 54) (xorb s1 s2) (SFmul prec emax x y).
Proof.
  intros (m1 & e1 & -> & Hm1 & He1) (m2 & e2 & -> & Hm2 & He2) Hlo Hhi.
  destruct (mul_normal_any m1 e1 m2 e2 Hm1 Hm2 ltac:(lia) ltac:(lia))
    as (m3 & e3 & Hm3 & He3 & Hmul).
  exists m3, e3. split; [apply Hmul|]. split; [done|lia].
Qed.

Lemma sub_normal_zero lo hi s x y :
  sf_normal lo hi s x → sf_zero y → sf_normal lo hi s (SFsub prec emax x y).
Proof.
  intros (m & e & -> & Hm & He) [s' ->]. cbn [SFsub]. by exists m, e.
Qed.

Lemma sub_zero_normal lo hi s x y :
  sf_zero x → sf_normal lo hi s y → sf_normal lo hi (negb s) (SFsub prec emax x y).
Proof.
  intros [s' ->] (m & e & -> & Hm & He). cbn [SFsub]. by exists m, e.
Qed.

(** ** The unit normal along an axis *)

Lemma finite_truthy x s m e : Prim2SF x = S754_finite s m e → JS.truthy x = true.
Proof.
  intros Hx. unfold JS.truthy. rewrite (is_nan_finite x s m e Hx).
  unfold PrimFloat.is_zero. rewrite FloatAxioms.eqb_spec, Hx.
  change (Prim2SF zero) with (S754_zero false). by destruct s.
Qed.

Lemma zero_is_a_zero x : sf_zero (Prim2SF x) → is_a_zero x.
Proof.
  intros [[|] Hs]; [right|left]; apply Prim2SF_inj; rewrite Hs; reflexivity.
Qed.

(** The three squares add up to the square of the only component that is
    not zero. *)
Lemma squares_z a b c s m e : sf_zero a → sf_zero b → c = S754_finite s m e →
  2 ^ 52 ≤ Z.pos m < 2 ^ 53 → -1074 ≤ 2 * e + 52 → 2 * e + 54 ≤ 971 →
  SFadd prec emax (SFadd prec emax (SFmul prec emax a a) (SFmul prec emax b b))
    (SFmul prec emax c c) = SFmul prec emax c c.
Proof.
  intros [sa ->] [sb ->] -> Hm Hlo Hhi.
  destruct (mul_normal_any m e m e Hm Hm ltac:(lia) ltac:(lia)) as (m3 & e3 & _ & _ & Hmul).
  rewrite Hmul. cbn [SFmul]. rewrite !xorb_nilpotent. reflexivity.
Qed.

Lemma squares_y a b c s m e : sf_zero a → b = S754_finite s m e → sf_zero c →
  2 ^ 52 ≤ Z.pos m < 2 ^ 53 → -1074 ≤ 2 * e + 52 → 2 * e + 54 ≤ 971 →
  SFadd prec emax (SFadd prec emax (SFmul prec emax a a) (SFmul prec emax b b))
    (SFmul prec emax c c) = SFmul prec emax b b.
Proof.
  intros [sa ->] -> [sc ->] Hm Hlo Hhi.
  destruct (mul_normal_any m e m e Hm Hm ltac:(lia) ltac:(lia)) as (m3 & e3 & _ & _ & Hmul).
  rewrite Hmul. cbn [SFmul]. rewrite !xorb_nilpotent. reflexivity.
Qed.

Lemma squares_x a b c s m e : a = S754_finite s m e → sf_zero b → sf_zero c →
  2 ^ 52 ≤ Z.pos m < 2 ^ 53 → -1074 ≤ 2 * e + 52 → 2 * e + 54 ≤ 971 →
  SFadd prec emax (SFadd prec emax (SFmul prec emax a a) (SFmul prec emax b b))
    (SFmul prec emax c c) = SFmul prec emax a a.
Proof.
  intros -> [sb ->] [sc ->] Hm Hlo Hhi.
  destruct (mul_normal_any m e m e Hm Hm ltac:(lia) ltac:(lia)) as (m3 & e3 & _ & _ & Hmul).
  rewrite Hmul. cbn [SFmul]. rewrite !xorb_nilpotent. reflexivity.
Qed.

(** The length of a vector along an axis is the magnitude of its only
    component. *)
Lemma axis_length n s m e :
  Prim2SF (squared_length n)
  = SFmul prec emax (S754_finite s m e) (S754_finite s m e) →
  2 ^ 52 ≤ Z.pos m < 2 ^ 53 → -1074 ≤ 2 * e + 52 → 2 * e + 54 ≤ 971 →
  Prim2SF (normal_length n) = S754_finite false m e.
Proof.
  intros Hsq Hm Hlo Hhi.
  assert (Prim2SF (JS.Math_sqrt (squared_length n)) = S754_finite false m e) as Hlen.
  { unfold JS.Math_sqrt. rewrite sqrt_spec, Hsq. by apply sqrt_square. }
  unfold normal_length, JS.or_else. by rewrite (finite_truthy _ _ _ _ Hlen).
Qed.

(** A normal number over its magnitude, and a zero over it. *)
Lemma div_magnitude x nl s m e :
  Prim2SF x = S754_finite s m e → Prim2SF nl = S754_finite false m e →
  2 ^ 52 ≤ Z.pos m < 2 ^ 53 →
  PrimFloat.div x nl = if s then JS.of_Z (-1) else JS.of_Z 1.
Proof.
  intros Hx Hnl Hm. apply Prim2SF_inj. rewrite div_spec, Hx, Hnl. unfold SF64div.
  rewrite (div_unit s m e Hm). by destruct s.
Qed.

Lemma div_zero x nl m e :
  sf_zero (Prim2SF x) → Prim2SF nl = S754_finite false m e →
  is_a_zero (PrimFloat.div x nl).
Proof.
  intros [s Hx] Hnl. apply zero_is_a_zero. rewrite div_spec, Hx, Hnl.
  cbn [SF64div SFdiv]. by eexists.
Qed.

(** The normal written for a triangle whose cross product lies along an
    axis: the unit vector of that axis, with the sign of the product. *)
Lemma unit_normal (k : Z) tri s :
  0 ≤ k ≤ 2 →
  (if k =? 0 then sf_normal (-563) 458 s (Prim2SF (cross tri).1.1)
   else sf_zero (Prim2SF (cross tri).1.1)) →
  (if k =? 1 then sf_normal (-563) 458 s (Prim2SF (cross tri).1.2)
   else sf_zero (Prim2SF (cross tri).1.2)) →
  (if k =? 2 then sf_normal (-563) 458 s (Prim2SF (cross tri).2)
   else sf_zero (Prim2SF (cross tri).2)) →
  along k (if s then JS.of_Z (-1) else JS.of_Z 1) (normal tri).
Proof.
  intros Hk Hx Hy Hz. unfold normal.
  destruct (cross tri) as [[nx ny] nz]. cbn [fst snd] in Hx, Hy, Hz.
  assert (Prim2SF (squared_length (nx, ny, nz))
          = SFadd prec emax (SFadd prec emax (SFmul prec emax (Prim2SF nx) (Prim2SF nx))
                               (SFmul prec emax (Prim2SF ny) (Prim2SF ny)))
              (SFmul prec emax (Prim2SF nz) (Prim2SF nz))) as Hsq.
  { unfold squared_length. by rewrite !add_spec, !mul_spec. }
  assert (k = 0 ∨ k = 1 ∨ k = 2) as [->|[->| ->]] by lia;
    cbn [Z.eqb Pos.eqb] in Hx, Hy, Hz; unfold along; cbn [fst snd].
  - destruct Hx as (m & e & Hx & Hm & He).
    rewrite (squares_x _ _ _ s m e Hx Hy Hz Hm ltac:(lia) ltac:(lia)), Hx in Hsq.
    pose proof (axis_length _ s m e Hsq Hm ltac:(lia) ltac:(lia)) as Hnl.
    split; [by apply (div_magnitude _ _ s m e)|].
    split; by apply (div_zero _ _ m e).
  - destruct Hy as (m & e & Hy & Hm & He).
    rewrite (squares_y _ _ _ s m e Hx Hy Hz Hm ltac:(lia) ltac:(lia)), Hy in Hsq.
    pose proof (axis_length _ s m e Hsq Hm ltac:(lia) ltac:(lia)) as Hnl.
    split; [by apply (div_zero _ _ m e)|].
    split; [by apply (div_magnitude _ _ s m e)|by apply (div_zero _ _ m e)].
  - destruct Hz as (m & e & Hz & Hm & He).
    rewrite (squares_z _ _ _ s m e Hx Hy Hz Hm ltac:(lia) ltac:(lia)), Hz in Hsq.
    pose proof (axis_length _ s m e Hsq Hm ltac:(lia) ltac:(lia)) as Hnl.
    split; [by apply (div_zero _ _ m e)|].
    split; [by apply (div_zero _ _ m e)|by apply (div_magnitude _ _ s m e)].
Qed.

(** ** The normals of a box *)

Lemma shape_mul lo1 hi1 s1 x lo2 hi2 s2 y lo hi s :
  sf_normal lo1 hi1 s1 x → sf_normal lo2 hi2 s2 y → s = xorb s1 s2 →
  -1074 ≤ lo1 + lo2 + 52 → hi1 + hi2 + 54 ≤ 971 →
  lo ≤ lo1 + lo2 + 52 → hi1 + hi2 + 54 ≤ hi →
  sf_normal lo hi s (SFmul prec emax x y).
Proof.
  intros Hx Hy -> H1 H2 H3 H4.
  by apply (sf_normal_weaken _ _ _ _ _ _ (mul_normal_sf _ _ _ _ _ _ _ _ Hx Hy H1 H2)).
Qed.

Lemma shape_sub_r lo hi s x y s0 :
  sf_zero x → sf_normal lo hi s0 y → s = negb s0 →
  sf_normal lo hi s (SFsub prec emax x y).
Proof. intros Hx Hy ->. by apply sub_zero_normal. Qed.

Ltac sf_leaf :=
  first [ eassumption
        | apply sf_small_zero; eassumption
        | eapply sf_small_normal; eassumption ].

Ltac sf_zero_mul :=
  first [ apply mul_zero_l; [eassumption | sf_leaf]
        | apply mul_zero_r; [sf_leaf | eassumption] ].

Ltac sf_normal_mul :=
  eapply shape_mul; [eassumption | eassumption | reflexivity | lia | lia | lia | lia].

Ltac sf_shape :=
  lazymatch goal with
  | |- sf_zero _ => apply sub_zero_zero; sf_zero_mul
  | |- sf_normal _ _ _ _ =>
      first [ eapply sub_normal_zero; [sf_normal_mul | sf_zero_mul]
            | eapply shape_sub_r; [sf_zero_mul | sf_normal_mul | reflexivity] ]
  end.

(** The components of the cross product, as binary64 data. *)
Lemma cross_components (v0 v1 v2 : vertex) :
  let d a b := SFsub prec emax (Prim2SF a) (Prim2SF b) in
  let ux := d v1.1.1 v0.1.1 in
  let uy := d v1.1.2 v0.1.2 in
  let uz := d v1.2 v0.2 in
  let vx := d v2.1.1 v0.1.1 in
  let vy := d v2.1.2 v0.1.2 in
  let vz := d v2.2 v0.2 in
  Prim2SF (cross (v0, v1, v2)).1.1
  = SFsub prec emax (SFmul prec emax uy vz) (SFmul prec emax uz vy)
  ∧ Prim2SF (cross (v0, v1, v2)).1.2
    = SFsub prec emax (SFmul prec emax uz vx) (SFmul prec emax ux vz)
  ∧ Prim2SF (cross (v0, v1, v2)).2
    = SFsub prec emax (SFmul prec emax ux vy) (SFmul prec emax uy vx).
Proof.
  cbv zeta. unfold cross. cbn [fst snd].
  rewrite !sub_spec, !mul_spec, !sub_spec. done.
Qed.

(** The normal of a triangle from the shapes of the three components of
    its cross product. *)
Lemma axis_normal (k : Z) (v0 v1 v2 : vertex) s :
  0 ≤ k ≤ 2 →
  let d a b := SFsub prec emax (Prim2SF a) (Prim2SF b) in
  let ux := d v1.1.1 v0.1.1 in
  let uy := d v1.1.2 v0.1.2 in
  let uz := d v1.2 v0.2 in
  let vx := d v2.1.1 v0.1.1 in
  let vy := d v2.1.2 v0.1.2 in
  let vz := d v2.2 v0.2 in
  let nx := SFsub prec emax (SFmul prec emax uy vz) (SFmul prec emax uz vy) in
  let ny := SFsub prec emax (SFmul prec emax uz vx) (SFmul prec emax ux vz) in
  let nz := SFsub prec emax (SFmul prec emax ux vy) (SFmul prec emax uy vx) in
  (if k =? 0 then sf_normal (-563) 458 s nx else sf_zero nx) →
  (if k =? 1 then sf_normal (-563) 458 s ny else sf_zero ny) →
  (if k =? 2 then sf_normal (-563) 458 s nz else sf_zero nz) →
  along k (if s then JS.of_Z (-1) else JS.of_Z 1) (normal (v0, v1, v2)).
Proof.
  intros Hk d ux uy uz vx vy vz nx ny nz Hx Hy Hz.
  destruct (cross_components v0 v1 v2) as (E1 & E2 & E3). cbv zeta in E1, E2, E3.
  apply (unit_normal k (v0, v1, v2) s Hk).
  - by rewrite E1.
  - by rewrite E2.
  - by rewrite E3.
Qed.

Section Normals.
Variables (X0 X1 Y0 Y1 T O : JS.number) (lo hi : Z).
Hypothesis Hlo : -307 ≤ lo.
Hypothesis Hhi : hi ≤ 202.
Hypothesis Hdx : sf_normal lo hi false (SFsub prec emax (Prim2SF X1) (Prim2SF X0)).
Hypothesis Hdx' : sf_normal lo hi true (SFsub prec emax (Prim2SF X0) (Prim2SF X1)).
Hypothesis Hx0 : sf_zero (SFsub prec emax (Prim2SF X0) (Prim2SF X0)).
Hypothesis Hx1 : sf_zero (SFsub prec emax (Prim2SF X1) (Prim2SF X1)).
Hypothesis Hdy : sf_normal lo hi false (SFsub prec emax (Prim2SF Y1) (Prim2SF Y0)).
Hypothesis Hdy' : sf_normal lo hi true (SFsub prec emax (Prim2SF Y0) (Prim2SF Y1)).
Hypothesis Hy0 : sf_zero (SFsub prec emax (Prim2SF Y0) (Prim2SF Y0)).
Hypothesis Hy1 : sf_zero (SFsub prec emax (Prim2SF Y1) (Prim2SF Y1)).
Hypothesis Hz : sf_zero (SFsub prec emax (Prim2SF T) (Prim2SF T)).

Hypothesis HO : Prim2SF O = S754_zero false.

Lemma ground_level : sf_zero (SFsub prec emax (Prim2SF O) (Prim2SF O)).
Proof. rewrite HO. by exists false. Qed.

(** The caps: both triangles of the top have the normal (0, 0, -1), both
    of the bottom (0, 0, 1). *)
Lemma caps_along_z :
  Forall (λ tri, along 2 (JS.of_Z (-1)) (normal tri))
    [((X0, Y1, T), (X1, Y1, T), (X1, Y0, T)); ((X0, Y1, T), (X1, Y0, T), (X0, Y0, T))]
  ∧ Forall (λ tri, along 2 (JS.of_Z 1) (normal tri))
      [((X1, Y1, O), (X0, Y1, O), (X0, Y0, O)); ((X1, Y1, O), (X0, Y0, O), (X1, Y0, O))].
Proof.
  pose proof ground_level as Hz0.
  split; repeat (apply Forall_cons; split); try (by apply Forall_nil).
  - apply (axis_normal 2 _ _ _ true); [lia|..]; cbv zeta; cbn [Z.eqb Pos.eqb fst snd]; sf_shape.
  - apply (axis_normal 2 _ _ _ true); [lia|..]; cbv zeta; cbn [Z.eqb Pos.eqb fst snd]; sf_shape.
  - apply (axis_normal 2 _ _ _ false); [lia|..]; cbv zeta; cbn [Z.eqb Pos.eqb fst snd]; sf_shape.
  - apply (axis_normal 2 _ _ _ false); [lia|..]; cbv zeta; cbn [Z.eqb Pos.eqb fst snd]; sf_shape.
Qed.


Variables (lt ht : Z).
Hypothesis Hlt : -254 ≤ lt.
Hypothesis Hht : ht ≤ 150.
Hypothesis Ht : sf_normal lt ht false (Prim2SF T).

Lemma ground_below : sf_normal lt ht true (SFsub prec emax (Prim2SF O) (Prim2SF T)).
Proof. rewrite HO. destruct Ht as (m & e & -> & Hm & He). by exists m, e. Qed.

Lemma top_above : sf_normal lt ht false (SFsub prec emax (Prim2SF T) (Prim2SF O)).
Proof. rewrite HO. destruct Ht as (m & e & -> & Hm & He). by exists m, e. Qed.

(** The walls: the normals of the left, right, bottom and top sides are
    (-1, 0, 0), (1, 0, 0), (0, -1, 0) and (0, 1, 0). *)
Lemma walls_along_xy :
  Forall (λ tri, along 0 (JS.of_Z (-1)) (normal tri))
    [((X0, Y1, T), (X0, Y1, O), (X0, Y0, O)); ((X0, Y1, T), (X0, Y0, O), (X0, Y0, T))]
  ∧ Forall (λ tri, along 0 (JS.of_Z 1) (normal tri))
      [((X1, Y0, T), (X1, Y0, O), (X1, Y1, O)); ((X1, Y0, T), (X1, Y1, O), (X1, Y1, T))]
  ∧ Forall (λ tri, along 1 (JS.of_Z (-1)) (normal tri))
      [((X0, Y0, T), (X0, Y0, O), (X1, Y0, O)); ((X0, Y0, T), (X1, Y0, O), (X1, Y0, T))]
  ∧ Forall (λ tri, along 1 (JS.of_Z 1) (normal tri))
      [((X1, Y1, T), (X1, Y1, O), (X0, Y1, O)); ((X1, Y1, T), (X0, Y1, O), (X0, Y1, T))].
Proof.
  pose proof ground_level as Hz0. pose proof ground_below as Hzdown. pose proof top_above as Hzup.
  repeat split; repeat (apply Forall_cons; split); try (by apply Forall_nil).
  - apply (axis_normal 0 _ _ _ true); [lia|..]; cbv zeta; cbn [Z.eqb Pos.eqb fst snd]; sf_shape.
  - apply (axis_normal 0 _ _ _ true); [lia|..]; cbv zeta; cbn [Z.eqb Pos.eqb fst snd]; sf_shape.
  - apply (axis_normal 0 _ _ _ false); [lia|..]; cbv zeta; cbn [Z.eqb Pos.eqb fst snd]; sf_shape.
  - apply (axis_normal 0 _ _ _ false); [lia|..]; cbv zeta; cbn [Z.eqb Pos.eqb fst snd]; sf_shape.
  - apply (axis_normal 1 _ _ _ true); [lia|..]; cbv zeta; cbn [Z.eqb Pos.eqb fst snd]; sf_shape.
  - apply (axis_normal 1 _ _ _ true); [lia|..]; cbv zeta; cbn [Z.eqb Pos.eqb fst snd]; sf_shape.
  - apply (axis_normal 1 _ _ _ false); [lia|..]; cbv zeta; cbn [Z.eqb Pos.eqb fst snd]; sf_shape.
  - apply (axis_normal 1 _ _ _ false); [lia|..]; cbv zeta; cbn [Z.eqb Pos.eqb fst snd]; sf_shape.
Qed.

End Normals.

(** A number between 2^-200 and 2^200 is normal and positive. *)
Lemma between_normal K :
  PrimFloat.leb 0x1p-200 K = true → PrimFloat.leb K 0x1p200 = true →
  sf_normal (-252) 148 false (Prim2SF K).
Proof.
  rewrite !FloatAxioms.leb_spec.
  change (Prim2SF 0x1p-200) with (S754_finite false (2 ^ 52) (-252)).
  change (Prim2SF 0x1p200) with (S754_finite false (2 ^ 52) 148).
  intros Hlow Hhigh.
  destruct (Prim2SF K) as [s|s| |s m e] eqn:HK; try done.
  - by destruct s.
  - destruct s; [done|].
    unfold SFleb in Hlow, Hhigh. rewrite SFcompare_lex in Hlow, Hhigh.
    unfold lex_compare in Hlow, Hhigh.
    assert (-252 ≤ e ≤ 148) as He.
    { destruct (Z.compare_spec (-252) e), (Z.compare_spec e 148); try lia; done. }
    destruct (valid_finite K _ _ _ HK) as (_ & _ & Hd). specialize (Hd ltac:(lia)).
    exists m, e. split; [done|]. split; [|done].
    pose proof (bit_length m) as (_ & Hb). cbv zeta in Hb.
    rewrite <- (digits2_log2 m), Hd in Hb. exact Hb.
Qed.

(** A finite number taken from itself is a zero. *)
Lemma finite_level t : JS.isFinite t = true → sf_zero (SFsub prec emax (Prim2SF t) (Prim2SF t)).
Proof.
  unfold JS.isFinite, PrimFloat.is_finite, PrimFloat.is_infinity, PrimFloat.is_nan.
  rewrite !FloatAxioms.eqb_spec, abs_spec.
  change (Prim2SF PrimFloat.infinity) with (S754_infinity false).
  intros Hf. exists false. apply SFsub_self.
  destruct (Prim2SF t) as [s|s| |s m e]; [left; by eexists|by destruct s|done|].
  right. by eexists _, _, _.
Qed.

(** The shapes of the differences of the corners of a cell. *)
Lemma box_extents maskH K x y :
  0 ≤ x → x + 1 < 2 ^ 26 → 0 ≤ maskH - y - 1 → maskH - y < 2 ^ 26 →
  PrimFloat.leb 0x1p-200 K = true → PrimFloat.leb K 0x1p200 = true →
  let d a b := SFsub prec emax (Prim2SF a) (Prim2SF b) in
  ∃ lo hi, -307 ≤ lo ∧ hi ≤ 202
    ∧ sf_normal lo hi false (d (box_x1 K x) (box_x0 K x))
    ∧ sf_normal lo hi true (d (box_x0 K x) (box_x1 K x))
    ∧ sf_zero (d (box_x0 K x) (box_x0 K x)) ∧ sf_zero (d (box_x1 K x) (box_x1 K x))
    ∧ sf_normal lo hi false (d (box_y1 maskH K y) (box_y0 maskH K y))
    ∧ sf_normal lo hi true (d (box_y0 maskH K y) (box_y1 maskH K y))
    ∧ sf_zero (d (box_y0 maskH K y) (box_y0 maskH K y))
    ∧ sf_zero (d (box_y1 maskH K y) (box_y1 maskH K y)).
Proof.
  intros Hx Hx1 Hy Hy1 Hlow Hhigh d.
  destruct (between_normal K Hlow Hhigh) as (mk & ek & HK & Hmk & Hek).
  destruct (cell_extent x K mk ek Hx Hx1 HK Hmk ltac:(lia))
    as (Hsx0 & Hsx1 & mdx & edx & Hmdx & Hedx & Hx10 & Hx01).
  destruct (cell_extent (maskH - y - 1) K mk ek Hy ltac:(lia) HK Hmk ltac:(lia))
    as (Hsy0 & Hsy1 & mdy & edy & Hmdy & Hedy & Hy10 & Hy01).
  cbv zeta in Hsx0, Hsx1, Hx10, Hx01, Hsy0, Hsy1, Hy10, Hy01.
  replace (maskH - y - 1 + 1) with (maskH - y) in Hsy1, Hy10, Hy01 by lia.
  exists (ek - 1), (ek + 2). split; [lia|]. split; [lia|].
  unfold d, box_x0, box_x1, box_y0, box_y1.
  split; [exists mdx, edx; by rewrite Hx10|].
  split; [exists mdx, edx; by rewrite Hx01|].
  split; [exists false; by apply SFsub_self|].
  split; [exists false; by apply SFsub_self|].
  split; [exists mdy, edy; by rewrite Hy10|].
  split; [exists mdy, edy; by rewrite Hy01|].
  split; exists false; by apply SFsub_self.
Qed.

(** The normals of the caps of a box. *)
Lemma box_caps maskH thickness K x y :
  0 ≤ x → x + 1 < 2 ^ 26 → 0 ≤ maskH - y - 1 → maskH - y < 2 ^ 26 →
  PrimFloat.leb 0x1p-200 K = true → PrimFloat.leb K 0x1p200 = true →
  JS.isFinite thickness = true →
  Forall (λ tri, along 2 (JS.of_Z (-1)) (normal tri)) (top_face maskH thickness K x y)
  ∧ Forall (λ tri, along 2 (JS.of_Z 1) (normal tri)) (bottom_face maskH K x y).
Proof.
  intros Hx Hx1 Hy Hy1 Hlow Hhigh Hfin.
  destruct (box_extents maskH K x y Hx Hx1 Hy Hy1 Hlow Hhigh)
    as (lo & hi & Hlo & Hhi & Hdx & Hdx' & Hx0 & Hx1' & Hdy & Hdy' & Hy0 & Hy1').
  pose proof (finite_level thickness Hfin) as Hz.
  unfold top_face, bottom_face, c00, c10, c11, c01, b00, b10, b11, b01.
  eapply (caps_along_z _ _ _ _ _ _ lo hi); first [eassumption | reflexivity].
Qed.




(** The normals of the walls of a box. *)
Lemma box_walls maskH thickness K x y :
  0 ≤ x → x + 1 < 2 ^ 26 → 0 ≤ maskH - y - 1 → maskH - y < 2 ^ 26 →
  PrimFloat.leb 0x1p-200 K = true → PrimFloat.leb K 0x1p200 = true →
  PrimFloat.leb 0x1p-200 thickness = true → PrimFloat.leb thickness 0x1p200 = true →
  Forall (λ tri, along 0 (JS.of_Z (-1)) (normal tri)) (left_side maskH thickness K x y)
  ∧ Forall (λ tri, along 0 (JS.of_Z 1) (normal tri)) (right_side maskH thickness K x y)
  ∧ Forall (λ tri, along 1 (JS.of_Z (-1)) (normal tri)) (bottom_side maskH thickness K x y)
  ∧ Forall (λ tri, along 1 (JS.of_Z 1) (normal tri)) (top_side maskH thickness K x y).
Proof.
  intros Hx Hx1 Hy Hy1 Hlow Hhigh Htlow Hthigh.
  destruct (box_extents maskH K x y Hx Hx1 Hy Hy1 Hlow Hhigh)
    as (lo & hi & Hlo & Hhi & Hdx & Hdx' & Hx0 & Hx1' & Hdy & Hdy' & Hy0 & Hy1').
  pose proof (between_normal thickness Htlow Hthigh) as Ht.
  assert (sf_zero (SFsub prec emax (Prim2SF thickness) (Prim2SF thickness))) as Hz.
  { exists false. apply SFsub_self. destruct Ht as (m & e & -> & _). right. by eexists _, _, _. }
  unfold left_side, right_side, bottom_side, top_side, c00, c10, c11, c01, b00, b10, b11, b01.
  eapply (walls_along_xy _ _ _ _ _ _ lo hi) with (lt := -252) (ht := 148);
    first [eassumption | reflexivity | lia].
Qed.

(** X20: the walls of a box are wound outwards.  For a cell whose corners
    have grid coordinates below 2^26 and a scale and a thickness between
    2^-200 and 2^200, the normal written for both triangles of the left
    side is exactly (-1, 0, 0), of the right side (1, 0, 0), of the bottom
    side (0, -1, 0) and of the top side (0, 1, 0) (a zero may be -0): each
    points out of the box. *)
Theorem wall_normals_outward maskH thickness K x y :
  0 ≤ x → x + 1 < 2 ^ 26 → 0 ≤ maskH - y - 1 → maskH - y < 2 ^ 26 →
  PrimFloat.leb 0x1p-200 K = true → PrimFloat.leb K 0x1p200 = true →
  PrimFloat.leb 0x1p-200 thickness = true → PrimFloat.leb thickness 0x1p200 = true →
  Forall (λ tri, along 0 (JS.of_Z (-1)) (normal tri)) (left_side maskH thickness K x y)
  ∧ Forall (λ tri, along 0 (JS.of_Z 1) (normal tri)) (right_side maskH thickness K x y)
  ∧ Forall (λ tri, along 1 (JS.of_Z (-1)) (normal tri)) (bottom_side maskH thickness K x y)
  ∧ Forall (λ tri, along 1 (JS.of_Z 1) (normal tri)) (top_side maskH thickness K x y).
Proof. apply box_walls. Qed.

Lemma wall_normals_outward_witness :
  Forall (λ tri, along 0 (JS.of_Z (-1)) (normal tri))
    (left_side 1 (JS.of_Z 2) (SCALE_MM_PER_PX default_config) 0 0)
  ∧ Forall (λ tri, along 0 (JS.of_Z 1) (normal tri))
      (right_side 1 (JS.of_Z 2) (SCALE_MM_PER_PX default_config) 0 0)
  ∧ Forall (λ tri, along 1 (JS.of_Z (-1)) (normal tri))
      (bottom_side 1 (JS.of_Z 2) (SCALE_MM_PER_PX default_config) 0 0)
  ∧ Forall (λ tri, along 1 (JS.of_Z 1) (normal tri))
      (top_side 1 (JS.of_Z 2) (SCALE_MM_PER_PX default_config) 0 0).
Proof.
  apply wall_normals_outward; solve [lia | reflexivity].
Defined.

(** X21: every normal in a mesh that the extruder builds is a unit vector
    along an axis.  For a mask of fewer than 2^26 cells a side and a scale
    and a thickness between 2^-200 and 2^200, the normal written for each
    triangle is exactly plus or minus (1, 0, 0), (0, 1, 0) or (0, 0, 1):
    no facet has a zero or a [NaN] normal, and the fallback length 1 of
    the serializer is never used. *)
Theorem mesh_normals_unit mask W H thickness K tri :
  W < 2 ^ 26 → H < 2 ^ 26 →
  PrimFloat.leb 0x1p-200 K = true → PrimFloat.leb K 0x1p200 = true →
  PrimFloat.leb 0x1p-200 thickness = true → PrimFloat.leb thickness 0x1p200 = true →
  tri ∈ generate_triangles mask W H thickness K →
  ∃ k c, 0 ≤ k ≤ 2 ∧ (c = JS.of_Z 1 ∨ c = JS.of_Z (-1)) ∧ along k c (normal tri).
Proof.
  intros HW HH Hlow Hhigh Htlow Hthigh. rewrite extrude_cells. intros Ht.
  apply list_elem_of_bind in Ht as (c & Ht & _).
  pose proof (cell_triangles_inside _ _ _ _ _ _ _ _ Ht) as (Hx & Hy & Hbox).
  assert (JS.isFinite thickness = true) as Hfin.
  { destruct (between_normal thickness Htlow Hthigh) as (m & e & Hs & _).
    unfold JS.isFinite, PrimFloat.is_finite, PrimFloat.is_infinity, PrimFloat.is_nan.
    rewrite !FloatAxioms.eqb_spec, abs_spec, Hs.
    change (Prim2SF PrimFloat.infinity) with (S754_infinity false).
    cbn [SFabs SFeqb SFcompare]. rewrite Z.compare_refl, Pos.compare_cont_refl. reflexivity. }
  destruct (box_caps H thickness K c.1 c.2 ltac:(lia) ltac:(lia) ltac:(lia) ltac:(lia)
              Hlow Hhigh Hfin) as [Htop Hbottom].
  destruct (box_walls H thickness K c.1 c.2 ltac:(lia) ltac:(lia) ltac:(lia) ltac:(lia)
              Hlow Hhigh Htlow Hthigh) as (Hleft & Hright & Hfront & Hback).
  rewrite Forall_forall in Htop, Hbottom, Hleft, Hright, Hfront, Hback.
  unfold box in Hbox. rewrite !elem_of_app in Hbox.
  destruct Hbox as [Hin|[Hin|[Hin|[Hin|[Hin|Hin]]]]].
  - exists 2, (JS.of_Z (-1)). split; [lia|]. split; [by right|]. by apply Htop.
  - exists 2, (JS.of_Z 1). split; [lia|]. split; [by left|]. by apply Hbottom.
  - exists 0, (JS.of_Z (-1)). split; [lia|]. split; [by right|]. by apply Hleft.
  - exists 0, (JS.of_Z 1). split; [lia|]. split; [by left|]. by apply Hright.
  - exists 1, (JS.of_Z (-1)). split; [lia|]. split; [by right|]. by apply Hfront.
  - exists 1, (JS.of_Z 1). split; [lia|]. split; [by left|]. by apply Hback.
Qed.

Lemma mesh_normals_unit_witness :
  ∃ k c, 0 ≤ k ≤ 2 ∧ (c = JS.of_Z 1 ∨ c = JS.of_Z (-1))
         ∧ along k c (normal (c01 1 (JS.of_Z 2) (JS.of_Z 3) 0 0,
                              c11 1 (JS.of_Z 2) (JS.of_Z 3) 0 0,
                              c10 1 (JS.of_Z 2) (JS.of_Z 3) 0 0)).
Proof.
  apply (mesh_normals_unit [1] 1 1 (JS.of_Z 2) (JS.of_Z 3)); try solve [lia | reflexivity].
  rewrite extrude_cells. apply list_elem_of_bind. exists (0, 0).
  split; [|apply list_elem_of_here]. apply list_elem_of_here.
Defined.
(** ** The range of the estimator *)

Lemma one_sf : Prim2SF (JS.of_Z 1) = S754_finite false (2 ^ 52) (-52).
Proof. reflexivity. Qed.

Lemma is_nan_sf x : PrimFloat.is_nan x = match Prim2SF x with S754_nan => true | _ => false end.
Proof.
  unfold PrimFloat.is_nan. rewrite FloatAxioms.eqb_spec. unfold SFeqb.
  destruct (Prim2SF x) as [s|s| |s m e]; cbn [SFcompare]; try by destruct s.
  - done.
  - rewrite Z.compare_refl, Pos.compare_cont_refl. by destruct s.
Qed.

(** [Math.max(1, y)] when [y] is below 1, and when it is at least 2^53. *)
Lemma Math_max_1_low y :
  (∃ s, Prim2SF y = S754_zero s) ∨ (∃ m e, Prim2SF y = S754_finite true m e)
  ∨ Prim2SF y = S754_infinity true →
  JS.Math_max (JS.of_Z 1) y = JS.of_Z 1.
Proof.
  intros Hy. unfold JS.Math_max. rewrite !is_nan_sf, !FloatAxioms.ltb_spec, one_sf.
  destruct Hy as [[s ->]|[(m & e & ->)| ->]]; cbn [orb SFltb SFcompare]; try done;
    try by destruct s.
Qed.

Lemma Math_max_1_high y :
  Prim2SF y = S754_infinity false ∨ (∃ m e, Prim2SF y = S754_finite false m e ∧ 1 ≤ e) →
  JS.Math_max (JS.of_Z 1) y = y.
Proof.
  intros Hy. unfold JS.Math_max. rewrite !is_nan_sf, !FloatAxioms.ltb_spec, one_sf.
  destruct Hy as [->|(m & e & -> & He)]; cbn [orb SFltb SFcompare]; [done|].
  by destruct (Z.compare_spec (-52) e); try lia.
Qed.

(** [Math.max(1, Math.floor(q))] of a number that is not [NaN]: a whole
    number of [1, 2^53), or plus infinity, or a finite number of at least
    2^53. *)
Lemma max_1_floor q :
  Prim2SF q ≠ S754_nan →
  (∃ D, 1 ≤ D < 2 ^ 53 ∧ JS.Math_max (JS.of_Z 1) (JS.Math_floor q) = JS.of_Z D)
  ∨ Prim2SF (JS.Math_max (JS.of_Z 1) (JS.Math_floor q)) = S754_infinity false
  ∨ ∃ m e, Prim2SF (JS.Math_max (JS.of_Z 1) (JS.Math_floor q)) = S754_finite false m e
           ∧ 1 ≤ e.
Proof.
  intros Hnan. unfold JS.Math_floor.
  destruct (Prim2SF q) as [s|s| |s m e] eqn:Hq; [| |done|].
  - left. exists 1. split; [done|]. apply Math_max_1_low. left. by exists s.
  - destruct s.
    + left. exists 1. split; [done|]. apply Math_max_1_low. by right; right.
    + right. left. rewrite Math_max_1_high by (by left). done.
  - pose proof (valid_mantissa q _ _ _ Hq) as Hm.
    destruct (Z.leb_spec 0 e) as [He|He].
    + destruct s.
      * left. exists 1. split; [done|]. apply Math_max_1_low. right; left. by exists m, e.
      * destruct (Z.eq_dec e 0) as [->|Hne].
        -- left. destruct (finite_whole q m Hq) as [-> Hr].
           exists (Z.pos m). split; [lia|]. rewrite Math_max_1_of_Z by lia. f_equal. lia.
        -- right. right. rewrite Math_max_1_high by (right; exists m, e; split; [done|lia]).
           exists m, e. split; [done|lia].
    + pose proof (pow2_pos (- e) ltac:(lia)) as Hpos.
      left. destruct s; unfold JS.signed.
      * exists 1. split; [done|].
        assert (Z.neg m / 2 ^ (- e) < 0) as Hr.
        { apply Z.div_lt_upper_bound; [lia|]. rewrite Z.mul_0_r. lia. }
        assert (- 2 ^ 53 < Z.neg m / 2 ^ (- e)) as Hr'.
        { assert (Z.neg m ≤ Z.neg m / 2 ^ (- e)); [|lia].
          apply Z.div_le_lower_bound; [lia|]. nia. }
        destruct (Z.neg m / 2 ^ (- e)) as [|p|p] eqn:Hdiv; [lia|lia|].
        assert (Z.pos p < 2 ^ 53) as Hp by lia.
        destruct (int_sf_form p Hp) as (m' & e' & Hp' & _).
        apply Math_max_1_low. right; left. exists m', e'.
        assert (JS.of_Z (Z.neg p) = PrimFloat.opp (JS.of_Z (Z.pos p))) as -> by reflexivity.
        rewrite opp_spec, prim_of_Z_pos by done. by rewrite Hp'.
      * assert (0 ≤ Z.pos m / 2 ^ (- e) < 2 ^ 53) as Hr.
        { split; [apply Z.div_pos; lia|].
          apply Z.div_lt_upper_bound; [lia|]. nia. }
        exists (Z.max 1 (Z.pos m / 2 ^ (- e))). split; [lia|].
        by rewrite Math_max_1_of_Z.
Qed.
(** Rounding never makes a [NaN]. *)
Lemma binary_round_aux_not_nan s T e l :
  0 ≤ T → binary_round_aux prec emax s T e l ≠ S754_nan.
Proof.
  intros HT. destruct (binary_round_aux_value s T e l HT) as (m3 & e3 & _ & _ & Hm3 & ->).
  pose proof (pow2_pos 0 ltac:(lia)).
  assert (0 ≤ m3).
  { destruct (Z_le_gt_dec 0 (e3 - e)) as [Hk|Hk].
    - pose proof (pow2_pos (e3 - e) Hk). assert (0 ≤ T / 2 ^ (e3 - e)) by (apply Z.div_pos; lia). lia.
    - rewrite Z.pow_neg_r in Hm3 by lia. rewrite Z.div_0_r in Hm3. lia. }
  destruct m3 as [|p|p]; [done| |lia]. by destruct (e3 <=? emax - prec).
Qed.

Lemma SFmul_not_nan x s m e :
  x ≠ S754_nan → SFmul prec emax x (S754_finite s m e) ≠ S754_nan.
Proof.
  intros Hx. destruct x as [sx|sx| |sx mx ex]; cbn [SFmul]; try done.
  by apply binary_round_aux_not_nan.
Qed.

Lemma SFsub_not_nan x s m e :
  x ≠ S754_nan → SFsub prec emax x (S754_finite s m e) ≠ S754_nan.
Proof.
  intros Hx. destruct x as [sx|sx| |sx mx ex]; cbn [SFsub]; try done.
  set (ez := Z.min ex e).
  destruct (cond_Zopp sx (Z.pos (shl_align mx ex ez).1)
            - cond_Zopp s (Z.pos (shl_align m e ez).1)) as [|p|p];
    cbn [binary_normalize]; [done| |].
  - unfold binary_round. destruct (shl_align p ez _) as [mz ez'].
    by apply binary_round_aux_not_nan.
  - unfold binary_round. destruct (shl_align p ez _) as [mz ez'].
    by apply binary_round_aux_not_nan.
Qed.

Lemma SFdiv_not_nan x s m e :
  x ≠ S754_nan → SFdiv prec emax x (S754_finite s m e) ≠ S754_nan.
Proof.
  intros Hx. destruct x as [sx|sx| |sx mx ex]; cbn [SFdiv]; try done.
  unfold SFdiv_core_binary.
  set (e' := Z.min _ _). set (m' := match ex - e - e' with Z.pos _ => _ | _ => _ end).
  assert (0 ≤ m') as Hm'.
  { unfold m'. destruct (ex - e - e') as [|p|p]; [lia| |lia].
    rewrite Z.shiftl_mul_pow2 by lia. pose proof (pow2_pos (Z.pos p) ltac:(lia)). nia. }
  pose proof (Z.div_pos m' (Z.pos m) Hm' ltac:(lia)) as Hq. unfold Z.div in Hq.
  destruct (Z.div_eucl m' (Z.pos m)) as [q r]. cbn [fst] in Hq.
  by apply binary_round_aux_not_nan.
Qed.

(** The estimate of the triangles of the original mask. *)
Lemma estimate_of_count count :
  0 ≤ count → count * 6 < 2 ^ 53 →
  JS.Math_max (JS.of_Z 1) (JS.Math_floor (JS.of_Z (count * 6)))
  = JS.of_Z (Z.max 1 (count * 6)).
Proof.
  intros Hc Hlt. destruct (of_Z_facts (count * 6) ltac:(lia)) as (_ & _ & _ & _ & ->).
  apply Math_max_1_of_Z. lia.
Qed.

(** A whole number below 2^53 is not above plus infinity nor above a
    finite number with a positive exponent. *)
Lemma leb_of_Z_high E y :
  1 ≤ E < 2 ^ 53 →
  Prim2SF y = S754_infinity false ∨ (∃ m e, Prim2SF y = S754_finite false m e ∧ 1 ≤ e) →
  PrimFloat.leb (JS.of_Z E) y = true.
Proof.
  intros HE Hy. rewrite FloatAxioms.leb_spec, prim_of_Z by lia.
  destruct E as [|p|p]; [lia| |lia]. cbn [nat_sf].
  destruct (int_sf_form p ltac:(lia)) as (m' & e' & -> & _ & He' & _).
  destruct Hy as [->|(m & e & -> & He)]; [done|].
  unfold SFleb. cbn [SFcompare]. by destruct (Z.compare_spec e' e); try lia.
Qed.

(** The ratio under the square root: a normal number of [1e-6, 1]. *)
Lemma ratio_shape D E :
  1 ≤ D → D < E → E < 2 ^ 53 →
  ∃ m e,
    Prim2SF (JS.Math_max min_ratio (PrimFloat.div (JS.of_Z D) (JS.of_Z E)))
    = S754_finite false m e
    ∧ 2 ^ 52 ≤ Z.pos m < 2 ^ 53 ∧ -72 ≤ e ≤ -52 ∧ Z.pos m ≤ 2 ^ (- e).
Proof.
  intros HD HDE HE.
  assert (2 ^ 26 > 0) as H26 by done.
  destruct (div_of_Z_bounds D E ltac:(lia) ltac:(lia) ltac:(nia))
    as (mq & eq & Hq & Heq & Hmq & [Hlo Hhi] & _).
  pose proof (pow2_pos (- eq) ltac:(lia)) as Hp.
  assert (Z.pos mq ≤ 2 ^ (- eq)) as Hle.
  { assert ((Z.pos mq - 1) * E < 2 ^ (- eq) * E) as Hlt by nia.
    assert (Z.pos mq - 1 < 2 ^ (- eq)); [|lia].
    apply (Z.mul_lt_mono_pos_r E); [lia|exact Hlt]. }
  assert (eq ≤ -52) as Heq52.
  { destruct (Z_le_gt_dec eq (-52)) as [|Hgt]; [done|]. exfalso.
    assert (2 ^ (- eq) ≤ 2 ^ 51) by (apply pow2_le; lia).
    change (2 ^ 52) with 4503599627370496 in Hmq. change (2 ^ 51) with 2251799813685248 in *.
    lia. }
  assert (Prim2SF min_ratio = S754_finite false 4722366482869645 (-72)) as Hmin by reflexivity.
  unfold JS.Math_max. rewrite !is_nan_sf, !FloatAxioms.ltb_spec, Hq, Hmin. cbn [orb].
  unfold SFltb. rewrite !SFcompare_lex.
  destruct (lex_compare (-72) 4722366482869645 eq mq) eqn:Hc1.
  - destruct (lex_compare eq mq (-72) 4722366482869645) eqn:Hc2.
    + change (PrimFloat.get_sign min_ratio) with false. cbv iota.
      exists 4722366482869645%positive, (-72). by rewrite Hmin.
    + exists 4722366482869645%positive, (-72). by rewrite Hmin.
    + change (PrimFloat.get_sign min_ratio) with false. cbv iota.
      exists 4722366482869645%positive, (-72). by rewrite Hmin.
  - exists mq, eq. rewrite Hq. split; [done|]. split; [done|]. split; [|done].
    split; [|done]. unfold lex_compare in Hc1.
    destruct (Z.compare_spec (-72) eq); [lia|lia|done].
  - destruct (lex_compare eq mq (-72) 4722366482869645) eqn:Hc2.
    + change (PrimFloat.get_sign min_ratio) with false. cbv iota.
      exists 4722366482869645%positive, (-72). by rewrite Hmin.
    + exists 4722366482869645%positive, (-72). by rewrite Hmin.
    + change (PrimFloat.get_sign min_ratio) with false. cbv iota.
      exists 4722366482869645%positive, (-72). by rewrite Hmin.
Qed.
(** The square root of a normal number of [1e-6, 1]: at most one unit of
    the last place above 1. *)
Lemma sqrt_shape m e :
  2 ^ 52 ≤ Z.pos m < 2 ^ 53 → -72 ≤ e ≤ -52 → Z.pos m ≤ 2 ^ (- e) →
  ∃ m3 e3 g,
    SFsqrt prec emax (S754_finite false m e) = S754_finite false m3 e3
    ∧ 52 ≤ g ≤ 62 ∧ 0 ≤ e3 + g ≤ 1 ∧ Z.pos m3 * 2 ^ (e3 + g) ≤ 2 ^ g + 2.
Proof.
  intros Hm He Hle.
  set (d := if Z.even e then 52 else 53).
  set (e' := (e - d) / 2).
  assert (e = e' + e' + d ∧ 52 ≤ d ≤ 53) as [Hsplit Hd].
  { unfold e', d. destruct (Z.even e) eqn:Hev.
    - apply Z.even_spec in Hev as [k ->].
      replace ((2 * k - 52) / 2) with (k - 26) by (apply (Z.div_unique _ _ _ 0); lia). lia.
    - assert (Z.odd e = true) as Hodd by (rewrite <- Z.negb_even, Hev; done).
      apply Z.odd_spec in Hodd as [k ->].
      replace ((2 * k + 1 - 53) / 2) with (k - 26) by (apply (Z.div_unique _ _ _ 0); lia). lia. }
  set (g := - e').
  assert (52 ≤ g ≤ 62) as Hg by (unfold g; lia).
  cbn [SFsqrt].
  replace (SFsqrt_core_binary prec emax (Z.pos m) e)
    with (SFsqrt_core_binary prec emax (Z.pos m) (e' + e' + d)) by (by rewrite <- Hsplit).
  rewrite (sqrt_core m e' d Hm Hd ltac:(lia)). cbv zeta.
  set (V := Z.pos m * 2 ^ d).
  pose proof (pow2_pos d ltac:(lia)) as Hpd.
  pose proof (pow2_pos g ltac:(lia)) as Hpg.
  assert (2 ^ 104 ≤ V) as HVlo.
  { unfold V. assert (2 ^ 52 ≤ 2 ^ d) by (apply pow2_le; lia).
    change (2 ^ 104) with (2 ^ 52 * 2 ^ 52). nia. }
  assert (V ≤ 2 ^ g * 2 ^ g) as HVhi.
  { unfold V. rewrite <- pow2_split by lia.
    replace (g + g) with (- e + d) by (unfold g; lia).
    rewrite pow2_split by lia. nia. }
  pose proof (Z.sqrtrem_spec V ltac:(lia)) as Hs.
  destruct (Z.sqrtrem V) as [q r]. cbn [fst snd]. destruct Hs as [Hs Hr].
  assert (2 ^ 52 ≤ q ≤ 2 ^ g) as Hq.
  { change (2 ^ 104) with (4503599627370496 * 4503599627370496) in HVlo.
    change (2 ^ 52) with 4503599627370496. split; nia. }
  set (l := if r =? 0 then loc_Exact else loc_Inexact (if r <=? q then Lt else Gt)).
  destruct (binary_round_aux_value false q e' l ltac:(lia))
    as (m3 & e3 & He3 & He3' & Hm3 & ->).
  assert (q < 2 ^ 53) as Hq53.
  { assert (V < 2 ^ 106) as HV106.
    { unfold V. assert (2 ^ d ≤ 2 ^ 53) by (apply pow2_le; lia).
      change (2 ^ 106) with (2 ^ 53 * 2 ^ 53). nia. }
    change (2 ^ 106) with (9007199254740992 * 9007199254740992) in HV106.
    change (2 ^ 53) with 9007199254740992. nia. }
  pose proof (Zdigits2_bound q 53 ltac:(lia) ltac:(lia)) as Hdq.
  set (j := e3 - e') in *.
  assert (0 ≤ j ≤ 1) as Hj
    by (unfold fexp, SpecFloat.emin, prec, emax in He3'; unfold j; lia).
  pose proof (pow2_pos j ltac:(lia)) as Hpj.
  assert (2 ^ j ≤ 2 ^ 1) as Hj1 by (apply pow2_le; lia).
  change (2 ^ 1) with 2 in Hj1.
  pose proof (Z.mul_div_le q (2 ^ j) ltac:(lia)) as Hfloor.
  pose proof (Z.mod_pos_bound q (2 ^ j) ltac:(lia)) as Hmod.
  pose proof (Z.div_mod q (2 ^ j) ltac:(lia)) as Hdiv.
  assert (2 ^ 51 ≤ q / 2 ^ j) as Hbig.
  { apply Z.div_le_lower_bound; [lia|].
    change (2 ^ 52) with (2 * 2 ^ 51) in Hq. nia. }
  destruct m3 as [|p3|p3]; [change (2 ^ 51) with 2251799813685248 in Hbig; lia| |lia].
  replace (e3 <=? emax - prec) with true
    by (symmetry; apply Z.leb_le; unfold emax, prec, j in *; lia).
  exists p3, e3, g. split; [done|]. split; [done|].
  replace (e3 + g) with j by (unfold j, g; lia).
  split; [done|]. nia.
Qed.

(** The longer side times a factor of at most one unit of the last place
    above 1, floored: a whole number up to the longer side. *)
Lemma product_floor mx ls m3 e3 g :
  1 ≤ mx < 2 ^ 26 → Prim2SF ls = S754_finite false m3 e3 →
  52 ≤ g ≤ 62 → 0 ≤ e3 + g ≤ 1 → Z.pos m3 * 2 ^ (e3 + g) ≤ 2 ^ g + 2 →
  ∃ M, 1 ≤ M ≤ mx
       ∧ JS.Math_max (JS.of_Z 1) (JS.Math_floor (PrimFloat.mul (JS.of_Z mx) ls)) = JS.of_Z M.
Proof.
  intros Hmx Hls Hg Hj Hval.
  assert (2 ^ 26 < 2 ^ 53) as H2653 by done.
  set (p := PrimFloat.mul (JS.of_Z mx) ls).
  assert (Prim2SF p = SF64mul (Prim2SF (JS.of_Z mx)) (Prim2SF ls)) as Hp by apply mul_spec.
  rewrite prim_of_Z, Hls in Hp by lia.
  destruct mx as [|px|px]; [lia| |lia]. cbn [nat_sf] in Hp.
  destruct (int_sf_shape px ltac:(lia)) as (mmx & kx & Hsf & Hkx & Hvx & Hrx & _).
  rewrite Hsf in Hp. unfold SF64mul in Hp. cbn [SFmul xorb] in Hp.
  pose proof (pow2_pos kx ltac:(lia)) as Hpk.
  assert (27 ≤ kx) as Hkx27.
  { destruct (Z_le_gt_dec 27 kx) as [|Hlt]; [done|]. exfalso.
    assert (2 ^ kx ≤ 2 ^ 26) as Hle by (apply pow2_le; lia).
    change (2 ^ 26) with 67108864 in *. change (2 ^ 52) with (67108864 * 67108864) in Hrx.
    nia. }
  set (j := e3 + g) in *.
  pose proof (pow2_pos j ltac:(lia)) as Hpj.
  pose proof (pow2_pos g ltac:(lia)) as Hpg.
  assert (Z.pos m3 ≤ 2 ^ g + 2) as Hm3 by nia.
  assert (2 ^ g ≤ 2 ^ 62) as Hg62 by (apply pow2_le; lia).
  set (T := Z.pos (mmx * m3)) in *.
  assert (T = Z.pos mmx * Z.pos m3) as HT by (unfold T; lia).
  assert (0 ≤ T < 2 ^ 116) as HTr.
  { rewrite HT. change (2 ^ 116) with (2 ^ 53 * 2 ^ 63).
    change (2 ^ 62) with 4611686018427387904 in Hg62.
    change (2 ^ 63) with 9223372036854775808. change (2 ^ 53) with 9007199254740992 in *.
    nia. }
  set (e0 := - kx + e3) in *.
  destruct (binary_round_aux_value false T e0 loc_Exact ltac:(lia))
    as (m4 & e4 & He4 & He4' & Hm4 & Hround).
  rewrite Hround in Hp. clear Hround.
  pose proof (Zdigits2_bound T 116 ltac:(lia) HTr) as HdT.
  assert (e4 - e0 ≤ 64) as Hk
    by (unfold fexp, SpecFloat.emin, prec, emax in He4'; unfold e0, j in *; lia).
  set (k := e4 - e0) in *.
  pose proof (pow2_pos k ltac:(lia)) as Hpk'.
  assert (2 ^ k ≤ 2 ^ 64) as H2k by (apply pow2_le; lia).
  pose proof (Z.mul_div_le T (2 ^ k) ltac:(lia)) as Hfloor.
  assert (e4 < 0) as He4neg by (unfold k, e0, j in *; lia).
  assert (m4 * 2 ^ k ≤ T + 2 ^ k) as Hm4' by nia.
  (* m4 < (mx + 1) * 2^(-e4) *)
  assert (2 ^ (- e4) * 2 ^ k * 2 ^ j = 2 ^ kx * 2 ^ g) as Hunits.
  { rewrite <- !pow2_split by lia. f_equal. unfold k, e0, j. lia. }
  assert (2 ^ 79 ≤ 2 ^ kx * 2 ^ g) as Hbig.
  { rewrite <- pow2_split by lia. apply pow2_le. lia. }
  pose proof (pow2_pos (- e4) ltac:(lia)) as Hpe4.
  assert (m4 < (Z.pos px + 1) * 2 ^ (- e4)) as Hlt.
  { assert (m4 * (2 ^ k * 2 ^ j) < (Z.pos px + 1) * 2 ^ (- e4) * (2 ^ k * 2 ^ j)) as Hs.
    { replace ((Z.pos px + 1) * 2 ^ (- e4) * (2 ^ k * 2 ^ j))
        with ((Z.pos px + 1) * (2 ^ (- e4) * 2 ^ k * 2 ^ j)) by ring.
      rewrite Hunits.
      assert (m4 * 2 ^ k * 2 ^ j ≤ (T + 2 ^ k) * 2 ^ j) as H1
        by (apply Z.mul_le_mono_nonneg_r; lia).
      assert (T * 2 ^ j ≤ Z.pos mmx * (2 ^ g + 2)) as H2.
      { rewrite HT, <- Z.mul_assoc. apply Z.mul_le_mono_nonneg_l; lia. }
      assert (2 ^ k * 2 ^ j ≤ 2 ^ 65) as H3.
      { rewrite <- pow2_split by lia. apply pow2_le. lia. }
      rewrite Hvx in H2.
      change (2 ^ 79) with 604462909807314587353088 in Hbig.
      change (2 ^ 65) with 36893488147419103232 in H3.
      change (2 ^ 53) with 9007199254740992 in Hrx. rewrite Hvx in Hrx.
      set (A := 2 ^ kx * 2 ^ g) in *. set (B := 2 ^ k * 2 ^ j) in *.
      assert (Z.pos px * 2 ^ kx * (2 ^ g + 2) = Z.pos px * A + 2 * (Z.pos px * 2 ^ kx)) as H4
        by (unfold A; ring).
      lia. }
    assert (0 < 2 ^ k * 2 ^ j) as Hpos by nia.
    apply (Z.mul_lt_mono_pos_r (2 ^ k * 2 ^ j)); [exact Hpos|exact Hs]. }
  fold p. unfold JS.Math_floor. 
  destruct m4 as [|p4|p4].
  - rewrite Hp. exists 1. split; [lia|]. apply Math_max_1_low. left. by exists false.
  - replace (e4 <=? emax - prec) with true in Hp
      by (symmetry; apply Z.leb_le; unfold emax, prec; lia).
    rewrite Hp. replace (0 <=? e4) with false by (symmetry; apply Z.leb_gt; lia).
    cbn [JS.signed].
    assert (0 ≤ Z.pos p4 / 2 ^ (- e4) ≤ Z.pos px) as Hr.
    { split; [apply Z.div_pos; lia|].
      assert (Z.pos p4 / 2 ^ (- e4) < Z.pos px + 1); [|lia].
      apply Z.div_lt_upper_bound; [lia|]. lia. }
    exists (Z.max 1 (Z.pos p4 / 2 ^ (- e4))). split; [lia|].
    apply Math_max_1_of_Z. lia.
  - pose proof (Z.div_pos T (2 ^ k) ltac:(lia) ltac:(lia)). lia.
Qed.
Lemma of_Z_finite z :
  1 ≤ z < 2 ^ 53 → ∃ m e, Prim2SF (JS.of_Z z) = S754_finite false m e.
Proof.
  intros Hz. destruct z as [|p|p]; [lia| |lia].
  rewrite prim_of_Z_pos by lia.
  destruct (int_sf_form p ltac:(lia)) as (m & e & -> & _). by exists m, e.
Qed.

(** The budget computed from a count of at most 2^53 / 6 cells and a byte
    target that is a number: a whole number from 1 to the longer side. *)
Lemma budget_range tb count W H :
  Prim2SF tb ≠ S754_nan → 0 ≤ count → count * 6 < 2 ^ 53 →
  1 ≤ Z.max W H < 2 ^ 26 →
  ∃ M, 1 ≤ M ≤ Z.max W H ∧ budget_from_count tb count W H = JS.of_Z M.
Proof.
  intros Htb Hc Hc6 Hmx. unfold budget_from_count. cbv zeta.
  rewrite estimate_of_count by done.
  set (E := Z.max 1 (count * 6)).
  set (tB := JS.Math_max (JS.of_Z 1) (JS.Math_floor tb)).
  assert (Prim2SF tB ≠ S754_nan) as HtB.
  { unfold tB.
    destruct (max_1_floor tb Htb) as [(D & HD & HeqD)|[Hinf|(m & e & Hfin & _)]].
    - rewrite HeqD. destruct (of_Z_finite D HD) as (m & e & ->). congruence.
    - rewrite Hinf. congruence.
    - rewrite Hfin. congruence. }
  set (q := PrimFloat.div (PrimFloat.sub tB (JS.of_Z 84)) (JS.of_Z 50)).
  assert (Prim2SF q ≠ S754_nan) as Hq.
  { unfold q. rewrite div_spec, sub_spec.
    destruct (of_Z_finite 84 ltac:(lia)) as (m84 & e84 & ->).
    destruct (of_Z_finite 50 ltac:(lia)) as (m50 & e50 & ->).
    apply SFdiv_not_nan, SFsub_not_nan, HtB. }
  destruct (max_1_floor q Hq) as [(D & HD & HeqD)|Hhigh].
  - rewrite HeqD, leb_of_Z by (unfold E; lia).
    destruct (Z.leb_spec E D) as [Hle|Hlt].
    + exists (Z.max W H). split; [lia|reflexivity].
    + destruct (ratio_shape D E ltac:(lia) Hlt ltac:(unfold E; lia))
        as (m & e & Hr & Hm & He & Hme).
      unfold JS.Math_sqrt.
      set (ls := PrimFloat.sqrt _).
      assert (Prim2SF ls = SFsqrt prec emax (S754_finite false m e)) as Hls
        by (unfold ls; rewrite sqrt_spec, Hr; reflexivity).
      destruct (sqrt_shape m e Hm He Hme) as (m3 & e3 & g & Hs & Hg & Hj & Hval).
      rewrite Hs in Hls.
      exact (product_floor (Z.max W H) ls m3 e3 g Hmx Hls Hg Hj Hval).
  - rewrite leb_of_Z_high by (done || (unfold E; lia)).
    exists (Z.max W H). split; [lia|reflexivity].
Qed.

Lemma mb_to_bytes_not_nan t :
  PrimFloat.is_nan t = false → Prim2SF (mb_to_bytes t) ≠ S754_nan.
Proof.
  intros Ht. unfold mb_to_bytes. rewrite !mul_spec.
  destruct (of_Z_finite 1024 ltac:(lia)) as (m & e & ->).
  apply SFmul_not_nan, SFmul_not_nan.
  rewrite is_nan_sf in Ht. by destruct (Prim2SF t).
Qed.

Lemma count_black_range data W H T :
  0 ≤ W → 0 ≤ H → 0 ≤ count_black data W H T ≤ W * H.
Proof.
  intros HW HH. rewrite count_black_mask by done.
  pose proof (foreground_count_range (createMask data W H T)) as Hr.
  rewrite createMask_fill in Hr.
  destruct (fill_spec W H (λ x y, cell_of (channels data ((y * W + x) * 4)) T) HW HH)
    as [Hl _].
  rewrite createMask_fill. rewrite Hl in Hr. lia.
Qed.

Lemma estimate_range data W H T target_mb :
  1 ≤ W < 2 ^ 25 → 1 ≤ H < 2 ^ 25 →
  PrimFloat.is_nan target_mb = false →
  ∃ M, 1 ≤ M ≤ Z.max W H
       ∧ estimateMaxPxFromTargetMB data W H T target_mb = JS.of_Z M
       ∧ generate_estimate data W H T target_mb = JS.of_Z M.
Proof.
  intros HW HH Ht.
  pose proof (count_black_range data W H T ltac:(lia) ltac:(lia)) as Hc.
  assert (W * H < 2 ^ 25 * 2 ^ 25) as Hwh by nia.
  destruct (budget_range (mb_to_bytes target_mb) (count_black data W H T) W H)
    as (M & HM & Heq).
  - by apply mb_to_bytes_not_nan.
  - lia.
  - change (2 ^ 25 * 2 ^ 25) with (2 ^ 50) in Hwh.
    change (2 ^ 53) with (8 * 2 ^ 50). lia.
  - assert (2 ^ 25 < 2 ^ 26) by done. lia.
  - exists M. split; [done|]. split; exact Heq.
Qed.

(** X22: for an image with sides below 2^25 and a target size that is a
    number (negative, zero and infinite included), the estimator, in the
    browser and inlined in [generate], returns a whole number from 1 to the
    longer side of the image. *)
Theorem estimate_in_range data W H T target_mb :
  1 ≤ W < 2 ^ 25 → 1 ≤ H < 2 ^ 25 →
  PrimFloat.is_nan target_mb = false →
  ∃ M, 1 ≤ M ≤ Z.max W H
       ∧ estimateMaxPxFromTargetMB data W H T target_mb = JS.of_Z M
       ∧ generate_estimate data W H T target_mb = JS.of_Z M.
Proof. apply estimate_range. Qed.

Lemma estimate_in_range_witness :
  ∃ M, 1 ≤ M ≤ Z.max 4 8
       ∧ estimateMaxPxFromTargetMB (replicate 128 100) 4 8 (JS.of_Z 128) 0x1p-10%float
         = JS.of_Z M
       ∧ generate_estimate (replicate 128 100) 4 8 (JS.of_Z 128) 0x1p-10%float
         = JS.of_Z M.
Proof. apply estimate_in_range; [lia|lia|reflexivity]. Defined.

(** ** Resampler: dimensions and cells of the reduced mask *)

(** The four bytes of a pixel that the source reads one by one. *)
Lemma rgba_channels data W x y r g b a :
  0 ≤ y * W + x →
  channels data ((y * W + x) * 4) = (Some r, Some g, Some b, Some a) →
  rgba data W x y = [r; g; b; a].
Proof.
  intros Hi Hch. unfold channels, JS.get in Hch.
  replace ((y * W + x) * 4 <? 0) with false in Hch by (symmetry; apply Z.ltb_ge; lia).
  replace ((y * W + x) * 4 + 1 <? 0) with false in Hch by (symmetry; apply Z.ltb_ge; lia).
  replace ((y * W + x) * 4 + 2 <? 0) with false in Hch by (symmetry; apply Z.ltb_ge; lia).
  replace ((y * W + x) * 4 + 3 <? 0) with false in Hch by (symmetry; apply Z.ltb_ge; lia).
  injection Hch as Hr Hg Hb Ha.
  unfold rgba. set (n := Z.to_nat (4 * (y * W + x))).
  replace (Z.to_nat ((y * W + x) * 4)) with n in Hr by lia.
  replace (Z.to_nat ((y * W + x) * 4 + 1)) with (S n) in Hg by lia.
  replace (Z.to_nat ((y * W + x) * 4 + 2)) with (S (S n)) in Hb by lia.
  replace (Z.to_nat ((y * W + x) * 4 + 3)) with (S (S (S n))) in Ha by lia.
  rewrite (drop_S _ _ _ Hr), (drop_S _ _ _ Hg), (drop_S _ _ _ Hb), (drop_S _ _ _ Ha).
  reflexivity.
Qed.

(** On a well-formed buffer the cell the source computes for the pixel at
    [(x, y)] is the thresholded gray value of its four bytes. *)
Lemma cell_of_thresholded data W H T x y :
  Z.of_nat (length data) = 4 * W * H → Forall is_byte data → 0 ≤ T < 2 ^ 53 →
  0 ≤ x < W → 0 ≤ y < H →
  thresholded data W x y T
  = Some (cell_of (channels data ((y * W + x) * 4)) (JS.of_Z T)).
Proof.
  intros Hlen Hb HT Hx Hy.
  destruct (channels_in_range data W H x y Hlen Hb Hx Hy)
    as (r & g & b & a & Hch & Hr & Hg & Hbb & Ha).
  unfold thresholded. rewrite (rgba_channels data W x y r g b a ltac:(nia) Hch).
  by rewrite Hch, cell_of_spec.
Qed.

(** C7, as amended: in [generate], for an image of W × H pixels
    (1 ≤ W, H < 2^26) with a well-formed colour buffer, a whole threshold
    and a whole budget M ≥ 1: if max(W, H) ≤ M the full-resolution mask of
    the mask builder is used unchanged.  Otherwise a mask is built whose
    dimensions are the whole numbers newW = max(1, round(W · scaleRatio))
    and newH = max(1, round(H · scaleRatio)) with scaleRatio = M / max(W, H),
    the quotient and then the products being rounded to binary64 as the
    source computes them; they lie between 1 and M.  Cell (x2, y2) of that
    mask is the thresholded gray value of the four bytes of the colour
    buffer at the pixel srcX = min(W − 1, floor(x2 · W / newW)),
    srcY = min(H − 1, floor(y2 · H / newH)), these quotients being the exact
    ones: the colour buffer is sampled, not the full-resolution mask.  The
    browser's [downsampleImage] builds the same mask. *)
Theorem resampler_spec data W H T M :
  1 ≤ W < 2 ^ 26 → 1 ≤ H < 2 ^ 26 → 1 ≤ M < 2 ^ 53 → 0 ≤ T < 2 ^ 53 →
  Z.of_nat (length data) = 4 * W * H → Forall is_byte data →
  (Z.max W H ≤ M →
   generate_mask data W H (JS.of_Z T) (Some (JS.of_Z M))
   = Some (createMask data W H (JS.of_Z T), W, H))
  ∧ (M < Z.max W H →
     ∃ newW newH mask,
       1 ≤ newW ≤ M ∧ 1 ≤ newH ≤ M
       ∧ JS.to_int (JS.Math_max (JS.of_Z 1)
           (JS.Math_round (PrimFloat.mul (JS.of_Z W)
              (PrimFloat.div (JS.of_Z M) (JS.of_Z (Z.max W H)))))) = Some newW
       ∧ JS.to_int (JS.Math_max (JS.of_Z 1)
           (JS.Math_round (PrimFloat.mul (JS.of_Z H)
              (PrimFloat.div (JS.of_Z M) (JS.of_Z (Z.max W H)))))) = Some newH
       ∧ generate_mask data W H (JS.of_Z T) (Some (JS.of_Z M)) = Some (mask, newW, newH)
       ∧ downsampleImage data W H (JS.of_Z T) (JS.of_Z M) = Some (mask, newW, newH)
       ∧ Z.of_nat (length mask) = newW * newH
       ∧ ∀ x2 y2, 0 ≤ x2 < newW → 0 ≤ y2 < newH →
           let srcX := Z.min (W - 1) (x2 * W / newW) in
           let srcY := Z.min (H - 1) (y2 * H / newH) in
           ∃ r g b a,
             rgba data W srcX srcY = [r; g; b; a]
             ∧ JS.get mask (y2 * newW + x2) = Some (cell_spec (r, g, b, a) T)).
Proof.
  intros HW HH HM HT Hlen Hb.
  assert (2 ^ 26 < 2 ^ 53) as H2653 by done.
  destruct (whole_budget W H M ltac:(lia) ltac:(lia) HM) as [Hguard Hwhole].
  split.
  - intros Hle. unfold generate_mask. rewrite Hguard.
    replace (M <? Z.max W H) with false by (symmetry; apply Z.ltb_ge; lia).
    by rewrite generate_full_mask_createMask.
  - intros Hlt.
    destruct (resample_dims_bounded W H M HW HH ltac:(lia))
      as (newW & newH & Hdims & HnW & HnH & _).
    exists newW, newH, (resample_loops data W H (JS.of_Z T) newW newH).
    split; [done|]. split; [done|].
    assert (JS.to_int (resample_dims W H (JS.of_Z M)).1 = Some newW
            ∧ JS.to_int (resample_dims W H (JS.of_Z M)).2 = Some newH) as [HW' HH'].
    { unfold dims_int in Hdims.
      destruct (JS.to_int (resample_dims W H (JS.of_Z M)).1) as [w|]; [|done].
      destruct (JS.to_int (resample_dims W H (JS.of_Z M)).2) as [h|]; [|done].
      by injection Hdims as -> ->. }
    split; [exact HW'|]. split; [exact HH'|].
    split.
    { unfold generate_mask. rewrite Hguard.
      replace (M <? Z.max W H) with true by (symmetry; apply Z.ltb_lt; lia).
      by rewrite Hwhole, Hdims. }
    split.
    { unfold downsampleImage. by rewrite Hdims. }
    rewrite resample_loops_fill.
    destruct (fill_spec newW newH (λ x2 y2,
      cell_of (sample data W (src_coord x2 W newW) (src_coord y2 H newH)) (JS.of_Z T)))
      as [Hl Hc]; [lia|lia|].
    split; [rewrite Hl; nia|]. intros x2 y2 Hx Hy.
    destruct (src_coord_exact x2 W newW ltac:(lia) ltac:(lia) Hx) as [HsX HrX].
    destruct (src_coord_exact y2 H newH ltac:(lia) ltac:(lia) Hy) as [HsY HrY].
    cbv zeta. rewrite !Z.min_r by lia.
    rewrite (Hc x2 y2 Hx Hy). cbv beta. rewrite HsX, HsY. unfold sample.
    destruct (of_Z_facts (x2 * W / newW) ltac:(lia)) as (_ & _ & _ & -> & _).
    destruct (of_Z_facts (y2 * H / newH) ltac:(lia)) as (_ & _ & _ & -> & _).
    destruct (channels_in_range data W H _ _ Hlen Hb HrX HrY)
      as (r & g & b & a & Hch & Hr & Hg & Hbb & Ha).
    exists r, g, b, a. split.
    + apply rgba_channels; [nia | exact Hch].
    + by rewrite Hch, cell_of_spec.
Qed.

Lemma resampler_spec_witness :
  let data := replicate 968 40 in
  generate_mask data 11 22 (JS.of_Z 128) (Some (JS.of_Z 400))
  = Some (createMask data 11 22 (JS.of_Z 128), 11, 22)
  ∧ ∃ mask, generate_mask data 11 22 (JS.of_Z 128) (Some (JS.of_Z 15)) = Some (mask, 7, 15)
            ∧ Z.of_nat (length mask) = 105
            ∧ JS.get mask 0 = Some 1.
Proof.
  intros data.
  assert (Forall is_byte data) as Hb by (apply Forall_replicate; unfold is_byte; lia).
  split.
  - apply (proj1 (resampler_spec data 11 22 128 400
                    ltac:(lia) ltac:(lia) ltac:(lia) ltac:(lia) eq_refl Hb)). lia.
  - destruct (proj2 (resampler_spec data 11 22 128 15
                       ltac:(lia) ltac:(lia) ltac:(lia) ltac:(lia) eq_refl Hb) ltac:(lia))
      as (newW & newH & mask & _ & _ & HW' & HH' & Hgen & _ & Hlen & Hcell).
    assert (newW = 7) as -> by (vm_compute in HW'; congruence).
    assert (newH = 15) as -> by (vm_compute in HH'; congruence).
    exists mask. split; [exact Hgen|]. split; [exact Hlen|].
    destruct (Hcell 0 0 ltac:(lia) ltac:(lia)) as (r & g & b & a & Hpx & Hget).
    injection Hpx as <- <- <- <-. exact Hget.
Defined.

(** C7 does not hold as it is written: for an 11 × 22 image and a budget of
    15 the width max(1, round(11 · 15 / 22)) is 8, as 7.5 rounds up, but the
    mask that [generate] and [downsampleImage] build is 7 cells wide: the
    source rounds 15 / 22 to binary64 first, and 11 times that falls just
    below 7.5. *)
Lemma resampler_width_differs :
  spec_new_dims 11 22 15 = (8, 15)
  ∧ ∃ mask,
      generate_mask (replicate 968 40) 11 22 (JS.of_Z 128) (Some (JS.of_Z 15))
      = Some (mask, 7, 15)
      ∧ downsampleImage (replicate 968 40) 11 22 (JS.of_Z 128) (JS.of_Z 15)
        = Some (mask, 7, 15).
Proof.
  split; [reflexivity|].
  exists (resample_loops (replicate 968 40) 11 22 (JS.of_Z 128) 7 15).
  split; vm_compute; reflexivity.
Qed.
(** ** Exact subtraction of whole numbers *)

(** Rounding a whole number [n < 2^53] that is written as [n · 2^j] at the
    exponent [-j] gives the datum of [n]. *)
Lemma binary_round_whole s q n j m e :
  Z.pos q = Z.pos n * 2 ^ j → 0 ≤ j ≤ 52 → Z.pos n < 2 ^ 53 →
  int_sf n = S754_finite false m e →
  binary_round prec emax s q (- j) = S754_finite s m e.
Proof.
  intros Hq Hj Hn Hint.
  destruct (int_sf_form n Hn) as (m' & e' & Hint' & He & Her & Hm).
  rewrite Hint in Hint'. injection Hint' as <- <-.
  pose proof (bit_length n) as (Hd1 & Hlo & Hhi). cbv zeta in Hd1, Hlo, Hhi.
  rewrite <- (digits2_log2 n) in Hd1, Hlo, Hhi.
  set (dn := Z.pos (digits2_pos n)) in *.
  pose proof (pow2_pos j ltac:(lia)) as Hpj.
  pose proof (pow2_pos (- e) ltac:(lia)) as Hpe.
  assert (2 ^ 52 ≤ Z.pos m < 2 ^ 53) as Hm53.
  { rewrite Hm. replace 52 with ((dn - 1) + (- e)) by lia.
    replace 53 with (dn + (- e)) by lia. rewrite !pow2_split by lia. nia. }
  assert (Z.pos (digits2_pos q) = dn + j) as Hdq.
  { assert (dn + j - 1 + 1 ≤ Z.pos (digits2_pos q) ≤ dn + j); [|lia].
    apply digits_between; [lia|]. rewrite Hq.
    replace (dn + j - 1) with ((dn - 1) + j) by lia. rewrite !pow2_split by lia. nia. }
  unfold binary_round. rewrite Hdq.
  assert (fexp prec emax (dn + j + - j) = e) as ->
    by (unfold fexp, SpecFloat.emin, prec, emax; lia).
  destruct (Z_lt_le_dec 0 (e + j)) as [Hk|Hk].
  - (* the mantissa is shifted to the right by [e + j] bits, all zero *)
    assert (shl_align q (- j) e = (q, - j)) as ->.
    { unfold shl_align. destruct (e - - j) as [|d|d] eqn:Hd; [done|done|lia]. }
    set (k := e + j) in *.
    pose proof (pow2_pos k ltac:(lia)) as Hpk.
    assert (Z.pos q = Z.pos m * 2 ^ k) as Hqm.
    { rewrite Hq, Hm, <- Z.mul_assoc. f_equal. rewrite <- pow2_split by lia.
      f_equal. unfold k. lia. }
    destruct (round_nearest s (Z.pos q) (- j) k ltac:(lia)) as
      (m3 & e3 & N & Hr & Hm3 & He3 & Hval & Hup & Hdn); [| lia | lia |].
    { rewrite Hqm, !pow2_split by lia. nia. }
    rewrite Hr. rewrite Hqm in Hup, Hdn.
    assert (N = Z.pos m) as -> by nia.
    destruct (Z.eq_dec e3 (- j + k)) as [->|Hne].
    + replace (- j + k - - j) with k in Hval by lia.
      assert (Z.pos m3 = Z.pos m) as Heq by nia.
      injection Heq as ->. f_equal. unfold k. lia.
    + exfalso. replace (e3 - - j) with (k + 1) in Hval by lia.
      rewrite pow2_split in Hval by lia. change (2 ^ 1) with 2 in Hval.
      change (2 ^ 52) with 4503599627370496 in *.
      change (2 ^ 53) with 9007199254740992 in *. nia.
  - (* the mantissa is shifted to the left, to 53 bits *)
    assert (∃ mz, shl_align q (- j) e = (mz, e) ∧ Z.pos mz = Z.pos m) as (mz & -> & Hmz).
    { pose proof (shl_align_value q (- j) e ltac:(lia)) as Hv.
      unfold shl_align in *. destruct (e - - j) as [|d|d] eqn:Hd.
      - exists q. split; [f_equal; lia|]. rewrite Hq, Hm. f_equal. f_equal. lia.
      - lia.
      - eexists. split; [reflexivity|]. cbn [fst] in Hv. rewrite Hv, Hq, Hm.
        rewrite <- Z.mul_assoc. f_equal. rewrite <- pow2_split by lia. f_equal. lia. }
    destruct (round_aux_canonical s (Z.pos mz) e ltac:(lia) ltac:(lia)) as (p & Hp & ->).
    injection Hp as <-. by injection Hmz as ->.
Qed.

(** The difference of two whole numbers of [1, 2^53), the greater first, is
    computed exactly. *)
Lemma sub_of_Z a b :
  1 ≤ b → b ≤ a → a < 2 ^ 53 →
  PrimFloat.sub (JS.of_Z a) (JS.of_Z b) = JS.of_Z (a - b).
Proof.
  intros Hb Hab Ha. apply Prim2SF_inj.
  rewrite sub_spec, !prim_of_Z by lia.
  destruct a as [|pa|pa]; [lia| |lia]. destruct b as [|pb|pb]; [lia| |lia].
  cbn [nat_sf].
  destruct (int_sf_form pa ltac:(lia)) as (ma & ea & Hia & Hea & Hera & Hma).
  destruct (int_sf_form pb ltac:(lia)) as (mb & eb & Hib & Heb & Herb & Hmb).
  rewrite Hia, Hib. unfold SF64sub. cbn [SFsub cond_Zopp].
  set (ez := Z.min ea eb).
  rewrite !shl_align_value by (unfold ez; lia).
  pose proof (pow2_pos (- ez) ltac:(unfold ez; lia)) as Hpz.
  assert (Z.pos ma * 2 ^ (ea - ez) - Z.pos mb * 2 ^ (eb - ez)
          = (Z.pos pa - Z.pos pb) * 2 ^ (- ez)) as ->.
  { rewrite Hma, Hmb, <- !Z.mul_assoc, <- !pow2_split by (unfold ez; lia).
    replace (- ea + (ea - ez)) with (- ez) by lia.
    replace (- eb + (eb - ez)) with (- ez) by lia. ring. }
  destruct (Z.pos pa - Z.pos pb) as [|pn|pn] eqn:Hn; [reflexivity| |lia].
  destruct (Z.pos pn * 2 ^ (- ez)) as [|q|q] eqn:Hq; [lia| |lia].
  cbn [binary_normalize nat_sf].
  destruct (int_sf_form pn ltac:(lia)) as (mn & en & Hin & _).
  rewrite Hin. replace ez with (- - ez) at 1 by lia.
  apply (binary_round_whole false q pn (- ez) mn en);
    [by rewrite Hq | unfold ez; lia | lia | exact Hin].
Qed.
(** ** The estimator on whole numbers *)

(** A target below the size of an empty file asks for one triangle:
    checked on each of the 83 sizes. *)
Lemma desired_one_table : forallb desired_one_ok (seqZ 1 83) = true.
Proof. vm_cast_no_check (eq_refl true). Qed.

(** [Math.max(1, Math.floor((targetBytes - 84) / 50))] on a whole number of
    bytes below 2^31: the whole quotient, or 1. *)
Lemma desired_whole B :
  1 ≤ B < 2 ^ 31 →
  JS.Math_max (JS.of_Z 1)
    (JS.Math_floor (PrimFloat.div (PrimFloat.sub (JS.of_Z B) (JS.of_Z 84)) (JS.of_Z 50)))
  = JS.of_Z (Z.max 1 ((B - 84) / 50)).
Proof.
  intros HB. assert (2 ^ 31 < 2 ^ 53) as H3153 by done.
  destruct (Z_lt_le_dec B 84) as [Hs|Hs].
  - assert ((B - 84) / 50 < 0) as Hneg
      by (apply Z.div_lt_upper_bound; lia).
    rewrite Z.max_l by lia.
    apply Prim2SF_inj, sf_eqb_eq.
    exact (forallb_seqZ desired_one_ok 1 83 B desired_one_table ltac:(lia)).
  - rewrite sub_of_Z by lia.
    assert (2 ^ 31 < 50 * 2 ^ 26) as Hlt by done.
    rewrite floor_div; [| lia | done | lia].
    assert (0 ≤ (B - 84) / 50 < 2 ^ 53) as Hr.
    { split; [apply Z.div_pos; lia|].
      apply Z.div_lt_upper_bound; [lia|]. lia. }
    by rewrite Math_max_1_of_Z.
Qed.

(** [Math.max(1, n)] on a negative whole number. *)
Lemma Math_max_1_negative B :
  - 2 ^ 53 < B < 0 → JS.Math_max (JS.of_Z 1) (JS.of_Z B) = JS.of_Z 1.
Proof.
  intros HB. destruct B as [|p|p]; [lia|lia|].
  apply Math_max_1_low. right; left.
  assert (JS.of_Z (Z.neg p) = PrimFloat.opp (JS.of_Z (Z.pos p))) as -> by reflexivity.
  rewrite opp_spec, prim_of_Z_pos by lia.
  destruct (int_sf_form p ltac:(lia)) as (m & e & -> & _). by exists m, e.
Qed.

(** [Math.max(1, Math.floor(S))] when the whole part of [S] is [B]. *)
Lemma target_whole S B :
  JS.Math_floor S = JS.of_Z B → - 2 ^ 53 < B < 2 ^ 53 →
  JS.Math_max (JS.of_Z 1) (JS.Math_floor S) = JS.of_Z (Z.max 1 B).
Proof.
  intros -> HB. destruct (Z_lt_le_dec B 0) as [Hneg|Hpos].
  - rewrite Math_max_1_negative by lia. f_equal. lia.
  - by rewrite Math_max_1_of_Z by lia.
Qed.

(** Counting with a test is summing its indicator. *)
Lemma sum_over_count {A} (q : A → bool) (l : list A) :
  sum_over (λ a, if q a then 1 else 0) l
  = Z.of_nat (length (filter (λ a, q a = true) l)).
Proof.
  induction l as [|a l IH]; [done|].
  cbn [sum_over foldr]. fold (sum_over (λ a, if q a then 1 else 0) l). rewrite IH.
  destruct (q a) eqn:Hq.
  - rewrite filter_cons_True by done. cbn [length]. lia.
  - rewrite filter_cons_False by congruence. lia.
Qed.

Lemma sum_over_fmap {A B} (f : B → Z) (h : A → B) (l : list A) :
  sum_over f (h <$> l) = sum_over (λ a, f (h a)) l.
Proof.
  induction l as [|a l IH]; [done|].
  rewrite fmap_cons. cbn [sum_over foldr].
  fold (sum_over f (h <$> l)). fold (sum_over (λ a, f (h a)) l). by rewrite IH.
Qed.

(** On a well-formed buffer and a whole threshold the counting loop of the
    estimator counts the pixels whose gray value, by the integer rule on
    their four bytes, is under the threshold. *)
Lemma count_black_pixels data W H T :
  1 ≤ W → 1 ≤ H → 0 ≤ T < 2 ^ 53 →
  Z.of_nat (length data) = 4 * W * H → Forall is_byte data →
  count_black data W H (JS.of_Z T) = black_pixels data W H T.
Proof.
  intros HW HH HT Hlen Hb. unfold count_black, black_pixels.
  rewrite (count_loops W H
    (λ x y, PrimFloat.ltb (gray (channels data ((y * W + x) * 4))) (JS.of_Z T)))
    by lia.
  rewrite cells_row_major, sum_over_fmap by lia. cbn [fst snd].
  rewrite <- (sum_over_count
    (λ i, PrimFloat.ltb (gray (channels data ((i / W * W + i mod W) * 4))) (JS.of_Z T))).
  apply sum_over_ext_in. intros i Hi. apply elem_of_seqZ in Hi.
  pose proof (Z.mod_pos_bound i W ltac:(lia)) as Hm.
  assert (0 ≤ i / W < H) as Hd.
  { split; [apply Z.div_pos; lia|]. apply Z.div_lt_upper_bound; lia. }
  rewrite (cell_of_thresholded data W H T _ _ Hlen Hb HT Hm Hd).
  reflexivity.
Qed.
(** ** The rounding error of the last step of the estimator *)

(** Squares of whole numbers that are not negative grow with them. *)
Lemma square_le a b : 0 ≤ a ≤ b → a * a ≤ b * b.
Proof. intros. nia. Qed.

(** The whole part of a number [P / 2^u] that is within [2^j / 2^u] of
    [mx · S / 2^u], where [S / 2^u] is within [2 / 2^u] of the square root
    of [V / 2^(2u)] and that is within a relative [2^-51] of [N / Dn]:
    at most 1 away from the whole part [s] of [mx · sqrt(N / Dn)]. *)
Lemma floor_near mx S V N Dn u P j s :
  1 ≤ mx < 2 ^ 26 → 52 ≤ u → 0 ≤ j ≤ u - 2 →
  2 ≤ S → (S - 2) * (S - 2) ≤ V < (S + 2) * (S + 2) →
  0 < Dn → 0 ≤ N ≤ Dn →
  (2 ^ 51 - 1) * (V * Dn) ≤ N * 2 ^ (51 + 2 * u) ≤ (2 ^ 51 + 1) * (V * Dn) →
  0 ≤ P → P - 2 ^ j ≤ mx * S ≤ P + 2 ^ j →
  0 ≤ s → s * s * Dn ≤ mx * mx * N < (s + 1) * (s + 1) * Dn →
  s - 1 ≤ P / 2 ^ u ≤ s + 1.
Proof.
  intros Hmx Hu Hj HS HV HDn HN HR HP HPS Hs Hss.
  pose proof (pow2_pos u ltac:(lia)) as Hpu.
  pose proof (pow2_pos j ltac:(lia)) as Hpj.
  assert (2 ^ 27 ≤ 2 ^ (u - 2)) as H27 by (apply pow2_le; lia).
  assert (2 ^ j ≤ 2 ^ (u - 2)) as Hju by (apply pow2_le; lia).
  assert (2 ^ u = 4 * 2 ^ (u - 2)) as Hu4.
  { replace u with (2 + (u - 2)) at 1 by lia. by rewrite pow2_split by lia. }
  assert (2 ^ (51 + 2 * u) = 2 ^ 51 * (2 ^ u * 2 ^ u)) as Hpow.
  { replace (51 + 2 * u) with (51 + (u + u)) by lia. by rewrite !pow2_split by lia. }
  rewrite Hpow in HR.
  set (U := 2 ^ u) in *. set (Q := 2 ^ (u - 2)) in *. set (J := 2 ^ j) in *.
  change (2 ^ 26) with 67108864 in Hmx. change (2 ^ 27) with 134217728 in H27.
  change (2 ^ 51) with 2251799813685248 in HR.
  assert (s ≤ mx) as Hsmx.
  { destruct (Z_le_gt_dec s mx) as [|Hgt]; [done|]. exfalso.
    assert (mx * mx * N ≤ mx * mx * Dn) by (apply Z.mul_le_mono_nonneg_l; nia).
    assert ((mx + 1) * (mx + 1) ≤ s * s) by (apply square_le; lia).
    assert ((mx + 1) * (mx + 1) * Dn ≤ s * s * Dn) by (apply Z.mul_le_mono_nonneg_r; lia).
    nia. }
  split.
  - (* not two or more below *)
    destruct (Z_le_gt_dec (s - 1) (P / U)) as [|Hlow]; [done|]. exfalso.
    assert (P < (s - 1) * U) as HPlt.
    { assert (P / U + 1 ≤ s - 1) as Hf by lia.
      pose proof (Z.mul_succ_div_gt P U ltac:(lia)) as Hd. nia. }
    set (A := U - J - 2 * mx).
    assert (2 * Q ≤ A) as HA by (unfold A; lia).
    set (a := s * U).
    assert (mx * (S + 2) < a - A) as Hlt by (unfold a, A; nia).
    assert (0 ≤ mx * (S + 2)) as H0 by nia.
    assert (mx * (S + 2) * (mx * (S + 2)) ≤ (a - A) * (a - A)) as Hsq
      by (apply square_le; lia).
    (* mx² · N · 2^51 · U² ≤ (2^51 + 1) · mx² · V · Dn *)
    assert (mx * mx * (N * (2251799813685248 * (U * U)))
            ≤ mx * mx * ((2251799813685248 + 1) * (V * Dn))) as H1
      by (apply Z.mul_le_mono_nonneg_l; [nia | lia]).
    assert (mx * mx * V ≤ mx * (S + 2) * (mx * (S + 2))) as H2.
    { replace (mx * (S + 2) * (mx * (S + 2))) with (mx * mx * ((S + 2) * (S + 2))) by ring.
      apply Z.mul_le_mono_nonneg_l; [nia | lia]. }
    assert (s * s * Dn * (2251799813685248 * (U * U))
            ≤ mx * mx * N * (2251799813685248 * (U * U))) as H3
      by (apply Z.mul_le_mono_nonneg_r; [nia | lia]).
    assert (a * a * 2251799813685248 * Dn
            ≤ (2251799813685248 + 1) * ((a - A) * (a - A)) * Dn) as H4.
    { replace (a * a * 2251799813685248 * Dn)
        with (s * s * Dn * (2251799813685248 * (U * U))) by (unfold a; ring).
      apply Z.le_trans with (mx * mx * N * (2251799813685248 * (U * U))); [exact H3|].
      replace (mx * mx * N * (2251799813685248 * (U * U)))
        with (mx * mx * (N * (2251799813685248 * (U * U)))) by ring.
      apply Z.le_trans with (mx * mx * ((2251799813685248 + 1) * (V * Dn))); [exact H1|].
      replace (mx * mx * ((2251799813685248 + 1) * (V * Dn)))
        with ((2251799813685248 + 1) * (mx * mx * V) * Dn) by ring.
      apply Z.mul_le_mono_nonneg_r; [lia|].
      apply Z.mul_le_mono_nonneg_l; [lia|]. lia. }
    assert (a * a * 2251799813685248
            ≤ (2251799813685248 + 1) * ((a - A) * (a - A))) as H5.
    { apply (Z.mul_le_mono_pos_r _ _ Dn); [lia|]. exact H4. }
    assert (0 < a - A) as Hpos by lia.
    assert (A ≤ a) as HAa by lia.
    assert ((a - A) * (a - A) ≤ a * a - a * A) as H6.
    { assert (0 ≤ A) as HA0 by lia. clearbody a A. clear - HAa HA0.
      assert (0 ≤ A * (a - A)) by (apply Z.mul_nonneg_nonneg; lia). lia. }
    assert (2251799813685249 * (a * A) ≤ a * a) as H7 by (clearbody a A; clear - H5 H6; lia).
    assert (0 < a) as Ha by lia.
    assert (2251799813685249 * A ≤ a) as H8.
    { apply (Z.mul_le_mono_pos_r _ _ a); [lia|]. nia. }
    unfold a, U in H8. fold U in H8. rewrite Hu4 in H8.
    assert (2251799813685249 * 2 ≤ 4 * s) as H9.
    { apply (Z.mul_le_mono_pos_r _ _ Q); [lia|]. lia. }
    lia.
  - (* not two or more above *)
    destruct (Z_le_gt_dec (P / U) (s + 1)) as [|Hhigh]; [done|]. exfalso.
    assert ((s + 2) * U ≤ P) as HPge.
    { pose proof (Z.mul_div_le P U ltac:(lia)) as Hd. nia. }
    set (A := U - J - 2 * mx).
    assert (2 * Q ≤ A) as HA by (unfold A; lia).
    set (a := (s + 1) * U).
    assert (a + A ≤ mx * (S - 2)) as Hge by (unfold a, A; nia).
    assert ((a + A) * (a + A) ≤ mx * (S - 2) * (mx * (S - 2))) as Hsq
      by (apply square_le; unfold a; nia).
    assert (mx * (S - 2) * (mx * (S - 2)) ≤ mx * mx * V) as H2.
    { replace (mx * (S - 2) * (mx * (S - 2))) with (mx * mx * ((S - 2) * (S - 2))) by ring.
      apply Z.mul_le_mono_nonneg_l; [nia | lia]. }
    assert (mx * mx * ((2251799813685248 - 1) * (V * Dn))
            ≤ mx * mx * (N * (2251799813685248 * (U * U)))) as H1
      by (apply Z.mul_le_mono_nonneg_l; [nia | lia]).
    assert (mx * mx * N * (2251799813685248 * (U * U))
            < (s + 1) * (s + 1) * Dn * (2251799813685248 * (U * U))) as H3
      by (apply Z.mul_lt_mono_pos_r; [nia | lia]).
    assert ((2251799813685248 - 1) * ((a + A) * (a + A)) * Dn
            < a * a * 2251799813685248 * Dn) as H4.
    { replace (a * a * 2251799813685248 * Dn)
        with ((s + 1) * (s + 1) * Dn * (2251799813685248 * (U * U))) by (unfold a; ring).
      apply Z.le_lt_trans with (mx * mx * N * (2251799813685248 * (U * U))); [|exact H3].
      replace (mx * mx * N * (2251799813685248 * (U * U)))
        with (mx * mx * (N * (2251799813685248 * (U * U)))) by ring.
      apply Z.le_trans with (mx * mx * ((2251799813685248 - 1) * (V * Dn))); [|exact H1].
      replace (mx * mx * ((2251799813685248 - 1) * (V * Dn)))
        with ((2251799813685248 - 1) * (mx * mx * V) * Dn) by ring.
      apply Z.mul_le_mono_nonneg_r; [lia|].
      apply Z.mul_le_mono_nonneg_l; [lia|]. lia. }
    assert ((2251799813685248 - 1) * ((a + A) * (a + A)) < a * a * 2251799813685248) as H5.
    { apply (Z.mul_lt_mono_pos_r Dn); [lia|]. exact H4. }
    assert (0 < a) as Ha by (unfold a; apply Z.mul_pos_pos; lia).
    assert (a * a + 2 * (a * A) ≤ (a + A) * (a + A)) as H6
      by (pose proof (Z.square_nonneg A); clear - H; lia).
    assert (2251799813685247 * (2 * (a * A)) < a * a) as H7 by (clearbody a A; clear - H5 H6; lia).
    assert (2251799813685247 * (2 * A) < a) as H8.
    { apply (Z.mul_lt_mono_pos_r a); [lia|]. nia. }
    unfold a in H8. rewrite Hu4 in H8.
    assert (2251799813685247 * 4 < 4 * (s + 1)) as H9.
    { apply (Z.mul_lt_mono_pos_r Q); [lia|]. lia. }
    lia.
Qed.
(** A finite number above the subnormal range has a mantissa of 53 bits. *)
Lemma valid_normal x s m e :
  Prim2SF x = S754_finite s m e → -1074 < e → 2 ^ 52 ≤ Z.pos m < 2 ^ 53.
Proof.
  intros Hx He. pose proof (Prim2SF_valid x) as Hv. rewrite Hx in Hv.
  cbn [valid_binary] in Hv. unfold bounded, canonical_mantissa in Hv.
  apply andb_true_iff in Hv as [Hc _]. apply Z.eqb_eq in Hc.
  unfold fexp, SpecFloat.emin, prec, emax in Hc.
  pose proof (bit_length m) as (Hd1 & Hlo & Hhi). cbv zeta in Hd1, Hlo, Hhi.
  rewrite <- (digits2_log2 m) in Hd1, Hlo, Hhi.
  assert (Z.pos (digits2_pos m) = 53) as Hd by lia.
  rewrite Hd in Hlo, Hhi. exact (conj Hlo Hhi).
Qed.

(** The ratio under the square root against [max(1e-6, D / E)] taken
    exactly: they differ by less than a relative 2^-51.  [N / Dn] is the
    exact value. *)
Lemma ratio_near D E :
  1 ≤ D → D < E → E < 2 ^ 53 →
  let N := if D * 1000000 <? E then 1 else D in
  let Dn := if D * 1000000 <? E then 1000000 else E in
  ∃ m e,
    Prim2SF (JS.Math_max min_ratio (PrimFloat.div (JS.of_Z D) (JS.of_Z E)))
    = S754_finite false m e
    ∧ 2 ^ 52 ≤ Z.pos m < 2 ^ 53 ∧ -72 ≤ e ≤ -52 ∧ Z.pos m ≤ 2 ^ (- e)
    ∧ (2 ^ 51 - 1) * (Z.pos m * Dn) ≤ N * 2 ^ (51 - e)
    ∧ N * 2 ^ (51 - e) ≤ (2 ^ 51 + 1) * (Z.pos m * Dn).
Proof.
  intros HD HDE HE N Dn.
  assert (2 ^ 26 > 0) as H26 by done.
  destruct (div_of_Z_bounds D E ltac:(lia) ltac:(lia) ltac:(nia))
    as (mq & eq & Hq & Heq & Hmq & [Hlo Hhi] & _).
  pose proof (pow2_pos (- eq) ltac:(lia)) as Hp.
  assert (Z.pos mq ≤ 2 ^ (- eq)) as Hle.
  { assert ((Z.pos mq - 1) * E < 2 ^ (- eq) * E) as Hlt by nia.
    assert (Z.pos mq - 1 < 2 ^ (- eq)); [|lia].
    apply (Z.mul_lt_mono_pos_r E); [lia|exact Hlt]. }
  assert (eq ≤ -52) as Heq52.
  { destruct (Z_le_gt_dec eq (-52)) as [|Hgt]; [done|]. exfalso.
    assert (2 ^ (- eq) ≤ 2 ^ 51) by (apply pow2_le; lia).
    change (2 ^ 52) with 4503599627370496 in Hmq. change (2 ^ 51) with 2251799813685248 in *.
    lia. }
  assert (Prim2SF min_ratio = S754_finite false 4722366482869645 (-72)) as Hmin by reflexivity.
  set (mu := 4722366482869645%positive) in *.
  assert (2 ^ (51 - eq) = 2 ^ 51 * 2 ^ (- eq)) as Hsplit
    by (rewrite <- pow2_split by lia; f_equal; lia).
  (* the two candidates against the exact value *)
  assert (lex_compare (-72) mu eq mq = Lt →
          (2 ^ 51 - 1) * (Z.pos mq * Dn) ≤ N * 2 ^ (51 - eq)
          ∧ N * 2 ^ (51 - eq) ≤ (2 ^ 51 + 1) * (Z.pos mq * Dn)) as Hquot.
  { intros Hc. rewrite Hsplit.
    change (2 ^ 51) with 2251799813685248. change (2 ^ 52) with 4503599627370496 in Hmq.
    unfold N, Dn. destruct (Z.ltb_spec (D * 1000000) E) as [Hsmall|Hbig].
    - (* the exact value is 1e-6 *)
      assert ((Z.pos mq - 1) * 1000000 < 2 ^ (- eq)) as H1.
      { apply (Z.mul_lt_mono_pos_r E); [lia|].
        apply Z.le_lt_trans with (D * 1000000 * 2 ^ (- eq)); [|nia].
        replace ((Z.pos mq - 1) * 1000000 * E) with ((Z.pos mq - 1) * E * 1000000) by ring.
        replace (D * 1000000 * 2 ^ (- eq)) with (D * 2 ^ (- eq) * 1000000) by ring.
        apply Z.mul_le_mono_nonneg_r; lia. }
      split; [nia|].
      unfold lex_compare in Hc. destruct (Z.compare_spec (-72) eq) as [He|He|He]; [| |done].
      + subst eq.
        assert (4722366482869645 < Z.pos mq) as Hc' by (apply Z.compare_lt_iff; exact Hc).
        change (2 ^ (- -72)) with 4722366482869645213696. lia.
      + assert (2 ^ (- eq) ≤ 2 ^ 71) by (apply pow2_le; lia).
        change (2 ^ 71) with 2361183241434822606848 in *. lia.
    - (* the exact value is D / E *)
      split; nia. }
  assert (lex_compare (-72) mu eq mq ≠ Lt →
          (2 ^ 51 - 1) * (Z.pos mu * Dn) ≤ N * 2 ^ (51 - -72)
          ∧ N * 2 ^ (51 - -72) ≤ (2 ^ 51 + 1) * (Z.pos mu * Dn)) as Hmin_near.
  { intros Hc. change (2 ^ (51 - -72)) with 10633823966279326983230456482242756608.
    change (2 ^ 51) with 2251799813685248. change (2 ^ 52) with 4503599627370496 in Hmq.
    change (2 ^ 53) with 9007199254740992 in Hmq.
    unfold N, Dn, mu. destruct (Z.ltb_spec (D * 1000000) E) as [Hsmall|Hbig]; [lia|].
    split; [lia|].
    (* D / E is below the quotient's upper neighbour, which is not above 1e-6 much *)
    assert (D * 2 ^ 72 ≤ 4722366482869645 * E + E) as H1.
    { unfold lex_compare in Hc. destruct (Z.compare_spec (-72) eq) as [He|He|He]; [|done|].
      - subst eq.
        assert (Z.pos mq ≤ 4722366482869645) as Hm.
        { destruct (Z_le_gt_dec (Z.pos mq) 4722366482869645) as [|Hgt]; [done|].
          exfalso. apply Hc. apply Pos.compare_lt_iff. unfold mu. lia. }
        change (2 ^ (- -72)) with (2 ^ 72) in Hhi. nia.
      - assert (2 ^ (- eq) = 2 ^ 72 * 2 ^ (- eq - 72)) as Hs
          by (rewrite <- pow2_split by lia; f_equal; lia).
        pose proof (pow2_pos (- eq - 72) ltac:(lia)) as Hp'.
        assert (2 ≤ 2 ^ (- eq - 72)) as H2.
        { change 2 with (2 ^ 1) at 1. apply pow2_le. lia. }
        rewrite Hs in Hhi. change (2 ^ 72) with 4722366482869645213696 in *.
        assert (D * 4722366482869645213696 * 2 ≤ D * 4722366482869645213696 * 2 ^ (- eq - 72))
          by (apply Z.mul_le_mono_nonneg_l; lia).
        nia. }
    change (2 ^ 72) with 4722366482869645213696 in H1. nia. }
  unfold JS.Math_max. rewrite !is_nan_sf, !FloatAxioms.ltb_spec, Hq, Hmin. cbn [orb].
  unfold SFltb. rewrite !SFcompare_lex.
  assert (∀ y : float, Prim2SF y = S754_finite false mu (-72) →
            lex_compare (-72) mu eq mq ≠ Lt →
            ∃ m e, Prim2SF y = S754_finite false m e
              ∧ 2 ^ 52 ≤ Z.pos m < 2 ^ 53 ∧ -72 ≤ e ≤ -52 ∧ Z.pos m ≤ 2 ^ (- e)
              ∧ (2 ^ 51 - 1) * (Z.pos m * Dn) ≤ N * 2 ^ (51 - e)
              ∧ N * 2 ^ (51 - e) ≤ (2 ^ 51 + 1) * (Z.pos m * Dn)) as Hleaf.
  { intros y Hy Hc. exists mu, (-72). split; [exact Hy|].
    split; [done|]. split; [done|]. split; [done|]. exact (Hmin_near Hc). }
  destruct (lex_compare (-72) mu eq mq) eqn:Hc1.
  - destruct (lex_compare eq mq (-72) mu) eqn:Hc2.
    + change (PrimFloat.get_sign min_ratio) with false. cbv iota.
      apply Hleaf; [exact Hmin | done].
    + apply Hleaf; [exact Hmin | done].
    + change (PrimFloat.get_sign min_ratio) with false. cbv iota.
      apply Hleaf; [exact Hmin | done].
  - exists mq, eq. rewrite Hq. split; [done|]. split; [done|]. split.
    { split; [|done]. unfold lex_compare in Hc1.
      destruct (Z.compare_spec (-72) eq); [lia|lia|done]. }
    split; [done|]. exact (Hquot eq_refl).
  - destruct (lex_compare eq mq (-72) mu) eqn:Hc2.
    + change (PrimFloat.get_sign min_ratio) with false. cbv iota.
      apply Hleaf; [exact Hmin | done].
    + apply Hleaf; [exact Hmin | done].
    + change (PrimFloat.get_sign min_ratio) with false. cbv iota.
      apply Hleaf; [exact Hmin | done].
Qed.
(** The square root of a normal number of [1e-6, 1], [m · 2^e] with
    [-e + d = 2u]: in units of [2^-u] it is within 2 of the square root of
    [m · 2^d]. *)
Lemma sqrt_near x m e :
  Prim2SF x = S754_finite false m e →
  2 ^ 52 ≤ Z.pos m < 2 ^ 53 → -72 ≤ e ≤ -52 → Z.pos m ≤ 2 ^ (- e) →
  ∃ m3 e3 u d,
    Prim2SF (PrimFloat.sqrt x) = S754_finite false m3 e3
    ∧ 2 ^ 52 ≤ Z.pos m3 < 2 ^ 53
    ∧ 52 ≤ u ≤ 62 ∧ 52 ≤ d ≤ 53 ∧ - e + d = 2 * u ∧ 0 ≤ e3 + u ≤ 1
    ∧ let S := Z.pos m3 * 2 ^ (e3 + u) in
      2 ≤ S ∧ (S - 2) * (S - 2) ≤ Z.pos m * 2 ^ d < (S + 2) * (S + 2).
Proof.
  intros Hx Hm He Hle.
  set (d := if Z.even e then 52 else 53).
  set (e' := (e - d) / 2).
  assert (e = e' + e' + d ∧ 52 ≤ d ≤ 53) as [Hsplit Hd].
  { unfold e', d. destruct (Z.even e) eqn:Hev.
    - apply Z.even_spec in Hev as [k ->].
      replace ((2 * k - 52) / 2) with (k - 26) by (apply (Z.div_unique _ _ _ 0); lia). lia.
    - assert (Z.odd e = true) as Hodd by (rewrite <- Z.negb_even, Hev; done).
      apply Z.odd_spec in Hodd as [k ->].
      replace ((2 * k + 1 - 53) / 2) with (k - 26) by (apply (Z.div_unique _ _ _ 0); lia). lia. }
  set (u := - e').
  assert (52 ≤ u ≤ 62) as Hu by (unfold u; lia).
  assert (Prim2SF (PrimFloat.sqrt x) = SFsqrt prec emax (S754_finite false m e)) as Hs
    by (rewrite sqrt_spec, Hx; reflexivity).
  cbn [SFsqrt] in Hs.
  replace (SFsqrt_core_binary prec emax (Z.pos m) e)
    with (SFsqrt_core_binary prec emax (Z.pos m) (e' + e' + d)) in Hs by (by rewrite <- Hsplit).
  rewrite (sqrt_core m e' d Hm Hd ltac:(lia)) in Hs. cbv zeta in Hs.
  set (V := Z.pos m * 2 ^ d) in *.
  pose proof (pow2_pos d ltac:(lia)) as Hpd.
  assert (2 ^ 104 ≤ V) as HVlo.
  { unfold V. assert (2 ^ 52 ≤ 2 ^ d) by (apply pow2_le; lia).
    change (2 ^ 104) with (2 ^ 52 * 2 ^ 52). nia. }
  assert (V < 2 ^ 106) as HV106.
  { unfold V. assert (2 ^ d ≤ 2 ^ 53) by (apply pow2_le; lia).
    change (2 ^ 106) with (2 ^ 53 * 2 ^ 53). nia. }
  pose proof (Z.sqrtrem_spec V ltac:(lia)) as Hsr.
  destruct (Z.sqrtrem V) as [q r]. cbn [fst snd] in Hs. destruct Hsr as [Hsq Hr].
  assert (2 ^ 52 ≤ q < 2 ^ 53) as Hq.
  { change (2 ^ 104) with (4503599627370496 * 4503599627370496) in HVlo.
    change (2 ^ 106) with (9007199254740992 * 9007199254740992) in HV106.
    change (2 ^ 52) with 4503599627370496. change (2 ^ 53) with 9007199254740992.
    split; nia. }
  set (l := if r =? 0 then loc_Exact else loc_Inexact (if r <=? q then Lt else Gt)) in *.
  destruct (binary_round_aux_value false q e' l ltac:(lia))
    as (m3 & e3 & He3 & He3' & Hm3 & Hround).
  rewrite Hround in Hs. clear Hround.
  pose proof (Zdigits2_bound q 53 ltac:(lia) ltac:(lia)) as Hdq.
  set (j := e3 - e') in *.
  assert (0 ≤ j ≤ 1) as Hj
    by (unfold fexp, SpecFloat.emin, prec, emax in He3'; unfold j; lia).
  assert (2 ^ 51 ≤ q / 2 ^ j) as Hbig.
  { pose proof (pow2_pos j ltac:(lia)) as Hpj.
    apply Z.div_le_lower_bound; [lia|].
    assert (2 ^ j ≤ 2 ^ 1) as Hj1 by (apply pow2_le; lia). change (2 ^ 1) with 2 in Hj1.
    change (2 ^ 52) with (2 * 2 ^ 51) in Hq. nia. }
  destruct m3 as [|p3|p3]; [change (2 ^ 51) with 2251799813685248 in Hbig; lia| |lia].
  replace (e3 <=? emax - prec) with true in Hs
    by (symmetry; apply Z.leb_le; unfold emax, prec, j in *; lia).
  pose proof (valid_normal _ _ _ _ Hs ltac:(unfold j in *; lia)) as Hp3.
  exists p3, e3, u, d. split; [exact Hs|]. split; [exact Hp3|].
  split; [exact Hu|]. split; [exact Hd|]. split; [unfold u; lia|].
  replace (e3 + u) with j by (unfold j, u; lia).
  split; [exact Hj|]. cbv zeta. fold V.
  assert (q - 1 ≤ Z.pos p3 * 2 ^ j ≤ q + 2) as HS.
  { assert (j = 0 ∨ j = 1) as [Hj0|Hj1] by lia.
    - rewrite Hj0 in *. change (2 ^ 0) with 1 in *. rewrite Z.div_1_r in Hm3. lia.
    - rewrite Hj1 in *. change (2 ^ 1) with 2 in *.
      pose proof (Z.div_mod q 2 ltac:(lia)) as Hdm.
      pose proof (Z.mod_pos_bound q 2 ltac:(lia)) as Hmod. lia. }
  set (S := Z.pos p3 * 2 ^ j) in *.
  change (2 ^ 52) with 4503599627370496 in Hq.
  split; [lia|]. split.
  - apply Z.le_trans with (q * q); [apply square_le; lia | lia].
  - apply Z.lt_le_trans with ((q + 1) * (q + 1)); [lia | apply square_le; lia].
Qed.

(** The last step: the product with the longer side, floored.  In units
    of [2^-u] the product is [P], at most [2^j] away from [mx · S]. *)
Lemma product_near mx ls m3 e3 u :
  1 ≤ mx < 2 ^ 26 → Prim2SF ls = S754_finite false m3 e3 →
  2 ^ 52 ≤ Z.pos m3 < 2 ^ 53 → 52 ≤ u ≤ 62 → 0 ≤ e3 + u ≤ 1 →
  ∃ P j,
    0 ≤ P ∧ 0 ≤ j ≤ u - 2
    ∧ P - 2 ^ j ≤ mx * (Z.pos m3 * 2 ^ (e3 + u)) ≤ P + 2 ^ j
    ∧ JS.Math_max (JS.of_Z 1) (JS.Math_floor (PrimFloat.mul (JS.of_Z mx) ls))
      = JS.of_Z (Z.max 1 (P / 2 ^ u)).
Proof.
  intros Hmx Hls Hm3 Hu Hk3.
  assert (2 ^ 26 < 2 ^ 53) as H2653 by done.
  set (p := PrimFloat.mul (JS.of_Z mx) ls).
  assert (Prim2SF p = SF64mul (Prim2SF (JS.of_Z mx)) (Prim2SF ls)) as Hp by apply mul_spec.
  rewrite prim_of_Z, Hls in Hp by lia.
  destruct mx as [|px|px]; [lia| |lia]. cbn [nat_sf] in Hp.
  destruct (int_sf_shape px ltac:(lia)) as (mmx & kx & Hsf & Hkx & Hvx & Hrx & _).
  rewrite Hsf in Hp. unfold SF64mul in Hp.
  pose proof (pow2_pos kx ltac:(lia)) as Hpk.
  assert (27 ≤ kx) as Hkx27.
  { destruct (Z_le_gt_dec 27 kx) as [|Hlt]; [done|]. exfalso.
    assert (2 ^ kx ≤ 2 ^ 26) as Hle by (apply pow2_le; lia).
    change (2 ^ 26) with 67108864 in *. change (2 ^ 52) with (67108864 * 67108864) in Hrx.
    nia. }
  destruct (mul_normal false mmx (- kx) false m3 e3 Hrx Hm3 ltac:(lia) ltac:(lia))
    as (m4 & e4 & n & N & Hmul & Hm4 & Hn & _ & He4 & Hval & Hup & Hdn).
  rewrite Hmul in Hp. cbn [xorb] in Hp. clear Hmul.
  set (T := Z.pos mmx * Z.pos m3) in *.
  set (k3 := e3 + u) in *.
  set (c := kx - k3).
  assert (26 ≤ c ≤ 52) as Hc by (unfold c; lia).
  set (k := e4 - (- kx + e3)) in *.
  assert (n ≤ k ≤ n + 1) as Hk by (unfold k; lia).
  pose proof (pow2_pos c ltac:(lia)) as Hpc.
  pose proof (pow2_pos k3 ltac:(lia)) as Hpk3.
  pose proof (pow2_pos (k - c) ltac:(lia)) as Hpkc.
  (* the product in units of 2^-u *)
  set (P := Z.pos m4 * 2 ^ (k - c)).
  set (S := Z.pos m3 * 2 ^ k3).
  assert (P * 2 ^ c = N * 2 ^ n) as HP.
  { unfold P. rewrite <- Z.mul_assoc, <- pow2_split by lia.
    replace (k - c + c) with k by lia. exact Hval. }
  assert (Z.pos px * S * 2 ^ c = T) as HT.
  { unfold S, T. rewrite Hvx.
    replace (Z.pos px * (Z.pos m3 * 2 ^ k3) * 2 ^ c)
      with (Z.pos px * (2 ^ k3 * 2 ^ c) * Z.pos m3) by ring.
    rewrite <- pow2_split by lia. replace (k3 + c) with kx by (unfold c; lia). ring. }
  set (j := Z.max 0 (n - 1 - c)).
  assert (0 ≤ j ≤ u - 2) as Hj by (unfold j; lia).
  pose proof (pow2_pos j ltac:(lia)) as Hpj.
  assert (P - 2 ^ j ≤ Z.pos px * S ≤ P + 2 ^ j) as Hnear.
  { rewrite <- HP, <- HT in Hup, Hdn.
    destruct (Z_le_gt_dec c (n - 1)) as [Hcn|Hcn].
    - assert (2 ^ n = 2 * (2 ^ j * 2 ^ c)) as Hn2.
      { unfold j. rewrite Z.max_r by lia. rewrite <- pow2_split by lia.
        replace (n - 1 - c + c) with (n - 1) by lia.
        replace n with (1 + (n - 1)) at 1 by lia. by rewrite pow2_split by lia. }
      rewrite Hn2 in Hup, Hdn.
      split.
      + assert ((P - 2 ^ j) * 2 ^ c ≤ Z.pos px * S * 2 ^ c) as H1 by lia.
        apply (Z.mul_le_mono_pos_r _ _ (2 ^ c)); [lia | exact H1].
      + assert (Z.pos px * S * 2 ^ c ≤ (P + 2 ^ j) * 2 ^ c) as H1 by lia.
        apply (Z.mul_le_mono_pos_r _ _ (2 ^ c)); [lia | exact H1].
    - (* the error is less than a unit: the product is exact *)
      assert (2 ^ n ≤ 2 ^ c) as Hnc by (apply pow2_le; lia).
      assert (P = Z.pos px * S) as ->; [|lia].
      destruct (Z.lt_trichotomy P (Z.pos px * S)) as [Hlt|[Heq|Hgt]]; [|exact Heq|].
      + exfalso. assert ((P + 1) * 2 ^ c ≤ Z.pos px * S * 2 ^ c) as H1
          by (apply Z.mul_le_mono_nonneg_r; lia). lia.
      + exfalso. assert ((Z.pos px * S + 1) * 2 ^ c ≤ P * 2 ^ c) as H1
          by (apply Z.mul_le_mono_nonneg_r; lia). lia. }
  exists P, j. split; [unfold P; lia|]. split; [exact Hj|]. split; [exact Hnear|].
  fold p. unfold JS.Math_floor. rewrite Hp.
  assert (e4 < 0) as He4neg by (unfold k3 in *; lia).
  replace (0 <=? e4) with false by (symmetry; apply Z.leb_gt; lia).
  cbn [JS.signed].
  pose proof (pow2_pos (- e4) ltac:(lia)) as Hpe4.
  pose proof (pow2_pos u ltac:(lia)) as Hpu.
  assert (P / 2 ^ u = Z.pos m4 / 2 ^ (- e4)) as HPu.
  { unfold P. replace u with (- e4 + (k - c)) at 1 by (unfold k, c, k3; lia).
    rewrite pow2_split by lia. apply Z.div_mul_cancel_r; lia. }
  rewrite HPu.
  assert (0 ≤ Z.pos m4 / 2 ^ (- e4) < 2 ^ 53) as Hr.
  { split; [apply Z.div_pos; lia|].
    apply Z.div_lt_upper_bound; [lia|]. nia. }
  by rewrite Math_max_1_of_Z.
Qed.
(** The last step of the estimator against its exact value: the binary64
    result is a whole number at most 1 away from
    [max(1, floor(mx · sqrt(max(1e-6, D / E))))]. *)
Lemma scaled_near mx D E :
  1 ≤ mx < 2 ^ 26 → 1 ≤ D → D < E → E < 2 ^ 53 →
  ∃ m,
    JS.Math_max (JS.of_Z 1)
      (JS.Math_floor (PrimFloat.mul (JS.of_Z mx)
         (JS.Math_sqrt (JS.Math_max min_ratio (PrimFloat.div (JS.of_Z D) (JS.of_Z E))))))
    = JS.of_Z m
    ∧ Z.max 1 (spec_scaled mx D E) - 1 ≤ m ≤ Z.max 1 (spec_scaled mx D E) + 1.
Proof.
  intros Hmx HD HDE HE.
  destruct (ratio_near D E HD HDE HE) as (m & e & Hx & Hm & He & Hle & Hlo & Hhi).
  cbv zeta in Hlo, Hhi.
  set (x := JS.Math_max min_ratio (PrimFloat.div (JS.of_Z D) (JS.of_Z E))) in *.
  destruct (sqrt_near x m e Hx Hm He Hle)
    as (m3 & e3 & u & d & Hs & Hm3 & Hu & Hd & Hed & Hk3 & HS).
  cbv zeta in HS. destruct HS as (HS2 & HSlo & HShi).
  unfold JS.Math_sqrt.
  destruct (product_near mx (PrimFloat.sqrt x) m3 e3 u Hmx Hs Hm3 Hu Hk3)
    as (P & j & HP & Hj & Hnear & ->).
  exists (Z.max 1 (P / 2 ^ u)). split; [reflexivity|].
  set (N := if D * 1000000 <? E then 1 else D) in *.
  set (Dn := if D * 1000000 <? E then 1000000 else E) in *.
  set (s := spec_scaled mx D E).
  pose proof (pow2_pos d ltac:(lia)) as Hpd.
  assert (0 < Dn ∧ 0 ≤ N ≤ Dn) as [HDn HN]
    by (unfold N, Dn; destruct (D * 1000000 <? E); lia).
  assert (0 ≤ s ∧ s * s * Dn ≤ mx * mx * N < (s + 1) * (s + 1) * Dn) as [Hs0 Hss].
  { unfold s, spec_scaled, N, Dn. destruct (Z.ltb_spec (D * 1000000) E) as [Hsmall|Hbig].
    - pose proof (Z.mul_div_le mx 1000 ltac:(lia)) as H1.
      pose proof (Z.mul_succ_div_gt mx 1000 ltac:(lia)) as H2.
      assert (0 ≤ mx / 1000) as H0 by (apply Z.div_pos; lia).
      split; [exact H0|].
      assert (1000 * (mx / 1000) * (1000 * (mx / 1000)) ≤ mx * mx) as H3
        by (apply square_le; lia).
      assert (mx * mx ≤ (1000 * (mx / 1000) + 999) * (1000 * (mx / 1000) + 999)) as H4
        by (apply square_le; lia).
      split; nia.
    - set (A := mx * mx * D / E).
      assert (0 ≤ A) as HA by (apply Z.div_pos; nia).
      pose proof (Z.sqrt_spec A HA) as Hsq. cbv zeta in Hsq.
      pose proof (Z.sqrt_nonneg A) as Hq0.
      pose proof (Z.mul_div_le (mx * mx * D) E ltac:(lia)) as H1.
      pose proof (Z.mul_succ_div_gt (mx * mx * D) E ltac:(lia)) as H2.
      fold A in H1, H2. set (q := Z.sqrt A) in *.
      split; [exact Hq0|]. unfold Z.succ in Hsq. split.
      + apply Z.le_trans with (E * A); [|lia].
        rewrite (Z.mul_comm E A). apply Z.mul_le_mono_nonneg_r; lia.
      + apply Z.lt_le_trans with (E * (A + 1)); [lia|].
        rewrite (Z.mul_comm E (A + 1)). apply Z.mul_le_mono_nonneg_r; lia. }
  assert (2 ^ (51 - e) * 2 ^ d = 2 ^ (51 + 2 * u)) as Hpow
    by (rewrite <- pow2_split by lia; f_equal; lia).
  assert ((2 ^ 51 - 1) * (Z.pos m * 2 ^ d * Dn) ≤ N * 2 ^ (51 + 2 * u)
          ≤ (2 ^ 51 + 1) * (Z.pos m * 2 ^ d * Dn)) as HR.
  { rewrite <- Hpow. split.
    + replace ((2 ^ 51 - 1) * (Z.pos m * 2 ^ d * Dn))
        with ((2 ^ 51 - 1) * (Z.pos m * Dn) * 2 ^ d) by ring.
      replace (N * (2 ^ (51 - e) * 2 ^ d)) with (N * 2 ^ (51 - e) * 2 ^ d) by ring.
      apply Z.mul_le_mono_nonneg_r; lia.
    + replace ((2 ^ 51 + 1) * (Z.pos m * 2 ^ d * Dn))
        with ((2 ^ 51 + 1) * (Z.pos m * Dn) * 2 ^ d) by ring.
      replace (N * (2 ^ (51 - e) * 2 ^ d)) with (N * 2 ^ (51 - e) * 2 ^ d) by ring.
      apply Z.mul_le_mono_nonneg_r; lia. }
  pose proof (floor_near mx (Z.pos m3 * 2 ^ (e3 + u)) (Z.pos m * 2 ^ d) N Dn u P j s
                Hmx ltac:(lia) Hj HS2 (conj HSlo HShi) HDn HN HR HP Hnear Hs0 Hss)
    as [Hlow Hhigh].
  lia.
Qed.
(** C8, as amended: for a well-formed image of W × H pixels
    (1 ≤ W, H < 2^25), a whole threshold and a target size
    S = target_mb · 1024 · 1024 whose whole part is B < 2^31 bytes (B ≤ 0
    included), the estimator (the browser's [estimateMaxPxFromTargetMB] and
    the one inlined in [generate]) works on whole numbers up to the last
    step: targetBytes = max(1, B), desiredTriangles = max(1,
    floor((targetBytes − 84) / 50)), blackCount is the number of pixels
    whose gray value, by the integer rule on their four bytes, is under the
    threshold, and estimatedOriginalTriangles = max(1, blackCount · 6), all
    exact.  It returns max(W, H) when estimatedOriginalTriangles ≤
    desiredTriangles, and otherwise max(1, floor(max(W, H) · sqrt(max(1e-6,
    desiredTriangles / estimatedOriginalTriangles)))) evaluated in binary64:
    the quotient, the square root and the product are each rounded to
    nearest, 1e-6 being the binary64 number nearest to it.  The value
    returned is a whole number at most 1 away from the value of the same
    formula in exact arithmetic, and equal to it in the first case. *)
Theorem estimator_spec data W H T target_mb B :
  1 ≤ W < 2 ^ 25 → 1 ≤ H < 2 ^ 25 → 0 ≤ T < 2 ^ 53 →
  Z.of_nat (length data) = 4 * W * H → Forall is_byte data →
  JS.Math_floor (mb_to_bytes target_mb) = JS.of_Z B → - 2 ^ 53 < B < 2 ^ 31 →
  let targetBytes := Z.max 1 B in
  let desiredTriangles := Z.max 1 ((targetBytes - 84) / 50) in
  let blackCount := black_pixels data W H T in
  let estimatedOriginalTriangles := Z.max 1 (blackCount * 6) in
  let M :=
    if estimatedOriginalTriangles <=? desiredTriangles
    then JS.of_Z (Z.max W H)
    else JS.Math_max (JS.of_Z 1)
           (JS.Math_floor (PrimFloat.mul (JS.of_Z (Z.max W H))
              (JS.Math_sqrt (JS.Math_max min_ratio
                 (PrimFloat.div (JS.of_Z desiredTriangles)
                    (JS.of_Z estimatedOriginalTriangles)))))) in
  0 ≤ blackCount ≤ W * H
  ∧ estimateMaxPxFromTargetMB data W H (JS.of_Z T) target_mb = M
  ∧ generate_estimate data W H (JS.of_Z T) target_mb = M
  ∧ ∃ m, M = JS.of_Z m
         ∧ spec_estimate (Z.max W H) B blackCount - 1 ≤ m
           ≤ spec_estimate (Z.max W H) B blackCount + 1
         ∧ (estimatedOriginalTriangles ≤ desiredTriangles →
            m = spec_estimate (Z.max W H) B blackCount).
Proof.
  intros HW HH HT Hlen Hb HB HBr
    targetBytes desiredTriangles blackCount estimatedOriginalTriangles M.
  assert (2 ^ 31 < 2 ^ 53) as H3153 by done.
  assert (2 ^ 25 < 2 ^ 26) as H2526 by done.
  assert (6 * (W * H) < 2 ^ 53) as Hsize.
  { assert (W * H < 2 ^ 25 * 2 ^ 25) by nia.
    change (2 ^ 25 * 2 ^ 25) with (2 ^ 50) in *. change (2 ^ 53) with (8 * 2 ^ 50). lia. }
  pose proof (count_black_pixels data W H T ltac:(lia) ltac:(lia) HT Hlen Hb) as Hcount.
  fold blackCount in Hcount.
  pose proof (count_black_range data W H (JS.of_Z T) ltac:(lia) ltac:(lia)) as Hrange.
  rewrite Hcount in Hrange.
  assert ((targetBytes - 84) / 50 < 2 ^ 53) as Hquot
    by (apply Z.div_lt_upper_bound; unfold targetBytes; lia).
  assert (estimateMaxPxFromTargetMB data W H (JS.of_Z T) target_mb = M) as Hweb.
  { unfold estimateMaxPxFromTargetMB, budget_from_count. rewrite Hcount. cbv zeta.
    rewrite (target_whole _ B HB) by lia. fold targetBytes.
    rewrite desired_whole by (unfold targetBytes; lia). fold desiredTriangles.
    rewrite estimate_of_count by lia. fold estimatedOriginalTriangles.
    rewrite leb_of_Z by (unfold estimatedOriginalTriangles, desiredTriangles; lia).
    reflexivity. }
  split; [exact Hrange|]. split; [exact Hweb|]. split.
  { assert (generate_estimate data W H (JS.of_Z T) target_mb
            = estimateMaxPxFromTargetMB data W H (JS.of_Z T) target_mb) as -> by reflexivity.
    exact Hweb. }
  unfold M, spec_estimate. cbv zeta.
  fold targetBytes. fold desiredTriangles. fold estimatedOriginalTriangles.
  destruct (Z.leb_spec estimatedOriginalTriangles desiredTriangles) as [Hle|Hgt].
  - exists (Z.max W H). split; [reflexivity|]. split; [lia|done].
  - destruct (scaled_near (Z.max W H) desiredTriangles estimatedOriginalTriangles)
      as (m & Hm & Hnear);
      [lia | unfold desiredTriangles; lia | exact Hgt
       | unfold estimatedOriginalTriangles; lia |].
    exists m. split; [exact Hm|]. split; [exact Hnear|]. lia.
Qed.

Lemma estimator_spec_witness :
  estimateMaxPxFromTargetMB (replicate 128 100) 4 8 (JS.of_Z 128) 0x1p-10%float
  = JS.of_Z 2
  ∧ black_pixels (replicate 128 100) 4 8 128 = 32.
Proof.
  assert (Forall is_byte (replicate 128 100)) as Hb
    by (apply Forall_replicate; unfold is_byte; lia).
  destruct (estimator_spec (replicate 128 100) 4 8 128 0x1p-10%float 1024
              ltac:(lia) ltac:(lia) ltac:(lia) eq_refl Hb eq_refl ltac:(lia))
    as (_ & Hweb & _).
  split; [|reflexivity]. rewrite Hweb. vm_compute. reflexivity.
Defined.

(** C8 does not hold as it is written: for a 55 × 3 image with 121 pixels
    under the threshold and a target of 2784 bytes, desiredTriangles is 54
    and estimatedOriginalTriangles is 726, so the ratio is 9 / 121, its
    square root 3 / 11 and max(1, floor(55 · 3 / 11)) is 15; the estimators
    return 14, because the binary64 product 55 · sqrt(54 / 726) falls just
    below 15. *)
Lemma estimate_below_formula :
  JS.Math_floor (mb_to_bytes 0x1.5cp-9%float) = JS.of_Z 2784
  ∧ black_pixels speckled_image 55 3 128 = 121
  ∧ spec_estimate 55 2784 121 = 15
  ∧ estimateMaxPxFromTargetMB speckled_image 55 3 (JS.of_Z 128) 0x1.5cp-9%float
    = JS.of_Z 14
  ∧ generate_estimate speckled_image 55 3 (JS.of_Z 128) 0x1.5cp-9%float = JS.of_Z 14.
Proof.
  split; [vm_compute; reflexivity|]. split; [vm_compute; reflexivity|].
  split; [vm_compute; reflexivity|]. split; vm_compute; reflexivity.
Qed.
